(* ===== verification/_CoqProject ===== *)
-Q . S2P
Prelude.v
Frame.v
CryptoApi.v
Crypto.v
ToySsl.v
KeySchedule.v
RecordLayer.v
FlatBuf.v
ToyBuf.v
Messages.v
Status.v
License.v
Issuer.v
Session.v
MachineIdentity.v
Handshake.v
Connection.v
Transport.v
Program.v
Evp.v
ToyEvp.v
YaCrypto.v
Text.v
OrdMap.v
Nng.v
Messaging.v
NngPeer.v
P2P.v
P2PNetwork.v
ReqRep.v
Http.v
YaJson.v
YaConfig.v
YaSql.v
YaShell.v
YaLog.v
YaUtils.v
HwInfo.v
Wmi.v
Kernel.v
ToyKernel.v
UnixSocket.v
UnixTransport.v
UnixListener.v
Files.v
Config.v
KeyStore.v
Service.v
UnixService.v
UnixDemo.v
Client.v
LocalAuthorizer.v
Agreement.v
Sample.v
EndToEnd.v
Generator.v
