(* ===== verification/Prelude.v ===== *)
(** * YoAuthorize: a verification library

    YoAuthorize is a local licensing system in C++20.  A vendor issues signed
    license packages with a generator; a service on the customer's machine
    validates the license and grants sessions over a Unix socket; applications
    use an SDK that authenticates the service, obtains a session and keeps it
    alive by heartbeats, or validate a license file themselves.  This library
    models that system, component by component, and proves what makes it
    correct.  Paths below are relative to the repository.

    ** Parts and files

    - [Prelude.v]: machine integers ([Z] with [wrap w] for the reduction modulo
      [2^w]), bytes, results, executions, big-endian numbers, shared lemmas,
      tactics and hint databases.
    - [Frame.v]: [src/ya_license_protocol/src/frame.cpp], the 20-byte header
      and the frame codec.
    - [CryptoApi.v], [Crypto.v], [ToySsl.v]: [src/ya_license_crypto/src/crypto.cpp].
      [CryptoApi] is the interface the rest of the system uses, with what is
      relied on as two classes of laws: [CryptoLaws] (sizes) and
      [CryptoAvailable] (no resource failures, AEAD opens exactly what was
      sealed, signatures and key agreement work).  [Crypto.v] models the
      wrappers around OpenSSL with every check and discharges the sizes;
      [ToySsl.v] is a concrete (insecure) instance that witnesses compute with.
      Unforgeability is never a law: theorems that need it say so in a
      hypothesis about the one signature that was checked.
    - [KeySchedule.v]: [src/ya_license_crypto/src/handshake.cpp], transcript,
      session keys, record nonces.
    - [RecordLayer.v]: [src/ya_license_protocol/src/record.cpp].
    - [FlatBuf.v], [ToyBuf.v], [Messages.v]: the tables of [schema/*.fbs], the
      generated FlatBuffers code as an interface with laws and a concrete
      instance, and [envelope.cpp]/[messages.cpp] of the protocol library.
    - [Handshake.v]: [src/ya_license_protocol/src/handshake.cpp], the two state
      machines.
    - [Status.v], [License.v], [Session.v], [MachineIdentity.v]:
      [src/ya_license_core], license validation, session table, machine id.
    - [Issuer.v], [Generator.v]: [tools/license_generator], issuing a license
      and the command line with the files it creates.
    - [Transport.v]: [ITransport] of [src/ya_license_transport] as a class
      with laws, which the components above and below a connection share.
    - [Kernel.v], [ToyKernel.v]: the system calls the socket code makes, as a
      class with laws on a ghost view of the kernel, the monad and the program
      logic of code that calls it, and a concrete kernel.
    - [UnixSocket.v], [UnixTransport.v], [UnixListener.v]:
      [src/ya_license_transport/src/unix_socket.cpp]; the code, then what the
      transport and the listener guarantee.  [UnixTransport.v] shows that the
      socket is an [ITransport] and refines an abstract byte stream.
    - [Files.v], [Config.v], [KeyStore.v], [Connection.v], [Service.v]:
      [src/ya_license_service], file reading, configuration over an interface
      to the TOML parser, keys, the state machine of one client, the service.
    - [UnixService.v], [UnixDemo.v]: the service's [run], [serve] and [stop]
      over real sockets, and the concrete runs on [ToyKernel] that the socket
      theorems are applied to.
    - [Client.v], [LocalAuthorizer.v]: [src/ya_license_sdk].
    - [Agreement.v]: the local authorizer compared with the service.
    - [EndToEnd.v]: the SDK client connected to the service's connection.
    - [Program.v]: the monad and the program logic of code that acts on an
      outside world, shared by the socket code and the legacy helpers.
    - [Sample.v]: the Qt sample application, [samples/TestYoQt], on top of the
      local authorizer and an interface to Qt.
    - [Evp.v], [ToyEvp.v], [YaCrypto.v]: the cryptographic helpers of the legacy
      server, [src/ya_utils/yautils.cpp], over OpenSSL objects behind pointers.
      [YaUtils.v]: the rest of that file, the executable, the timers and the
      platform, with doubles as binary64 numbers.
    - [Nng.v], [Messaging.v]: the message modules of the legacy server
      ([bus.cpp], [publisher.cpp], [subscriber.cpp], [pipeline.cpp],
      [survey.cpp] of [src/ya_communicate/module]) over an interface to nng.
    - [NngPeer.v], [P2P.v], [P2PNetwork.v]: the peer-to-peer node of the legacy
      server, [src/ya_communicate/arch/p2p.cpp]: the code over the calls of nng
      it makes, then the node among its peers, the interleavings of its threads
      and its shutdown.  [ReqRep.v], [Http.v]: [requester.cpp], [responder.cpp]
      and [http.cpp] of the modules.
    - [Text.v], [OrdMap.v]: string streams and decimal numbers, and [std::map]
      as a sorted association list, which the legacy code uses throughout.
    - [YaJson.v], [YaConfig.v], [YaSql.v], [YaShell.v]: [src/ya_json],
      [src/ya_config], [src/ya_sql] and [src/ya_shell] over interfaces to
      nlohmann::json, toml++, SQLite and the MySQL connector.
    - [YaLog.v]: the logger, [src/ya_log], over an interface to spdlog.
    - [HwInfo.v], [Wmi.v]: [src/ya_hwinfo] on Linux (files) and on Windows
      ([WmiQuery] over an interface to COM).

    ** How code is modelled

    A function becomes a function: members of an object are a record that is
    passed and returned; an [{error, value}] aggregate is a [result]; code that
    can dereference a null pointer or has a loop without a static bound
    returns an [exec], [Done], [Undefined] or [Running] (out of the given
    iterations).  Random numbers come from a generator state that is threaded
    through.  Objects behind a mutex are modelled by sequences of whole
    operations.  Files are the answers the kernel gives ([Disk],
    [WriteOracle]).  Code that makes socket calls, or calls OpenSSL,
    nng, a database or COM, is in the monad [prog]: it passes the outside world along,
    and [wp total m k Q] says that [m] started in [k] ends (with [total], or if it
    ends) in a result and a world satisfying [Q].  Another thread can close a
    transport or a listener whenever the code takes the object's lock: there the
    model asks the kernel ([k_preempted]) whether that has happened.

    Iteration bounds: the session id loop of [Session.create] takes the number
    of draws; [create_returns] shows that one more than there are sessions is
    enough when the generator does not repeat itself.  The loop of [serve]
    takes the number of frames; [serve_returns] shows that one more than the
    client has bytes to send is enough.  [heartbeatLoop] and [runLoop] follow
    the list of wake-ups and of accepted connections they are given.  A system
    call repeated while it is interrupted, and a loop that waits for a socket,
    take a bound on their turns; the kernel law is that it interrupts a thread,
    or reports readiness without progress, at most [k_patience] times more,
    and [enough k n] (one more than the patience and the [n] bytes to be
    moved) is shown to be enough by [operations_return].  [Read_BIO] takes a
    bound on its reads; one more than the longest PEM text has bytes is enough
    ([rsa_roundtrip]).  The loops over database rows, WMI objects and the shell's
    lines take a bound; [sqlite_query_rows], [query_returns] and [shell_runs] show
    what is enough.  A thread of the peer-to-peer node is a sequence of turns;
    [node_step] interleaves them, and window events ([window_step]), in every order.

    ** What is proved

    - Codecs are exact: frames ([decodeFrame_exact]), messages
      ([message_roundtrip], [decoded_message_valid]), the transcript and the
      signed license bytes are injective; the decoders' only undefined
      behaviour is characterized ([decode_undefined_iff]).
    - The channel: records open exactly at their position, cannot be replayed,
      never reuse a nonce, and a stream of them arrives in order.
    - The handshake: invariants of both state machines under arbitrary calls,
      agreement (no impersonation, no downgrade), completion of honest runs,
      key confirmation.
    - Licenses: exactly which packages are accepted; issuing and validating
      are inverse; the generator's licenses last exactly as long as asked.
    - The service: starts only with a valid license, grants sessions only by
      right and within the limit, releases them however a client ends,
      answers heartbeats, serves only allowed peers, returns.
    - The socket: [readExact] and [writeAll] refine operations on the byte
      streams of a connection, whatever the kernel's short reads, signals and
      wake-ups; every operation returns within its deadline; descriptors are
      neither leaked nor closed twice; a closed transport stays closed.  The
      listener takes no path that another process uses and removes only the
      entry it created.  The service over sockets reads one frame per turn,
      serves allowed peers only, leaves the session table and the descriptors
      as they were, and stops when asked to.
    - The client: becomes [Valid] only by an authentic grant, stays so only by
      fresh acknowledgements, and shows features in no other state.
    - Agreement ([local_agrees_with_service]): the local authorizer and the
      service decide alike on the same license.
    - End to end ([authorized_end_to_end]): a properly configured client
      against a service with a license in force is authorized, with exactly
      the license's features.
    - The sample application: whatever the user, the timers and the network do,
      protected features follow only from a license that was validated for the
      product, the key and the machine the window named ([features_by_license]);
      its widgets always show what it holds, one request at most is in flight,
      over HTTPS ([window_consistent]); a license issued for the machine
      activates it ([issued_license_activates]).
    - Legacy helpers: every operation of [YaUtils::Crypto] is free of undefined
      behaviour and frees its OpenSSL objects, whichever call fails (with one
      leak, which is characterized); ciphers and RSA are inverse to themselves,
      signatures verify.  The message modules leave no socket and no message
      behind, deliver messages unchanged and in order, and accept exactly the
      addresses of their regular expressions.
    - The peer-to-peer node: its table stays well formed under every
      interleaving of its threads ([node_invariant]); in a network that answers,
      a query returns exactly what the peers report and a pass of the manager
      keeps exactly the peers that answer; sockets, listeners and buffers are
      balanced over its life ([node_lifetime]); [stop] returns under every
      schedule when its receivers have a message pending ([stop_returns]), and
      otherwise never ([stop_never_returns]).
    - Wrappers: JSON assignments are read back and exceptions are contained
      (except where they are not, [escapes_exactly]); configuration values are
      read back and files reloaded; the SQL drivers send exactly the statements
      they build, return the rows in order and release every handle, and when a
      statement denotes the given values; the shell ends on every input; the
      hardware readers return what the system says, and where they read past
      their data ([extract_string_exact], [rows_exact]).
    - The logger behaves as three states say ([logger_lives]), and what a second
      initialization loses ([reinit_demotes]); the path of the executable depends
      on the working directory only ([exe_path_is_under_cwd]); elapsed times are
      exact ([elapsed_since_last_start]).

    ** What is not modelled

    Of the legacy server [src/main.cpp] (a greeting), the empty
    [yacommunicate.cpp], the copy of the logger under [src/ya_log/log], which is
    not built, and the waiting of [Timer::Sleep]; the remote administration (Rust, TypeScript); the layout of
    the sample's window; console output; the erasure of temporaries that are not
    read again; and third-party libraries (OpenSSL, FlatBuffers, toml++, nng,
    spdlog, SQLite, nlohmann::json, Qt, COM), which are parameters.  The public
    classes that hold a pointer to an implementation and forward to it
    ([YaHwinfo], [P2P], [YaUtils::Crypto] and others) are identified with the
    implementation.  Data races on members that the legacy code writes from
    several threads without a lock ([m_rv] of the peer-to-peer node) are outside
    the models, in which one operation or one turn of a thread is a step. *)

From stdpp Require Export base gmap strings list.
From Stdlib Require Export ZArith Lia.

#[global] Open Scope Z_scope.
#[export] Set Warnings "-clear-no-such-hyp".

(** ** Machine integers and bytes

    A [std::uint8_t], [std::byte], [std::uint16_t], ... is a [Z]; [wrap w]
    writes out the reduction modulo [2^w] that a conversion to the [w]-bit
    unsigned type (or unsigned arithmetic at that width) performs. *)
Definition wrap (w z : Z) : Z := z mod 2 ^ w.
Definition u8 (z : Z) : Z := wrap 8 z.
Definition in_width (w z : Z) : Prop := 0 <= z < 2 ^ w.

Abbreviation bytes := (list Z).

(** A sequence of octets: what a [std::vector<std::uint8_t>] can hold. *)
Definition octets (bs : bytes) : Prop := Forall (in_width 8) bs.

(** [size()] of a container, as the unsigned number the source compares. *)
Definition zlen {A} (l : list A) : Z := Z.of_nat (length l).

(** A [std::string] is a sequence of 8-bit characters; [string_bytes] is the
    view of it that the source takes when it copies [begin()..end()] into a
    byte vector, and [str_size] is [size()]. *)
Definition char_byte (c : Ascii.ascii) : Z := Z.of_N (Ascii.N_of_ascii c).
Fixpoint string_bytes (s : string) : bytes :=
  match s with
  | EmptyString => []
  | String c s' => char_byte c :: string_bytes s'
  end.
Definition str_size (s : string) : Z := Z.of_nat (String.length s).
Definition str_empty (s : string) : bool :=
  match s with EmptyString => true | _ => false end.

(** ** Results

    The source returns [{error, value}] aggregates whose error enumerator is
    [None] exactly on success; [result E A] is that pair with the two
    alternatives separated: [Ok v] is [{None, v}], [Err e] is [{e, T{}}]. *)
Inductive result (E A : Type) : Type :=
| Ok (value : A)
| Err (error : E).
Arguments Ok {E A} value.
Arguments Err {E A} error.

Definition is_ok {E A} (r : result E A) : bool :=
  match r with Ok _ => true | Err _ => false end.

Definition ok_value {E A} (r : result E A) : option A :=
  match r with Ok v => Some v | Err _ => None end.

Lemma Ok_inj {E A} (a b : A) : @Ok E A a = Ok b → a = b.
Proof. congruence. Qed.

(** Execution of C++ code that can run into undefined behaviour (the
    dereference of a null pointer) or contains a loop without a static bound:
    [Running] is a run that has not returned within the iterations it was
    given.  Both propagate. *)
Inductive exec (A : Type) : Type :=
| Done (a : A)
| Undefined
| Running.
Arguments Done {A} a.
Arguments Undefined {A}.
Arguments Running {A}.

#[global] Instance exec_ret : MRet exec := fun _ a => Done a.
#[global] Instance exec_bind : MBind exec := fun _ _ f m =>
  match m with Done a => f a | Undefined => Undefined | Running => Running end.

Definition exec_map {A B} (f : A → B) (x : exec A) : exec B :=
  match x with Done a => Done (f a) | Undefined => Undefined | Running => Running end.

Lemma exec_bind_Done {A B} (m : exec A) (f : A → exec B) b :
  m ≫= f = Done b ↔ ∃ a, m = Done a ∧ f a = Done b.
Proof. destruct m; cbn; split; (naive_solver || by intros (? & ? & ?)). Qed.

(** Early returns on errors. *)
#[global] Instance result_bind {E} : MBind (result E) := fun _ _ f m =>
  match m with Ok a => f a | Err e => Err e end.

(** [if (!condition) return error;] and [if (!value) return error;]. *)
Definition ensure {E} (condition : bool) (error : E) : result E () :=
  if condition then Ok () else Err error.
Definition require {E A} (value : option A) (error : E) : result E A :=
  match value with Some a => Ok a | None => Err error end.

Lemma result_bind_Ok {E A B} (m : result E A) (f : A → result E B) b :
  m ≫= f = Ok b ↔ ∃ a, m = Ok a ∧ f a = Ok b.
Proof. destruct m; cbn; split; (naive_solver || by intros (? & ? & ?)). Qed.

Lemma ensure_Ok {E} (b : bool) (e : E) u : ensure b e = Ok u ↔ b = true.
Proof. destruct b, u; cbn; naive_solver. Qed.

Lemma require_Ok {E A} (o : option A) (e : E) a : require o e = Ok a ↔ o = Some a.
Proof. destruct o; cbn; naive_solver. Qed.

(** ** Tactics *)

(** Go through the early returns of a result that is [Ok]. *)
Ltac ok_steps H :=
  repeat match type of H with
  | (_ ≫= _) = Ok _ =>
      apply result_bind_Ok in H;
      let x := fresh "x" in let Hx := fresh "Hstep" in
      destruct H as (x & Hx & H);
      try first [apply ensure_Ok in Hx | apply require_Ok in Hx]
  end.

(** Case analysis on the scrutinee of the innermost [match]/[if]. *)
Ltac inner_scrutinee t :=
  lazymatch t with
  | context [match ?x with _ => _ end] => inner_scrutinee x
  | _ => t
  end.

Ltac split_match :=
  match goal with
  | |- context [match ?x with _ => _ end] =>
      let y := inner_scrutinee x in destruct y eqn:?
  end.

Ltac split_match_in H :=
  match type of H with
  | context [match ?x with _ => _ end] =>
      let y := inner_scrutinee x in destruct y eqn:?
  end.

Ltac invert H := inversion H; subst; clear H.

(** Turn boolean tests in the context into propositions. *)
Ltac reflect_bools :=
  repeat match goal with
  | H : _ && _ = true |- _ => apply andb_true_iff in H; destruct H
  | H : _ || _ = false |- _ => apply orb_false_iff in H; destruct H
  | H : negb _ = true |- _ => apply negb_true_iff in H
  | H : negb _ = false |- _ => apply negb_false_iff in H
  | H : bool_decide _ = true |- _ => apply bool_decide_eq_true in H
  | H : bool_decide _ = false |- _ => apply bool_decide_eq_false in H
  | H : (_ =? _) = true |- _ => apply Z.eqb_eq in H
  | H : (_ =? _) = false |- _ => apply Z.eqb_neq in H
  | H : (_ <? _) = true |- _ => apply Z.ltb_lt in H
  | H : (_ <? _) = false |- _ => apply Z.ltb_ge in H
  | H : (_ <=? _) = true |- _ => apply Z.leb_le in H
  | H : (_ <=? _) = false |- _ => apply Z.leb_gt in H
  end.

(** ** Hint databases *)
Create HintDb width.
Create Rewrite HintDb sizes.

Lemma wrap_small (w z : Z) : in_width w z → wrap w z = z.
Proof. intros H. by apply Z.mod_small. Qed.

Lemma wrap_in_width (w z : Z) : 0 <= w → in_width w (wrap w z).
Proof. intros Hw. apply Z.mod_pos_bound, Z.pow_pos_nonneg; lia. Qed.

Lemma u8_in_width (z : Z) : in_width 8 (u8 z).
Proof. apply wrap_in_width; lia. Qed.

#[export] Hint Resolve u8_in_width wrap_in_width : width.

Lemma zlen_nonneg {A} (l : list A) : 0 <= zlen l.
Proof. unfold zlen; lia. Qed.

Lemma zlen_app {A} (l k : list A) : zlen (l ++ k) = zlen l + zlen k.
Proof. unfold zlen. rewrite length_app. lia. Qed.

Lemma zlen_cons {A} (x : A) (l : list A) : zlen (x :: l) = 1 + zlen l.
Proof. unfold zlen. cbn. lia. Qed.

Lemma zlen_nil {A} : zlen (@nil A) = 0.
Proof. reflexivity. Qed.

Lemma zlen_zero {A} (l : list A) : zlen l = 0 → l = [].
Proof. destruct l; [done|]. unfold zlen. cbn. lia. Qed.

#[export] Hint Rewrite @zlen_app @zlen_cons @zlen_nil : sizes.

Lemma octets_app (a b : bytes) : octets (a ++ b) ↔ octets a ∧ octets b.
Proof. apply Forall_app. Qed.

(** Octets of a concrete sequence, by computation. *)
Lemma small_octets (bs : bytes) : forallb (fun b => (0 <=? b) && (b <? 256)) bs = true → octets bs.
Proof.
  intros H. apply Forall_forall. intros b Hb%list_elem_of_In.
  rewrite forallb_forall in H. apply H in Hb. reflect_bools. unfold in_width. lia.
Qed.

Lemma string_bytes_octets (s : string) : octets (string_bytes s).
Proof.
  induction s as [|c s IH]; constructor; [|done].
  unfold char_byte, in_width.
  pose proof (Ascii.N_ascii_bounded c). change (2 ^ 8) with 256. lia.
Qed.

Lemma string_bytes_length (s : string) : length (string_bytes s) = String.length s.
Proof. induction s; cbn; congruence. Qed.

Lemma zlen_string_bytes (s : string) : zlen (string_bytes s) = str_size s.
Proof. unfold zlen, str_size. by rewrite string_bytes_length. Qed.

#[export] Hint Rewrite zlen_string_bytes : sizes.
#[export] Hint Resolve string_bytes_octets : width.

Lemma string_bytes_inj (s t : string) : string_bytes s = string_bytes t → s = t.
Proof.
  revert t. induction s as [|c s IH]; intros [|d t]; cbn; try done.
  intros [= Hc Hs]. f_equal; [|auto].
  unfold char_byte in Hc. apply N2Z.inj in Hc.
  by rewrite <- (Ascii.ascii_N_embedding c), <- (Ascii.ascii_N_embedding d), Hc.
Qed.

Lemma str_empty_spec (s : string) : str_empty s = true ↔ s = "".
Proof. by destruct s. Qed.

Lemma str_nonempty_size (s : string) : str_empty s = false ↔ 0 < str_size s.
Proof. destruct s; unfold str_size; cbn; split; (done || lia). Qed.

Lemma str_size_nonempty (s : string) : 0 < str_size s → s ≠ "".
Proof. intros H ->. by cbn in H. Qed.

(** ** Big-endian fields

    [be_split n v] is the list of the [n] low octets of [v], most significant
    first; [be_join] reads such a list back.  Every fixed-width field of the
    frame header, of the signature inputs and of the nonces is one of these. *)
Fixpoint be_split (n : nat) (v : Z) : bytes :=
  match n with
  | O => []
  | S m => u8 (Z.shiftr v (8 * Z.of_nat m)) :: be_split m v
  end.

Definition be_join (bs : bytes) : Z := fold_left (fun a b => a * 256 + b) bs 0.

Lemma length_be_split (n : nat) (v : Z) : length (be_split n v) = n.
Proof. induction n; cbn; congruence. Qed.

Lemma zlen_be_split (n : nat) (v : Z) : zlen (be_split n v) = Z.of_nat n.
Proof. unfold zlen. by rewrite length_be_split. Qed.
#[export] Hint Rewrite zlen_be_split : sizes.

Lemma be_split_octets (n : nat) (v : Z) : octets (be_split n v).
Proof. induction n; constructor; auto with width. Qed.
#[export] Hint Resolve be_split_octets : width.

Lemma fold_be (bs : bytes) (a : Z) :
  fold_left (fun a b => a * 256 + b) bs a = a * 2 ^ (8 * zlen bs) + be_join bs.
Proof.
  unfold be_join. revert a. induction bs as [|b bs IH]; intros a.
  - rewrite (zlen_nil (A:=Z)). cbn. lia.
  - cbn [fold_left]. rewrite (IH (a * 256 + b)), (IH (0 * 256 + b)), zlen_cons.
    replace (8 * (1 + zlen bs)) with (8 + 8 * zlen bs) by lia.
    rewrite Z.pow_add_r by (pose proof (zlen_nonneg bs); lia).
    change (2 ^ 8) with 256. ring.
Qed.

Lemma be_join_cons (b : Z) (bs : bytes) :
  be_join (b :: bs) = b * 2 ^ (8 * zlen bs) + be_join bs.
Proof. unfold be_join at 1. cbn [fold_left]. by rewrite fold_be. Qed.

Lemma be_join_bound (bs : bytes) : octets bs → in_width (8 * zlen bs) (be_join bs).
Proof.
  unfold in_width. induction 1 as [|b bs Hb _ IH].
  - rewrite (zlen_nil (A:=Z)). cbn. lia.
  - rewrite be_join_cons, zlen_cons.
    replace (8 * (1 + zlen bs)) with (8 + 8 * zlen bs) by lia.
    pose proof (zlen_nonneg bs).
    rewrite Z.pow_add_r by lia. unfold in_width in Hb.
    change (2 ^ 8) with 256 in *.
    assert (0 < 2 ^ (8 * zlen bs)) by (apply Z.pow_pos_nonneg; lia). nia.
Qed.

Lemma be_join_split (n : nat) (v : Z) :
  be_join (be_split n v) = wrap (8 * Z.of_nat n) v.
Proof.
  unfold wrap. induction n as [|n IH].
  - cbn. by rewrite Z.mod_1_r.
  - cbn [be_split]. rewrite be_join_cons, zlen_be_split, IH.
    unfold u8, wrap. rewrite Z.shiftr_div_pow2 by lia.
    replace (8 * Z.of_nat (S n)) with (8 * Z.of_nat n + 8) by lia.
    rewrite Z.pow_add_r by lia.
    rewrite Z.rem_mul_r; [ring | |]; apply Z.pow_nonzero || apply Z.pow_pos_nonneg; lia.
Qed.

Lemma be_join_split_small (n : nat) (v : Z) :
  in_width (8 * Z.of_nat n) v → be_join (be_split n v) = v.
Proof. intros H. rewrite be_join_split. by apply wrap_small. Qed.

Lemma be_split_add_high (n : nat) (k v : Z) :
  be_split n (k * 2 ^ (8 * Z.of_nat n) + v) = be_split n v.
Proof.
  assert (∀ m, (m ≤ n)%nat → be_split m (k * 2 ^ (8 * Z.of_nat n) + v) = be_split m v)
    as H; [|by apply H].
  induction m as [|m IH]; intros Hm; [done|].
  cbn [be_split]. rewrite IH by lia. f_equal.
  unfold u8, wrap. rewrite !Z.shiftr_div_pow2 by lia.
  replace (8 * Z.of_nat n) with
    (8 * Z.of_nat (n - S m) + 8 + 8 * Z.of_nat m) by lia.
  rewrite !Z.pow_add_r by lia.
  rewrite Z.mul_assoc, Z.div_add_l by (apply Z.pow_nonzero; lia).
  rewrite Z.mul_assoc, Z.add_comm. apply Z.mod_add. lia.
Qed.

Lemma be_split_join (bs : bytes) : octets bs → be_split (length bs) (be_join bs) = bs.
Proof.
  induction 1 as [|b bs Hb Hbs IH]; [done|].
  cbn [length be_split]. rewrite be_join_cons.
  change (8 * zlen bs) with (8 * Z.of_nat (length bs)).
  rewrite be_split_add_high, IH. f_equal.
  unfold u8. rewrite Z.shiftr_div_pow2 by lia.
  pose proof (be_join_bound bs Hbs) as Hj.
  unfold in_width, zlen in *.
  rewrite Z.div_add_l by (apply Z.pow_nonzero; lia).
  rewrite (Z.div_small (be_join bs)) by lia. rewrite Z.add_0_r. by apply wrap_small.
Qed.

Lemma be_split_inj (n : nat) (v w : Z) :
  in_width (8 * Z.of_nat n) v → in_width (8 * Z.of_nat n) w →
  be_split n v = be_split n w → v = w.
Proof.
  intros Hv Hw E. apply (f_equal be_join) in E.
  by rewrite !be_join_split_small in E.
Qed.

(** Appending to equal-length prefixes is injective: the tool for the
    unambiguity of the concatenated encodings. *)
Lemma app_inj_len {A} (a b c d : list A) :
  length a = length c → a ++ b = c ++ d → a = c ∧ b = d.
Proof. intros Hl E. by apply app_inj_1 in E. Qed.

Arguments be_split : simpl never.
Arguments be_join : simpl never.

(** ** Buffers *)

(** A zero-initialised [std::array] or [std::vector] of [n] bytes. *)
Definition zeroed (n : Z) : bytes := replicate (Z.to_nat n) 0.

(** The effect of a callee that stores [data] at [buf.data() + offset]. *)
Definition write_at (buf : bytes) (offset : Z) (data : bytes) : bytes :=
  take (Z.to_nat offset) buf ++ data
    ++ drop (Z.to_nat offset + length data) buf.

Definition resize (n : Z) (buf : bytes) : bytes :=
  take (Z.to_nat n) buf ++ replicate (Z.to_nat n - length buf) 0.

Lemma zlen_zeroed n : 0 <= n → zlen (zeroed n) = n.
Proof. intros Hn. unfold zlen, zeroed. rewrite length_replicate. lia. Qed.

Lemma write_at_front buf data : write_at buf 0 data = data ++ drop (length data) buf.
Proof. reflexivity. Qed.

Lemma write_at_whole buf data : length buf = length data → write_at buf 0 data = data.
Proof.
  intros Hl. rewrite write_at_front, drop_ge by lia. apply app_nil_r.
Qed.

Lemma write_at_nil buf off :
  (Z.to_nat off ≤ length buf)%nat → write_at buf off [] = buf.
Proof. intros Hl. unfold write_at. cbn. rewrite Nat.add_0_r. apply take_drop. Qed.

Lemma write_at_tail buf x y :
  length buf = (length x + length y)%nat →
  write_at (write_at buf 0 x) (zlen x) y = x ++ y.
Proof.
  intros Hl. rewrite write_at_front. unfold write_at, zlen.
  rewrite Nat2Z.id, take_app_length.
  rewrite (drop_ge (x ++ _)) by (rewrite length_app, length_drop; lia).
  by rewrite app_nil_r.
Qed.

Lemma resize_whole buf : resize (zlen buf) buf = buf.
Proof.
  unfold resize, zlen. rewrite Nat2Z.id, take_ge, Nat.sub_diag by lia. apply app_nil_r.
Qed.

Lemma write_zeroed n data : zlen data = n → write_at (zeroed n) 0 data = data.
Proof.
  intros <-. apply write_at_whole. unfold zeroed, zlen.
  rewrite length_replicate. lia.
Qed.

(** Two stores one after the other, the rest cut off. *)
Lemma resize_stores buf x y :
  (length x + length y ≤ length buf)%nat →
  resize (zlen x + zlen y) (write_at (write_at buf 0 x) (zlen x) y) = x ++ y.
Proof.
  intros Hl. rewrite write_at_front. unfold write_at, resize, zlen.
  rewrite Nat2Z.id, take_app_length, <- Nat2Z.inj_add, Nat2Z.id, app_assoc, <- length_app.
  rewrite take_app_length.
  replace (_ - _)%nat with 0%nat by (rewrite !length_app; lia). apply app_nil_r.
Qed.

Lemma zlen_write_at buf off data :
  0 <= off → off + zlen data <= zlen buf → zlen (write_at buf off data) = zlen buf.
Proof.
  unfold write_at, zlen. intros. rewrite !length_app, length_take, length_drop. lia.
Qed.

(** One store into a buffer that is then cut to its size. *)
Lemma resize_store buf x :
  zlen x <= zlen buf → resize (zlen x) (write_at buf 0 x) = x.
Proof.
  intros Hl. rewrite <- (app_nil_r x) at 3. rewrite <- resize_stores with (buf := buf)
    by (unfold zlen in *; cbn; lia).
  rewrite (zlen_nil (A:=Z)), Z.add_0_r, write_at_nil; [done|].
  unfold zlen in *. rewrite write_at_front, length_app, length_drop. lia.
Qed.

Lemma zlen_resize n buf : 0 <= n → zlen (resize n buf) = n.
Proof.
  intros. unfold resize, zlen. rewrite length_app, length_take, length_replicate. lia.
Qed.

(** ** C strings *)

(** What a callee sees of [c_str()]. *)
Fixpoint until_nul (bs : bytes) : bytes :=
  match bs with
  | [] => []
  | b :: bs' => if b =? 0 then [] else b :: until_nul bs'
  end.
