(* ===== verification/Frame.v ===== *)
(** * Frame: the 20-byte frame header of the wire protocol

    Models [src/ya_license_protocol/{include/.../frame.h,src/frame.cpp}]: the
    big-endian field writers and readers, [encodeHeader], [decodeHeader] and
    [decodeFrame].  The theorems show that the decoder accepts exactly the
    encodings of admissible headers followed by a payload of the announced
    length, and which error every other input is rejected with. *)

From S2P Require Import Prelude.

(** ** Constants and data *)

Definition kFrameHeaderSize : Z := 20.
Definition kFrameVersion : Z := 1.
Definition kEncryptedFlag : Z := 1.
Definition kDefaultMaxPayloadSize : Z := 1024 * 1024.

Record FrameHeader := mkFrameHeader {
  fh_version : Z;        (* std::uint16_t *)
  fh_flags : Z;          (* std::uint16_t *)
  fh_sequence : Z;       (* std::uint64_t *)
  fh_payload_size : Z;   (* std::uint32_t *)
}.

#[global] Instance FrameHeader_eq_dec : EqDecision FrameHeader.
Proof. solve_decision. Defined.

Module FrameError.
Inductive FrameError :=
| InsufficientData
| InvalidMagic
| UnsupportedVersion
| UnknownFlags
| EmptyPayload
| PayloadTooLarge
| LengthMismatch.
End FrameError.
Abbreviation FrameError := FrameError.FrameError.

#[global] Instance FrameError_eq_dec : EqDecision FrameError.
Proof. solve_decision. Defined.

(** A successful [FrameDecodeResult]; [decodeHeader] leaves [payload] empty. *)
Record FrameDecoded := mkFrameDecoded {
  fd_header : FrameHeader;
  fd_payload : bytes;
}.

(** ** Field writers and readers *)

(** The four characters of ['YAL1']. *)
Definition kMagic : bytes := [89; 65; 76; 49].

Definition writeU16 (value : Z) : bytes := [u8 (Z.shiftr value 8); u8 value].

Definition writeU32 (value : Z) : bytes :=
  map (fun i => u8 (Z.shiftr value (24 - 8 * i))) [0; 1; 2; 3].

Definition writeU64 (value : Z) : bytes :=
  map (fun i => u8 (Z.shiftr value (56 - 8 * i))) [0; 1; 2; 3; 4; 5; 6; 7].

Definition readU16 (bs : bytes) : Z :=
  wrap 16 (Z.lor (Z.shiftl (nth 0 bs 0) 8) (nth 1 bs 0)).

Definition readU32 (bs : bytes) : Z :=
  fold_left (fun value byte => Z.lor (wrap 32 (Z.shiftl value 8)) byte)
    (take 4 bs) 0.

Definition readU64 (bs : bytes) : Z :=
  fold_left (fun value byte => Z.lor (wrap 64 (Z.shiftl value 8)) byte)
    (take 8 bs) 0.

(** [bytes.subspan<offset, count>()] *)
Definition subspan (offset count : nat) (bs : bytes) : bytes :=
  take count (drop offset bs).

(** ** The codec *)

Definition encodeHeader (header : FrameHeader) : bytes :=
  kMagic ++ writeU16 (fh_version header) ++ writeU16 (fh_flags header)
    ++ writeU64 (fh_sequence header) ++ writeU32 (fh_payload_size header).

Definition decodeHeader (bs : bytes) (max_payload_size : Z)
  : result FrameError FrameDecoded :=
  if zlen bs <? kFrameHeaderSize then Err FrameError.InsufficientData
  else if negb (bool_decide (take 4 bs = kMagic)) then Err FrameError.InvalidMagic
  else
    let header :=
      {| fh_version := readU16 (subspan 4 2 bs);
         fh_flags := readU16 (subspan 6 2 bs);
         fh_sequence := readU64 (subspan 8 8 bs);
         fh_payload_size := readU32 (subspan 16 4 bs) |} in
    if negb (fh_version header =? kFrameVersion) then Err FrameError.UnsupportedVersion
    else if negb (Z.land (fh_flags header) (Z.lnot kEncryptedFlag) =? 0)
    then Err FrameError.UnknownFlags
    else if fh_payload_size header =? 0 then Err FrameError.EmptyPayload
    else if max_payload_size <? fh_payload_size header then Err FrameError.PayloadTooLarge
    else Ok {| fd_header := header; fd_payload := [] |}.

Definition decodeFrame (bs : bytes) (max_payload_size : Z)
  : result FrameError FrameDecoded :=
  match decodeHeader bs max_payload_size with
  | Err e => Err e
  | Ok d =>
      if negb (zlen bs =? kFrameHeaderSize + fh_payload_size (fd_header d))
      then Err FrameError.LengthMismatch
      else Ok {| fd_header := fd_header d; fd_payload := drop 20 bs |}
  end.

(** ** The fields are big-endian *)

Lemma writeU16_be v : writeU16 v = be_split 2 v.
Proof. reflexivity. Qed.

Lemma writeU32_be v : writeU32 v = be_split 4 v.
Proof. reflexivity. Qed.

Lemma writeU64_be v : writeU64 v = be_split 8 v.
Proof. reflexivity. Qed.

Lemma encodeHeader_be h :
  encodeHeader h =
    kMagic ++ be_split 2 (fh_version h) ++ be_split 2 (fh_flags h)
      ++ be_split 8 (fh_sequence h) ++ be_split 4 (fh_payload_size h).
Proof. reflexivity. Qed.

Lemma lor_shiftl_octet (a b : Z) : in_width 8 b → Z.lor (Z.shiftl a 8) b = a * 256 + b.
Proof.
  intros Hb. unfold in_width in Hb.
  assert (Z.land (Z.shiftl a 8) b = 0) as Hdisj.
  { apply Z.bits_inj'. intros n Hn. rewrite Z.land_spec, Z.bits_0.
    destruct (Z.lt_ge_cases n 8).
    - by rewrite Z.shiftl_spec_low.
    - rewrite <- (Z.mod_small b (2 ^ 8)) by lia.
      by rewrite Z.mod_pow2_bits_high, andb_false_r. }
  rewrite <- Z.lxor_lor, <- Z.add_nocarry_lxor by done.
  by rewrite Z.shiftl_mul_pow2.
Qed.

(** The reader's accumulator never wraps while it holds fewer octets than
    its width. *)
Lemma read_fold_join (w : Z) (bs : bytes) (a : Z) :
  octets bs → 0 <= a → a * 2 ^ (8 * zlen bs) < 2 ^ w - 2 ^ (8 * zlen bs) + 1 →
  fold_left (fun v b => Z.lor (wrap w (Z.shiftl v 8)) b) bs a
  = fold_left (fun v b => v * 256 + b) bs a.
Proof.
  revert a. induction bs as [|b bs IH]; intros a Hbs Ha Hw; [done|].
  apply Forall_cons in Hbs as [Hb Hbs]. cbn [fold_left].
  rewrite zlen_cons in Hw.
  replace (8 * (1 + zlen bs)) with (8 + 8 * zlen bs) in Hw by lia.
  pose proof (zlen_nonneg bs).
  rewrite Z.pow_add_r in Hw by lia. change (2 ^ 8) with 256 in Hw.
  assert (0 < 2 ^ (8 * zlen bs)) by (apply Z.pow_pos_nonneg; lia).
  unfold in_width in Hb. change (2 ^ 8) with 256 in Hb.
  rewrite wrap_small.
  - rewrite lor_shiftl_octet by done. apply IH; [done|lia|nia].
  - unfold in_width. rewrite Z.shiftl_mul_pow2 by lia.
    change (2 ^ 8) with 256. nia.
Qed.

Lemma read_fold_be (n : nat) (bs : bytes) :
  octets bs → length bs = n →
  fold_left (fun v b => Z.lor (wrap (8 * Z.of_nat n) (Z.shiftl v 8)) b) bs 0
  = be_join bs.
Proof.
  intros Hbs Hn. unfold be_join. apply read_fold_join; [done|lia|].
  unfold zlen. rewrite Hn.
  assert (0 < 2 ^ (8 * Z.of_nat n)) by (apply Z.pow_pos_nonneg; lia). lia.
Qed.

Lemma readU16_be bs : octets bs → length bs = 2%nat → readU16 bs = be_join bs.
Proof.
  intros Hbs Hl. destruct bs as [|a [|b [|]]]; try done.
  apply Forall_cons in Hbs as [Ha Hbs]. apply Forall_cons in Hbs as [Hb _].
  unfold readU16, be_join. cbn [nth fold_left].
  rewrite lor_shiftl_octet by done. unfold in_width in *.
  rewrite wrap_small; [lia|]. unfold in_width.
  change (2 ^ 8) with 256 in *. change (2 ^ 16) with 65536. lia.
Qed.

Lemma readU32_be bs : octets bs → length bs = 4%nat → readU32 bs = be_join bs.
Proof.
  intros Hbs Hl. unfold readU32. rewrite take_ge by lia.
  by apply (read_fold_be 4).
Qed.

Lemma readU64_be bs : octets bs → length bs = 8%nat → readU64 bs = be_join bs.
Proof.
  intros Hbs Hl. unfold readU64. rewrite take_ge by lia.
  by apply (read_fold_be 8).
Qed.

(** ** Slices of an encoded header *)

Lemma zlen_encodeHeader h : zlen (encodeHeader h) = kFrameHeaderSize.
Proof. reflexivity. Qed.

Lemma length_encodeHeader h : length (encodeHeader h) = 20%nat.
Proof. reflexivity. Qed.

#[export] Hint Rewrite zlen_encodeHeader : sizes.

Lemma kMagic_octets : octets kMagic.
Proof.
  unfold octets, kMagic.
  repeat (apply Forall_cons; split; [unfold in_width; lia|]). apply Forall_nil_2.
Qed.

Lemma encodeHeader_octets h : octets (encodeHeader h).
Proof.
  rewrite encodeHeader_be, !octets_app.
  auto 10 using kMagic_octets with width.
Qed.
#[export] Hint Resolve encodeHeader_octets : width.

Lemma subspan_octets o c bs : octets bs → octets (subspan o c bs).
Proof. intros H. by apply Forall_take, Forall_drop. Qed.

Lemma length_subspan o c bs :
  (o + c ≤ length bs)%nat → length (subspan o c bs) = c.
Proof. intros H. unfold subspan. rewrite length_take, length_drop. lia. Qed.

Lemma be_join_subspan_width o c bs :
  octets bs → (o + c ≤ length bs)%nat →
  in_width (8 * Z.of_nat c) (be_join (subspan o c bs)).
Proof.
  intros Hb Hl. pose proof (be_join_bound _ (subspan_octets o c bs Hb)) as H.
  unfold zlen in H. by rewrite length_subspan in H.
Qed.

(** A 20-byte prefix is its magic, four fields and nothing else. *)
Lemma header_prefix_split bs :
  (20 ≤ length bs)%nat →
  bs = take 4 bs ++ subspan 4 2 bs ++ subspan 6 2 bs ++ subspan 8 8 bs
         ++ subspan 16 4 bs ++ drop 20 bs.
Proof.
  intros Hl. unfold subspan.
  do 20 (destruct bs as [|? bs]; [cbn in Hl; lia|]). reflexivity.
Qed.

(** ** Admissible headers *)

Definition admissible (max_payload_size : Z) (h : FrameHeader) : Prop :=
  fh_version h = kFrameVersion
  ∧ (fh_flags h = 0 ∨ fh_flags h = kEncryptedFlag)
  ∧ in_width 64 (fh_sequence h)
  ∧ in_width 32 (fh_payload_size h)
  ∧ 0 < fh_payload_size h <= max_payload_size.

Lemma flags_known (f : Z) :
  0 <= f → Z.land f (Z.lnot kEncryptedFlag) = 0 ↔ f = 0 ∨ f = kEncryptedFlag.
Proof.
  intros Hf. unfold kEncryptedFlag. change (Z.lnot 1) with (-2). split.
  - intros H. assert (Z.shiftr f 1 = 0) as Hs.
    { apply Z.bits_inj'. intros n Hn. rewrite Z.bits_0, Z.shiftr_spec by lia.
      apply (f_equal (fun z => Z.testbit z (n + 1))) in H.
      rewrite Z.land_spec, Z.bits_0 in H.
      change (-2) with (Z.lnot 1) in H. rewrite Z.lnot_spec in H by lia.
      rewrite (Z.bits_above_log2 1 (n + 1)) in H by (cbn; lia).
      by rewrite andb_true_r in H. }
    rewrite Z.shiftr_div_pow2 in Hs by lia. change (2 ^ 1) with 2 in Hs.
    apply Z.div_small_iff in Hs; lia.
  - by intros [-> | ->].
Qed.

(** The header fields a decoder reads from [bs], as big-endian numbers. *)
Definition wire_header (bs : bytes) : FrameHeader :=
  {| fh_version := be_join (subspan 4 2 bs);
     fh_flags := be_join (subspan 6 2 bs);
     fh_sequence := be_join (subspan 8 8 bs);
     fh_payload_size := be_join (subspan 16 4 bs) |}.

Lemma wire_header_read bs :
  octets bs → (20 ≤ length bs)%nat →
  {| fh_version := readU16 (subspan 4 2 bs);
     fh_flags := readU16 (subspan 6 2 bs);
     fh_sequence := readU64 (subspan 8 8 bs);
     fh_payload_size := readU32 (subspan 16 4 bs) |} = wire_header bs.
Proof.
  intros Hb Hl. unfold wire_header.
  rewrite !readU16_be, readU64_be, readU32_be;
    auto using subspan_octets; apply length_subspan; lia.
Qed.

Lemma encode_wire_header bs :
  octets bs → (20 ≤ length bs)%nat → take 4 bs = kMagic →
  encodeHeader (wire_header bs) = take 20 bs.
Proof.
  intros Hb Hl Hm. rewrite encodeHeader_be. unfold wire_header.
  cbn [fh_version fh_flags fh_sequence fh_payload_size].
  assert (∀ o c, (o + c ≤ length bs)%nat →
            be_split c (be_join (subspan o c bs)) = subspan o c bs) as Hs.
  { intros o c Hoc. rewrite <- (length_subspan o c bs) at 1 by done.
    apply be_split_join, subspan_octets, Hb. }
  rewrite !Hs by lia. rewrite <- Hm.
  do 20 (destruct bs as [|? bs]; [cbn in Hl; lia|]). reflexivity.
Qed.

Lemma decodeHeader_Ok bs max d :
  octets bs →
  decodeHeader bs max = Ok d ↔
  (20 ≤ length bs)%nat ∧ take 4 bs = kMagic ∧ admissible max (wire_header bs)
  ∧ d = {| fd_header := wire_header bs; fd_payload := [] |}.
Proof.
  intros Hb. unfold decodeHeader, kFrameHeaderSize, zlen, admissible.
  destruct (Z.ltb_spec (Z.of_nat (length bs)) 20) as [Hl|Hl];
    [split; [done|intros [? _]; lia]|].
  rewrite wire_header_read by (done || lia). cbv zeta.
  assert (in_width 16 (fh_flags (wire_header bs))
          ∧ in_width 64 (fh_sequence (wire_header bs))
          ∧ in_width 32 (fh_payload_size (wire_header bs))) as (Hf & Hs & Hp).
  { split; [|split].
    - apply (be_join_subspan_width 6 2 bs Hb). lia.
    - apply (be_join_subspan_width 8 8 bs Hb). lia.
    - apply (be_join_subspan_width 16 4 bs Hb). lia. }
  pose proof (flags_known (fh_flags (wire_header bs)) (proj1 Hf)) as Hk.
  unfold in_width in *.
  repeat case_bool_decide; cbn [negb];
    [|by split; [|intros (_ & ? & _)]].
  destruct (Z.eqb_spec (fh_version (wire_header bs)) kFrameVersion); cbn [negb];
    [|by split; [|intros (_ & _ & (? & _) & _)]].
  destruct (Z.eqb_spec (Z.land (fh_flags (wire_header bs)) (Z.lnot kEncryptedFlag)) 0);
    cbn [negb]; [|split; [done|intros (_ & _ & (_ & ?%Hk & _) & _); done]].
  destruct (Z.eqb_spec (fh_payload_size (wire_header bs)) 0);
    [split; [done|intros (_ & _ & (_ & _ & _ & _ & ?) & _); lia]|].
  destruct (Z.ltb_spec max (fh_payload_size (wire_header bs)));
    [split; [done|intros (_ & _ & (_ & _ & _ & _ & ?) & _); lia]|].
  split; [intros [= <-]|intros (_ & _ & _ & ->)]; [|done].
  split_and!; try done; try lia.
Qed.

Lemma decodeFrame_Ok bs max d :
  octets bs →
  decodeFrame bs max = Ok d ↔
  (20 ≤ length bs)%nat ∧ take 4 bs = kMagic ∧ admissible max (wire_header bs)
  ∧ zlen bs = kFrameHeaderSize + fh_payload_size (wire_header bs)
  ∧ d = {| fd_header := wire_header bs; fd_payload := drop 20 bs |}.
Proof.
  intros Hb. unfold decodeFrame.
  destruct (decodeHeader bs max) as [d'|e] eqn:E.
  - apply decodeHeader_Ok in E as (Hl & Hm & Ha & ->); [|done]. cbn [fd_header].
    destruct (Z.eqb_spec (zlen bs) (kFrameHeaderSize + fh_payload_size (wire_header bs)));
      cbn [negb]; split; try done; [by intros [= <-]| by intros (_ & _ & _ & _ & ->) | by intros (_ & _ & _ & ? & _)].
  - split; [done|]. intros (Hl & Hm & Ha & _).
    destruct (decodeHeader_Ok bs max {| fd_header := wire_header bs; fd_payload := [] |} Hb)
      as [_ H]. by rewrite H in E by auto.
Qed.

Lemma wire_header_encode h payload max :
  admissible max h → wire_header (encodeHeader h ++ payload) = h.
Proof.
  intros (Hv & Hf & Hs & Hp & _). destruct h as [v f s p].
  cbn [fh_version fh_flags fh_sequence fh_payload_size] in *.
  assert (in_width 16 v) by (rewrite Hv; unfold in_width, kFrameVersion; lia).
  assert (in_width 16 f) by (destruct Hf as [-> | ->]; unfold in_width, kEncryptedFlag; lia).
  unfold wire_header. f_equal.
  - change (subspan 4 2 _) with (be_split 2 v). by apply be_join_split_small.
  - change (subspan 6 2 _) with (be_split 2 f). by apply be_join_split_small.
  - change (subspan 8 8 _) with (be_split 8 s). by apply be_join_split_small.
  - change (subspan 16 4 _) with (be_split 4 p). by apply be_join_split_small.
Qed.

Lemma decodeFrame_parts (bs : bytes) (max : Z) (d : FrameDecoded) :
  octets bs →
  decodeFrame bs max = Ok d ↔
  admissible max (fd_header d)
  ∧ bs = encodeHeader (fd_header d) ++ fd_payload d
  ∧ zlen (fd_payload d) = fh_payload_size (fd_header d).
Proof.
  intros Hb. rewrite decodeFrame_Ok by done. split.
  - intros (Hl & Hm & Ha & Hz & ->). cbn [fd_header fd_payload].
    split_and!; [done| |].
    + rewrite encode_wire_header by done. by rewrite take_drop.
    + unfold zlen, kFrameHeaderSize in *. rewrite length_drop. lia.
  - destruct d as [h p]. cbn [fd_header fd_payload]. intros (Ha & -> & Hz).
    rewrite (wire_header_encode h p max Ha).
    split_and!; [|done|done| |done].
    + rewrite length_app, length_encodeHeader. lia.
    + autorewrite with sizes. lia.
Qed.

(** C7. For every byte string and every payload limit, [decodeFrame] returns
    a frame exactly when the string is the encoding of an admissible header
    (version 1, no flag but the encryption bit, 64-bit sequence, non-empty
    payload within the limit) followed by a payload of exactly the announced
    size, and it then returns that header and that payload: the codec is a
    bijection between admissible frames and accepted byte strings. *)
Theorem decodeFrame_exact (bs : bytes) (max : Z) (d : FrameDecoded)
  (Hb : octets bs) :
  decodeFrame bs max = Ok d ↔
  admissible max (fd_header d)
  ∧ bs = encodeHeader (fd_header d) ++ fd_payload d
  ∧ zlen (fd_payload d) = fh_payload_size (fd_header d).
Proof. by apply decodeFrame_parts. Qed.

Definition sample_header : FrameHeader :=
  {| fh_version := 1; fh_flags := 1; fh_sequence := 7; fh_payload_size := 3 |}.

Lemma decodeFrame_exact_witness :
  let bs := encodeHeader sample_header ++ [10; 20; 255] in
  octets bs
  ∧ decodeFrame bs kDefaultMaxPayloadSize
    = Ok {| fd_header := sample_header; fd_payload := [10; 20; 255] |}.
Proof.
  assert (octets (encodeHeader sample_header ++ [10; 20; 255])) as Ho.
  { apply octets_app; split; [apply encodeHeader_octets|].
    repeat (apply Forall_cons; split; [unfold in_width; lia|]). apply Forall_nil_2. }
  split; [exact Ho|].
  apply (decodeFrame_exact _ kDefaultMaxPayloadSize
    {| fd_header := sample_header; fd_payload := [10; 20; 255] |} Ho).
  split; [|split; reflexivity].
  unfold admissible, in_width, kDefaultMaxPayloadSize, kFrameVersion,
    kEncryptedFlag, sample_header; cbn [fh_version fh_flags fh_sequence
    fh_payload_size fd_header]. lia.
Defined.

(** Every input that [decodeHeader] does not accept is rejected with the
    error of the first check it fails, in the order of the source: length,
    magic, version, flags, empty payload, oversized payload.  In particular a
    payload larger than the limit is refused before anything is allocated for
    it. *)
Theorem decodeHeader_error_order (bs : bytes) (max : Z) (Hb : octets bs) :
  match decodeHeader bs max with
  | Ok d => fd_header d = wire_header bs ∧ admissible max (wire_header bs)
  | Err FrameError.InsufficientData => zlen bs < 20
  | Err FrameError.InvalidMagic => 20 <= zlen bs ∧ take 4 bs ≠ string_bytes "YAL1"
  | Err FrameError.UnsupportedVersion =>
      take 4 bs = string_bytes "YAL1" ∧ fh_version (wire_header bs) ≠ 1
  | Err FrameError.UnknownFlags =>
      fh_version (wire_header bs) = 1 ∧ 2 <= fh_flags (wire_header bs)
  | Err FrameError.EmptyPayload =>
      fh_flags (wire_header bs) < 2 ∧ fh_payload_size (wire_header bs) = 0
  | Err FrameError.PayloadTooLarge =>
      fh_flags (wire_header bs) < 2
      ∧ max < fh_payload_size (wire_header bs) ∧ 0 < fh_payload_size (wire_header bs)
  | Err FrameError.LengthMismatch => False
  end.
Proof.
  destruct (decodeHeader bs max) as [d|e] eqn:E.
  { apply decodeHeader_Ok in E as (_ & _ & ? & ->); done. }
  unfold decodeHeader, kFrameHeaderSize in E.
  destruct (Z.ltb_spec (zlen bs) 20); [by injection E as <-|].
  assert (20 ≤ length bs)%nat by (unfold zlen in *; lia).
  rewrite wire_header_read in E by done.
  pose proof (be_join_subspan_width 6 2 bs Hb ltac:(lia)) as Hf.
  pose proof (be_join_subspan_width 16 4 bs Hb ltac:(lia)) as Hp.
  change (be_join (subspan 6 2 bs)) with (fh_flags (wire_header bs)) in Hf.
  change (be_join (subspan 16 4 bs)) with (fh_payload_size (wire_header bs)) in Hp.
  assert (Z.land (fh_flags (wire_header bs)) (Z.lnot kEncryptedFlag) = 0
          ↔ fh_flags (wire_header bs) < 2) as Hk.
  { rewrite flags_known by apply Hf. unfold kEncryptedFlag, in_width in *. lia. }
  unfold in_width in *. cbv zeta in E.
  destruct (bool_decide_reflect (take 4 bs = kMagic)); cbn [negb] in E;
    [|by injection E as <-].
  destruct (Z.eqb_spec (fh_version (wire_header bs)) kFrameVersion); cbn [negb] in E;
    [|by injection E as <-].
  destruct (Z.eqb_spec (Z.land (fh_flags (wire_header bs)) (Z.lnot kEncryptedFlag)) 0)
    as [Hl|Hl]; cbn [negb] in E; rewrite Hk in Hl; [|injection E as <-; split; [done|lia]].
  destruct (Z.eqb_spec (fh_payload_size (wire_header bs)) 0); [by injection E as <-|].
  destruct (Z.ltb_spec max (fh_payload_size (wire_header bs))); [|done].
  injection E as <-. lia.
Qed.

Lemma decodeHeader_error_order_witness :
  octets (encodeHeader sample_header ++ [0])
  ∧ 2 < fh_payload_size (wire_header (encodeHeader sample_header ++ [0])).
Proof.
  assert (octets (encodeHeader sample_header ++ [0])) as Ho.
  { apply octets_app; split; [apply encodeHeader_octets|].
    apply Forall_cons; split; [unfold in_width; lia|apply Forall_nil_2]. }
  split; [exact Ho|].
  exact (proj1 (proj2 (decodeHeader_error_order _ 2 Ho))).
Defined.

(** The header of a stream: decoding needs only the first 20 bytes. *)
Lemma decodeHeader_prefix (hd rest : bytes) (max : Z) :
  length hd = 20%nat → decodeHeader (hd ++ rest) max = decodeHeader hd max.
Proof.
  intros Hl. unfold decodeHeader, kFrameHeaderSize, zlen. rewrite length_app, Hl.
  destruct (Z.ltb_spec (Z.of_nat (20 + length rest)) 20); [lia|].
  do 20 (destruct hd as [|? hd]; [done|]). destruct hd; [|done]. reflexivity.
Qed.

Lemma decodeFrame_app (hd payload : bytes) (max : Z) (d : FrameDecoded) :
  length hd = 20%nat → decodeHeader hd max = Ok d →
  zlen payload = fh_payload_size (fd_header d) →
  decodeFrame (hd ++ payload) max
  = Ok {| fd_header := fd_header d; fd_payload := payload |}.
Proof.
  intros Hl Hd Hp. unfold decodeFrame. rewrite decodeHeader_prefix, Hd by done.
  unfold kFrameHeaderSize. rewrite zlen_app, Hp.
  replace (zlen hd) with 20 by (unfold zlen; lia).
  rewrite Z.eqb_refl. cbn [negb]. by rewrite drop_app_length'.
Qed.
