(* ===== verification/CryptoApi.v ===== *)
(** * CryptoApi: what [yoauthorize::crypto] promises to its callers

    The operations of [src/ya_license_crypto/include/yoauthorize/crypto/crypto.h]
    as a class.  The protocol, core, service and SDK components are modelled
    against this interface; [Crypto.v] models [crypto.cpp] and discharges it.

    - [CryptoApi] has the operations.  Randomness is explicit: an operation
      that draws from the generator takes its state and returns the next one.
    - [CryptoLaws] states what a successful operation guarantees.
    - [CryptoAvailable] states that operations on well-formed inputs do
      succeed; the theorems about a run that completes need it, the safety
      theorems do not. *)

From S2P Require Import Prelude.

Definition kKeySize : Z := 32.
Definition kNonceSize : Z := 12.
Definition kTagSize : Z := 16.
Definition kSignatureSize : Z := 64.
Definition kSha256Size : Z := 32.

(** [std::array<std::uint8_t, n>]: a byte string of length [n]. *)
Definition is_array (n : Z) (bs : bytes) : Prop := zlen bs = n ∧ octets bs.

Module CryptoError.
Inductive CryptoError :=
| InvalidInput
| RandomFailed
| KeyGenerationFailed
| DerivationFailed
| SignatureFailed
| InvalidSignature
| EncryptionFailed
| AuthenticationFailed.
End CryptoError.
Abbreviation CryptoError := CryptoError.CryptoError.

#[global] Instance CryptoError_eq_dec : EqDecision CryptoError.
Proof. solve_decision. Defined.

Record KeyPair := mkKeyPair {
  kp_private : bytes;
  kp_public : bytes;
}.

(** [static_cast<std::size_t>(INT_MAX)] *)
Definition INT_MAX : Z := 2 ^ 31 - 1.

Class CryptoApi := {
  cr_rng : Type;
  cr_randomBytes : Z → cr_rng → result CryptoError bytes * cr_rng;
  cr_sha256 : bytes → result CryptoError bytes;
  cr_generateEd25519KeyPair : cr_rng → result CryptoError KeyPair * cr_rng;
  cr_signEd25519 : bytes → bytes → result CryptoError bytes;
  cr_verifyEd25519 : bytes → bytes → bytes → result CryptoError ();
  cr_generateX25519KeyPair : cr_rng → result CryptoError KeyPair * cr_rng;
  cr_deriveX25519 : bytes → bytes → result CryptoError bytes;
  cr_hkdfSha256 : bytes → bytes → bytes → Z → result CryptoError bytes;
  cr_sealChaCha20Poly1305 : bytes → bytes → bytes → bytes → result CryptoError bytes;
  cr_openChaCha20Poly1305 : bytes → bytes → bytes → bytes → result CryptoError bytes;
}.

(** A key pair some generator state has produced. *)
Definition x25519_pair `{CryptoApi} (kp : KeyPair) : Prop :=
  ∃ g g', cr_generateX25519KeyPair g = (Ok kp, g').
Definition ed25519_pair `{CryptoApi} (kp : KeyPair) : Prop :=
  ∃ g g', cr_generateEd25519KeyPair g = (Ok kp, g').

Class CryptoLaws (C : CryptoApi) := {
  randomBytes_array n g bs g' :
    cr_randomBytes n g = (Ok bs, g') → is_array n bs;
  sha256_array m d : cr_sha256 m = Ok d → is_array kSha256Size d;
  sign_array k m s : cr_signEd25519 k m = Ok s → is_array kSignatureSize s;
  x25519_array kp :
    x25519_pair kp → is_array kKeySize (kp_private kp) ∧ is_array kKeySize (kp_public kp);
  derive_array a b s : cr_deriveX25519 a b = Ok s → is_array kKeySize s;
  hkdf_array k s i n out :
    cr_hkdfSha256 k s i n = Ok out → is_array n out;
  seal_size k n p a c :
    cr_sealChaCha20Poly1305 k n p a = Ok c → zlen c = zlen p + kTagSize;
  seal_octets k n p a c :
    octets p → cr_sealChaCha20Poly1305 k n p a = Ok c → octets c;
  open_octets k n c a p :
    octets c → cr_openChaCha20Poly1305 k n c a = Ok p → octets p;
}.

Class CryptoAvailable (C : CryptoApi) := {
  sha256_available m : is_ok (cr_sha256 m) = true;
  hkdf_available k s i n : k ≠ [] → 0 < n → is_ok (cr_hkdfSha256 k s i n) = true;
  sign_verify kp m s :
    ed25519_pair kp → cr_signEd25519 (kp_private kp) m = Ok s →
    cr_verifyEd25519 (kp_public kp) m s = Ok ();
  derive_symmetric a b :
    x25519_pair a → x25519_pair b →
    cr_deriveX25519 (kp_private a) (kp_public b)
    = cr_deriveX25519 (kp_private b) (kp_public a);
  seal_available k n p a :
    is_array kKeySize k → is_array kNonceSize n →
    zlen p <= INT_MAX → zlen a <= INT_MAX →
    is_ok (cr_sealChaCha20Poly1305 k n p a) = true;
  open_exact k n p a c :
    is_array kKeySize k → is_array kNonceSize n → octets p → octets c →
    cr_openChaCha20Poly1305 k n c a = Ok p
    ↔ cr_sealChaCha20Poly1305 k n p a = Ok c;
}.

Lemma is_ok_true {E A} (r : result E A) : is_ok r = true ↔ ∃ v, r = Ok v.
Proof. destruct r; cbn; split; try done; [eauto|by intros [? [=]]]. Qed.

Lemma is_array_length n bs : is_array (Z.of_nat n) bs → length bs = n.
Proof. unfold is_array, zlen. lia. Qed.
