(* ===== verification/Crypto.v ===== *)
(** * Crypto: the OpenSSL wrappers

    Models [src/ya_license_crypto/src/crypto.cpp].  OpenSSL itself is not part
    of the repository: its entry points are the class [OpenSSL], with the
    documented behaviour the wrappers rely on in [OpenSSLSpec] (what a call
    that succeeds has done) and [OpenSSLAvailable] (calls succeed).  The
    theorems show that the wrappers slice and concatenate ciphertext and tag
    correctly, stay inside their buffers, and implement the interface of
    [CryptoApi.v]. *)

From S2P Require Import Prelude CryptoApi.

(** ** OpenSSL

    A call that reports success with the value 1 (or a non-null pointer) is
    [Some] of its outputs, any other outcome [None].  Only the generator is
    stateful; contexts are values that the calls consume and return. *)

Module EvpKeyType.
Inductive EvpKeyType := ED25519 | X25519.
End EvpKeyType.
Abbreviation EvpKeyType := EvpKeyType.EvpKeyType.

Record KdfParams := mkKdfParams {
  kdf_digest : string;
  kdf_key : bytes;
  kdf_salt : bytes;
  kdf_info : bytes;
}.

Class OpenSSL := {
  RNG : Type;
  EVP_PKEY : Type;
  EVP_PKEY_CTX : Type;
  EVP_MD_CTX : Type;
  EVP_KDF : Type;
  EVP_KDF_CTX : Type;
  EVP_CIPHER_CTX : Type;
  RAND_priv_bytes : Z → RNG → option bytes * RNG;
  EVP_PKEY_CTX_new_id : EvpKeyType → option EVP_PKEY_CTX;
  EVP_PKEY_keygen_init : EVP_PKEY_CTX → option EVP_PKEY_CTX;
  EVP_PKEY_keygen : EVP_PKEY_CTX → RNG → option EVP_PKEY * RNG;
  EVP_PKEY_get_raw_private_key : EVP_PKEY → option bytes;
  EVP_PKEY_get_raw_public_key : EVP_PKEY → option bytes;
  EVP_PKEY_new_raw_private_key : EvpKeyType → bytes → option EVP_PKEY;
  EVP_PKEY_new_raw_public_key : EvpKeyType → bytes → option EVP_PKEY;
  EVP_MD_CTX_new : option EVP_MD_CTX;
  EVP_DigestInit_sha256 : EVP_MD_CTX → option EVP_MD_CTX;
  EVP_DigestUpdate : EVP_MD_CTX → bytes → option EVP_MD_CTX;
  EVP_DigestFinal_ex : EVP_MD_CTX → option bytes;
  EVP_DigestSignInit : EVP_MD_CTX → EVP_PKEY → option EVP_MD_CTX;
  EVP_DigestSign : EVP_MD_CTX → bytes → option bytes;
  EVP_DigestVerifyInit : EVP_MD_CTX → EVP_PKEY → option EVP_MD_CTX;
  EVP_DigestVerify : EVP_MD_CTX → bytes → bytes → bool;
  EVP_PKEY_CTX_new : EVP_PKEY → option EVP_PKEY_CTX;
  EVP_PKEY_derive_init : EVP_PKEY_CTX → option EVP_PKEY_CTX;
  EVP_PKEY_derive_set_peer : EVP_PKEY_CTX → EVP_PKEY → option EVP_PKEY_CTX;
  EVP_PKEY_derive : EVP_PKEY_CTX → option bytes;
  EVP_KDF_fetch : string → option EVP_KDF;
  EVP_KDF_CTX_new : EVP_KDF → option EVP_KDF_CTX;
  EVP_KDF_derive : EVP_KDF_CTX → Z → KdfParams → option bytes;
  EVP_CIPHER_CTX_new : option EVP_CIPHER_CTX;
  EVP_EncryptInit_chacha : EVP_CIPHER_CTX → bytes → bytes → option EVP_CIPHER_CTX;
  EVP_EncryptUpdate_aad : EVP_CIPHER_CTX → bytes → option EVP_CIPHER_CTX;
  EVP_EncryptUpdate : EVP_CIPHER_CTX → bytes → option (bytes * EVP_CIPHER_CTX);
  EVP_EncryptFinal_ex : EVP_CIPHER_CTX → option (bytes * EVP_CIPHER_CTX);
  EVP_CTRL_AEAD_GET_TAG : EVP_CIPHER_CTX → Z → option bytes;
  EVP_DecryptInit_chacha : EVP_CIPHER_CTX → bytes → bytes → option EVP_CIPHER_CTX;
  EVP_DecryptUpdate_aad : EVP_CIPHER_CTX → bytes → option EVP_CIPHER_CTX;
  EVP_DecryptUpdate : EVP_CIPHER_CTX → bytes → option (bytes * EVP_CIPHER_CTX);
  EVP_CTRL_AEAD_SET_TAG : EVP_CIPHER_CTX → bytes → option EVP_CIPHER_CTX;
  EVP_DecryptFinal_ex : EVP_CIPHER_CTX → option bytes;
}.

(** An option as a result with one error. *)
Definition or_error {E A} (e : E) (o : option A) : result E A :=
  match o with Some v => Ok v | None => Err e end.

Definition validSize (size : Z) : bool := size <=? INT_MAX.

Section Wrappers.
Context `{OpenSSL}.

Definition generateKeyPair (type : EvpKeyType) (g : RNG)
  : result CryptoError KeyPair * RNG :=
  match EVP_PKEY_CTX_new_id type ≫= EVP_PKEY_keygen_init with
  | None => (Err CryptoError.KeyGenerationFailed, g)
  | Some context =>
      match EVP_PKEY_keygen context g with
      | (None, g') => (Err CryptoError.KeyGenerationFailed, g')
      | (Some key, g') =>
          (or_error CryptoError.KeyGenerationFailed (
             private_raw ← EVP_PKEY_get_raw_private_key key;
             public_raw ← EVP_PKEY_get_raw_public_key key;
             if negb (zlen private_raw =? kKeySize) || negb (zlen public_raw =? kKeySize)
             then None
             else Some {| kp_private := write_at (zeroed kKeySize) 0 private_raw;
                          kp_public := write_at (zeroed kKeySize) 0 public_raw |}), g')
      end
  end.

Definition randomBytes (size : Z) (g : RNG) : result CryptoError bytes * RNG :=
  if (size =? 0) || negb (validSize size) then (Err CryptoError.InvalidInput, g)
  else
    let (drawn, g') := RAND_priv_bytes size g in
    (or_error CryptoError.RandomFailed drawn, g').

(** [OPENSSL_cleanse] stores zeros. *)
Definition cleanse (bs : bytes) : bytes := replicate (length bs) 0.

Definition sha256 (input : bytes) : result CryptoError bytes :=
  or_error CryptoError.DerivationFailed (
    context ← EVP_MD_CTX_new;
    context ← EVP_DigestInit_sha256 context;
    context ← EVP_DigestUpdate context input;
    digest ← EVP_DigestFinal_ex context;
    if negb (zlen digest =? kSha256Size) then None
    else Some (write_at (zeroed kSha256Size) 0 digest)).

Definition generateEd25519KeyPair := generateKeyPair EvpKeyType.ED25519.

Definition signEd25519 (private_key message : bytes) : result CryptoError bytes :=
  or_error CryptoError.SignatureFailed (
    key ← EVP_PKEY_new_raw_private_key EvpKeyType.ED25519 private_key;
    context ← EVP_MD_CTX_new;
    context ← EVP_DigestSignInit context key;
    signature ← EVP_DigestSign context message;
    if negb (zlen signature =? kSignatureSize) then None
    else Some (write_at (zeroed kSignatureSize) 0 signature)).

Definition verifyEd25519 (public_key message signature : bytes)
  : result CryptoError () :=
  match
    key ← EVP_PKEY_new_raw_public_key EvpKeyType.ED25519 public_key;
    context ← EVP_MD_CTX_new;
    EVP_DigestVerifyInit context key
  with
  | None => Err CryptoError.SignatureFailed
  | Some context =>
      if EVP_DigestVerify context signature message then Ok ()
      else Err CryptoError.InvalidSignature
  end.

Definition generateX25519KeyPair := generateKeyPair EvpKeyType.X25519.

Definition deriveX25519 (private_key peer_public_key : bytes)
  : result CryptoError bytes :=
  match EVP_PKEY_new_raw_private_key EvpKeyType.X25519 private_key,
        EVP_PKEY_new_raw_public_key EvpKeyType.X25519 peer_public_key with
  | Some private_value, Some public_value =>
      or_error CryptoError.DerivationFailed (
        context ← EVP_PKEY_CTX_new private_value;
        context ← EVP_PKEY_derive_init context;
        context ← EVP_PKEY_derive_set_peer context public_value;
        shared ← EVP_PKEY_derive context;
        if negb (zlen shared =? kKeySize) then None
        else Some (write_at (zeroed kKeySize) 0 shared))
  | _, _ => Err CryptoError.InvalidInput
  end.

Definition hkdfSha256 (key salt info : bytes) (output_size : Z)
  : result CryptoError bytes :=
  if (zlen key =? 0) || (output_size =? 0) then Err CryptoError.InvalidInput
  else
    or_error CryptoError.DerivationFailed (
      algorithm ← EVP_KDF_fetch "HKDF";
      context ← EVP_KDF_CTX_new algorithm;
      derived ← EVP_KDF_derive context output_size
        {| kdf_digest := "SHA256"; kdf_key := key; kdf_salt := salt; kdf_info := info |};
      Some (write_at (zeroed output_size) 0 derived)).

Definition sealChaCha20Poly1305 (key nonce plaintext aad : bytes)
  : result CryptoError bytes :=
  if negb (validSize (zlen plaintext)) || negb (validSize (zlen aad))
  then Err CryptoError.InvalidInput
  else
    let output := zeroed (zlen plaintext + kTagSize) in
    or_error CryptoError.EncryptionFailed (
      context ← EVP_CIPHER_CTX_new;
      context ← EVP_EncryptInit_chacha context key nonce;
      context ← (if zlen aad =? 0 then Some context
                 else EVP_EncryptUpdate_aad context aad);
      '(written, context) ← EVP_EncryptUpdate context plaintext;
      let output := write_at output 0 written in
      let total_size := zlen written in
      '(written, context) ← EVP_EncryptFinal_ex context;
      let output := write_at output total_size written in
      let total_size := total_size + zlen written in
      tag ← EVP_CTRL_AEAD_GET_TAG context kTagSize;
      let output := write_at output total_size tag in
      Some (resize (total_size + kTagSize) output)).

Definition openChaCha20Poly1305 (key nonce ciphertext_and_tag aad : bytes)
  : result CryptoError bytes :=
  if (zlen ciphertext_and_tag <? kTagSize)
     || negb (validSize (zlen ciphertext_and_tag - kTagSize))
     || negb (validSize (zlen aad))
  then Err CryptoError.InvalidInput
  else
    let split_at := Z.to_nat (zlen ciphertext_and_tag - kTagSize) in
    let ciphertext := take split_at ciphertext_and_tag in
    let tag := drop split_at ciphertext_and_tag in
    let output := zeroed (zlen ciphertext) in
    or_error CryptoError.AuthenticationFailed (
      context ← EVP_CIPHER_CTX_new;
      context ← EVP_DecryptInit_chacha context key nonce;
      context ← (if zlen aad =? 0 then Some context
                 else EVP_DecryptUpdate_aad context aad);
      '(written, context) ← EVP_DecryptUpdate context ciphertext;
      let output := write_at output 0 written in
      let total_size := zlen written in
      context ← EVP_CTRL_AEAD_SET_TAG context tag;
      written ← EVP_DecryptFinal_ex context;
      let output := write_at output total_size written in
      Some (resize (total_size + zlen written) output)).

(** The wrappers as the interface the other components see. *)
#[global] Instance openssl_crypto : CryptoApi := {|
  cr_rng := RNG;
  cr_randomBytes := randomBytes;
  cr_sha256 := sha256;
  cr_generateEd25519KeyPair := generateEd25519KeyPair;
  cr_signEd25519 := signEd25519;
  cr_verifyEd25519 := verifyEd25519;
  cr_generateX25519KeyPair := generateX25519KeyPair;
  cr_deriveX25519 := deriveX25519;
  cr_hkdfSha256 := hkdfSha256;
  cr_sealChaCha20Poly1305 := sealChaCha20Poly1305;
  cr_openChaCha20Poly1305 := openChaCha20Poly1305;
|}.

End Wrappers.

(** ** Documented behaviour of OpenSSL *)

(** What a ChaCha20-Poly1305 context has been given so far. *)
Record CipherState := mkCipherState {
  cs_key : bytes;
  cs_nonce : bytes;
  cs_aad : bytes;
  cs_input : bytes;
  cs_tag : bytes;
}.

(** The call sequences that OpenSSL documents as one operation. *)
Definition digest_call `{OpenSSL} (m : bytes) : option bytes :=
  c ← EVP_MD_CTX_new; c ← EVP_DigestInit_sha256 c; c ← EVP_DigestUpdate c m;
  EVP_DigestFinal_ex c.

Definition derive_call `{OpenSSL} (ka kb : EVP_PKEY) : option bytes :=
  c ← EVP_PKEY_CTX_new ka; c ← EVP_PKEY_derive_init c;
  c ← EVP_PKEY_derive_set_peer c kb; EVP_PKEY_derive c.

Class OpenSSLSpec (O : OpenSSL) := {
  cipher_state : EVP_CIPHER_CTX → CipherState;
  chacha20 : bytes → bytes → bytes → bytes;
  poly1305 : bytes → bytes → bytes → bytes → bytes;
  raw_public : EvpKeyType → bytes → bytes;
  ed25519_sign : bytes → bytes → bytes;
  ed25519_check : bytes → bytes → bytes → bool;
  x25519 : bytes → bytes → bytes;
  (* generator, keys, digests, key agreement *)
  rand_spec n g bs g' : RAND_priv_bytes n g = (Some bs, g') → is_array n bs;
  keygen_spec t c g k g' a b :
    EVP_PKEY_CTX_new_id t ≫= EVP_PKEY_keygen_init = Some c →
    EVP_PKEY_keygen c g = (Some k, g') →
    EVP_PKEY_get_raw_private_key k = Some a →
    EVP_PKEY_get_raw_public_key k = Some b →
    octets a ∧ octets b ∧ b = raw_public t a;
  digest_spec m d :
    digest_call m = Some d → octets d;
  sign_spec k a c c' m s :
    EVP_PKEY_new_raw_private_key EvpKeyType.ED25519 a = Some k →
    EVP_MD_CTX_new = Some c → EVP_DigestSignInit c k = Some c' →
    EVP_DigestSign c' m = Some s → octets s ∧ s = ed25519_sign a m;
  verify_spec k a c c' m s :
    EVP_PKEY_new_raw_public_key EvpKeyType.ED25519 a = Some k →
    EVP_MD_CTX_new = Some c → EVP_DigestVerifyInit c k = Some c' →
    EVP_DigestVerify c' s m = ed25519_check a m s;
  ed25519_correct a m :
    ed25519_check (raw_public EvpKeyType.ED25519 a) m (ed25519_sign a m) = true;
  derive_spec a b ka kb s :
    EVP_PKEY_new_raw_private_key EvpKeyType.X25519 a = Some ka →
    EVP_PKEY_new_raw_public_key EvpKeyType.X25519 b = Some kb →
    derive_call ka kb = Some s →
    octets s ∧ s = x25519 a b;
  x25519_commutes a b :
    x25519 a (raw_public EvpKeyType.X25519 b) = x25519 b (raw_public EvpKeyType.X25519 a);
  kdf_spec alg c n p out :
    EVP_KDF_fetch "HKDF" = Some alg → EVP_KDF_CTX_new alg = Some c →
    EVP_KDF_derive c n p = Some out → is_array n out;
  (* ChaCha20-Poly1305 *)
  chacha20_length k n p : length (chacha20 k n p) = length p;
  chacha20_octets k n p : octets p → octets (chacha20 k n p);
  chacha20_involutive k n p : octets p → chacha20 k n (chacha20 k n p) = p;
  poly1305_tag k n a c : is_array kTagSize (poly1305 k n a c);
  encrypt_init_spec c k n c' :
    EVP_EncryptInit_chacha c k n = Some c' → cipher_state c' = mkCipherState k n [] [] [];
  encrypt_aad_spec c a k n c' :
    cipher_state c = mkCipherState k n [] [] [] →
    EVP_EncryptUpdate_aad c a = Some c' → cipher_state c' = mkCipherState k n a [] [];
  encrypt_update_spec c k n a p out c' :
    cipher_state c = mkCipherState k n a [] [] →
    EVP_EncryptUpdate c p = Some (out, c') →
    out = chacha20 k n p ∧ cipher_state c' = mkCipherState k n a p [];
  encrypt_final_spec c out c' :
    EVP_EncryptFinal_ex c = Some (out, c') → out = [] ∧ cipher_state c' = cipher_state c;
  get_tag_spec c k n a p tag :
    cipher_state c = mkCipherState k n a p [] →
    EVP_CTRL_AEAD_GET_TAG c kTagSize = Some tag → tag = poly1305 k n a (chacha20 k n p);
  decrypt_init_spec c k n c' :
    EVP_DecryptInit_chacha c k n = Some c' → cipher_state c' = mkCipherState k n [] [] [];
  decrypt_aad_spec c a k n c' :
    cipher_state c = mkCipherState k n [] [] [] →
    EVP_DecryptUpdate_aad c a = Some c' → cipher_state c' = mkCipherState k n a [] [];
  decrypt_update_spec c k n a p out c' :
    cipher_state c = mkCipherState k n a [] [] →
    EVP_DecryptUpdate c p = Some (out, c') →
    out = chacha20 k n p ∧ cipher_state c' = mkCipherState k n a p [];
  set_tag_spec c k n a p tag c' :
    cipher_state c = mkCipherState k n a p [] →
    EVP_CTRL_AEAD_SET_TAG c tag = Some c' → cipher_state c' = mkCipherState k n a p tag;
  decrypt_final_spec c k n a p tag out :
    cipher_state c = mkCipherState k n a p tag →
    EVP_DecryptFinal_ex c = Some out → out = [] ∧ tag = poly1305 k n a p;
}.

Class OpenSSLAvailable (O : OpenSSL) `{!OpenSSLSpec O} := {
  digest_available m :
    ∃ d, digest_call m = Some d ∧ zlen d = kSha256Size;
  raw_keys_available t a :
    is_array kKeySize a → is_Some (EVP_PKEY_new_raw_private_key t a)
                          ∧ is_Some (EVP_PKEY_new_raw_public_key t a);
  verify_available a k :
    EVP_PKEY_new_raw_public_key EvpKeyType.ED25519 a = Some k →
    is_Some (c ← EVP_MD_CTX_new; EVP_DigestVerifyInit c k);
  (* the agreement fails exactly when the shared secret is the zero point *)
  derive_available a b ka kb :
    EVP_PKEY_new_raw_private_key EvpKeyType.X25519 a = Some ka →
    EVP_PKEY_new_raw_public_key EvpKeyType.X25519 b = Some kb →
    derive_call ka kb
    = if bool_decide (x25519 a b = zeroed kKeySize) then None else Some (x25519 a b);
  kdf_available n p :
    kdf_key p ≠ [] → 0 < n →
    is_Some (alg ← EVP_KDF_fetch "HKDF"; c ← EVP_KDF_CTX_new alg; EVP_KDF_derive c n p);
  cipher_available : is_Some EVP_CIPHER_CTX_new;
  encrypt_init_available c k n :
    is_array kKeySize k → is_array kNonceSize n → is_Some (EVP_EncryptInit_chacha c k n);
  encrypt_aad_available c a : is_Some (EVP_EncryptUpdate_aad c a);
  encrypt_update_available c p : is_Some (EVP_EncryptUpdate c p);
  encrypt_final_available c : is_Some (EVP_EncryptFinal_ex c);
  get_tag_available c : is_Some (EVP_CTRL_AEAD_GET_TAG c kTagSize);
  decrypt_init_available c k n :
    is_array kKeySize k → is_array kNonceSize n → is_Some (EVP_DecryptInit_chacha c k n);
  decrypt_aad_available c a : is_Some (EVP_DecryptUpdate_aad c a);
  decrypt_update_available c p : is_Some (EVP_DecryptUpdate c p);
  set_tag_available c tag : is_Some (EVP_CTRL_AEAD_SET_TAG c tag);
  decrypt_final_available c k n a p :
    cipher_state c = mkCipherState k n a p (poly1305 k n a p) →
    is_Some (EVP_DecryptFinal_ex c);
}.

Lemma or_error_Ok {E A} (e : E) (o : option A) v : or_error e o = Ok v ↔ o = Some v.
Proof. destruct o; cbn; split; congruence. Qed.

(** Peel one bind of a successful option computation. *)
Ltac peel H :=
  let x := fresh "x" in let Hx := fresh "Hx" in
  apply bind_Some in H as (x & Hx & H).

Section Spec.
Context (O : OpenSSL) `{!OpenSSLSpec O}.

Definition aead (k n p a : bytes) : bytes :=
  chacha20 k n p ++ poly1305 k n a (chacha20 k n p).

Lemma zlen_aead k n p a : zlen (aead k n p a) = zlen p + kTagSize.
Proof.
  unfold aead. rewrite zlen_app. destruct (poly1305_tag k n a (chacha20 k n p)) as [-> _].
  unfold zlen. by rewrite chacha20_length.
Qed.

Lemma aead_octets k n p a : octets p → octets (aead k n p a).
Proof.
  intros Hp. apply octets_app. split; [by apply chacha20_octets|].
  by destruct (poly1305_tag k n a (chacha20 k n p)).
Qed.

Lemma encrypt_optional_aad c a k n c' :
  cipher_state c = mkCipherState k n [] [] [] →
  (if zlen a =? 0 then Some c else EVP_EncryptUpdate_aad c a) = Some c' →
  cipher_state c' = mkCipherState k n a [] [].
Proof.
  intros Hc. destruct (Z.eqb_spec (zlen a) 0) as [Hz|_]; [|by apply encrypt_aad_spec].
  intros [= <-]. destruct a; [done|]. unfold zlen in Hz. cbn in Hz. lia.
Qed.

Lemma decrypt_optional_aad c a k n c' :
  cipher_state c = mkCipherState k n [] [] [] →
  (if zlen a =? 0 then Some c else EVP_DecryptUpdate_aad c a) = Some c' →
  cipher_state c' = mkCipherState k n a [] [].
Proof.
  intros Hc. destruct (Z.eqb_spec (zlen a) 0) as [Hz|_]; [|by apply decrypt_aad_spec].
  intros [= <-]. destruct a; [done|]. unfold zlen in Hz. cbn in Hz. lia.
Qed.

(** The three stores of the encryption fill the buffer exactly, so nothing
    is written past its end and no zero byte of it is left over. *)
Lemma seal_assemble k n p a :
  let ct := chacha20 k n p in let tag := poly1305 k n a ct in
  resize (zlen ct + zlen (@nil Z) + kTagSize)
    (write_at (write_at (write_at (zeroed (zlen p + kTagSize)) 0 ct) (zlen ct) [])
       (zlen ct + zlen (@nil Z)) tag) = aead k n p a.
Proof.
  cbv zeta. destruct (poly1305_tag k n a (chacha20 k n p)) as [Ht _].
  pose proof (chacha20_length k n p) as Hc.
  assert (length (zeroed (zlen p + kTagSize))
          = length (chacha20 k n p) + length (poly1305 k n a (chacha20 k n p)))%nat as Hb.
  { unfold zeroed, zlen, kTagSize in *. rewrite length_replicate. lia. }
  rewrite (zlen_nil (A:=Z)), Z.add_0_r, write_at_nil, write_at_tail by
    (done || (unfold write_at, zlen; rewrite !length_app, length_drop; lia)).
  rewrite <- Ht, <- zlen_app. apply resize_whole.
Qed.

Lemma seal_value k n p a c :
  sealChaCha20Poly1305 k n p a = Ok c → zlen p <= INT_MAX ∧ zlen a <= INT_MAX ∧ c = aead k n p a.
Proof.
  unfold sealChaCha20Poly1305, validSize.
  destruct (negb _ || negb _) eqn:E; [done|]. reflect_bools.
  intros Hs%or_error_Ok. do 3 peel Hs.
  apply encrypt_init_spec in Hx0. eapply encrypt_optional_aad in Hx1; [|done].
  peel Hs. destruct x2 as [out c1]. eapply encrypt_update_spec in Hx2 as [Hout Hc1]; [|done]. subst out.
  peel Hs. destruct x2 as [fin c2]. apply encrypt_final_spec in Hx2 as [-> Hc2].
  peel Hs. rewrite Hc1 in Hc2. eapply get_tag_spec in Hx2; [|done]. subst x2.
  injection Hs as <-. split_and!; [done|done|apply seal_assemble].
Qed.

Lemma open_value k n c a p :
  openChaCha20Poly1305 k n c a = Ok p →
  ∃ ct, c = ct ++ poly1305 k n a ct ∧ p = chacha20 k n ct ∧ zlen ct <= INT_MAX
        ∧ zlen a <= INT_MAX.
Proof.
  unfold openChaCha20Poly1305, validSize.
  destruct (_ || negb _ || negb _) eqn:E; [done|]. reflect_bools.
  intros Hs%or_error_Ok.
  set (m := Z.to_nat (zlen c - kTagSize)) in *. do 3 peel Hs.
  apply decrypt_init_spec in Hx0. eapply decrypt_optional_aad in Hx1; [|done].
  peel Hs. destruct x2 as [out c1]. eapply decrypt_update_spec in Hx2 as [Hout Hc1]; [|done]. subst out.
  peel Hs. eapply set_tag_spec in Hx2; [|done].
  peel Hs. eapply decrypt_final_spec in Hx3 as [Hfin Htag]; [|done]. subst x3.
  injection Hs as <-. exists (take m c). split_and!.
  - rewrite <- Htag. by rewrite take_drop.
  - pose proof (chacha20_length k n (take m c)) as Hl.
    assert (write_at (zeroed (zlen (take m c))) 0 (chacha20 k n (take m c))
            = chacha20 k n (take m c)) as ->.
    { apply write_zeroed. unfold zlen. by rewrite Hl. }
    rewrite write_at_nil by (unfold zlen; lia).
    by rewrite (zlen_nil (A:=Z)), Z.add_0_r, resize_whole.
  - unfold zlen in *. rewrite length_take. lia.
  - done.
Qed.

(** The raw key pair behind a generated one. *)
Lemma generateKeyPair_value t g kp g' :
  generateKeyPair t g = (Ok kp, g') →
  is_array kKeySize (kp_private kp) ∧ is_array kKeySize (kp_public kp)
  ∧ kp_public kp = raw_public t (kp_private kp).
Proof.
  unfold generateKeyPair.
  destruct (EVP_PKEY_CTX_new_id t ≫= _) as [c|] eqn:Hc; [|done].
  destruct (EVP_PKEY_keygen c g) as [[k|] g1] eqn:Hk; [|done].
  intros [= Hv <-]. apply or_error_Ok in Hv. peel Hv. peel Hv.
  destruct (negb _ || negb _) eqn:E; [done|]. injection Hv as <-. reflect_bools.
  edestruct keygen_spec as (Ha & Hb & Hp); [done..|].
  cbn [kp_private kp_public]. rewrite !write_zeroed by done.
  unfold is_array. auto.
Qed.

#[export] Instance openssl_crypto_laws : CryptoLaws openssl_crypto.
Proof.
  constructor; cbn.
  - intros n g bs g'. unfold randomBytes.
    destruct (_ || _); [done|]. destruct (RAND_priv_bytes n g) as [[d|] g1] eqn:E; [|done].
    cbn. intros [= <- <-]. by eapply rand_spec.
  - intros m d Hd%or_error_Ok. do 4 peel Hd.
    destruct (negb _) eqn:E; [done|]. injection Hd as <-. reflect_bools.
    rewrite write_zeroed by done. split; [done|]. apply (digest_spec m).
    unfold digest_call. by rewrite Hx; cbn; rewrite Hx0; cbn; rewrite Hx1; cbn.
  - intros k m d Hd%or_error_Ok. do 4 peel Hd.
    destruct (negb _) eqn:E; [done|]. injection Hd as <-. reflect_bools.
    rewrite write_zeroed by done. split; [done|].
    apply (sign_spec _ _ _ _ _ _ Hx Hx0 Hx1 Hx2).
  - intros kp (g & g' & E). by apply generateKeyPair_value in E as (? & ? & _).
  - intros a b d. unfold deriveX25519.
    destruct (EVP_PKEY_new_raw_private_key _ a) as [ka|] eqn:Ea; [|done].
    destruct (EVP_PKEY_new_raw_public_key _ b) as [kb|] eqn:Eb; [|done].
    intros Hd%or_error_Ok. do 4 peel Hd.
    destruct (negb _) eqn:E; [done|]. injection Hd as <-. reflect_bools.
    rewrite write_zeroed by done. split; [done|].
    apply (derive_spec a b ka kb); [done..|]. unfold derive_call.
    by rewrite Hx; cbn; rewrite Hx0; cbn; rewrite Hx1; cbn.
  - intros k d i n out. unfold hkdfSha256. destruct (_ || _) eqn:E; [done|].
    intros Hd%or_error_Ok. do 3 peel Hd. injection Hd as <-.
    pose proof (kdf_spec _ _ _ _ _ Hx Hx0 Hx1) as Hout.
    rewrite write_zeroed; [done|]. by destruct Hout.
  - intros k n p a c Hc. apply seal_value in Hc as (_ & _ & ->). apply zlen_aead.
  - intros k n p a c Hp Hc. apply seal_value in Hc as (_ & _ & ->). by apply aead_octets.
  - intros k n c a p Hc Ho. destruct (open_value _ _ _ _ _ Ho) as (ct & -> & -> & _).
    apply octets_app in Hc as [Hct _]. by apply chacha20_octets.
Qed.
End Spec.

Section Available.
Context (O : OpenSSL) `{!OpenSSLSpec O} `{!OpenSSLAvailable O}.

Lemma seal_eq k n p a :
  is_array kKeySize k → is_array kNonceSize n → zlen p <= INT_MAX → zlen a <= INT_MAX →
  sealChaCha20Poly1305 k n p a = Ok (aead O k n p a).
Proof.
  intros Hk Hn Hp Ha.
  destruct (sealChaCha20Poly1305 k n p a) as [c|e] eqn:E.
  { by destruct (seal_value O _ _ _ _ _ E) as (_ & _ & ->). }
  exfalso. revert E. unfold sealChaCha20Poly1305, validSize.
  apply Z.leb_le in Hp, Ha. rewrite Hp, Ha. cbn [negb orb].
  destruct cipher_available as [c0 ->]; cbn.
  destruct (encrypt_init_available c0 k n Hk Hn) as [c1 ->]; cbn.
  assert (is_Some (if zlen a =? 0 then Some c1 else EVP_EncryptUpdate_aad c1 a)) as [c2 ->].
  { destruct (zlen a =? 0); [eauto|apply encrypt_aad_available]. }
  cbn. destruct (encrypt_update_available c2 p) as [[out c3] ->]; cbn.
  destruct (encrypt_final_available c3) as [[fin c4] ->]; cbn.
  by destruct (get_tag_available c4) as [tag ->].
Qed.

Lemma open_eq k n ct a :
  is_array kKeySize k → is_array kNonceSize n → zlen ct <= INT_MAX → zlen a <= INT_MAX →
  openChaCha20Poly1305 k n (ct ++ poly1305 k n a ct) a = Ok (chacha20 k n ct).
Proof.
  intros Hk Hn Hp Ha. destruct (poly1305_tag k n a ct) as [Ht _].
  destruct (openChaCha20Poly1305 k n _ a) as [p|e] eqn:E.
  { destruct (open_value O _ _ _ _ _ E) as (ct' & Hc & -> & _).
    apply app_inj_len in Hc as [<- _]; [done|].
    apply (f_equal length) in Hc. rewrite !length_app in Hc.
    destruct (poly1305_tag k n a ct') as [Ht' _]. unfold zlen in *. lia. }
  exfalso. revert E. unfold openChaCha20Poly1305, validSize.
  rewrite zlen_app, Ht.
  replace (zlen ct + kTagSize - kTagSize) with (zlen ct) by lia.
  pose proof (zlen_nonneg ct).
  destruct (Z.ltb_spec (zlen ct + kTagSize) kTagSize); [lia|].
  apply Z.leb_le in Hp, Ha. rewrite Hp, Ha. cbn [negb orb].
  replace (Z.to_nat (zlen ct)) with (length ct) by (unfold zlen; lia).
  rewrite drop_app_length, take_app_length.
  destruct cipher_available as [c0 ->]; cbn.
  destruct (decrypt_init_available c0 k n Hk Hn) as [c1 E1]; rewrite E1; cbn.
  apply decrypt_init_spec in E1.
  assert (is_Some (if zlen a =? 0 then Some c1 else EVP_DecryptUpdate_aad c1 a)) as [c2 E2].
  { destruct (zlen a =? 0); [eauto|apply decrypt_aad_available]. }
  rewrite E2; cbn. eapply decrypt_optional_aad in E2; [|done].
  destruct (decrypt_update_available c2 ct) as [[out c3] E3]; rewrite E3; cbn.
  eapply decrypt_update_spec in E3 as [_ E3]; [|done].
  destruct (set_tag_available c3 (poly1305 k n a ct)) as [c4 E4]; rewrite E4; cbn.
  eapply set_tag_spec in E4; [|done].
  by destruct (decrypt_final_available c4 k n a ct E4) as [fin ->].
Qed.

Lemma open_seal_inverse k n p a c :
  is_array kKeySize k → is_array kNonceSize n → octets p → octets c →
  openChaCha20Poly1305 k n c a = Ok p ↔ sealChaCha20Poly1305 k n p a = Ok c.
Proof.
  intros Hk Hn Hp Hc. split.
  - intros Ho. destruct (open_value O _ _ _ _ _ Ho) as (ct & -> & -> & Hz & Ha). apply octets_app in Hc as [Hct _].
    rewrite seal_eq by (done || (unfold zlen; rewrite chacha20_length; apply Hz)).
    unfold aead. by rewrite chacha20_involutive.
  - intros Hs. destruct (seal_value O _ _ _ _ _ Hs) as (Hz & Ha & ->). unfold aead.
    rewrite open_eq by (done || (unfold zlen; rewrite chacha20_length; apply Hz)).
    by rewrite chacha20_involutive.
Qed.

Lemma deriveX25519_eq a b :
  is_array kKeySize a → is_array kKeySize b →
  deriveX25519 a b
  = (if bool_decide (x25519 a b = zeroed kKeySize) then Err CryptoError.DerivationFailed
     else if zlen (x25519 a b) =? kKeySize then Ok (x25519 a b)
     else Err CryptoError.DerivationFailed).
Proof.
  intros Ha Hb. unfold deriveX25519.
  destruct (raw_keys_available EvpKeyType.X25519 a Ha) as [[ka Eka] _].
  destruct (raw_keys_available EvpKeyType.X25519 b Hb) as [_ [kb Ekb]].
  rewrite Eka, Ekb. pose proof (derive_available a b ka kb Eka Ekb) as Hd.
  unfold derive_call in Hd.
  destruct (EVP_PKEY_CTX_new ka) as [c0|]; cbn in *; [|by case_bool_decide].
  destruct (EVP_PKEY_derive_init c0) as [c1|]; cbn in *; [|by case_bool_decide].
  destruct (EVP_PKEY_derive_set_peer c1 kb) as [c2|]; cbn in *; [|by case_bool_decide].
  rewrite Hd. case_bool_decide; [done|]. cbn.
  destruct (Z.eqb_spec (zlen (x25519 a b)) kKeySize); cbn; [|done].
  by rewrite write_zeroed.
Qed.

#[export] Instance openssl_crypto_available : CryptoAvailable openssl_crypto.
Proof.
  constructor; cbn.
  - intros m. destruct (digest_available m) as (d & Hd & Hl). unfold sha256.
    unfold digest_call in Hd. do 3 peel Hd.
    rewrite Hx; cbn; rewrite Hx0; cbn; rewrite Hx1; cbn; rewrite Hd; cbn.
    by rewrite Hl.
  - intros k d i n Hk Hn. unfold hkdfSha256.
    destruct (Z.eqb_spec (zlen k) 0) as [Hz|_]; [destruct k; [done|unfold zlen in Hz; cbn in Hz; lia]|].
    destruct (Z.eqb_spec n 0); [lia|]. cbn [orb].
    edestruct (kdf_available n {| kdf_digest := "SHA256"; kdf_key := k; kdf_salt := d; kdf_info := i |})
      as [out Ho]; [done..|]. do 2 peel Ho.
    by rewrite Hx; cbn; rewrite Hx0; cbn; rewrite Ho.
  - intros kp m d (g & g' & Hg) Hs%or_error_Ok. do 4 peel Hs.
    destruct (negb _) eqn:E; [done|]. injection Hs as <-. reflect_bools.
    rewrite write_zeroed by done.
    destruct (generateKeyPair_value O _ _ _ _ Hg) as (_ & Hpa & Hpub).
    destruct (sign_spec _ _ _ _ _ _ Hx Hx0 Hx1 Hx2) as [_ ->].
    destruct (raw_keys_available EvpKeyType.ED25519 _ Hpa) as [_ [k Ek]].
    unfold verifyEd25519. rewrite Ek; cbn. rewrite Hx0; cbn.
    destruct (verify_available _ k Ek) as [c' Hc']. rewrite Hx0 in Hc'; cbn in Hc'.
    rewrite Hc', (verify_spec _ _ _ _ _ _ Ek Hx0 Hc'), Hpub. by rewrite ed25519_correct.
  - intros a b (ga & ga' & Ha) (gb & gb' & Hb).
    destruct (generateKeyPair_value O _ _ _ _ Ha) as (Ha1 & Ha2 & Hap).
    destruct (generateKeyPair_value O _ _ _ _ Hb) as (Hb1 & Hb2 & Hbp).
    rewrite !deriveX25519_eq by done. by rewrite Hap, Hbp, x25519_commutes.
  - intros k n p a Hk Hn Hp Ha. by rewrite seal_eq.
  - intros. by apply open_seal_inverse.
Qed.

(** The AEAD wrappers are exact inverses: for every key, nonce and
    associated data, opening a byte string returns [p] exactly when it is the
    string that sealing [p] produces, so a record decrypts to what was sealed
    and nothing that was not sealed with this key, nonce and header opens. *)
Theorem open_iff_seal k n p a c
  (Hk : is_array kKeySize k) (Hn : is_array kNonceSize n) (Hp : octets p) (Hc : octets c) :
  openChaCha20Poly1305 k n c a = Ok p ↔ sealChaCha20Poly1305 k n p a = Ok c.
Proof. by apply open_seal_inverse. Qed.
End Available.
