(* ===== verification/ToySsl.v ===== *)
(** * ToySsl: a concrete instance of the OpenSSL interface

    A small executable stand-in (a byte-subtraction stream cipher, a polynomial checksum as
    digest, tag and signature, addition modulo 256 as key agreement) that
    satisfies the laws of [Crypto.v].  It shows that those laws can hold
    together, and the witnesses of the components evaluate with it. *)

From S2P Require Import Prelude CryptoApi Crypto.

(** An [n]-byte checksum of a byte string. *)
Definition toy_hash (n : nat) (m : bytes) : bytes :=
  be_split n (fold_left (fun acc b => (acc * 257 + b + 1) mod 2 ^ (8 * Z.of_nat n)) m 7).

Definition toy_stream (k n p : bytes) : bytes :=
  let ks := u8 (fold_left Z.add (k ++ n) 90) in map (fun b => u8 (ks - b)) p.

Definition toy_add (a b : bytes) : bytes :=
  be_split 32 (be_join a + be_join b).

Record ToyKey := { tk_type : EvpKeyType; tk_raw : bytes }.
Record ToyDigest := { td_data : bytes; td_key : option ToyKey }.

Definition toy_draw (n : Z) (g : Z) : option bytes * Z :=
  if n <? 0 then (None, g)
  else (Some (be_split (Z.to_nat n) (g * 2 ^ 64 + g)), g + 1).

Definition toy_ssl : OpenSSL := {|
  RNG := Z;
  EVP_PKEY := ToyKey;
  EVP_PKEY_CTX := ToyKey * bytes;
  EVP_MD_CTX := ToyDigest;
  EVP_KDF := ();
  EVP_KDF_CTX := ();
  EVP_CIPHER_CTX := CipherState;
  RAND_priv_bytes := toy_draw;
  EVP_PKEY_CTX_new_id t := Some ({| tk_type := t; tk_raw := [] |}, []);
  EVP_PKEY_keygen_init c := Some c;
  EVP_PKEY_keygen c g :=
    (Some {| tk_type := tk_type c.1; tk_raw := be_split 32 (g * 2 ^ 128 + g + 1) |}, g + 1);
  EVP_PKEY_get_raw_private_key k := Some (tk_raw k);
  EVP_PKEY_get_raw_public_key k := Some (tk_raw k);
  EVP_PKEY_new_raw_private_key t a := Some {| tk_type := t; tk_raw := a |};
  EVP_PKEY_new_raw_public_key t a := Some {| tk_type := t; tk_raw := a |};
  EVP_MD_CTX_new := Some {| td_data := []; td_key := None |};
  EVP_DigestInit_sha256 c := Some c;
  EVP_DigestUpdate c m := Some {| td_data := td_data c ++ m; td_key := td_key c |};
  EVP_DigestFinal_ex c := Some (toy_hash 32 (td_data c));
  EVP_DigestSignInit c k := Some {| td_data := td_data c; td_key := Some k |};
  EVP_DigestSign c m := k ← td_key c; Some (toy_hash 64 (tk_raw k ++ m));
  EVP_DigestVerifyInit c k := Some {| td_data := td_data c; td_key := Some k |};
  EVP_DigestVerify c s m :=
    match td_key c with
    | Some k => bool_decide (s = toy_hash 64 (tk_raw k ++ m))
    | None => false
    end;
  EVP_PKEY_CTX_new k := Some (k, []);
  EVP_PKEY_derive_init c := Some c;
  EVP_PKEY_derive_set_peer c k := Some (c.1, tk_raw k);
  EVP_PKEY_derive c :=
    let s := toy_add (tk_raw c.1) c.2 in
    if bool_decide (s = zeroed kKeySize) then None else Some s;
  EVP_KDF_fetch _ := Some ();
  EVP_KDF_CTX_new _ := Some ();
  EVP_KDF_derive _ n p :=
    if n <? 0 then None
    else Some (toy_hash (Z.to_nat n) (kdf_key p ++ kdf_salt p ++ kdf_info p));
  EVP_CIPHER_CTX_new := Some (mkCipherState [] [] [] [] []);
  EVP_EncryptInit_chacha _ k n := Some (mkCipherState k n [] [] []);
  EVP_EncryptUpdate_aad c a :=
    Some (mkCipherState (cs_key c) (cs_nonce c) a (cs_input c) (cs_tag c));
  EVP_EncryptUpdate c p :=
    Some (toy_stream (cs_key c) (cs_nonce c) p,
          mkCipherState (cs_key c) (cs_nonce c) (cs_aad c) p (cs_tag c));
  EVP_EncryptFinal_ex c := Some ([], c);
  EVP_CTRL_AEAD_GET_TAG c _ :=
    Some (toy_hash 16 (cs_key c ++ cs_nonce c ++ cs_aad c
                         ++ toy_stream (cs_key c) (cs_nonce c) (cs_input c)));
  EVP_DecryptInit_chacha _ k n := Some (mkCipherState k n [] [] []);
  EVP_DecryptUpdate_aad c a :=
    Some (mkCipherState (cs_key c) (cs_nonce c) a (cs_input c) (cs_tag c));
  EVP_DecryptUpdate c p :=
    Some (toy_stream (cs_key c) (cs_nonce c) p,
          mkCipherState (cs_key c) (cs_nonce c) (cs_aad c) p (cs_tag c));
  EVP_CTRL_AEAD_SET_TAG c t :=
    Some (mkCipherState (cs_key c) (cs_nonce c) (cs_aad c) (cs_input c) t);
  EVP_DecryptFinal_ex c :=
    if bool_decide (cs_tag c = toy_hash 16 (cs_key c ++ cs_nonce c ++ cs_aad c ++ cs_input c))
    then Some [] else None;
|}.

#[local] Existing Instance toy_ssl.

Lemma toy_hash_array n m : is_array (Z.of_nat n) (toy_hash n m).
Proof. split; [apply zlen_be_split|apply be_split_octets]. Qed.

Lemma toy_stream_involutive k n p : octets p → toy_stream k n (toy_stream k n p) = p.
Proof.
  intros Hp. unfold toy_stream. cbv zeta. rewrite map_map.
  set (ks := u8 _). clearbody ks. induction Hp as [|b p Hb _ IH]; [done|].
  cbn [map]. rewrite IH. f_equal. unfold u8, wrap.
  rewrite Zminus_mod_idemp_r. replace (ks - (ks - b)) with b by lia.
  by apply Z.mod_small.
Qed.

Lemma toy_stream_octets k n p : octets (toy_stream k n p).
Proof. apply Forall_map, Forall_true. intros b. apply u8_in_width. Qed.

#[global] Instance toy_ssl_spec : OpenSSLSpec toy_ssl.
Proof.
  refine {|
    cipher_state := λ c, c : CipherState;
    chacha20 := toy_stream;
    poly1305 := λ k n a c, toy_hash 16 (k ++ n ++ a ++ c);
    raw_public := λ _ a, a;
    ed25519_sign := λ a m, toy_hash 64 (a ++ m);
    ed25519_check := λ a m s, bool_decide (s = toy_hash 64 (a ++ m));
    x25519 := toy_add |}; cbn.
  - intros n g bs g'. unfold toy_draw. destruct (Z.ltb_spec n 0); [done|].
    intros [= <- <-]. split; [rewrite zlen_be_split; lia|apply be_split_octets].
  - intros t c g k g' a b _ [= <- _] [= <-] [= <-].
    cbn [tk_raw]. split_and!; [apply be_split_octets..|done].
  - intros m d [= <-]. by destruct (toy_hash_array 32 m).
  - intros k a c c' m s [= <-] _ [= <-] [= <-]. cbn.
    split; [|done]. by destruct (toy_hash_array 64 (a ++ m)).
  - by intros k a c c' m s [= <-] _ [= <-].
  - intros a m. by apply bool_decide_eq_true.
  - intros a b ka kb s [= <-] [= <-]. unfold derive_call. cbn.
    case_bool_decide; [done|]. intros [= <-]. split; [apply be_split_octets|done].
  - intros a b. unfold toy_add. by rewrite Z.add_comm.
  - intros alg c n p out _ _. destruct (Z.ltb_spec n 0); [done|]. intros [= <-].
    pose proof (toy_hash_array (Z.to_nat n) (kdf_key p ++ kdf_salt p ++ kdf_info p)) as Hh.
    by rewrite Z2Nat.id in Hh.
  - intros k n p. unfold toy_stream. apply length_map.
  - intros. apply toy_stream_octets.
  - apply toy_stream_involutive.
  - intros. apply (toy_hash_array 16).
  - by intros c k n c' [= <-].
  - by intros c a k n c' -> [= <-].
  - by intros c k n a p out c' -> [= <- <-].
  - by intros c out c' [= <- <-].
  - by intros c k n a p tag -> [= <-].
  - by intros c k n c' [= <-].
  - by intros c a k n c' -> [= <-].
  - by intros c k n a p out c' -> [= <- <-].
  - by intros c k n a p tag c' -> [= <-].
  - intros c k n a p tag out ->. cbn. by case_bool_decide; [intros [= <-]|].
Defined.

#[global] Instance toy_ssl_available : OpenSSLAvailable toy_ssl.
Proof.
  constructor; cbn; try (intros; eexists; done).
  - intros a b ka kb [= <-] [= <-]. unfold derive_call. cbn. done.
  - intros n p Hk Hn. destruct (Z.ltb_spec n 0); [lia|eauto].
  - intros c k n a p ->. cbn. rewrite bool_decide_eq_true_2 by done. eauto.
Qed.

(** The cryptographic interface on top of it. *)
Definition toy_crypto : CryptoApi := @openssl_crypto toy_ssl.
#[global] Instance toy_crypto_laws : CryptoLaws toy_crypto := openssl_crypto_laws toy_ssl.
#[global] Instance toy_crypto_available : CryptoAvailable toy_crypto :=
  openssl_crypto_available toy_ssl.

Lemma be_split_array (n : nat) (v : Z) : is_array (Z.of_nat n) (be_split n v).
Proof. split; [apply zlen_be_split|apply be_split_octets]. Qed.

Definition sample_cipher : bytes :=
  match @sealChaCha20Poly1305 toy_ssl (be_split 32 5) (be_split 12 9) [1; 2; 3] [4; 5] with
  | Ok c => c | Err _ => [] end.

Lemma open_iff_seal_witness :
  is_array kKeySize (be_split 32 5) ∧ octets sample_cipher
  ∧ @openChaCha20Poly1305 toy_ssl (be_split 32 5) (be_split 12 9) sample_cipher [4; 5]
    = Ok [1; 2; 3].
Proof.
  assert (is_array kKeySize (be_split 32 5)) as Hk by apply (be_split_array 32).
  assert (is_array kNonceSize (be_split 12 9)) as Hn by apply (be_split_array 12).
  assert (octets sample_cipher) as Hc by (apply small_octets; vm_compute; reflexivity).
  split; [exact Hk|split; [exact Hc|]].
  apply (open_iff_seal toy_ssl (be_split 32 5) (be_split 12 9) [1; 2; 3] [4; 5]
           sample_cipher Hk Hn); [apply small_octets; reflexivity|exact Hc|].
  vm_compute. reflexivity.
Defined.
