(* ===== verification/KeySchedule.v ===== *)
(** * KeySchedule: handshake transcript, session keys and record nonces

    Models [src/ya_license_crypto/{include/.../handshake.h,src/handshake.cpp}]:
    the byte encoding of the handshake transcript that the service signs, its
    hash, the derivation of the directional keys and the per-record nonce. *)

From S2P Require Import Prelude CryptoApi.

Record HandshakeTranscript := mkHandshakeTranscript {
  ht_min_version : Z;
  ht_max_version : Z;
  ht_selected_version : Z;
  ht_client_nonce : bytes;
  ht_server_nonce : bytes;
  ht_client_public_key : bytes;
  ht_server_public_key : bytes;
  ht_service_key_id : string;
}.

Record DirectionalKey := mkDirectionalKey {
  dk_key : bytes;
  dk_nonce_salt : bytes;
}.

Record SessionKeys := mkSessionKeys {
  sk_client_to_service : DirectionalKey;
  sk_service_to_client : DirectionalKey;
}.

Definition kDomain : string := "YOAUTHORIZE-SERVICE-HANDSHAKE-V1".

Definition appendU16 (output : bytes) (value : Z) : bytes :=
  output ++ [u8 (Z.shiftr value 8); u8 value].

Definition appendBytes (output bs : bytes) : bytes := output ++ bs.

Definition appendSizedString (output : bytes) (value : string) : bytes :=
  appendU16 output (wrap 16 (str_size value)) ++ string_bytes value.

Definition encodeTranscript (transcript : HandshakeTranscript)
  : result CryptoError bytes :=
  if str_empty (ht_service_key_id transcript)
     || (2 ^ 16 - 1 <? str_size (ht_service_key_id transcript))
  then Err CryptoError.InvalidInput
  else
    let output := string_bytes kDomain in
    let output := appendU16 output (ht_min_version transcript) in
    let output := appendU16 output (ht_max_version transcript) in
    let output := appendU16 output (ht_selected_version transcript) in
    let output := appendBytes output (ht_client_nonce transcript) in
    let output := appendBytes output (ht_server_nonce transcript) in
    let output := appendBytes output (ht_client_public_key transcript) in
    let output := appendBytes output (ht_server_public_key transcript) in
    let output := appendSizedString output (ht_service_key_id transcript) in
    Ok output.

Definition makeRecordNonce (salt : bytes) (sequence : Z) : bytes :=
  salt ++ map (fun i => u8 (Z.shiftr sequence (56 - 8 * i))) [0; 1; 2; 3; 4; 5; 6; 7].

Section Derivation.
Context `{CryptoApi}.

Definition hashTranscript (transcript : HandshakeTranscript)
  : result CryptoError bytes :=
  match encodeTranscript transcript with
  | Err e => Err e
  | Ok encoded => cr_sha256 encoded
  end.

Definition derive (shared_secret transcript_hash : bytes) (label : string) (size : Z)
  : result CryptoError bytes :=
  cr_hkdfSha256 shared_secret transcript_hash (string_bytes label) size.

Definition deriveSessionKeys (shared_secret transcript_hash : bytes)
  : result CryptoError SessionKeys :=
  let c2s_key := derive shared_secret transcript_hash "YA-V1-C2S-KEY" kKeySize in
  let s2c_key := derive shared_secret transcript_hash "YA-V1-S2C-KEY" kKeySize in
  let c2s_nonce := derive shared_secret transcript_hash "YA-V1-C2S-NONCE" 4 in
  let s2c_nonce := derive shared_secret transcript_hash "YA-V1-S2C-NONCE" 4 in
  match c2s_key, s2c_key, c2s_nonce, s2c_nonce with
  | Ok c2s_key, Ok s2c_key, Ok c2s_nonce, Ok s2c_nonce =>
      Ok {| sk_client_to_service :=
              {| dk_key := c2s_key; dk_nonce_salt := c2s_nonce |};
            sk_service_to_client :=
              {| dk_key := s2c_key; dk_nonce_salt := s2c_nonce |} |}
  | _, _, _, _ => Err CryptoError.DerivationFailed
  end.

End Derivation.

(** ** Well-formedness *)

(** The fields as their C++ types bound them. *)
Definition transcript_wf (t : HandshakeTranscript) : Prop :=
  in_width 16 (ht_min_version t) ∧ in_width 16 (ht_max_version t)
  ∧ in_width 16 (ht_selected_version t)
  ∧ is_array kKeySize (ht_client_nonce t) ∧ is_array kKeySize (ht_server_nonce t)
  ∧ is_array kKeySize (ht_client_public_key t) ∧ is_array kKeySize (ht_server_public_key t).

Definition directional_wf (k : DirectionalKey) : Prop :=
  is_array kKeySize (dk_key k) ∧ is_array 4 (dk_nonce_salt k).

Lemma encodeTranscript_value t e :
  encodeTranscript t = Ok e →
  0 < str_size (ht_service_key_id t) < 2 ^ 16
  ∧ e = string_bytes kDomain
        ++ be_split 2 (ht_min_version t) ++ be_split 2 (ht_max_version t)
        ++ be_split 2 (ht_selected_version t)
        ++ ht_client_nonce t ++ ht_server_nonce t
        ++ ht_client_public_key t ++ ht_server_public_key t
        ++ be_split 2 (str_size (ht_service_key_id t))
        ++ string_bytes (ht_service_key_id t).
Proof.
  unfold encodeTranscript. destruct (_ || _) eqn:E; [done|]. reflect_bools.
  apply str_nonempty_size in H. intros <-%Ok_inj. split; [lia|].
  unfold appendSizedString, appendBytes, appendU16.
  rewrite wrap_small by (unfold in_width; lia). rewrite <- !app_assoc. reflexivity.
Qed.

Lemma encodeTranscript_defined t :
  0 < str_size (ht_service_key_id t) < 2 ^ 16 → is_ok (encodeTranscript t) = true.
Proof.
  intros [H0 H1]. unfold encodeTranscript. apply str_nonempty_size in H0.
  rewrite H0. cbn [orb]. by destruct (Z.ltb_spec (2 ^ 16 - 1) (str_size (ht_service_key_id t))); [lia|].
Qed.

Lemma is_array_same_length n a b : is_array n a → is_array n b → length a = length b.
Proof. unfold is_array, zlen. lia. Qed.

Lemma encodeTranscript_inj (t1 t2 : HandshakeTranscript) (e : bytes)
  (H1 : transcript_wf t1) (H2 : transcript_wf t2)
  (E1 : encodeTranscript t1 = Ok e) (E2 : encodeTranscript t2 = Ok e) : t1 = t2.
Proof.
  apply encodeTranscript_value in E1 as [Hs1 ->].
  apply encodeTranscript_value in E2 as [Hs2 E].
  destruct H1 as (Hv1 & Hm1 & Hl1 & Hc1 & Hn1 & Hp1 & Hk1).
  destruct H2 as (Hv2 & Hm2 & Hl2 & Hc2 & Hn2 & Hp2 & Hk2).
  apply app_inj_len in E as [_ E]; [|done].
  apply app_inj_len in E as [Ev E]; [|by rewrite !length_be_split].
  apply app_inj_len in E as [Em E]; [|by rewrite !length_be_split].
  apply app_inj_len in E as [El E]; [|by rewrite !length_be_split].
  apply app_inj_len in E as [Ec E]; [|by eapply is_array_same_length].
  apply app_inj_len in E as [En E]; [|by eapply is_array_same_length].
  apply app_inj_len in E as [Ep E]; [|by eapply is_array_same_length].
  apply app_inj_len in E as [Ek E]; [|by eapply is_array_same_length].
  apply app_inj_len in E as [_ E]; [|by rewrite !length_be_split].
  apply be_split_inj in Ev, Em, El; [|done..]. apply string_bytes_inj in E.
  destruct t1, t2; cbn in *; congruence.
Qed.

(** The transcript that the service signs determines everything that was
    negotiated: two well-formed transcripts with the same encoding agree on
    the offered version range, the selected version, both nonces, both
    ephemeral keys and the service key id, so a signature on one cannot be
    taken for a signature on another. *)
Theorem encodeTranscript_injective (t1 t2 : HandshakeTranscript) (e : bytes)
  (H1 : transcript_wf t1) (H2 : transcript_wf t2)
  (E1 : encodeTranscript t1 = Ok e) (E2 : encodeTranscript t2 = Ok e) : t1 = t2.
Proof. by apply (encodeTranscript_inj t1 t2 e). Qed.

(** ** Nonces *)

Lemma makeRecordNonce_be salt seq : makeRecordNonce salt seq = salt ++ be_split 8 seq.
Proof. reflexivity. Qed.

Lemma makeRecordNonce_array salt seq :
  is_array 4 salt → is_array kNonceSize (makeRecordNonce salt seq).
Proof.
  intros [Hl Ho]. rewrite makeRecordNonce_be. split.
  - by rewrite zlen_app, zlen_be_split, Hl.
  - apply octets_app. auto with width.
Qed.

Lemma makeRecordNonce_inj salt s1 s2 :
  in_width 64 s1 → in_width 64 s2 →
  makeRecordNonce salt s1 = makeRecordNonce salt s2 → s1 = s2.
Proof.
  rewrite !makeRecordNonce_be. intros H1 H2 E%app_inv_head.
  by apply be_split_inj in E.
Qed.

(** ** Session keys *)

Section Keys.
Context {C : CryptoApi}.

Lemma deriveSessionKeys_wf `{!CryptoLaws C} shared hash keys :
  deriveSessionKeys shared hash = Ok keys →
  directional_wf (sk_client_to_service keys) ∧ directional_wf (sk_service_to_client keys).
Proof.
  unfold deriveSessionKeys, derive.
  repeat (split_match; [|done]). intros [= <-].
  unfold directional_wf. cbn. repeat split; by eapply hkdf_array.
Qed.

Lemma deriveSessionKeys_available `{!CryptoAvailable C} shared hash :
  shared ≠ [] → is_ok (deriveSessionKeys shared hash) = true.
Proof.
  intros Hs. unfold deriveSessionKeys, derive.
  assert (∀ l n, 0 < n → ∃ v, cr_hkdfSha256 shared hash l n = Ok v) as Hd.
  { intros l n Hn. by apply is_ok_true, hkdf_available. }
  destruct (Hd (string_bytes "YA-V1-C2S-KEY") kKeySize) as [? ->]; [done|].
  destruct (Hd (string_bytes "YA-V1-S2C-KEY") kKeySize) as [? ->]; [done|].
  destruct (Hd (string_bytes "YA-V1-C2S-NONCE") 4) as [? ->]; [done|].
  by destruct (Hd (string_bytes "YA-V1-S2C-NONCE") 4) as [? ->].
Qed.
End Keys.

Definition sample_transcript : HandshakeTranscript :=
  {| ht_min_version := 1; ht_max_version := 2; ht_selected_version := 1;
     ht_client_nonce := be_split 32 1; ht_server_nonce := be_split 32 2;
     ht_client_public_key := be_split 32 3; ht_server_public_key := be_split 32 4;
     ht_service_key_id := "svc" |}.

Lemma encodeTranscript_injective_witness :
  ∃ e, transcript_wf sample_transcript ∧ encodeTranscript sample_transcript = Ok e
       ∧ ∀ t, transcript_wf t → encodeTranscript t = Ok e → t = sample_transcript.
Proof.
  assert (transcript_wf sample_transcript) as Hw.
  { unfold transcript_wf, is_array, in_width. cbn.
    split_and!; (done || apply be_split_octets). }
  eexists. split; [exact Hw|split; [reflexivity|]].
  intros t Ht He. eapply encodeTranscript_injective; [exact Ht|exact Hw|exact He|reflexivity].
Defined.
