(* ===== verification/RecordLayer.v ===== *)
(** * RecordLayer: encrypted records

    Models [src/ya_license_protocol/{include/.../record.h,src/record.cpp}]:
    [RecordWriter] seals a plaintext into an encrypted frame whose header is
    the associated data, [RecordReader] opens it.  Both count sequence
    numbers; the theorems show that the reader accepts exactly the frame the
    peer writer produces at its own position, that no nonce is used twice,
    and that a stream of records is delivered unchanged and in order. *)

From S2P Require Import Prelude Frame CryptoApi KeySchedule ToySsl.

Record RecordKey := mkRecordKey {
  rk_key : bytes;
  rk_nonce_salt : bytes;
}.

Module RecordError.
Inductive RecordError :=
| InvalidFrame
| UnencryptedFrame
| InvalidSequence
| SequenceExhausted
| AuthenticationFailed.
End RecordError.
Abbreviation RecordError := RecordError.RecordError.

Record RecordWriter := mkRecordWriter {
  rw_key : RecordKey;
  rw_next_sequence : Z;
}.

Record RecordReader := mkRecordReader {
  rr_key : RecordKey;
  rr_next_sequence : Z;
}.

(** The constructors; [next_sequence_] starts at 1. *)
Definition newRecordWriter (key : RecordKey) : RecordWriter :=
  {| rw_key := key; rw_next_sequence := 1 |}.
Definition newRecordReader (key : RecordKey) : RecordReader :=
  {| rr_key := key; rr_next_sequence := 1 |}.

(** [std::numeric_limits<std::uint64_t>::max()] *)
Definition UINT64_MAX : Z := 2 ^ 64 - 1.

(** The header [RecordWriter::seal] builds for [n] plaintext bytes. *)
Definition record_header (sequence n : Z) : FrameHeader :=
  {| fh_version := kFrameVersion; fh_flags := kEncryptedFlag;
     fh_sequence := sequence; fh_payload_size := wrap 32 (n + kTagSize) |}.

Section Records.
Context `{CryptoApi}.

Definition RecordWriter_seal (w : RecordWriter) (plaintext : bytes)
  : result RecordError bytes * RecordWriter :=
  if rw_next_sequence w =? UINT64_MAX then (Err RecordError.SequenceExhausted, w)
  else if (zlen plaintext =? 0)
          || (kDefaultMaxPayloadSize - kTagSize <? zlen plaintext)
  then (Err RecordError.InvalidFrame, w)
  else
    let encoded_header :=
      encodeHeader (record_header (rw_next_sequence w) (zlen plaintext)) in
    let nonce := makeRecordNonce (rk_nonce_salt (rw_key w)) (rw_next_sequence w) in
    match cr_sealChaCha20Poly1305 (rk_key (rw_key w)) nonce plaintext encoded_header with
    | Err _ => (Err RecordError.AuthenticationFailed, w)
    | Ok encrypted =>
        (Ok (encoded_header ++ encrypted),
         {| rw_key := rw_key w; rw_next_sequence := wrap 64 (rw_next_sequence w + 1) |})
    end.

Definition RecordReader_open (r : RecordReader) (frame : bytes)
  : result RecordError bytes * RecordReader :=
  if rr_next_sequence r =? UINT64_MAX then (Err RecordError.SequenceExhausted, r)
  else
    match decodeFrame frame kDefaultMaxPayloadSize with
    | Err _ => (Err RecordError.InvalidFrame, r)
    | Ok decoded =>
        if negb (fh_flags (fd_header decoded) =? kEncryptedFlag)
        then (Err RecordError.UnencryptedFrame, r)
        else if negb (fh_sequence (fd_header decoded) =? rr_next_sequence r)
        then (Err RecordError.InvalidSequence, r)
        else
          let nonce := makeRecordNonce (rk_nonce_salt (rr_key r)) (rr_next_sequence r) in
          match cr_openChaCha20Poly1305 (rk_key (rr_key r)) nonce (fd_payload decoded)
                  (take 20 frame) with
          | Err _ => (Err RecordError.AuthenticationFailed, r)
          | Ok plaintext =>
              (Ok plaintext,
               {| rr_key := rr_key r;
                  rr_next_sequence := wrap 64 (rr_next_sequence r + 1) |})
          end
    end.

(** The frame that carries [p] at position [sequence] under [key]: the header
    of an encrypted record of that size, and the sealed plaintext with that
    header as associated data. *)
Definition authentic_frame (key : RecordKey) (sequence : Z) (p f : bytes) : Prop :=
  ∃ e, cr_sealChaCha20Poly1305 (rk_key key)
         (makeRecordNonce (rk_nonce_salt key) sequence) p
         (encodeHeader (record_header sequence (zlen p))) = Ok e
       ∧ f = encodeHeader (record_header sequence (zlen p)) ++ e.

(** A run of [seal] calls: the frames of the calls that succeed, and the
    nonces those calls passed to the cipher. *)
Fixpoint seal_all (w : RecordWriter) (ps : list bytes) : list bytes * RecordWriter :=
  match ps with
  | [] => ([], w)
  | p :: ps' =>
      match RecordWriter_seal w p with
      | (Ok f, w') => let (fs, w'') := seal_all w' ps' in (f :: fs, w'')
      | (Err _, w') => seal_all w' ps'
      end
  end.

Fixpoint seal_nonces (w : RecordWriter) (ps : list bytes) : list bytes :=
  match ps with
  | [] => []
  | p :: ps' =>
      match RecordWriter_seal w p with
      | (Ok _, w') =>
          makeRecordNonce (rk_nonce_salt (rw_key w)) (rw_next_sequence w) :: seal_nonces w' ps'
      | (Err _, w') => seal_nonces w' ps'
      end
  end.

(** A run of [open] calls; a call that fails leaves no plaintext. *)
Fixpoint open_all (r : RecordReader) (fs : list bytes) : list bytes * RecordReader :=
  match fs with
  | [] => ([], r)
  | f :: fs' =>
      match RecordReader_open r f with
      | (Ok p, r') => let (ps, r'') := open_all r' fs' in (p :: ps, r'')
      | (Err _, r') => open_all r' fs'
      end
  end.

End Records.

(** ** Invariants *)

Definition record_key_wf (k : RecordKey) : Prop :=
  is_array kKeySize (rk_key k) ∧ is_array 4 (rk_nonce_salt k).
Definition writer_wf (w : RecordWriter) : Prop :=
  record_key_wf (rw_key w) ∧ 1 <= rw_next_sequence w <= UINT64_MAX.
Definition reader_wf (r : RecordReader) : Prop :=
  record_key_wf (rr_key r) ∧ 1 <= rr_next_sequence r <= UINT64_MAX.

(** What [seal] accepts. *)
Definition sealable (p : bytes) : Prop :=
  octets p ∧ 0 < zlen p <= kDefaultMaxPayloadSize - kTagSize.

Lemma new_writer_wf k : record_key_wf k → writer_wf (newRecordWriter k).
Proof. intros Hk. split; [done|]. cbn. unfold UINT64_MAX. lia. Qed.

Lemma new_reader_wf k : record_key_wf k → reader_wf (newRecordReader k).
Proof. intros Hk. split; [done|]. cbn. unfold UINT64_MAX. lia. Qed.

Lemma record_header_admissible seq n :
  in_width 64 seq → 0 <= n <= kDefaultMaxPayloadSize - kTagSize →
  admissible kDefaultMaxPayloadSize (record_header seq n)
  ∧ fh_payload_size (record_header seq n) = n + kTagSize.
Proof.
  intros Hs Hn. unfold admissible, record_header, kDefaultMaxPayloadSize, kTagSize in *.
  cbn [fh_version fh_flags fh_sequence fh_payload_size].
  rewrite wrap_small by (unfold in_width; lia).
  unfold in_width in *. split_and!; auto; lia.
Qed.

Section Facts.
Context {C : CryptoApi}.

(** The only successful outcome of [seal]. *)
Lemma seal_Ok w p f w' :
  RecordWriter_seal w p = (Ok f, w') →
  rw_next_sequence w ≠ UINT64_MAX
  ∧ 0 < zlen p <= kDefaultMaxPayloadSize - kTagSize
  ∧ w' = {| rw_key := rw_key w; rw_next_sequence := wrap 64 (rw_next_sequence w + 1) |}
  ∧ authentic_frame (rw_key w) (rw_next_sequence w) p f.
Proof.
  unfold RecordWriter_seal. destruct (Z.eqb_spec (rw_next_sequence w) UINT64_MAX); [done|].
  destruct (_ || _) eqn:E; [done|]. reflect_bools. pose proof (zlen_nonneg p).
  destruct (cr_sealChaCha20Poly1305 _ _ _ _) as [e|] eqn:Es; [|done].
  intros [= <- <-]. unfold authentic_frame. split_and!; eauto; lia.
Qed.

Lemma seal_Err w p e w' : RecordWriter_seal w p = (Err e, w') → w' = w.
Proof. unfold RecordWriter_seal. repeat split_match; congruence. Qed.

Lemma open_Err r f e r' : RecordReader_open r f = (Err e, r') → r' = r.
Proof. unfold RecordReader_open. repeat split_match; congruence. Qed.

Lemma writer_wf_step w :
  writer_wf w → rw_next_sequence w ≠ UINT64_MAX →
  wrap 64 (rw_next_sequence w + 1) = rw_next_sequence w + 1
  ∧ writer_wf {| rw_key := rw_key w; rw_next_sequence := wrap 64 (rw_next_sequence w + 1) |}.
Proof.
  intros [Hk Hs] Hne. unfold writer_wf, UINT64_MAX in *.
  rewrite wrap_small by (unfold in_width; lia). cbn. auto with lia.
Qed.

Lemma seal_wf w p r w' : writer_wf w → RecordWriter_seal w p = (r, w') → writer_wf w'.
Proof.
  intros Hw. destruct r as [f|e]; intros Hs.
  - apply seal_Ok in Hs as (Hne & _ & -> & _). by apply writer_wf_step.
  - by apply seal_Err in Hs as ->.
Qed.

Context `{!CryptoLaws C}.

Lemma seal_frame w p f w' :
  writer_wf w → octets p → RecordWriter_seal w p = (Ok f, w') →
  octets f ∧ wire_header f = record_header (rw_next_sequence w) (zlen p)
  ∧ decodeFrame f kDefaultMaxPayloadSize
    = Ok {| fd_header := record_header (rw_next_sequence w) (zlen p);
            fd_payload := drop 20 f |}.
Proof.
  intros [Hk Hs] Hp (Hne & Hn & _ & e & He & ->)%seal_Ok.
  edestruct (record_header_admissible (rw_next_sequence w) (zlen p)) as [Ha Hz];
    [unfold in_width, UINT64_MAX in *; lia|lia|].
  pose proof (seal_size _ _ _ _ _ He) as Hsz.
  assert (octets (encodeHeader (record_header (rw_next_sequence w) (zlen p)) ++ e)) as Ho.
  { apply octets_app; split; [auto with width|]. by eapply seal_octets. }
  pose proof (wire_header_encode _ e _ Ha) as Hw.
  split_and!; [done|done|].
  apply decodeFrame_Ok; [done|]. rewrite Hw.
  split_and!; [|done|done| |done].
  - rewrite length_app, length_encodeHeader. lia.
  - rewrite zlen_app, zlen_encodeHeader, Hz. lia.
Qed.

Context `{!CryptoAvailable C}.

Lemma seal_total w p :
  writer_wf w → rw_next_sequence w ≠ UINT64_MAX → sealable p →
  ∃ f, RecordWriter_seal w p
       = (Ok f, {| rw_key := rw_key w; rw_next_sequence := wrap 64 (rw_next_sequence w + 1) |}).
Proof.
  intros [[Hk1 Hk2] Hs] Hne [Ho Hn]. unfold RecordWriter_seal.
  rewrite (proj2 (Z.eqb_neq _ _) Hne).
  destruct (Z.eqb_spec (zlen p) 0); [lia|].
  destruct (Z.ltb_spec (kDefaultMaxPayloadSize - kTagSize) (zlen p)); [lia|]. cbn [orb].
  assert (is_ok (cr_sealChaCha20Poly1305 (rk_key (rw_key w))
    (makeRecordNonce (rk_nonce_salt (rw_key w)) (rw_next_sequence w)) p
    (encodeHeader (record_header (rw_next_sequence w) (zlen p)))) = true) as Hav.
  { apply seal_available; [done|by apply makeRecordNonce_array| |done].
    unfold INT_MAX, kDefaultMaxPayloadSize, kTagSize in *. lia. }
  destruct (cr_sealChaCha20Poly1305 _ _ _ _); [eauto|done].
Qed.

(** The reader accepts exactly the authentic frame of its own position. *)
Lemma open_Ok_iff r f p r' :
  reader_wf r → octets f → octets p →
  RecordReader_open r f = (Ok p, r') ↔
  rr_next_sequence r ≠ UINT64_MAX
  ∧ zlen p <= kDefaultMaxPayloadSize - kTagSize
  ∧ authentic_frame (rr_key r) (rr_next_sequence r) p f
  ∧ r' = {| rr_key := rr_key r; rr_next_sequence := wrap 64 (rr_next_sequence r + 1) |}.
Proof.
  intros [[Hk Hsalt] Hs] Hf Hp. unfold authentic_frame. split.
  - unfold RecordReader_open. destruct (Z.eqb_spec (rr_next_sequence r) UINT64_MAX) as [|Hne]; [done|].
    destruct (decodeFrame f _) as [d|] eqn:Ed; [|done].
    apply decodeFrame_Ok in Ed as (Hl & Hm & Ha & Hz & ->); [|done]. cbn [fd_header fd_payload].
    destruct (Z.eqb_spec (fh_flags (wire_header f)) kEncryptedFlag) as [Hfl|]; [|done].
    destruct (Z.eqb_spec (fh_sequence (wire_header f)) (rr_next_sequence r)) as [Hsq|]; [|done].
    cbn [negb]. destruct (cr_openChaCha20Poly1305 _ _ _ _) as [q|] eqn:Eo; [|done].
    intros [= -> <-].
    apply open_exact in Eo; [|done|by apply makeRecordNonce_array|done|by apply Forall_drop].
    pose proof (seal_size _ _ _ _ _ Eo) as Hsz.
    destruct Ha as (Hv & _ & _ & Hw32 & Hpos). unfold kFrameHeaderSize, zlen in Hz, Hsz.
    rewrite length_drop in Hsz.
    assert (wire_header f = record_header (rr_next_sequence r) (zlen p)) as Hh.
    { destruct (wire_header f) as [v fl sq sz]; cbn in *. subst.
      unfold record_header, zlen. f_equal. rewrite wrap_small; unfold in_width in *; lia. }
    rewrite <- (encode_wire_header f) in Eo by done. rewrite Hh in Eo.
    split_and!; [done|unfold zlen; lia| |done].
    exists (drop 20 f). split; [done|]. by rewrite <- Hh, encode_wire_header, take_drop.
  - intros (Hne & Hn & (e & He & ->) & ->).
    pose proof (seal_size _ _ _ _ _ He) as Hsz. pose proof (zlen_nonneg p).
    assert (admissible kDefaultMaxPayloadSize (record_header (rr_next_sequence r) (zlen p))
            ∧ fh_payload_size (record_header (rr_next_sequence r) (zlen p)) = zlen p + kTagSize)
      as [Ha Hz].
    { apply record_header_admissible; unfold in_width, UINT64_MAX in *; lia. }
    assert (decodeFrame (encodeHeader (record_header (rr_next_sequence r) (zlen p)) ++ e)
              kDefaultMaxPayloadSize
            = Ok {| fd_header := record_header (rr_next_sequence r) (zlen p); fd_payload := e |})
      as Hd.
    { apply decodeFrame_Ok; [done|]. rewrite (wire_header_encode _ _ _ Ha).
      split_and!; [|done|done| |done].
      - rewrite length_app, length_encodeHeader. lia.
      - rewrite zlen_app, zlen_encodeHeader, Hz. lia. }
    unfold RecordReader_open. rewrite (proj2 (Z.eqb_neq _ _) Hne), Hd.
    cbn [fd_header fd_payload]. unfold record_header at 1 2.
    cbn [fh_flags fh_sequence]. rewrite !Z.eqb_refl. cbn [negb].
    rewrite take_app_length' by done.
    apply octets_app in Hf as [_ Hoe].
    apply open_exact in He; [|done|by apply makeRecordNonce_array|done..].
    by rewrite He.
Qed.

Lemma open_after_seal r p f w' :
  reader_wf r → octets p →
  RecordWriter_seal {| rw_key := rr_key r; rw_next_sequence := rr_next_sequence r |} p = (Ok f, w') →
  RecordReader_open r f
  = (Ok p, {| rr_key := rr_key r; rr_next_sequence := wrap 64 (rr_next_sequence r + 1) |}).
Proof.
  intros Hr Hp Hs. destruct (seal_frame {| rw_key := rr_key r; rw_next_sequence := rr_next_sequence r |}
    p f w' Hr Hp Hs) as (Hf & _).
  apply seal_Ok in Hs as (Hne & Hn & _ & Ha).
  apply open_Ok_iff; [done..|]. split_and!; [done|cbn in *; lia|done|done].
Qed.

Lemma open_plaintext_octets r f p r' :
  octets f → RecordReader_open r f = (Ok p, r') → octets p.
Proof.
  intros Hf. unfold RecordReader_open. destruct (_ =? _); [done|].
  destruct (decodeFrame f _) as [d|] eqn:Ed; [|done].
  apply decodeFrame_Ok in Ed as (_ & _ & _ & _ & ->); [|done]. cbn [fd_header fd_payload].
  repeat (destruct (negb _); [done|]).
  destruct (cr_openChaCha20Poly1305 _ _ _ _) as [q|] eqn:Eo; [|done]. intros [= -> _].
  eapply open_octets; [|exact Eo]. by apply Forall_drop.
Qed.

Lemma reader_wf_step r :
  reader_wf r → rr_next_sequence r ≠ UINT64_MAX →
  reader_wf {| rr_key := rr_key r; rr_next_sequence := wrap 64 (rr_next_sequence r + 1) |}.
Proof. intros Hr Hne. by apply (writer_wf_step {| rw_key := rr_key r; rw_next_sequence := rr_next_sequence r |}). Qed.
End Facts.

Section Claims.
Context {C : CryptoApi} `{!CryptoLaws C} `{!CryptoAvailable C}.

(** C6. A reader accepts a frame, for any byte string presented to it,
    exactly when that string is the authentic frame of the reader's current
    sequence number under the reader's key; it then returns the plaintext
    that was sealed and moves on by one.  Tampered, reordered, replayed or
    plaintext frames are therefore never accepted. *)
Theorem open_exact_position r f p r'
  (Hr : reader_wf r) (Hf : octets f) (Hp : octets p) :
  RecordReader_open r f = (Ok p, r') ↔
  rr_next_sequence r ≠ UINT64_MAX
  ∧ zlen p <= kDefaultMaxPayloadSize - kTagSize
  ∧ authentic_frame (rr_key r) (rr_next_sequence r) p f
  ∧ r' = {| rr_key := rr_key r; rr_next_sequence := rr_next_sequence r + 1 |}.
Proof.
  rewrite open_Ok_iff by done.
  split; intros (Hne & Hn & Ha & ->); (split_and!; [done..|]); f_equal.
  all: destruct Hr as [_ Hs]; rewrite wrap_small; unfold in_width, UINT64_MAX in *; (done || lia).
Qed.

(** A frame that has been accepted is never accepted again: the same
    reader rejects it as out of sequence (or because its sequence space is
    exhausted) and its state does not change. *)
Theorem replay_rejected r f p r'
  (Hr : reader_wf r) (Hf : octets f) (Hp : octets p)
  (Ho : RecordReader_open r f = (Ok p, r')) :
  RecordReader_open r' f = (Err RecordError.InvalidSequence, r')
  ∨ rr_next_sequence r' = UINT64_MAX
    ∧ RecordReader_open r' f = (Err RecordError.SequenceExhausted, r').
Proof.
  pose proof Ho as Hi. apply open_Ok_iff in Hi as (Hne & Hn & _ & ->); [|done..].
  revert Ho. unfold RecordReader_open.
  rewrite (proj2 (Z.eqb_neq _ _) Hne). cbn [rr_next_sequence rr_key].
  destruct (decodeFrame f _) as [d|]; [|done].
  destruct (Z.eqb_spec (fh_flags (fd_header d)) kEncryptedFlag); [|done].
  destruct (Z.eqb_spec (fh_sequence (fd_header d)) (rr_next_sequence r)) as [Hsq|]; [|done].
  intros _. cbn [negb]. destruct Hr as [_ Hs].
  rewrite wrap_small by (unfold in_width, UINT64_MAX in *; lia).
  destruct (Z.eqb_spec (rr_next_sequence r + 1) UINT64_MAX); [by right|left].
  by destruct (Z.eqb_spec (fh_sequence (fd_header d)) (rr_next_sequence r + 1)); [lia|].
Qed.

Lemma seal_nonces_seq w ps n :
  writer_wf w → n ∈ seal_nonces w ps →
  ∃ s, n = makeRecordNonce (rk_nonce_salt (rw_key w)) s ∧ rw_next_sequence w <= s < UINT64_MAX.
Proof.
  revert w. induction ps as [|p ps IH]; intros w Hw; cbn; [by intros ?%not_elem_of_nil|].
  destruct (RecordWriter_seal w p) as [[f|e] w'] eqn:E.
  - pose proof (seal_wf _ _ _ _ Hw E) as Hw'.
    apply seal_Ok in E as (Hne & _ & -> & _).
    destruct (writer_wf_step w Hw Hne) as [Hstep _].
    intros [-> | Hin]%elem_of_cons.
    + exists (rw_next_sequence w). destruct Hw. split; [done|lia].
    + apply IH in Hin as (s & -> & Hs); [|done]. cbn in *. exists s. split; [done|lia].
  - apply seal_Err in E as ->. auto.
Qed.

(** Nonce freshness: however many plaintexts are offered to a writer, and
    whichever of the calls fail, the nonces handed to the cipher under the
    writer's key are pairwise distinct; the sequence number never wraps. *)
Theorem seal_nonces_distinct w ps (Hw : writer_wf w) : NoDup (seal_nonces w ps).
Proof.
  revert w Hw. induction ps as [|p ps IH]; intros w Hw; cbn; [constructor|].
  destruct (RecordWriter_seal w p) as [[f|e] w'] eqn:E.
  - pose proof (seal_wf _ _ _ _ Hw E) as Hw'.
    apply seal_Ok in E as (Hne & _ & -> & _).
    destruct (writer_wf_step w Hw Hne) as [Hstep _].
    constructor; [|by apply IH].
    intros (s & Heq & Hs)%seal_nonces_seq; [|done]. cbn in Heq, Hs.
    destruct Hw as [_ Hw].
    apply makeRecordNonce_inj in Heq; unfold in_width, UINT64_MAX in *; lia.
  - apply seal_Err in E as ->. by apply IH.
Qed.

(** A stream of records is delivered unchanged and in order: sealing any
    list of admissible plaintexts produces one frame per plaintext, and a
    reader with the same key and position opens those frames to exactly that
    list and ends at the writer's position. *)
Theorem record_stream_roundtrip r ps
  (Hr : reader_wf r) (Hps : Forall sealable ps)
  (Hroom : rr_next_sequence r + zlen ps <= UINT64_MAX) :
  let '(fs, w') := seal_all {| rw_key := rr_key r; rw_next_sequence := rr_next_sequence r |} ps in
  length fs = length ps
  ∧ open_all r fs = (ps, {| rr_key := rr_key r; rr_next_sequence := rw_next_sequence w' |}).
Proof.
  revert r Hr Hroom. induction Hps as [|p ps Hp _ IH]; intros r Hr Hroom.
  { cbn. by destruct r. }
  rewrite zlen_cons in Hroom. pose proof (zlen_nonneg ps).
  assert (rr_next_sequence r ≠ UINT64_MAX) as Hne by lia.
  edestruct (seal_total {| rw_key := rr_key r; rw_next_sequence := rr_next_sequence r |} p)
    as [f Hf]; [done..|].
  cbn [seal_all]. rewrite Hf. cbn [rw_key rw_next_sequence].
  specialize (IH _ (reader_wf_step r Hr Hne)). cbn [rr_key rr_next_sequence] in IH.
  destruct (seal_all _ ps) as [fs w'].
  destruct IH as [Hl Ho].
  { destruct Hr as [_ Hs]. rewrite wrap_small; unfold in_width, UINT64_MAX in *; lia. }
  split; [cbn; lia|]. cbn [open_all].
  rewrite (open_after_seal r p f _ Hr (proj1 Hp) Hf). by rewrite Ho.
Qed.
End Claims.

(** ** Witnesses *)

Section Witnesses.
#[local] Existing Instance toy_crypto.

Definition sample_record_key : RecordKey :=
  {| rk_key := be_split 32 77; rk_nonce_salt := be_split 4 3 |}.

Lemma sample_record_key_wf : record_key_wf sample_record_key.
Proof. split; [apply (be_split_array 32)|apply (be_split_array 4)]. Qed.

Definition sample_record : bytes := Eval vm_compute in
  match RecordWriter_seal (newRecordWriter sample_record_key) [11; 12; 13] with
  | (Ok f, _) => f | _ => [] end.

Lemma sample_record_octets : octets sample_record.
Proof. apply small_octets. vm_compute. reflexivity. Qed.

Lemma open_exact_position_witness :
  reader_wf (newRecordReader sample_record_key)
  ∧ authentic_frame sample_record_key 1 [11; 12; 13] sample_record.
Proof.
  pose proof (new_reader_wf _ sample_record_key_wf) as Hr.
  split; [exact Hr|].
  refine (proj1 (proj2 (proj2 (proj1 (open_exact_position
    (newRecordReader sample_record_key) sample_record [11; 12; 13]
    {| rr_key := sample_record_key; rr_next_sequence := 2 |} Hr sample_record_octets _) _)))).
  - apply small_octets. reflexivity.
  - vm_compute. reflexivity.
Defined.

Lemma replay_rejected_witness :
  let r' := {| rr_key := sample_record_key; rr_next_sequence := 2 |} in
  RecordReader_open r' sample_record = (Err RecordError.InvalidSequence, r')
  ∨ rr_next_sequence r' = UINT64_MAX
    ∧ RecordReader_open r' sample_record = (Err RecordError.SequenceExhausted, r').
Proof.
  cbv zeta. apply (replay_rejected (newRecordReader sample_record_key) sample_record [11; 12; 13]).
  - exact (new_reader_wf _ sample_record_key_wf).
  - exact sample_record_octets.
  - apply small_octets. reflexivity.
  - vm_compute. reflexivity.
Defined.

Lemma seal_nonces_distinct_witness :
  writer_wf (newRecordWriter sample_record_key)
  ∧ NoDup (seal_nonces (newRecordWriter sample_record_key) [[1]; []; [2; 3]]).
Proof.
  pose proof (new_writer_wf _ sample_record_key_wf) as Hw.
  split; [exact Hw|]. exact (seal_nonces_distinct _ _ Hw).
Defined.

Lemma record_stream_roundtrip_witness :
  let fs := (seal_all (newRecordWriter sample_record_key) [[1]; [2; 3]]).1 in
  length fs = 2%nat
  ∧ (open_all (newRecordReader sample_record_key) fs).1 = [[1]; [2; 3]].
Proof.
  pose proof (record_stream_roundtrip (newRecordReader sample_record_key) [[1]; [2; 3]]
    (new_reader_wf _ sample_record_key_wf)) as H.
  assert (Forall sealable [[1]; [2; 3]]) as Hs.
  { repeat constructor; try done; apply small_octets; reflexivity. }
  specialize (H Hs ltac:(unfold zlen, UINT64_MAX; cbn; lia)).
  cbn [rr_key rr_next_sequence newRecordReader] in H.
  fold (newRecordWriter sample_record_key) in H.
  destruct (seal_all (newRecordWriter sample_record_key) [[1]; [2; 3]]) as [fs w'].
  destruct H as [Hl Ho]. cbv zeta. cbn [fst].
  split; [exact Hl|]. rewrite Ho. reflexivity.
Defined.
End Witnesses.
