(* ===== verification/FlatBuf.v ===== *)
(** * FlatBuf: the serialized tables and the generated accessors

    The tables of [schema/protocol.fbs] and [schema/license.fbs], as the
    values that the FlatBuffers accessors expose.  The accessor, builder and
    verifier code itself is generated by [flatc] and the FlatBuffers library,
    neither of which is in the repository: it is the classes
    [ProtocolBuffers] and [LicenseBuffers], with the documented behaviour the
    code relies on in [ProtocolBuffersLaws] and [LicenseBuffersLaws].

    A table field that is not [required] may be absent: a string or vector
    accessor then returns a null pointer ([None] here).  The same holds for
    the value of a union field, whose discriminator is a separate field. *)

From S2P Require Import Prelude.

(** ** Tables of [protocol.fbs] *)

(** The elements of a [\[string\]] field, as the pointers an iteration yields. *)
Abbreviation StringVector := (list (option string)).

Record ClientHelloT := mkClientHelloT {
  cht_min_protocol_version : Z;
  cht_max_protocol_version : Z;
  cht_client_nonce : option bytes;
  cht_ephemeral_public_key : option bytes;
  cht_sdk_version : option string;
}.

Record ServerHelloT := mkServerHelloT {
  sht_selected_protocol_version : Z;
  sht_server_nonce : option bytes;
  sht_ephemeral_public_key : option bytes;
  sht_service_key_id : option string;
  sht_signature : option bytes;
}.

Record UnsupportedVersionT := mkUnsupportedVersionT {
  uvt_min_protocol_version : Z;
  uvt_max_protocol_version : Z;
}.

Record ClientFinishedT := mkClientFinishedT { cft_transcript_hash : option bytes }.

Record AuthorizeT := mkAuthorizeT {
  azt_product_id : option string;
  azt_process_id : Z;
  azt_process_start_time : Z;
}.

Record AuthResultT := mkAuthResultT {
  art_error : Z;
  art_session_id : option bytes;
  art_features : option StringVector;
  art_expire_time : Z;
  art_heartbeat_interval_ms : Z;
  art_heartbeat_timeout_ms : Z;
}.

Record HeartbeatT := mkHeartbeatT { hbt_session_id : option bytes }.

Record HeartbeatAckT := mkHeartbeatAckT {
  hat_state : Z;
  hat_features : option StringVector;
  hat_expire_time : Z;
}.

Record FeatureChangedT := mkFeatureChangedT { fct_features : option StringVector }.

Record ErrorT := mkErrorT { ert_code : Z; ert_message : option string }.

(** [union Message]: the discriminator, and the value it selects. *)
Module Message.
Inductive Message :=
| NONE
| ClientHello
| ServerHello
| UnsupportedVersion
| ClientFinished
| Authorize
| AuthResult
| Heartbeat
| HeartbeatAck
| QueryLicense
| QueryFeatures
| CloseSession
| LicenseChanged
| FeatureChanged
| LicenseExpired
| LicenseRevoked
| Ping
| Error
| Unnamed (tag : Z).
End Message.
Abbreviation Message := Message.Message.

#[global] Instance Message_eq_dec : EqDecision Message.
Proof. solve_decision. Defined.

Inductive MessageBody :=
| BodyClientHello (t : ClientHelloT)
| BodyServerHello (t : ServerHelloT)
| BodyUnsupportedVersion (t : UnsupportedVersionT)
| BodyClientFinished (t : ClientFinishedT)
| BodyAuthorize (t : AuthorizeT)
| BodyAuthResult (t : AuthResultT)
| BodyHeartbeat (t : HeartbeatT)
| BodyHeartbeatAck (t : HeartbeatAckT)
| BodyQueryLicense
| BodyQueryFeatures
| BodyCloseSession
| BodyLicenseChanged
| BodyFeatureChanged (t : FeatureChangedT)
| BodyLicenseExpired
| BodyLicenseRevoked
| BodyPing
| BodyError (t : ErrorT).

Definition body_tag (b : MessageBody) : Message :=
  match b with
  | BodyClientHello _ => Message.ClientHello
  | BodyServerHello _ => Message.ServerHello
  | BodyUnsupportedVersion _ => Message.UnsupportedVersion
  | BodyClientFinished _ => Message.ClientFinished
  | BodyAuthorize _ => Message.Authorize
  | BodyAuthResult _ => Message.AuthResult
  | BodyHeartbeat _ => Message.Heartbeat
  | BodyHeartbeatAck _ => Message.HeartbeatAck
  | BodyQueryLicense => Message.QueryLicense
  | BodyQueryFeatures => Message.QueryFeatures
  | BodyCloseSession => Message.CloseSession
  | BodyLicenseChanged => Message.LicenseChanged
  | BodyFeatureChanged _ => Message.FeatureChanged
  | BodyLicenseExpired => Message.LicenseExpired
  | BodyLicenseRevoked => Message.LicenseRevoked
  | BodyPing => Message.Ping
  | BodyError _ => Message.Error
  end.

(** [body_type()] and [body()] are independent: the verifier accepts a
    discriminator whose value is absent. *)
Record Envelope := mkEnvelope {
  env_protocol_version : Z;
  env_request_id : Z;
  env_body_type : Message;
  env_body : option MessageBody;
}.

(** ** Values the builders accept: every scalar in its schema type *)

Definition opt_octets (o : option bytes) : Prop :=
  match o with Some bs => octets bs | None => True end.

(** A signed [byte] of the schema. *)
Definition int8 (z : Z) : Prop := -2 ^ 7 <= z < 2 ^ 7.

Definition body_typed (b : MessageBody) : Prop :=
  match b with
  | BodyClientHello t =>
      in_width 16 (cht_min_protocol_version t) ∧ in_width 16 (cht_max_protocol_version t)
      ∧ opt_octets (cht_client_nonce t) ∧ opt_octets (cht_ephemeral_public_key t)
  | BodyServerHello t =>
      in_width 16 (sht_selected_protocol_version t) ∧ opt_octets (sht_server_nonce t)
      ∧ opt_octets (sht_ephemeral_public_key t) ∧ opt_octets (sht_signature t)
  | BodyUnsupportedVersion t =>
      in_width 16 (uvt_min_protocol_version t) ∧ in_width 16 (uvt_max_protocol_version t)
  | BodyClientFinished t => opt_octets (cft_transcript_hash t)
  | BodyAuthorize t =>
      in_width 64 (azt_process_id t) ∧ in_width 64 (azt_process_start_time t)
  | BodyAuthResult t =>
      in_width 16 (art_error t) ∧ opt_octets (art_session_id t)
      ∧ in_width 64 (art_expire_time t) ∧ in_width 32 (art_heartbeat_interval_ms t)
      ∧ in_width 32 (art_heartbeat_timeout_ms t)
  | BodyHeartbeat t => opt_octets (hbt_session_id t)
  | BodyHeartbeatAck t =>
      int8 (hat_state t) ∧ in_width 64 (hat_expire_time t)
  | BodyError t => in_width 16 (ert_code t)
  | _ => True
  end.

Definition envelope_typed (e : Envelope) : Prop :=
  in_width 16 (env_protocol_version e) ∧ in_width 64 (env_request_id e)
  ∧ match env_body e with
    | Some b => body_tag b = env_body_type e ∧ body_typed b
    | None => True
    end.

(** ** Size accounting

    FlatBuffers stores a string or vector as a 4-byte length, its contents,
    at most one terminator and alignment padding, plus a 4-byte offset where
    it is referenced; tables and the buffer prefix take a bounded overhead. *)
Definition string_weight (s : option string) : Z :=
  match s with Some s => 24 + str_size s | None => 24 end.
Definition vector_weight (v : option bytes) : Z :=
  match v with Some v => 24 + zlen v | None => 24 end.
Fixpoint strings_weight (v : StringVector) : Z :=
  match v with [] => 24 | s :: v' => string_weight s + strings_weight v' end.
Definition features_weight (v : option StringVector) : Z :=
  match v with Some v => strings_weight v | None => 24 end.

Definition body_weight (b : MessageBody) : Z :=
  match b with
  | BodyClientHello t =>
      vector_weight (cht_client_nonce t) + vector_weight (cht_ephemeral_public_key t)
      + string_weight (cht_sdk_version t)
  | BodyServerHello t =>
      vector_weight (sht_server_nonce t) + vector_weight (sht_ephemeral_public_key t)
      + string_weight (sht_service_key_id t) + vector_weight (sht_signature t)
  | BodyClientFinished t => vector_weight (cft_transcript_hash t)
  | BodyAuthorize t => string_weight (azt_product_id t)
  | BodyAuthResult t =>
      vector_weight (art_session_id t) + features_weight (art_features t)
  | BodyHeartbeat t => vector_weight (hbt_session_id t)
  | BodyHeartbeatAck t => features_weight (hat_features t)
  | BodyFeatureChanged t => features_weight (fct_features t)
  | BodyError t => string_weight (ert_message t)
  | _ => 0
  end.

(** ** The generated code for [Envelope] *)

Class ProtocolBuffers := {
  EnvelopeBufferHasIdentifier : bytes → bool;
  (* Verifier with the given [max_depth] and [max_tables] *)
  VerifyEnvelopeBuffer : Z → Z → bytes → bool;
  GetEnvelope : bytes → Envelope;
  (* Create<Body>, CreateEnvelope and FinishEnvelopeBuffer on a new builder *)
  FinishEnvelopeBuffer : Z → Z → MessageBody → bytes;
}.

Class ProtocolBuffersLaws (P : ProtocolBuffers) := {
  finish_octets v r b : octets (FinishEnvelopeBuffer v r b);
  finish_size v r b :
    body_weight b <= 2 ^ 20 →
    8 <= zlen (FinishEnvelopeBuffer v r b) <= 512 + body_weight b;
  finish_identifier v r b : EnvelopeBufferHasIdentifier (FinishEnvelopeBuffer v r b) = true;
  (* an envelope and its body are two tables, one nested in the other *)
  finish_verifies depth tables v r b :
    2 <= depth → 2 <= tables → in_width 16 v → in_width 64 r → body_typed b →
    body_weight b <= 2 ^ 20 →
    VerifyEnvelopeBuffer depth tables (FinishEnvelopeBuffer v r b) = true;
  get_finish v r b :
    in_width 16 v → in_width 64 r → body_typed b → body_weight b <= 2 ^ 20 →
    GetEnvelope (FinishEnvelopeBuffer v r b) = mkEnvelope v r (body_tag b) (Some b);
  (* a verified buffer exposes values of the schema's types *)
  get_typed depth tables bs :
    octets bs → VerifyEnvelopeBuffer depth tables bs = true → envelope_typed (GetEnvelope bs);
}.

Section Weights.
Lemma string_weight_pos s : 24 <= string_weight s.
Proof. destruct s; cbn; unfold str_size; lia. Qed.
Lemma vector_weight_pos v : 24 <= vector_weight v.
Proof. destruct v as [v|]; cbn; [pose proof (zlen_nonneg v)|]; lia. Qed.
Lemma strings_weight_pos v : 24 <= strings_weight v.
Proof. induction v as [|s v IH]; cbn; [lia|]. pose proof (string_weight_pos s). lia. Qed.
Lemma features_weight_pos v : 24 <= features_weight v.
Proof. destruct v; cbn; [apply strings_weight_pos|lia]. Qed.

Lemma strings_weight_bound (fs : list string) (n m : Z) :
  zlen fs <= n → Forall (fun s => str_size s <= m) fs → 0 <= m →
  strings_weight (map Some fs) <= 24 + n * (24 + m).
Proof.
  intros Hn Hf Hm. revert n Hn. induction Hf as [|s fs Hs _ IH]; intros n Hn; cbn.
  - rewrite (zlen_nil (A:=string)) in Hn. nia.
  - rewrite zlen_cons in Hn. specialize (IH (n - 1)). lia.
Qed.
End Weights.

(** ** Tables of [license.fbs] *)

Record MachinePolicyT := mkMachinePolicyT {
  mpt_mode : Z;
  mpt_machine_id : option string;
}.

Record LicensePayloadT := mkLicensePayloadT {
  lpt_license_id : option string;
  lpt_product_id : option string;
  lpt_customer_id : option string;
  lpt_issue_time : Z;
  lpt_not_before : Z;
  lpt_expire_time : Z;
  lpt_license_type : Z;
  lpt_features : option StringVector;
  lpt_max_sessions : Z;
  lpt_machine_policy : option MachinePolicyT;
}.

Record LicensePackageT := mkLicensePackageT {
  lkt_format_version : Z;
  lkt_key_id : option string;
  lkt_payload : option bytes;
  lkt_signature : option bytes;
}.

(** [enum LicenseType : byte], [enum MachineMode : byte] *)
Definition kTypeTrial : Z := 0.
Definition kTypeSubscription : Z := 1.
Definition kTypePermanent : Z := 2.
Definition kModeUnbound : Z := 0.
Definition kModeExact : Z := 1.

Definition payload_typed (p : LicensePayloadT) : Prop :=
  in_width 64 (lpt_issue_time p) ∧ in_width 64 (lpt_not_before p)
  ∧ in_width 64 (lpt_expire_time p) ∧ int8 (lpt_license_type p)
  ∧ in_width 32 (lpt_max_sessions p)
  ∧ match lpt_machine_policy p with Some m => int8 (mpt_mode m) | None => True end.

Definition package_typed (k : LicensePackageT) : Prop :=
  in_width 16 (lkt_format_version k) ∧ opt_octets (lkt_payload k)
  ∧ opt_octets (lkt_signature k).

Definition payload_weight (p : LicensePayloadT) : Z :=
  string_weight (lpt_license_id p) + string_weight (lpt_product_id p)
  + string_weight (lpt_customer_id p) + features_weight (lpt_features p)
  + match lpt_machine_policy p with Some m => string_weight (mpt_machine_id m) | None => 0 end.

Definition package_weight (k : LicensePackageT) : Z :=
  string_weight (lkt_key_id k) + vector_weight (lkt_payload k) + vector_weight (lkt_signature k).

(** ** The generated code for [LicensePackage] and [LicensePayload] *)

Class LicenseBuffers := {
  LicensePackageBufferHasIdentifier : bytes → bool;
  VerifyLicensePackageBuffer : bytes → bool;
  GetLicensePackage : bytes → LicensePackageT;
  FinishLicensePackageBuffer : LicensePackageT → bytes;
  (* the payload is a root table without a file identifier *)
  VerifyLicensePayload : bytes → bool;
  GetLicensePayload : bytes → LicensePayloadT;
  FinishLicensePayload : LicensePayloadT → bytes;
}.

Class LicenseBuffersLaws (L : LicenseBuffers) := {
  package_octets k : octets (FinishLicensePackageBuffer k);
  package_size k :
    package_weight k <= 2 ^ 20 →
    8 <= zlen (FinishLicensePackageBuffer k) <= 512 + package_weight k;
  package_identifier k :
    LicensePackageBufferHasIdentifier (FinishLicensePackageBuffer k) = true;
  package_verifies k :
    package_typed k → package_weight k <= 2 ^ 20 →
    VerifyLicensePackageBuffer (FinishLicensePackageBuffer k) = true;
  get_package k :
    package_typed k → package_weight k <= 2 ^ 20 →
    GetLicensePackage (FinishLicensePackageBuffer k) = k;
  get_package_typed bs :
    octets bs → VerifyLicensePackageBuffer bs = true → package_typed (GetLicensePackage bs);
  payload_octets p : octets (FinishLicensePayload p);
  payload_size p :
    payload_weight p <= 2 ^ 20 →
    8 <= zlen (FinishLicensePayload p) <= 512 + payload_weight p;
  payload_verifies p :
    payload_typed p → payload_weight p <= 2 ^ 20 →
    VerifyLicensePayload (FinishLicensePayload p) = true;
  get_payload p :
    payload_typed p → payload_weight p <= 2 ^ 20 →
    GetLicensePayload (FinishLicensePayload p) = p;
  get_payload_typed bs :
    octets bs → VerifyLicensePayload bs = true → payload_typed (GetLicensePayload bs);
}.
