(* ===== verification/ToyBuf.v ===== *)
(** * ToyBuf: a concrete buffer format

    An executable instance of [ProtocolBuffers] and [LicenseBuffers] that
    satisfies their laws: fields in order, scalars big-endian, strings and
    vectors with a presence byte and a length.  It shows that the laws can
    hold together, and lets the examples of the other files run. *)

From S2P Require Import Prelude FlatBuf.

(** ** Parsers *)

Definition parser (A : Type) : Type := bytes → option (A * bytes).

Definition p_ret {A} (a : A) : parser A := fun bs => Some (a, bs).
Definition p_bind {A B} (p : parser A) (f : A → parser B) : parser B := fun bs =>
  match p bs with Some (a, rest) => f a rest | None => None end.
#[local] Notation "'let*' x := p 'in' k" := (p_bind p (fun x => k))
  (at level 10, x name, p at level 100, k at level 200).

(** [e] is the encoding of [a]: [p] reads [a] from it and nothing beyond. *)
Definition parses {A} (p : parser A) (e : bytes) (a : A) : Prop :=
  ∀ rest, p (e ++ rest) = Some (a, rest).

Lemma parses_ret {A} (a : A) : parses (p_ret a) [] a.
Proof. by intros rest. Qed.

Lemma parses_bind {A B} (p : parser A) (f : A → parser B) e e' a b :
  parses p e a → parses (f a) e' b → parses (p_bind p f) (e ++ e') b.
Proof. intros Hp Hf rest. unfold p_bind. by rewrite <- app_assoc, Hp, Hf. Qed.

Lemma parses_map {A B} (p : parser A) (g : A → B) e a :
  parses p e a → parses (let* x := p in p_ret (g x)) e (g a).
Proof. intros Hp rest. unfold p_bind. by rewrite Hp. Qed.

Lemma parses_last {A B} (p : parser A) (f : A → parser B) e a b :
  parses p e a → f a = p_ret b → parses (p_bind p f) e b.
Proof. intros Hp Hf rest. unfold p_bind. by rewrite Hp, Hf. Qed.

Definition p_take (n : Z) : parser bytes := fun bs =>
  if zlen bs <? n then None else Some (take (Z.to_nat n) bs, drop (Z.to_nat n) bs).

Lemma parses_take n bs : zlen bs = n → parses (p_take n) bs bs.
Proof.
  intros <- rest. unfold p_take. rewrite zlen_app.
  destruct (Z.ltb_spec (zlen bs + zlen rest) (zlen bs)); [pose proof (zlen_nonneg rest); lia|].
  unfold zlen. by rewrite Nat2Z.id, take_app_length, drop_app_length.
Qed.

Definition e_uint (n : nat) (v : Z) : bytes := be_split n v.
Definition p_uint (n : nat) : parser Z :=
  let* bs := p_take (Z.of_nat n) in p_ret (be_join bs).

Lemma parses_uint n v : in_width (8 * Z.of_nat n) v → parses (p_uint n) (e_uint n v) v.
Proof.
  intros Hv. unfold p_uint, e_uint. rewrite <- (be_join_split_small n v Hv) at 2.
  apply parses_map, parses_take, zlen_be_split.
Qed.

Definition e_int8 (v : Z) : bytes := e_uint 1 (v + 128).
Definition p_int8 : parser Z := let* v := p_uint 1 in p_ret (v - 128).

Lemma parses_int8 v : int8 v → parses p_int8 (e_int8 v) v.
Proof.
  unfold int8. intros Hv. unfold p_int8, e_int8.
  replace v with ((v + 128) - 128) at 2 by lia.
  apply (parses_map (p_uint 1) (fun x => x - 128)), parses_uint.
  unfold in_width. cbn. lia.
Qed.

Lemma parses_flag b : parses (p_uint 1) (e_uint 1 (Z.b2z b)) (Z.b2z b).
Proof. apply parses_uint. destruct b; split; done. Qed.

(** A length-prefixed byte string behind a presence byte. *)
Definition e_vec (o : option bytes) : bytes :=
  match o with None => e_uint 1 0 | Some v => e_uint 1 1 ++ e_uint 4 (zlen v) ++ v end.
Definition p_vec : parser (option bytes) :=
  let* flag := p_uint 1 in
  if flag =? 0 then p_ret None
  else let* n := p_uint 4 in let* v := p_take n in p_ret (Some v).

Definition opt_size (o : option bytes) : Z := match o with Some v => zlen v | None => 0 end.

Lemma parses_vec o : opt_size o < 2 ^ 32 → parses p_vec (e_vec o) o.
Proof.
  intros Ho. destruct o as [v|]; cbn [e_vec opt_size] in *; 
    [|by apply (parses_last _ _ _ 0); [apply (parses_flag false)|]].
  apply (parses_bind _ _ _ _ 1); [apply (parses_flag true)|]. cbn [Z.eqb].
  apply (parses_bind _ _ _ _ (zlen v));
    [apply parses_uint; change (8 * Z.of_nat 4) with 32; split; [apply zlen_nonneg|done]|].
  by apply parses_map, parses_take.
Qed.

Fixpoint bytes_string (bs : bytes) : string :=
  match bs with
  | [] => EmptyString
  | b :: bs' => String (Ascii.ascii_of_N (Z.to_N b)) (bytes_string bs')
  end.

Lemma bytes_string_bytes s : bytes_string (string_bytes s) = s.
Proof.
  induction s as [|c s IH]; [done|]. cbn. rewrite IH. unfold char_byte.
  by rewrite N2Z.id, Ascii.ascii_N_embedding.
Qed.

Definition e_str (o : option string) : bytes := e_vec (option_map string_bytes o).
Definition p_str : parser (option string) := let* o := p_vec in p_ret (option_map bytes_string o).

Lemma parses_str o : string_weight o < 2 ^ 32 → parses p_str (e_str o) o.
Proof.
  intros Ho. unfold p_str, e_str.
  replace o with (option_map bytes_string (option_map string_bytes o)) at 2
    by (destruct o as [s|]; cbn; by rewrite ?bytes_string_bytes).
  apply parses_map, parses_vec. destruct o as [s|]; cbn in *; [rewrite zlen_string_bytes|]; lia.
Qed.

Fixpoint p_many {A} (p : parser A) (n : nat) : parser (list A) :=
  match n with
  | O => p_ret []
  | S n' => let* x := p in let* xs := p_many p n' in p_ret (x :: xs)
  end.

Lemma parses_many {A} (p : parser A) (e : A → bytes) xs :
  Forall (fun x => parses p (e x) x) xs →
  parses (p_many p (length xs)) (concat (map e xs)) xs.
Proof.
  induction 1 as [|x xs Hx _ IH]; [apply parses_ret|]. cbn.
  eapply parses_bind; [exact Hx|]. by apply parses_map.
Qed.

Definition e_strs (o : option StringVector) : bytes :=
  match o with
  | None => e_uint 1 0
  | Some v => e_uint 1 1 ++ e_uint 4 (zlen v) ++ concat (map e_str v)
  end.
(** Every element takes at least a byte, which bounds the count. *)
Definition p_strs : parser (option StringVector) :=
  let* flag := p_uint 1 in
  if flag =? 0 then p_ret None
  else let* n := p_uint 4 in
       fun bs => if zlen bs <? n then None
                 else (let* v := p_many p_str (Z.to_nat n) in p_ret (Some v)) bs.

Lemma strings_weight_elem v s : List.In s v → string_weight s <= strings_weight v.
Proof.
  induction v as [|t v IH]; [done|]. cbn. pose proof (strings_weight_pos v).
  pose proof (string_weight_pos t). intros [->|Hin]; [lia|]. specialize (IH Hin). lia.
Qed.

Lemma zlen_e_str o : 1 <= zlen (e_str o) <= string_weight o.
Proof.
  destruct o as [s|]; cbn; unfold e_uint; autorewrite with sizes;
    [pose proof (Nat2Z.is_nonneg (String.length s)); unfold str_size|]; cbn; lia.
Qed.

Lemma zlen_e_strs_body v :
  zlen v <= zlen (concat (map e_str v)) ∧ 24 + zlen (concat (map e_str v)) <= strings_weight v.
Proof.
  induction v as [|s v [IH1 IH2]]; cbn; [by split|].
  rewrite zlen_app, zlen_cons. pose proof (zlen_e_str s). lia.
Qed.

Lemma parses_strs o : features_weight o <= 2 ^ 20 → parses p_strs (e_strs o) o.
Proof.
  intros Ho. destruct o as [v|]; cbn [e_strs features_weight] in *; 
    [|by apply (parses_last _ _ _ 0); [apply (parses_flag false)|]].
  pose proof (zlen_e_strs_body v) as [H1 H2]. pose proof (zlen_nonneg v).
  apply (parses_bind _ _ _ _ 1); [apply (parses_flag true)|]. cbn [Z.eqb].
  apply (parses_bind _ _ _ _ (zlen v)); [apply parses_uint; change (8 * Z.of_nat 4) with 32; unfold in_width; lia|].
  intros rest. rewrite zlen_app. pose proof (zlen_nonneg rest).
  destruct (Z.ltb_spec (zlen (concat (map e_str v)) + zlen rest) (zlen v)); [lia|].
  unfold zlen. rewrite Nat2Z.id. apply parses_map, parses_many, List.Forall_forall.
  intros s Hs. apply parses_str. pose proof (strings_weight_elem v s Hs). lia.
Qed.

(** ** Envelopes *)

Definition tag_code (t : Message) : Z :=
  match t with
  | Message.NONE => 0 | Message.ClientHello => 1 | Message.ServerHello => 2
  | Message.UnsupportedVersion => 3 | Message.ClientFinished => 4 | Message.Authorize => 5
  | Message.AuthResult => 6 | Message.Heartbeat => 7 | Message.HeartbeatAck => 8
  | Message.QueryLicense => 9 | Message.QueryFeatures => 10 | Message.CloseSession => 11
  | Message.LicenseChanged => 12 | Message.FeatureChanged => 13 | Message.LicenseExpired => 14
  | Message.LicenseRevoked => 15 | Message.Ping => 16 | Message.Error => 17
  | Message.Unnamed code => code
  end.

Definition named_tags : list Message :=
  [Message.NONE; Message.ClientHello; Message.ServerHello; Message.UnsupportedVersion;
   Message.ClientFinished; Message.Authorize; Message.AuthResult; Message.Heartbeat;
   Message.HeartbeatAck; Message.QueryLicense; Message.QueryFeatures; Message.CloseSession;
   Message.LicenseChanged; Message.FeatureChanged; Message.LicenseExpired;
   Message.LicenseRevoked; Message.Ping; Message.Error].

Definition tag_of_code (c : Z) : Message :=
  match List.find (fun t => tag_code t =? c) named_tags with
  | Some t => t
  | None => Message.Unnamed c
  end.

Definition e_body (b : MessageBody) : bytes :=
  match b with
  | BodyClientHello t =>
      e_uint 2 (cht_min_protocol_version t) ++ e_uint 2 (cht_max_protocol_version t)
      ++ e_vec (cht_client_nonce t) ++ e_vec (cht_ephemeral_public_key t)
      ++ e_str (cht_sdk_version t)
  | BodyServerHello t =>
      e_uint 2 (sht_selected_protocol_version t) ++ e_vec (sht_server_nonce t)
      ++ e_vec (sht_ephemeral_public_key t) ++ e_str (sht_service_key_id t)
      ++ e_vec (sht_signature t)
  | BodyUnsupportedVersion t =>
      e_uint 2 (uvt_min_protocol_version t) ++ e_uint 2 (uvt_max_protocol_version t)
  | BodyClientFinished t => e_vec (cft_transcript_hash t)
  | BodyAuthorize t =>
      e_str (azt_product_id t) ++ e_uint 8 (azt_process_id t)
      ++ e_uint 8 (azt_process_start_time t)
  | BodyAuthResult t =>
      e_uint 2 (art_error t) ++ e_vec (art_session_id t) ++ e_strs (art_features t)
      ++ e_uint 8 (art_expire_time t) ++ e_uint 4 (art_heartbeat_interval_ms t)
      ++ e_uint 4 (art_heartbeat_timeout_ms t)
  | BodyHeartbeat t => e_vec (hbt_session_id t)
  | BodyHeartbeatAck t =>
      e_int8 (hat_state t) ++ e_strs (hat_features t) ++ e_uint 8 (hat_expire_time t)
  | BodyFeatureChanged t => e_strs (fct_features t)
  | BodyError t => e_uint 2 (ert_code t) ++ e_str (ert_message t)
  | _ => []
  end.

Definition p_fail {A} : parser A := fun _ => None.

Definition p_body (t : Message) : parser MessageBody :=
  match t with
  | Message.ClientHello =>
      let* a := p_uint 2 in let* b := p_uint 2 in let* c := p_vec in let* d := p_vec in
      let* e := p_str in p_ret (BodyClientHello (mkClientHelloT a b c d e))
  | Message.ServerHello =>
      let* a := p_uint 2 in let* b := p_vec in let* c := p_vec in let* d := p_str in
      let* e := p_vec in p_ret (BodyServerHello (mkServerHelloT a b c d e))
  | Message.UnsupportedVersion =>
      let* a := p_uint 2 in let* b := p_uint 2 in
      p_ret (BodyUnsupportedVersion (mkUnsupportedVersionT a b))
  | Message.ClientFinished => let* a := p_vec in p_ret (BodyClientFinished (mkClientFinishedT a))
  | Message.Authorize =>
      let* a := p_str in let* b := p_uint 8 in let* c := p_uint 8 in
      p_ret (BodyAuthorize (mkAuthorizeT a b c))
  | Message.AuthResult =>
      let* a := p_uint 2 in let* b := p_vec in let* c := p_strs in let* d := p_uint 8 in
      let* e := p_uint 4 in let* f := p_uint 4 in
      p_ret (BodyAuthResult (mkAuthResultT a b c d e f))
  | Message.Heartbeat => let* a := p_vec in p_ret (BodyHeartbeat (mkHeartbeatT a))
  | Message.HeartbeatAck =>
      let* a := p_int8 in let* b := p_strs in let* c := p_uint 8 in
      p_ret (BodyHeartbeatAck (mkHeartbeatAckT a b c))
  | Message.QueryLicense => p_ret BodyQueryLicense
  | Message.QueryFeatures => p_ret BodyQueryFeatures
  | Message.CloseSession => p_ret BodyCloseSession
  | Message.LicenseChanged => p_ret BodyLicenseChanged
  | Message.FeatureChanged => let* a := p_strs in p_ret (BodyFeatureChanged (mkFeatureChangedT a))
  | Message.LicenseExpired => p_ret BodyLicenseExpired
  | Message.LicenseRevoked => p_ret BodyLicenseRevoked
  | Message.Ping => p_ret BodyPing
  | Message.Error => let* a := p_uint 2 in let* b := p_str in p_ret (BodyError (mkErrorT a b))
  | Message.NONE | Message.Unnamed _ => p_fail
  end.

(** Fields are read in order: each is weighed against the whole body. *)
Lemma vec_size_weight o : opt_size o <= vector_weight o.
Proof. destruct o; cbn; lia. Qed.

Create HintDb fields.
#[local] Hint Resolve parses_vec parses_str parses_strs parses_int8 parses_uint : fields.

(** One field, then the rest; the last one ends the table. *)
Ltac read_fields :=
  repeat (eapply parses_bind; [eauto 2 with fields nocore|cbn beta]);
  first [apply parses_ret
        | eapply parses_last; [eauto 2 with fields nocore|reflexivity]].

Ltac weights :=
  repeat match goal with
  | |- context [opt_size ?o] =>
      pose proof (vec_size_weight o); generalize dependent (opt_size o); intros
  end;
  repeat match goal with
  | H : context [vector_weight ?o] |- _ =>
      pose proof (vector_weight_pos o); generalize dependent (vector_weight o); intros
  | H : context [string_weight ?o] |- _ =>
      pose proof (string_weight_pos o); generalize dependent (string_weight o); intros
  | H : context [features_weight ?o] |- _ =>
      pose proof (features_weight_pos o); generalize dependent (features_weight o); intros
  end; lia.

#[local] Hint Extern 3 (_ < 2 ^ 32) => weights : fields.
#[local] Hint Extern 3 (_ <= 2 ^ 20) => weights : fields.
#[local] Hint Extern 3 (in_width _ _) => assumption : fields.
#[local] Hint Extern 3 (int8 _) => assumption : fields.
#[local] Arguments string_weight : simpl never.
#[local] Arguments vector_weight : simpl never.
#[local] Arguments features_weight : simpl never.
#[local] Arguments e_uint : simpl never.
#[local] Arguments e_int8 : simpl never.
#[local] Arguments e_vec : simpl never.
#[local] Arguments e_str : simpl never.
#[local] Arguments e_strs : simpl never.

Lemma parses_body b :
  body_typed b → body_weight b <= 2 ^ 20 → parses (p_body (body_tag b)) (e_body b) b.
Proof.
  intros Ht Hw.
  destruct b as [t|t|t|t|t|t|t|t| | | | |t| | | |t]; try destruct t; cbn -[Z.pow] in *;
  repeat match goal with H : _ ∧ _ |- _ => destruct H end; read_fields.
Qed.

Definition ident (s : string) (bs : bytes) : bool :=
  bool_decide (take 4 (drop 4 bs) = string_bytes s).

Definition e_envelope (e : Envelope) : bytes :=
  e_uint 2 (env_protocol_version e) ++ e_uint 8 (env_request_id e)
  ++ e_uint 1 (tag_code (env_body_type e))
  ++ match env_body e with None => e_uint 1 0 | Some b => e_uint 1 1 ++ e_body b end.

Definition p_envelope : parser Envelope :=
  let* v := p_uint 2 in let* r := p_uint 8 in let* c := p_uint 1 in let* f := p_uint 1 in
  if f =? 0 then p_ret (mkEnvelope v r (tag_of_code c) None)
  else let* b := p_body (tag_of_code c) in p_ret (mkEnvelope v r (tag_of_code c) (Some b)).

(** Offset word and identifier, then the root table. *)
Definition root_buffer (id : string) (table : bytes) : bytes :=
  map u8 ([0; 0; 0; 0] ++ string_bytes id ++ table).

Definition root_parse {A} (p : parser A) (bs : bytes) : option A :=
  match p (drop 8 bs) with Some (a, _) => Some a | None => None end.

Definition toy_envelope (bs : bytes) : Envelope :=
  match root_parse p_envelope bs with
  | Some e => e
  | None => mkEnvelope 0 0 Message.NONE None
  end.

#[local] Instance in_width_dec w z : Decision (in_width w z).
Proof. unfold in_width. apply _. Defined.
#[local] Instance int8_dec z : Decision (int8 z).
Proof. unfold int8. apply _. Defined.
#[local] Instance octets_dec bs : Decision (octets bs).
Proof. unfold octets. apply _. Defined.
#[local] Instance opt_octets_dec o : Decision (opt_octets o).
Proof. destruct o; cbn; apply _. Defined.
#[local] Instance body_typed_dec b : Decision (body_typed b).
Proof. destruct b; cbn; apply _. Defined.
#[local] Instance envelope_typed_dec e : Decision (envelope_typed e).
Proof. unfold envelope_typed. destruct (env_body e); apply _. Defined.

Definition toy_verify (depth tables : Z) (bs : bytes) : bool :=
  match root_parse p_envelope bs with
  | Some e => bool_decide (envelope_typed e)
              && match env_body e with
                 | Some _ => (2 <=? depth) && (2 <=? tables)
                 | None => (1 <=? depth) && (1 <=? tables)
                 end
  | None => false
  end.

Definition toy_buffers : ProtocolBuffers := {|
  EnvelopeBufferHasIdentifier := ident "YAMS";
  VerifyEnvelopeBuffer := toy_verify;
  GetEnvelope := toy_envelope;
  FinishEnvelopeBuffer v r b :=
    root_buffer "YAMS" (e_envelope (mkEnvelope v r (body_tag b) (Some b)));
|}.

(** ** Sizes *)

Lemma zlen_e_vec o : zlen (e_vec o) <= vector_weight o.
Proof.
  destruct o as [v|]; unfold e_vec, vector_weight, e_uint; autorewrite with sizes; lia.
Qed.

Lemma zlen_e_strs o : zlen (e_strs o) <= features_weight o.
Proof.
  destruct o as [v|]; unfold e_strs, features_weight, e_uint; autorewrite with sizes; [|lia].
  pose proof (zlen_e_strs_body v). lia.
Qed.

Ltac size_fields :=
  unfold e_int8, e_uint; autorewrite with sizes;
  repeat match goal with
  | |- context [e_vec ?o] =>
      pose proof (zlen_e_vec o); generalize dependent (zlen (e_vec o)); intros
  | |- context [e_str ?o] =>
      pose proof (zlen_e_str o); generalize dependent (zlen (e_str o)); intros
  | |- context [e_strs ?o] =>
      pose proof (zlen_e_strs o); generalize dependent (zlen (e_strs o)); intros
  end; lia.

Lemma zlen_e_body b : zlen (e_body b) <= 100 + body_weight b.
Proof. destruct b; unfold e_body, body_weight; size_fields. Qed.

Lemma zlen_root id table : zlen (root_buffer id table) = 4 + str_size id + zlen table.
Proof.
  unfold root_buffer, zlen at 1. rewrite length_map, !length_app, string_bytes_length.
  unfold str_size, zlen. cbn [length]. lia.
Qed.

Lemma root_octets id table : octets (root_buffer id table).
Proof.
  unfold root_buffer. generalize ([0; 0; 0; 0] ++ string_bytes id ++ table) as l.
  induction l; constructor; auto with width.
Qed.

Lemma map_u8_octets bs : octets bs → map u8 bs = bs.
Proof.
  induction 1 as [|b bs Hb _ IH]; [done|]. cbn. rewrite IH. f_equal. by apply wrap_small.
Qed.

Lemma root_parse_buffer {A} (p : parser A) id e a :
  String.length id = 4%nat → octets e → parses p e a → root_parse p (root_buffer id e) = Some a.
Proof.
  intros Hid Ho Hp. unfold root_parse, root_buffer.
  rewrite map_u8_octets by (rewrite !octets_app; split_and!; auto with width;
    repeat constructor; done).
  rewrite app_assoc, drop_app_length'.
  - specialize (Hp []). rewrite app_nil_r in Hp. by rewrite Hp.
  - rewrite length_app, string_bytes_length, Hid. done.
Qed.

Lemma ident_buffer id table : String.length id = 4%nat → ident id (root_buffer id table) = true.
Proof.
  intros Hid. unfold ident, root_buffer. apply bool_decide_eq_true.
  rewrite List.map_app. change (drop 4 ?l) with (drop (length (map u8 [0;0;0;0])) l).
  rewrite drop_app_length, List.map_app, map_u8_octets by auto with width.
  by rewrite <- Hid, <- string_bytes_length, take_app_length.
Qed.

(** ** Contents are octets *)

Lemma e_uint_octets n v : octets (e_uint n v).
Proof. apply be_split_octets. Qed.
Lemma e_int8_octets v : octets (e_int8 v).
Proof. apply be_split_octets. Qed.
Lemma e_vec_octets o : opt_octets o → octets (e_vec o).
Proof.
  intros Ho. destruct o; unfold e_vec; rewrite ?octets_app; split_and?; auto using e_uint_octets.
Qed.
Lemma e_str_octets o : octets (e_str o).
Proof. apply e_vec_octets. destruct o; cbn; auto with width. Qed.
Lemma e_strs_octets o : octets (e_strs o).
Proof.
  destruct o as [v|]; unfold e_strs; rewrite ?octets_app; split_and?; auto using e_uint_octets.
  induction v; cbn; [constructor|]. apply octets_app. auto using e_str_octets.
Qed.

Create HintDb octet_fields.
#[local] Hint Resolve e_uint_octets e_int8_octets e_vec_octets e_str_octets e_strs_octets
  : octet_fields.

Lemma e_body_octets b : body_typed b → octets (e_body b).
Proof.
  intros Ht. destruct b; cbn in *; rewrite ?octets_app;
  repeat match goal with H : _ ∧ _ |- _ => destruct H end; split_and?;
  auto with octet_fields; constructor.
Qed.

Lemma tag_of_code_body b : tag_of_code (tag_code (body_tag b)) = body_tag b.
Proof. by destruct b. Qed.

Lemma parses_envelope v r b :
  in_width 16 v → in_width 64 r → body_typed b → body_weight b <= 2 ^ 20 →
  parses p_envelope (e_envelope (mkEnvelope v r (body_tag b) (Some b)))
    (mkEnvelope v r (body_tag b) (Some b)).
Proof.
  intros Hv Hr Hb Hw. unfold p_envelope, e_envelope. cbn [env_protocol_version env_request_id
    env_body_type env_body].
  eapply parses_bind; [by apply parses_uint|]. eapply parses_bind; [by apply parses_uint|].
  eapply parses_bind; [apply parses_uint; by destruct b|].
  eapply parses_bind; [apply (parses_flag true)|]. cbn [Z.eqb Z.b2z].
  rewrite tag_of_code_body. eapply parses_last; [by apply parses_body|done].
Qed.

Lemma e_envelope_octets v r b :
  body_typed b → octets (e_envelope (mkEnvelope v r (body_tag b) (Some b))).
Proof.
  intros Hb. unfold e_envelope. cbn [env_body]. rewrite !octets_app.
  split_and!; auto using e_uint_octets, e_body_octets.
Qed.

Lemma toy_root v r b :
  in_width 16 v → in_width 64 r → body_typed b → body_weight b <= 2 ^ 20 →
  root_parse p_envelope (root_buffer "YAMS" (e_envelope (mkEnvelope v r (body_tag b) (Some b))))
  = Some (mkEnvelope v r (body_tag b) (Some b)).
Proof.
  intros Hv Hr Hb Hw. apply root_parse_buffer; [done| |by apply parses_envelope].
  by apply e_envelope_octets.
Qed.

#[global] Instance toy_buffers_laws : ProtocolBuffersLaws toy_buffers.
Proof.
  split; cbn [toy_buffers FinishEnvelopeBuffer EnvelopeBufferHasIdentifier VerifyEnvelopeBuffer
    GetEnvelope].
  - intros. apply root_octets.
  - intros v r b Hw. rewrite zlen_root. unfold e_envelope. cbn [env_body].
    pose proof (zlen_e_body b). unfold e_uint. autorewrite with sizes.
    pose proof (zlen_nonneg (e_body b)). change (str_size "YAMS") with 4. lia.
  - intros. by apply ident_buffer.
  - intros d t v r b Hd Ht Hv Hr Hb Hw. unfold toy_verify. rewrite toy_root by done. cbn [env_body].
    rewrite bool_decide_eq_true_2 by exact (conj Hv (conj Hr (conj eq_refl Hb))).
    apply andb_true_intro; split; [done|]. apply andb_true_intro; split; by apply Z.leb_le.
  - intros v r b Hv Hr Hb Hw. unfold toy_envelope. by rewrite toy_root.
  - intros d t bs _. unfold toy_verify, toy_envelope. destruct (root_parse _ _) as [e|]; [|done].
    intros [H%bool_decide_eq_true _]%andb_true_iff. done.
Qed.

(** ** Licenses *)

Definition e_policy (o : option MachinePolicyT) : bytes :=
  match o with
  | None => e_uint 1 0
  | Some m => e_uint 1 1 ++ e_int8 (mpt_mode m) ++ e_str (mpt_machine_id m)
  end.
Definition p_policy : parser (option MachinePolicyT) :=
  let* f := p_uint 1 in
  if f =? 0 then p_ret None
  else let* a := p_int8 in let* b := p_str in p_ret (Some (mkMachinePolicyT a b)).

Definition policy_weight (o : option MachinePolicyT) : Z :=
  match o with Some m => string_weight (mpt_machine_id m) | None => 0 end.

Lemma parses_policy o :
  match o with Some m => int8 (mpt_mode m) | None => True end → policy_weight o <= 2 ^ 20 →
  parses p_policy (e_policy o) o.
Proof.
  intros Ht Hw. destruct o as [[a b]|]; cbn -[Z.pow] in *.
  - apply (parses_bind _ _ _ _ 1); [apply (parses_flag true)|]. cbn [Z.eqb]. read_fields.
  - by apply (parses_last _ _ _ 0); [apply (parses_flag false)|].
Qed.

Definition e_payload (p : LicensePayloadT) : bytes :=
  e_str (lpt_license_id p) ++ e_str (lpt_product_id p) ++ e_str (lpt_customer_id p)
  ++ e_uint 8 (lpt_issue_time p) ++ e_uint 8 (lpt_not_before p) ++ e_uint 8 (lpt_expire_time p)
  ++ e_int8 (lpt_license_type p) ++ e_strs (lpt_features p) ++ e_uint 4 (lpt_max_sessions p)
  ++ e_policy (lpt_machine_policy p).
Definition p_payload : parser LicensePayloadT :=
  let* a := p_str in let* b := p_str in let* c := p_str in let* d := p_uint 8 in
  let* e := p_uint 8 in let* f := p_uint 8 in let* g := p_int8 in let* h := p_strs in
  let* i := p_uint 4 in let* j := p_policy in p_ret (mkLicensePayloadT a b c d e f g h i j).

Definition e_package (k : LicensePackageT) : bytes :=
  e_uint 2 (lkt_format_version k) ++ e_str (lkt_key_id k) ++ e_vec (lkt_payload k)
  ++ e_vec (lkt_signature k).
Definition p_package : parser LicensePackageT :=
  let* a := p_uint 2 in let* b := p_str in let* c := p_vec in let* d := p_vec in
  p_ret (mkLicensePackageT a b c d).

Lemma parses_payload p :
  payload_typed p → payload_weight p <= 2 ^ 20 → parses p_payload (e_payload p) p.
Proof.
  unfold payload_typed, payload_weight, p_payload, e_payload.
  destruct p as [a b c d e f g h i j]. cbn -[Z.pow e_policy].
  change (match j with Some m => string_weight (mpt_machine_id m) | None => 0 end)
    with (policy_weight j).
  assert (0 <= policy_weight j)
    by (destruct j; cbn; [pose proof (string_weight_pos (mpt_machine_id m)); lia|done]).
  intros (? & ? & ? & ? & ? & ?) ?.
  repeat (eapply parses_bind; [eauto 2 with fields nocore|cbn beta]).
  eapply parses_last; [|done]. apply parses_policy; [done|]. weights.
Qed.

Lemma parses_package k :
  package_typed k → package_weight k <= 2 ^ 20 → parses p_package (e_package k) k.
Proof.
  unfold package_typed, package_weight, p_package, e_package.
  destruct k as [a b c d]. cbn -[Z.pow]. intros (? & ? & ?) ?. read_fields.
Qed.

Lemma e_payload_octets p : octets (e_payload p).
Proof.
  unfold e_payload. rewrite !octets_app. split_and!; auto with octet_fields.
  destruct (lpt_machine_policy p); cbn; rewrite ?octets_app; auto with octet_fields.
Qed.

Lemma e_package_octets k : package_typed k → octets (e_package k).
Proof.
  intros (_ & ? & ?). unfold e_package. rewrite !octets_app. auto with octet_fields.
Qed.

#[local] Instance payload_typed_dec p : Decision (payload_typed p).
Proof. unfold payload_typed. destruct (lpt_machine_policy p); apply _. Defined.
#[local] Instance package_typed_dec k : Decision (package_typed k).
Proof. unfold package_typed. apply _. Defined.

Definition toy_licenses : LicenseBuffers := {|
  LicensePackageBufferHasIdentifier := ident "YALC";
  VerifyLicensePackageBuffer bs :=
    match root_parse p_package bs with Some k => bool_decide (package_typed k) | None => false end;
  GetLicensePackage bs :=
    match root_parse p_package bs with Some k => k | None => mkLicensePackageT 0 None None None end;
  FinishLicensePackageBuffer k := root_buffer "YALC" (e_package k);
  VerifyLicensePayload bs :=
    match root_parse p_payload bs with Some p => bool_decide (payload_typed p) | None => false end;
  GetLicensePayload bs :=
    match root_parse p_payload bs with
    | Some p => p
    | None => mkLicensePayloadT None None None 0 0 0 0 None 0 None
    end;
  FinishLicensePayload p := root_buffer "    " (e_payload p);
|}.

Lemma toy_package k :
  package_typed k → package_weight k <= 2 ^ 20 →
  root_parse p_package (root_buffer "YALC" (e_package k)) = Some k.
Proof.
  intros Ht Hw. apply root_parse_buffer; [done| |by apply parses_package].
  by apply e_package_octets.
Qed.

Lemma toy_payload p :
  payload_typed p → payload_weight p <= 2 ^ 20 →
  root_parse p_payload (root_buffer "    " (e_payload p)) = Some p.
Proof.
  intros Ht Hw. apply root_parse_buffer; [done| |by apply parses_payload].
  by apply e_payload_octets.
Qed.

#[global] Instance toy_licenses_laws : LicenseBuffersLaws toy_licenses.
Proof.
  split; cbn [toy_licenses FinishLicensePackageBuffer LicensePackageBufferHasIdentifier
    VerifyLicensePackageBuffer GetLicensePackage VerifyLicensePayload GetLicensePayload
    FinishLicensePayload].
  - intros. apply root_octets.
  - intros k _. rewrite zlen_root. change (str_size "YALC") with 4.
    unfold e_package, package_weight. pose proof (zlen_nonneg (e_package k)).
    unfold e_package in *. split; [lia|]. size_fields.
  - intros. by apply ident_buffer.
  - intros k Ht Hw. rewrite toy_package by done. by apply bool_decide_eq_true.
  - intros k Ht Hw. by rewrite toy_package.
  - intros bs _. destruct (root_parse _ _); [|done]. by intros H%bool_decide_eq_true.
  - intros. apply root_octets.
  - intros p _. rewrite zlen_root. change (str_size "    ") with 4.
    pose proof (zlen_nonneg (e_payload p)). split; [lia|].
    unfold e_payload, payload_weight. destruct (lpt_machine_policy p); cbn [e_policy]; size_fields.
  - intros k Ht Hw. rewrite toy_payload by done. by apply bool_decide_eq_true.
  - intros k Ht Hw. by rewrite toy_payload.
  - intros bs _. destruct (root_parse _ _); [|done]. by intros H%bool_decide_eq_true.
Qed.
