(* ===== verification/Messages.v ===== *)
(** * Messages: the typed messages and their FlatBuffers encoding

    Models [src/ya_license_protocol/src/{envelope,messages}.cpp] and their
    headers: [verifyEnvelope] and the encoder and decoder of every message.

    A decoder that dereferences the null pointer of an absent union value has
    undefined behaviour, so decoders live in [exec]; the theorems say exactly
    when that happens, that a decoder inverts its encoder, and that whatever a
    decoder returns respects the field limits. *)

From S2P Require Import Prelude CryptoApi FlatBuf ToyBuf.

(** ** [envelope.h], [envelope.cpp] *)

Module EnvelopeError.
Inductive EnvelopeError := Empty | TooLarge | InvalidIdentifier | InvalidBuffer.
End EnvelopeError.
Abbreviation EnvelopeError := EnvelopeError.EnvelopeError.

(** Default arguments of [verifyEnvelope]. *)
Definition kEnvelopeMaxSize : Z := 1024 * 1024.
Definition kEnvelopeMaxDepth : Z := 16.
Definition kEnvelopeMaxTables : Z := 256.

(** [sizeof(flatbuffers::uoffset_t) + flatbuffers::kFileIdentifierLength] *)
Definition kIdentifierEnd : Z := 4 + 4.

Definition verifyEnvelope `{ProtocolBuffers} (bs : bytes) (max_size max_depth max_tables : Z)
  : result EnvelopeError () :=
  if zlen bs =? 0 then Err EnvelopeError.Empty
  else if max_size <? zlen bs then Err EnvelopeError.TooLarge
  else if (zlen bs <? kIdentifierEnd) || negb (EnvelopeBufferHasIdentifier bs)
  then Err EnvelopeError.InvalidIdentifier
  else if VerifyEnvelopeBuffer max_depth max_tables bs then Ok ()
  else Err EnvelopeError.InvalidBuffer.

(** ** Message types *)

Module MessageError.
Inductive MessageError := InvalidEnvelope | UnexpectedType | InvalidField.
End MessageError.
Abbreviation MessageError := MessageError.MessageError.

Record ClientHelloMessage := mkClientHelloMessage {
  ch_request_id : Z;
  ch_min_version : Z;
  ch_max_version : Z;
  ch_nonce : bytes;
  ch_public_key : bytes;
  ch_sdk_version : string;
}.

Record ServerHelloMessage := mkServerHelloMessage {
  sh_request_id : Z;
  sh_selected_version : Z;
  sh_nonce : bytes;
  sh_public_key : bytes;
  sh_service_key_id : string;
  sh_signature : bytes;
}.

Record ClientFinishedMessage := mkClientFinishedMessage {
  cf_request_id : Z;
  cf_protocol_version : Z;
  cf_transcript_hash : bytes;
}.

(** [std::array<std::uint8_t, 16>] *)
Definition kSessionIdSize : Z := 16.

(** An [enum class : std::uint16_t] can hold any 16-bit value; [Unnamed] are
    the values without an enumerator. *)
Module AuthorizationError.
Inductive AuthorizationError :=
| None
| InvalidFrame
| UnsupportedVersion
| UnsupportedMessage
| LicenseNotFound
| InvalidLicense
| InvalidSignature
| NotYetValid
| Expired
| MachineMismatch
| ProductMismatch
| Revoked
| InvalidSession
| SessionExpired
| SessionLimitExceeded
| DuplicateRequest
| AuthenticationFailed
| ServiceIdentityInvalid
| InternalError
| StorageError
| Unnamed (code : Z).
End AuthorizationError.
Abbreviation AuthorizationError := AuthorizationError.AuthorizationError.

#[global] Instance AuthorizationError_eq_dec : EqDecision AuthorizationError.
Proof. solve_decision. Defined.

Definition errorCode (e : AuthorizationError) : Z :=
  match e with
  | AuthorizationError.None => 0
  | AuthorizationError.InvalidFrame => 1001
  | AuthorizationError.UnsupportedVersion => 1002
  | AuthorizationError.UnsupportedMessage => 1003
  | AuthorizationError.LicenseNotFound => 2001
  | AuthorizationError.InvalidLicense => 2002
  | AuthorizationError.InvalidSignature => 2003
  | AuthorizationError.NotYetValid => 2004
  | AuthorizationError.Expired => 2005
  | AuthorizationError.MachineMismatch => 2006
  | AuthorizationError.ProductMismatch => 2007
  | AuthorizationError.Revoked => 2008
  | AuthorizationError.InvalidSession => 3001
  | AuthorizationError.SessionExpired => 3002
  | AuthorizationError.SessionLimitExceeded => 3003
  | AuthorizationError.DuplicateRequest => 3004
  | AuthorizationError.AuthenticationFailed => 4001
  | AuthorizationError.ServiceIdentityInvalid => 4002
  | AuthorizationError.InternalError => 5001
  | AuthorizationError.StorageError => 5002
  | AuthorizationError.Unnamed code => code
  end.

Definition namedErrors : list AuthorizationError :=
  [AuthorizationError.None; AuthorizationError.InvalidFrame;
   AuthorizationError.UnsupportedVersion; AuthorizationError.UnsupportedMessage;
   AuthorizationError.LicenseNotFound; AuthorizationError.InvalidLicense;
   AuthorizationError.InvalidSignature; AuthorizationError.NotYetValid;
   AuthorizationError.Expired; AuthorizationError.MachineMismatch;
   AuthorizationError.ProductMismatch; AuthorizationError.Revoked;
   AuthorizationError.InvalidSession; AuthorizationError.SessionExpired;
   AuthorizationError.SessionLimitExceeded; AuthorizationError.DuplicateRequest;
   AuthorizationError.AuthenticationFailed; AuthorizationError.ServiceIdentityInvalid;
   AuthorizationError.InternalError; AuthorizationError.StorageError].

(** [static_cast<AuthorizationError>(code)] *)
Definition errorOfCode (code : Z) : AuthorizationError :=
  match List.find (fun e => errorCode e =? code) namedErrors with
  | Some e => e
  | None => AuthorizationError.Unnamed code
  end.

Module AuthorizationState.
Inductive AuthorizationState :=
| Unknown | Valid | Grace | Expired | Revoked | Unnamed (code : Z).
End AuthorizationState.
Abbreviation AuthorizationState := AuthorizationState.AuthorizationState.

#[global] Instance AuthorizationState_eq_dec : EqDecision AuthorizationState.
Proof. solve_decision. Defined.

Definition stateCode (s : AuthorizationState) : Z :=
  match s with
  | AuthorizationState.Unknown => 0
  | AuthorizationState.Valid => 1
  | AuthorizationState.Grace => 2
  | AuthorizationState.Expired => 3
  | AuthorizationState.Revoked => 4
  | AuthorizationState.Unnamed code => code
  end.

(** [static_cast<AuthorizationState>] of a signed 8-bit [LicenseState]. *)
Definition stateOfCode (code : Z) : AuthorizationState :=
  let code := u8 code in
  if code =? 0 then AuthorizationState.Unknown
  else if code =? 1 then AuthorizationState.Valid
  else if code =? 2 then AuthorizationState.Grace
  else if code =? 3 then AuthorizationState.Expired
  else if code =? 4 then AuthorizationState.Revoked
  else AuthorizationState.Unnamed code.

Record AuthorizeMessage := mkAuthorizeMessage {
  az_request_id : Z;
  az_protocol_version : Z;
  az_product_id : string;
  az_process_id : Z;
  az_process_start_time : Z;
}.

Record AuthResultMessage := mkAuthResultMessage {
  ar_request_id : Z;
  ar_protocol_version : Z;
  ar_error : AuthorizationError;
  ar_session_id : option bytes;
  ar_features : list string;
  ar_expire_time : Z;
  ar_heartbeat_interval_ms : Z;
  ar_heartbeat_timeout_ms : Z;
}.

Record HeartbeatMessage := mkHeartbeatMessage {
  hb_request_id : Z;
  hb_protocol_version : Z;
  hb_session_id : bytes;
}.

Record HeartbeatAckMessage := mkHeartbeatAckMessage {
  ha_request_id : Z;
  ha_protocol_version : Z;
  ha_state : AuthorizationState;
  ha_features : list string;
  ha_expire_time : Z;
}.

Record CloseSessionMessage := mkCloseSessionMessage {
  cs_request_id : Z;
  cs_protocol_version : Z;
}.

Record ErrorMessage := mkErrorMessage {
  er_request_id : Z;
  er_protocol_version : Z;
  er_code : AuthorizationError;
  er_message : string;
}.

(** ** [messages.cpp]: limits and helpers *)

Definition kMaxSdkVersionSize : Z := 64.
Definition kMaxKeyIdSize : Z := 255.
Definition kMaxProductIdSize : Z := 255.
Definition kMaxFeatureSize : Z := 128.
Definition kMaxFeatures : Z := 256.
Definition kMaxErrorMessageSize : Z := 256.

(** [copyFixed(source, output)] for an output of [n] bytes: the copied array,
    or [None] where the source returns false. *)
Definition copyFixed (source : option bytes) (n : Z) : option bytes :=
  match source with
  | None => None
  | Some bs => if zlen bs =? n then Some bs else None
  end.

Definition optString (s : option string) : string :=
  match s with Some s => s | None => "" end.

Definition validFeatures (features : list string) : bool :=
  (zlen features <=? kMaxFeatures)
  && forallb (fun f => negb (str_empty f) && (str_size f <=? kMaxFeatureSize)) features.

Definition validAuthorizationError (error : AuthorizationError) : bool :=
  match error with AuthorizationError.Unnamed _ => false | _ => true end.

Definition validAuthorizationState (state : AuthorizationState) : bool :=
  match state with
  | AuthorizationState.Valid | AuthorizationState.Grace
  | AuthorizationState.Expired | AuthorizationState.Revoked => true
  | AuthorizationState.Unknown | AuthorizationState.Unnamed _ => false
  end.

(** The loop of [copyFeatures]: [None] is its [return {}]. *)
Fixpoint copyFeatureLoop (source : StringVector) : option (list string) :=
  match source with
  | [] => Some []
  | None :: _ => None
  | Some f :: source' =>
      if str_empty f || (kMaxFeatureSize <? str_size f) then None
      else fs ← copyFeatureLoop source'; Some (f :: fs)
  end.

Definition copyFeatures (source : option StringVector) : list string :=
  match source with
  | None => []
  | Some v =>
      if kMaxFeatures <? zlen v then []
      else match copyFeatureLoop v with Some fs => fs | None => [] end
  end.

(** [builder.CreateString] for each feature. *)
Definition createFeatures (features : list string) : StringVector := map Some features.

(** Dereference of a pointer that may be null. *)
Definition deref {A} (p : option A) : exec A :=
  match p with Some a => Done a | None => Undefined end.

Section Codec.
Context `{ProtocolBuffers}.

Definition finish (body : MessageBody) (protocol_version request_id : Z) : bytes :=
  FinishEnvelopeBuffer protocol_version request_id body.

Definition checkedEnvelope (bs : bytes) : option Envelope :=
  match verifyEnvelope bs kEnvelopeMaxSize kEnvelopeMaxDepth kEnvelopeMaxTables with
  | Ok _ => Some (GetEnvelope bs)
  | Err _ => None
  end.

Definition validApplicationEnvelope (envelope : Envelope) (type : Message) : bool :=
  negb (env_protocol_version envelope =? 0) && negb (env_request_id envelope =? 0)
  && bool_decide (env_body_type envelope = type).

(** [body_as_<T>()]: the value of the union when the discriminator is [T]. *)
Definition body_as_ClientHello (e : Envelope) : option ClientHelloT :=
  match env_body_type e, env_body e with
  | Message.ClientHello, Some (BodyClientHello t) => Some t | _, _ => None end.
Definition body_as_ServerHello (e : Envelope) : option ServerHelloT :=
  match env_body_type e, env_body e with
  | Message.ServerHello, Some (BodyServerHello t) => Some t | _, _ => None end.
Definition body_as_ClientFinished (e : Envelope) : option ClientFinishedT :=
  match env_body_type e, env_body e with
  | Message.ClientFinished, Some (BodyClientFinished t) => Some t | _, _ => None end.
Definition body_as_Authorize (e : Envelope) : option AuthorizeT :=
  match env_body_type e, env_body e with
  | Message.Authorize, Some (BodyAuthorize t) => Some t | _, _ => None end.
Definition body_as_AuthResult (e : Envelope) : option AuthResultT :=
  match env_body_type e, env_body e with
  | Message.AuthResult, Some (BodyAuthResult t) => Some t | _, _ => None end.
Definition body_as_Heartbeat (e : Envelope) : option HeartbeatT :=
  match env_body_type e, env_body e with
  | Message.Heartbeat, Some (BodyHeartbeat t) => Some t | _, _ => None end.
Definition body_as_HeartbeatAck (e : Envelope) : option HeartbeatAckT :=
  match env_body_type e, env_body e with
  | Message.HeartbeatAck, Some (BodyHeartbeatAck t) => Some t | _, _ => None end.
Definition body_as_Error (e : Envelope) : option ErrorT :=
  match env_body_type e, env_body e with
  | Message.Error, Some (BodyError t) => Some t | _, _ => None end.

Definition encodeClientHello (message : ClientHelloMessage) : result MessageError bytes :=
  if (ch_request_id message =? 0) || (ch_min_version message =? 0)
     || (ch_max_version message <? ch_min_version message)
     || str_empty (ch_sdk_version message)
     || (kMaxSdkVersionSize <? str_size (ch_sdk_version message))
  then Err MessageError.InvalidField
  else
    let body := BodyClientHello
      {| cht_min_protocol_version := ch_min_version message;
         cht_max_protocol_version := ch_max_version message;
         cht_client_nonce := Some (ch_nonce message);
         cht_ephemeral_public_key := Some (ch_public_key message);
         cht_sdk_version := Some (ch_sdk_version message) |} in
    Ok (finish body 0 (ch_request_id message)).

Definition decodeClientHello (bs : bytes) : exec (result MessageError ClientHelloMessage) :=
  match checkedEnvelope bs with
  | None => Done (Err MessageError.InvalidEnvelope)
  | Some envelope =>
      if negb (env_protocol_version envelope =? 0) || (env_request_id envelope =? 0)
         || negb (bool_decide (env_body_type envelope = Message.ClientHello))
      then Done (Err MessageError.UnexpectedType)
      else
        body ← deref (body_as_ClientHello envelope);
        let sdk_version := optString (cht_sdk_version body) in
        if (cht_min_protocol_version body =? 0)
           || (cht_max_protocol_version body <? cht_min_protocol_version body)
           || str_empty sdk_version || (kMaxSdkVersionSize <? str_size sdk_version)
        then Done (Err MessageError.InvalidField)
        else
          match copyFixed (cht_client_nonce body) kKeySize,
                copyFixed (cht_ephemeral_public_key body) kKeySize with
          | Some nonce, Some public_key =>
              Done (Ok {| ch_request_id := env_request_id envelope;
                          ch_min_version := cht_min_protocol_version body;
                          ch_max_version := cht_max_protocol_version body;
                          ch_nonce := nonce;
                          ch_public_key := public_key;
                          ch_sdk_version := sdk_version |})
          | _, _ => Done (Err MessageError.InvalidField)
          end
  end.

Definition encodeServerHello (message : ServerHelloMessage) : result MessageError bytes :=
  if (sh_request_id message =? 0) || (sh_selected_version message =? 0)
     || str_empty (sh_service_key_id message)
     || (kMaxKeyIdSize <? str_size (sh_service_key_id message))
  then Err MessageError.InvalidField
  else
    let body := BodyServerHello
      {| sht_selected_protocol_version := sh_selected_version message;
         sht_server_nonce := Some (sh_nonce message);
         sht_ephemeral_public_key := Some (sh_public_key message);
         sht_service_key_id := Some (sh_service_key_id message);
         sht_signature := Some (sh_signature message) |} in
    Ok (finish body 0 (sh_request_id message)).

Definition decodeServerHello (bs : bytes) : exec (result MessageError ServerHelloMessage) :=
  match checkedEnvelope bs with
  | None => Done (Err MessageError.InvalidEnvelope)
  | Some envelope =>
      if negb (env_protocol_version envelope =? 0) || (env_request_id envelope =? 0)
         || negb (bool_decide (env_body_type envelope = Message.ServerHello))
      then Done (Err MessageError.UnexpectedType)
      else
        body ← deref (body_as_ServerHello envelope);
        let service_key_id := optString (sht_service_key_id body) in
        if (sht_selected_protocol_version body =? 0) || str_empty service_key_id
           || (kMaxKeyIdSize <? str_size service_key_id)
        then Done (Err MessageError.InvalidField)
        else
          match copyFixed (sht_server_nonce body) kKeySize,
                copyFixed (sht_ephemeral_public_key body) kKeySize,
                copyFixed (sht_signature body) kSignatureSize with
          | Some nonce, Some public_key, Some signature =>
              Done (Ok {| sh_request_id := env_request_id envelope;
                          sh_selected_version := sht_selected_protocol_version body;
                          sh_nonce := nonce;
                          sh_public_key := public_key;
                          sh_service_key_id := service_key_id;
                          sh_signature := signature |})
          | _, _, _ => Done (Err MessageError.InvalidField)
          end
  end.

Definition encodeClientFinished (message : ClientFinishedMessage) : result MessageError bytes :=
  if (cf_request_id message =? 0) || (cf_protocol_version message =? 0)
  then Err MessageError.InvalidField
  else
    Ok (finish (BodyClientFinished
                  {| cft_transcript_hash := Some (cf_transcript_hash message) |})
          (cf_protocol_version message) (cf_request_id message)).

Definition decodeClientFinished (bs : bytes)
  : exec (result MessageError ClientFinishedMessage) :=
  match checkedEnvelope bs with
  | None => Done (Err MessageError.InvalidEnvelope)
  | Some envelope =>
      if (env_protocol_version envelope =? 0) || (env_request_id envelope =? 0)
         || negb (bool_decide (env_body_type envelope = Message.ClientFinished))
      then Done (Err MessageError.UnexpectedType)
      else
        body ← deref (body_as_ClientFinished envelope);
        match copyFixed (cft_transcript_hash body) kSha256Size with
        | Some hash =>
            Done (Ok {| cf_request_id := env_request_id envelope;
                        cf_protocol_version := env_protocol_version envelope;
                        cf_transcript_hash := hash |})
        | None => Done (Err MessageError.InvalidField)
        end
  end.

Definition encodeAuthorize (message : AuthorizeMessage) : result MessageError bytes :=
  if (az_request_id message =? 0) || (az_protocol_version message =? 0)
     || str_empty (az_product_id message)
     || (kMaxProductIdSize <? str_size (az_product_id message))
     || (az_process_id message =? 0)
  then Err MessageError.InvalidField
  else
    Ok (finish (BodyAuthorize
                  {| azt_product_id := Some (az_product_id message);
                     azt_process_id := az_process_id message;
                     azt_process_start_time := az_process_start_time message |})
          (az_protocol_version message) (az_request_id message)).

Definition decodeAuthorize (bs : bytes) : exec (result MessageError AuthorizeMessage) :=
  match checkedEnvelope bs with
  | None => Done (Err MessageError.InvalidEnvelope)
  | Some envelope =>
      if negb (validApplicationEnvelope envelope Message.Authorize)
      then Done (Err MessageError.UnexpectedType)
      else
        body ← deref (body_as_Authorize envelope);
        let message :=
          {| az_request_id := env_request_id envelope;
             az_protocol_version := env_protocol_version envelope;
             az_product_id := optString (azt_product_id body);
             az_process_id := azt_process_id body;
             az_process_start_time := azt_process_start_time body |} in
        if str_empty (az_product_id message)
           || (kMaxProductIdSize <? str_size (az_product_id message))
           || (az_process_id message =? 0)
        then Done (Err MessageError.InvalidField)
        else Done (Ok message)
  end.

(** The condition shared by [encodeAuthResult] and [decodeAuthResult]: a
    session id is present exactly when the error is [None]. *)
Definition sessionMismatch (error : AuthorizationError) (session_id : option bytes) : bool :=
  (bool_decide (error = AuthorizationError.None) && negb (bool_decide (is_Some session_id)))
  || (negb (bool_decide (error = AuthorizationError.None)) && bool_decide (is_Some session_id)).

Definition encodeAuthResult (message : AuthResultMessage) : result MessageError bytes :=
  if (ar_request_id message =? 0) || (ar_protocol_version message =? 0)
     || negb (validAuthorizationError (ar_error message))
     || negb (validFeatures (ar_features message))
     || sessionMismatch (ar_error message) (ar_session_id message)
  then Err MessageError.InvalidField
  else
    Ok (finish (BodyAuthResult
                  {| art_error := errorCode (ar_error message);
                     art_session_id := ar_session_id message;
                     art_features := Some (createFeatures (ar_features message));
                     art_expire_time := ar_expire_time message;
                     art_heartbeat_interval_ms := ar_heartbeat_interval_ms message;
                     art_heartbeat_timeout_ms := ar_heartbeat_timeout_ms message |})
          (ar_protocol_version message) (ar_request_id message)).

(** [features() && features()->size() != message.features.size()] *)
Definition featureCountMismatch (source : option StringVector) (copied : list string) : bool :=
  match source with
  | Some v => negb (zlen v =? zlen copied)
  | None => false
  end.

Definition decodeAuthResult (bs : bytes) : exec (result MessageError AuthResultMessage) :=
  match checkedEnvelope bs with
  | None => Done (Err MessageError.InvalidEnvelope)
  | Some envelope =>
      if negb (validApplicationEnvelope envelope Message.AuthResult)
      then Done (Err MessageError.UnexpectedType)
      else
        body ← deref (body_as_AuthResult envelope);
        let error := errorOfCode (art_error body) in
        let features := copyFeatures (art_features body) in
        if featureCountMismatch (art_features body) features
        then Done (Err MessageError.InvalidField)
        else
          let session_id :=
            match art_session_id body with
            | Some (b :: bs') =>
                (* present and not empty: it has to be a whole session id *)
                match copyFixed (Some (b :: bs')) kSessionIdSize with
                | Some id => Ok (Some id)
                | None => Err MessageError.InvalidField
                end
            | _ => Ok None
            end in
          match session_id with
          | Err e => Done (Err e)
          | Ok session_id =>
              if negb (validAuthorizationError error) || sessionMismatch error session_id
              then Done (Err MessageError.InvalidField)
              else
                Done (Ok {| ar_request_id := env_request_id envelope;
                            ar_protocol_version := env_protocol_version envelope;
                            ar_error := error;
                            ar_session_id := session_id;
                            ar_features := features;
                            ar_expire_time := art_expire_time body;
                            ar_heartbeat_interval_ms := art_heartbeat_interval_ms body;
                            ar_heartbeat_timeout_ms := art_heartbeat_timeout_ms body |})
          end
  end.

Definition encodeHeartbeat (message : HeartbeatMessage) : result MessageError bytes :=
  if (hb_request_id message =? 0) || (hb_protocol_version message =? 0)
  then Err MessageError.InvalidField
  else
    Ok (finish (BodyHeartbeat {| hbt_session_id := Some (hb_session_id message) |})
          (hb_protocol_version message) (hb_request_id message)).

Definition decodeHeartbeat (bs : bytes) : exec (result MessageError HeartbeatMessage) :=
  match checkedEnvelope bs with
  | None => Done (Err MessageError.InvalidEnvelope)
  | Some envelope =>
      if negb (validApplicationEnvelope envelope Message.Heartbeat)
      then Done (Err MessageError.UnexpectedType)
      else
        body ← deref (body_as_Heartbeat envelope);
        match copyFixed (hbt_session_id body) kSessionIdSize with
        | Some id =>
            Done (Ok {| hb_request_id := env_request_id envelope;
                        hb_protocol_version := env_protocol_version envelope;
                        hb_session_id := id |})
        | None => Done (Err MessageError.InvalidField)
        end
  end.

Definition encodeHeartbeatAck (message : HeartbeatAckMessage) : result MessageError bytes :=
  if (ha_request_id message =? 0) || (ha_protocol_version message =? 0)
     || negb (validAuthorizationState (ha_state message))
     || negb (validFeatures (ha_features message))
  then Err MessageError.InvalidField
  else
    Ok (finish (BodyHeartbeatAck
                  {| hat_state := stateCode (ha_state message);
                     hat_features := Some (createFeatures (ha_features message));
                     hat_expire_time := ha_expire_time message |})
          (ha_protocol_version message) (ha_request_id message)).

Definition decodeHeartbeatAck (bs : bytes) : exec (result MessageError HeartbeatAckMessage) :=
  match checkedEnvelope bs with
  | None => Done (Err MessageError.InvalidEnvelope)
  | Some envelope =>
      if negb (validApplicationEnvelope envelope Message.HeartbeatAck)
      then Done (Err MessageError.UnexpectedType)
      else
        body ← deref (body_as_HeartbeatAck envelope);
        let message :=
          {| ha_request_id := env_request_id envelope;
             ha_protocol_version := env_protocol_version envelope;
             ha_state := stateOfCode (hat_state body);
             ha_features := copyFeatures (hat_features body);
             ha_expire_time := hat_expire_time body |} in
        if negb (validAuthorizationState (ha_state message))
           || featureCountMismatch (hat_features body) (ha_features message)
        then Done (Err MessageError.InvalidField)
        else Done (Ok message)
  end.

Definition encodeCloseSession (message : CloseSessionMessage) : result MessageError bytes :=
  if (cs_request_id message =? 0) || (cs_protocol_version message =? 0)
  then Err MessageError.InvalidField
  else Ok (finish BodyCloseSession (cs_protocol_version message) (cs_request_id message)).

Definition decodeCloseSession (bs : bytes) : exec (result MessageError CloseSessionMessage) :=
  match checkedEnvelope bs with
  | None => Done (Err MessageError.InvalidEnvelope)
  | Some envelope =>
      if negb (validApplicationEnvelope envelope Message.CloseSession)
      then Done (Err MessageError.UnexpectedType)
      else Done (Ok {| cs_request_id := env_request_id envelope;
                       cs_protocol_version := env_protocol_version envelope |})
  end.

Definition encodeError (message : ErrorMessage) : result MessageError bytes :=
  if (er_request_id message =? 0) || (er_protocol_version message =? 0)
     || negb (validAuthorizationError (er_code message))
     || bool_decide (er_code message = AuthorizationError.None)
     || str_empty (er_message message)
     || (kMaxErrorMessageSize <? str_size (er_message message))
  then Err MessageError.InvalidField
  else
    Ok (finish (BodyError {| ert_code := errorCode (er_code message);
                             ert_message := Some (er_message message) |})
          (er_protocol_version message) (er_request_id message)).

Definition decodeError (bs : bytes) : exec (result MessageError ErrorMessage) :=
  match checkedEnvelope bs with
  | None => Done (Err MessageError.InvalidEnvelope)
  | Some envelope =>
      if negb (validApplicationEnvelope envelope Message.Error)
      then Done (Err MessageError.UnexpectedType)
      else
        body ← deref (body_as_Error envelope);
        let message :=
          {| er_request_id := env_request_id envelope;
             er_protocol_version := env_protocol_version envelope;
             er_code := errorOfCode (ert_code body);
             er_message := optString (ert_message body) |} in
        if negb (validAuthorizationError (er_code message))
           || bool_decide (er_code message = AuthorizationError.None)
           || str_empty (er_message message)
           || (kMaxErrorMessageSize <? str_size (er_message message))
        then Done (Err MessageError.InvalidField)
        else Done (Ok message)
  end.

End Codec.

(** ** All messages together *)

Module MessageKind.
Inductive MessageKind :=
| ClientHello | ServerHello | ClientFinished | Authorize | AuthResult
| Heartbeat | HeartbeatAck | CloseSession | Error.
End MessageKind.
Abbreviation MessageKind := MessageKind.MessageKind.

#[global] Instance MessageKind_eq_dec : EqDecision MessageKind.
Proof. solve_decision. Defined.

Inductive AnyMessage :=
| AnyClientHello (m : ClientHelloMessage)
| AnyServerHello (m : ServerHelloMessage)
| AnyClientFinished (m : ClientFinishedMessage)
| AnyAuthorize (m : AuthorizeMessage)
| AnyAuthResult (m : AuthResultMessage)
| AnyHeartbeat (m : HeartbeatMessage)
| AnyHeartbeatAck (m : HeartbeatAckMessage)
| AnyCloseSession (m : CloseSessionMessage)
| AnyError (m : ErrorMessage).

Definition any_kind (m : AnyMessage) : MessageKind :=
  match m with
  | AnyClientHello _ => MessageKind.ClientHello
  | AnyServerHello _ => MessageKind.ServerHello
  | AnyClientFinished _ => MessageKind.ClientFinished
  | AnyAuthorize _ => MessageKind.Authorize
  | AnyAuthResult _ => MessageKind.AuthResult
  | AnyHeartbeat _ => MessageKind.Heartbeat
  | AnyHeartbeatAck _ => MessageKind.HeartbeatAck
  | AnyCloseSession _ => MessageKind.CloseSession
  | AnyError _ => MessageKind.Error
  end.

(** The discriminator a decoder looks for. *)
Definition kind_tag (k : MessageKind) : Message :=
  match k with
  | MessageKind.ClientHello => Message.ClientHello
  | MessageKind.ServerHello => Message.ServerHello
  | MessageKind.ClientFinished => Message.ClientFinished
  | MessageKind.Authorize => Message.Authorize
  | MessageKind.AuthResult => Message.AuthResult
  | MessageKind.Heartbeat => Message.Heartbeat
  | MessageKind.HeartbeatAck => Message.HeartbeatAck
  | MessageKind.CloseSession => Message.CloseSession
  | MessageKind.Error => Message.Error
  end.

(** Hello messages travel before a version is negotiated. *)
Definition is_hello (k : MessageKind) : bool :=
  match k with MessageKind.ClientHello | MessageKind.ServerHello => true | _ => false end.

Definition ok_map {E A B} (f : A → B) (r : result E A) : result E B :=
  match r with Ok a => Ok (f a) | Err e => Err e end.

Section Any.
Context `{ProtocolBuffers}.

Definition encodeAny (m : AnyMessage) : result MessageError bytes :=
  match m with
  | AnyClientHello m => encodeClientHello m
  | AnyServerHello m => encodeServerHello m
  | AnyClientFinished m => encodeClientFinished m
  | AnyAuthorize m => encodeAuthorize m
  | AnyAuthResult m => encodeAuthResult m
  | AnyHeartbeat m => encodeHeartbeat m
  | AnyHeartbeatAck m => encodeHeartbeatAck m
  | AnyCloseSession m => encodeCloseSession m
  | AnyError m => encodeError m
  end.

Definition decodeAs (k : MessageKind) (bs : bytes) : exec (result MessageError AnyMessage) :=
  match k with
  | MessageKind.ClientHello => exec_map (ok_map AnyClientHello) (decodeClientHello bs)
  | MessageKind.ServerHello => exec_map (ok_map AnyServerHello) (decodeServerHello bs)
  | MessageKind.ClientFinished => exec_map (ok_map AnyClientFinished) (decodeClientFinished bs)
  | MessageKind.Authorize => exec_map (ok_map AnyAuthorize) (decodeAuthorize bs)
  | MessageKind.AuthResult => exec_map (ok_map AnyAuthResult) (decodeAuthResult bs)
  | MessageKind.Heartbeat => exec_map (ok_map AnyHeartbeat) (decodeHeartbeat bs)
  | MessageKind.HeartbeatAck => exec_map (ok_map AnyHeartbeatAck) (decodeHeartbeatAck bs)
  | MessageKind.CloseSession => exec_map (ok_map AnyCloseSession) (decodeCloseSession bs)
  | MessageKind.Error => exec_map (ok_map AnyError) (decodeError bs)
  end.
End Any.

(** Field values in the C++ types of the message structs. *)
Definition any_typed (m : AnyMessage) : Prop :=
  match m with
  | AnyClientHello m =>
      in_width 64 (ch_request_id m) ∧ in_width 16 (ch_min_version m)
      ∧ in_width 16 (ch_max_version m) ∧ is_array kKeySize (ch_nonce m)
      ∧ is_array kKeySize (ch_public_key m)
  | AnyServerHello m =>
      in_width 64 (sh_request_id m) ∧ in_width 16 (sh_selected_version m)
      ∧ is_array kKeySize (sh_nonce m) ∧ is_array kKeySize (sh_public_key m)
      ∧ is_array kSignatureSize (sh_signature m)
  | AnyClientFinished m =>
      in_width 64 (cf_request_id m) ∧ in_width 16 (cf_protocol_version m)
      ∧ is_array kSha256Size (cf_transcript_hash m)
  | AnyAuthorize m =>
      in_width 64 (az_request_id m) ∧ in_width 16 (az_protocol_version m)
      ∧ in_width 64 (az_process_id m) ∧ in_width 64 (az_process_start_time m)
  | AnyAuthResult m =>
      in_width 64 (ar_request_id m) ∧ in_width 16 (ar_protocol_version m)
      ∧ (∀ id, ar_session_id m = Some id → is_array kSessionIdSize id)
      ∧ in_width 64 (ar_expire_time m) ∧ in_width 32 (ar_heartbeat_interval_ms m)
      ∧ in_width 32 (ar_heartbeat_timeout_ms m)
  | AnyHeartbeat m =>
      in_width 64 (hb_request_id m) ∧ in_width 16 (hb_protocol_version m)
      ∧ is_array kSessionIdSize (hb_session_id m)
  | AnyHeartbeatAck m =>
      in_width 64 (ha_request_id m) ∧ in_width 16 (ha_protocol_version m)
      ∧ in_width 64 (ha_expire_time m)
  | AnyCloseSession m => in_width 64 (cs_request_id m) ∧ in_width 16 (cs_protocol_version m)
  | AnyError m => in_width 64 (er_request_id m) ∧ in_width 16 (er_protocol_version m)
  end.

(** ** Helper facts *)

Lemma copyFixed_Some s n bs : copyFixed s n = Some bs ↔ s = Some bs ∧ zlen bs = n.
Proof.
  unfold copyFixed. destruct s as [v|]; [|naive_solver].
  destruct (Z.eqb_spec (zlen v) n); naive_solver.
Qed.

Lemma copyFixed_array n bs : is_array n bs → copyFixed (Some bs) n = Some bs.
Proof. intros [Hl _]. by apply copyFixed_Some. Qed.

Lemma errorOfCode_named e : validAuthorizationError e = true → errorOfCode (errorCode e) = e.
Proof. by destruct e. Qed.

Lemma errorCode_width e : validAuthorizationError e = true → in_width 16 (errorCode e).
Proof. unfold in_width. destruct e; cbn; try done; lia. Qed.

Lemma stateOfCode_named s : validAuthorizationState s = true → stateOfCode (stateCode s) = s.
Proof. by destruct s. Qed.

Lemma stateCode_width s : validAuthorizationState s = true → -2 ^ 7 <= stateCode s < 2 ^ 7.
Proof. destruct s; cbn; try done; lia. Qed.

Lemma validFeatures_spec fs :
  validFeatures fs = true ↔
  zlen fs <= kMaxFeatures ∧ Forall (fun f => str_empty f = false ∧ str_size f <= kMaxFeatureSize) fs.
Proof.
  unfold validFeatures. rewrite andb_true_iff, Z.leb_le, forallb_forall, List.Forall_forall.
  split; intros [Hn Hf]; (split; [done|]); intros f Hin; specialize (Hf f Hin).
  - rewrite andb_true_iff, negb_true_iff, Z.leb_le in Hf. done.
  - rewrite andb_true_iff, negb_true_iff, Z.leb_le. done.
Qed.

Lemma copyFeatureLoop_created fs :
  Forall (fun f => str_empty f = false ∧ str_size f <= kMaxFeatureSize) fs →
  copyFeatureLoop (createFeatures fs) = Some fs.
Proof.
  induction 1 as [|f fs [He Hs] _ IH]; [done|]. cbn. rewrite He. cbn [orb].
  destruct (Z.ltb_spec kMaxFeatureSize (str_size f)); [lia|].
  unfold createFeatures in IH. by rewrite IH.
Qed.

Lemma copyFeatures_created fs :
  validFeatures fs = true → copyFeatures (Some (createFeatures fs)) = fs.
Proof.
  intros [Hn Hf]%validFeatures_spec. unfold copyFeatures.
  replace (zlen (createFeatures fs)) with (zlen fs)
    by (unfold zlen, createFeatures; by rewrite length_map).
  destruct (Z.ltb_spec kMaxFeatures (zlen fs)); [lia|]. by rewrite copyFeatureLoop_created.
Qed.

Lemma copyFeatureLoop_valid v fs :
  copyFeatureLoop v = Some fs →
  zlen fs = zlen v ∧ Forall (fun f => str_empty f = false ∧ str_size f <= kMaxFeatureSize) fs.
Proof.
  revert fs. induction v as [|[f|] v IH]; intros fs; cbn; [by intros [= <-]| |done].
  destruct (_ || _) eqn:E; [done|]. reflect_bools.
  intros (gs & Hg & [= <-])%bind_Some. apply IH in Hg as [Hl Hf].
  rewrite !zlen_cons. split; [lia|]. constructor; auto.
Qed.

(** The count check makes a truncated copy an error. *)
Lemma copyFeatures_valid src :
  featureCountMismatch src (copyFeatures src) = false → validFeatures (copyFeatures src) = true.
Proof.
  unfold featureCountMismatch, copyFeatures. destruct src as [v|]; [|done].
  destruct (Z.ltb_spec kMaxFeatures (zlen v)).
  { intros Hm. reflect_bools. rewrite (zlen_nil (A:=string)) in Hm. unfold kMaxFeatures in *. lia. }
  intros Hm. reflect_bools. destruct (copyFeatureLoop v) as [fs|] eqn:E; [|done].
  apply copyFeatureLoop_valid in E as [Hl Hf]. apply validFeatures_spec. split; [lia|done].
Qed.

Lemma features_weight_valid fs :
  validFeatures fs = true → features_weight (Some (createFeatures fs)) <= 24 + 256 * (24 + 128).
Proof.
  intros [Hn Hf]%validFeatures_spec. cbn. unfold createFeatures.
  apply (strings_weight_bound fs 256 128); [done| |lia].
  eapply Forall_impl; [exact Hf|]. by intros f [_ ?].
Qed.

Lemma createFeatures_count fs : featureCountMismatch (Some (createFeatures fs)) fs = false.
Proof.
  unfold featureCountMismatch, createFeatures, zlen. rewrite length_map.
  by rewrite Z.eqb_refl.
Qed.

(** ** Encoder and decoder are inverse *)

#[local] Arguments copyFixed : simpl never.
#[local] Arguments copyFeatures : simpl never.
#[local] Arguments createFeatures : simpl never.
#[local] Arguments featureCountMismatch : simpl never.
#[local] Arguments sessionMismatch : simpl never.
#[local] Arguments validApplicationEnvelope : simpl never.
#[local] Arguments errorOfCode : simpl never.
#[local] Arguments stateOfCode : simpl never.
#[local] Arguments features_weight : simpl never.

Section Theorems.
Context {P : ProtocolBuffers} {PL : ProtocolBuffersLaws P}.

Lemma verifyEnvelope_Ok bs n d t :
  verifyEnvelope bs n d t = Ok () ↔
  8 <= zlen bs <= n ∧ EnvelopeBufferHasIdentifier bs = true
  ∧ VerifyEnvelopeBuffer d t bs = true.
Proof.
  unfold verifyEnvelope, kIdentifierEnd. split.
  - intros Hv. repeat split_match_in Hv; try discriminate Hv. reflect_bools. repeat split; [lia..| |]; done.
  - intros ([? ?] & -> & ->).
    rewrite (proj2 (Z.eqb_neq _ _)), (proj2 (Z.ltb_ge _ _)), (proj2 (Z.ltb_ge (zlen bs) _)) by lia.
    done.
Qed.

Lemma checkedEnvelope_finish b v r :
  in_width 16 v → in_width 64 r → body_typed b → body_weight b <= 2 ^ 19 →
  checkedEnvelope (finish b v r) = Some (mkEnvelope v r (body_tag b) (Some b)).
Proof.
  intros Hv Hr Hb Hw. unfold checkedEnvelope, finish.
  assert (body_weight b <= 2 ^ 20) as Hw' by lia.
  rewrite (proj2 (verifyEnvelope_Ok _ _ _ _)).
  - by rewrite get_finish.
  - pose proof (finish_size v r b Hw'). unfold kEnvelopeMaxSize. repeat split; [lia|lia| |].
    + apply finish_identifier.
    + by apply finish_verifies.
Qed.

(** The boolean guard of an encoder that accepted, as facts. *)
Ltac accepted H :=
  match type of H with
  | (if ?c then _ else _) = Ok _ => destruct c eqn:?; [discriminate H|]
  end; apply Ok_inj in H; subst; reflect_bools.

(** Evaluate the tests of a decoder with the facts of the encoder. *)
Ltac decide_tests :=
  repeat match goal with
  | H : ?a ≠ ?b |- context [?a =? ?b] => rewrite (proj2 (Z.eqb_neq a b) H)
  | H : ?b <= ?a |- context [?a <? ?b] => rewrite (proj2 (Z.ltb_ge a b) H)
  | H : ?e = ?b |- context [?e] =>
      lazymatch b with true => idtac | false => idtac end; rewrite H
  | H : is_array ?n ?a |- context [copyFixed (Some ?a) ?n] => rewrite (copyFixed_array n a H)
  | H : ?a ≠ ?b |- context [bool_decide (?a = ?b)] => rewrite (bool_decide_eq_false_2 _ H)
  end; cbn [negb orb andb].

Ltac size_facts :=
  repeat match goal with
  | H : is_array _ _ |- _ => destruct H as [? ?]
  | H : str_empty _ = false |- _ => apply str_nonempty_size in H
  end.

Ltac weigh :=
  size_facts; cbn; unfold kKeySize, kSignatureSize, kSha256Size, kSessionIdSize, kMaxSdkVersionSize,
    kMaxKeyIdSize, kMaxProductIdSize, kMaxErrorMessageSize in *; lia.

Lemma in_width_0 w : 0 <= w → in_width w 0.
Proof. intros. split; [lia|]. apply Z.pow_pos_nonneg; lia. Qed.

Ltac roundtrip H :=
  accepted H;
  rewrite checkedEnvelope_finish by
    first [by apply in_width_0 | assumption | weigh
          | cbn; unfold is_array in *; naive_solver];
  cbn; rewrite ?bool_decide_eq_true_2 by done; decide_tests; try done.

Lemma ClientHello_roundtrip m bs :
  any_typed (AnyClientHello m) → encodeClientHello m = Ok bs →
  decodeClientHello bs = Done (Ok m).
Proof.
  intros (Hr & Hmin & Hmax & Hn & Hk) He. destruct m.
  unfold encodeClientHello, decodeClientHello in *. cbn in *. roundtrip He.
Qed.

Lemma ServerHello_roundtrip m bs :
  any_typed (AnyServerHello m) → encodeServerHello m = Ok bs →
  decodeServerHello bs = Done (Ok m).
Proof.
  intros (Hr & Hv & Hn & Hk & Hs) He. destruct m.
  unfold encodeServerHello, decodeServerHello in *. cbn in *. roundtrip He.
Qed.

Lemma ClientFinished_roundtrip m bs :
  any_typed (AnyClientFinished m) → encodeClientFinished m = Ok bs →
  decodeClientFinished bs = Done (Ok m).
Proof.
  intros (Hr & Hv & Hh) He. destruct m.
  unfold encodeClientFinished, decodeClientFinished in *. cbn in *. roundtrip He.
Qed.

Lemma validApplicationEnvelope_built v r t b :
  v ≠ 0 → r ≠ 0 → validApplicationEnvelope (mkEnvelope v r t b) t = true.
Proof.
  intros Hv Hr. unfold validApplicationEnvelope. cbn. rewrite bool_decide_eq_true_2 by done.
  by decide_tests.
Qed.

Lemma Authorize_roundtrip m bs :
  any_typed (AnyAuthorize m) → encodeAuthorize m = Ok bs → decodeAuthorize bs = Done (Ok m).
Proof.
  intros (Hr & Hv & Hp & Ht) He. destruct m.
  unfold encodeAuthorize, decodeAuthorize in *. cbn in *. roundtrip He.
  rewrite validApplicationEnvelope_built by done. cbn. decide_tests. done.
Qed.

Lemma Heartbeat_roundtrip m bs :
  any_typed (AnyHeartbeat m) → encodeHeartbeat m = Ok bs → decodeHeartbeat bs = Done (Ok m).
Proof.
  intros (Hr & Hv & Hi) He. destruct m.
  unfold encodeHeartbeat, decodeHeartbeat in *. cbn in *. roundtrip He.
  rewrite validApplicationEnvelope_built by done. cbn. decide_tests. done.
Qed.

Lemma HeartbeatAck_roundtrip m bs :
  any_typed (AnyHeartbeatAck m) → encodeHeartbeatAck m = Ok bs →
  decodeHeartbeatAck bs = Done (Ok m).
Proof.
  intros (Hr & Hv & Ht) He. destruct m as [r v st fs t].
  unfold encodeHeartbeatAck, decodeHeartbeatAck in *. cbn in *. accepted He.
  rewrite checkedEnvelope_finish; [|done|done|by split; [apply stateCode_width|]|].
  2: { cbn. pose proof (features_weight_valid fs ltac:(done)). lia. }
  cbn. rewrite validApplicationEnvelope_built by done.
  rewrite stateOfCode_named, copyFeatures_created, createFeatures_count by done.
  decide_tests. done.
Qed.

Lemma CloseSession_roundtrip m bs :
  any_typed (AnyCloseSession m) → encodeCloseSession m = Ok bs →
  decodeCloseSession bs = Done (Ok m).
Proof.
  intros (Hr & Hv) He. destruct m.
  unfold encodeCloseSession, decodeCloseSession in *. cbn in *. roundtrip He.
  rewrite validApplicationEnvelope_built by done. done.
Qed.

Lemma Error_roundtrip m bs :
  any_typed (AnyError m) → encodeError m = Ok bs → decodeError bs = Done (Ok m).
Proof.
  intros (Hr & Hv) He. destruct m as [r v e t].
  unfold encodeError, decodeError in *. cbn in *. accepted He.
  rewrite checkedEnvelope_finish; [|done|done|by apply errorCode_width|weigh].
  cbn. rewrite validApplicationEnvelope_built by done. rewrite errorOfCode_named by done.
  decide_tests. done.
Qed.

(** The session field as the decoder reads it back. *)
Lemma session_field_copied (id : option bytes) :
  (∀ i, id = Some i → is_array kSessionIdSize i) →
  match id with
  | Some (b :: bs') =>
      match copyFixed (Some (b :: bs')) kSessionIdSize with
      | Some id => Ok (Some id)
      | None => Err MessageError.InvalidField
      end
  | _ => Ok None
  end = Ok id.
Proof.
  intros Hid. destruct id as [[|b i]|]; [|by rewrite copyFixed_array by auto|done].
  by destruct (Hid [] eq_refl).
Qed.

Lemma AuthResult_roundtrip m bs :
  any_typed (AnyAuthResult m) → encodeAuthResult m = Ok bs → decodeAuthResult bs = Done (Ok m).
Proof.
  intros (Hr & Hv & Hid & Ht & Hi & Ho) He. destruct m as [r v e id fs t hi ht].
  unfold encodeAuthResult, decodeAuthResult in *. cbn -[kSessionIdSize] in *. accepted He.
  rewrite checkedEnvelope_finish; [|done|done| |].
  - cbn -[kSessionIdSize]. rewrite validApplicationEnvelope_built by done. cbn -[kSessionIdSize].
    rewrite errorOfCode_named, copyFeatures_created, createFeatures_count by done.
    rewrite session_field_copied by done. decide_tests. done.
  - cbn. split; [by apply errorCode_width|]. split; [|done].
    destruct id as [i|]; [by apply Hid|done].
  - cbn. pose proof (features_weight_valid fs ltac:(done)).
    destruct id as [i|]; cbn; [destruct (Hid i eq_refl) as [-> _]|]; unfold kSessionIdSize; lia.
Qed.

Lemma any_roundtrip m bs :
  any_typed m → encodeAny m = Ok bs → decodeAs (any_kind m) bs = Done (Ok m).
Proof.
  intros Ht He. destruct m; cbn in *.
  - by rewrite (ClientHello_roundtrip _ _ Ht He).
  - by rewrite (ServerHello_roundtrip _ _ Ht He).
  - by rewrite (ClientFinished_roundtrip _ _ Ht He).
  - by rewrite (Authorize_roundtrip _ _ Ht He).
  - by rewrite (AuthResult_roundtrip _ _ Ht He).
  - by rewrite (Heartbeat_roundtrip _ _ Ht He).
  - by rewrite (HeartbeatAck_roundtrip _ _ Ht He).
  - by rewrite (CloseSession_roundtrip _ _ Ht He).
  - by rewrite (Error_roundtrip _ _ Ht He).
Qed.

(** ** What a decoder accepts *)

(** The test every decoder applies to the envelope before it reads the body. *)
Definition header_accepted (k : MessageKind) (e : Envelope) : bool :=
  Bool.eqb (is_hello k) (env_protocol_version e =? 0) && negb (env_request_id e =? 0)
  && bool_decide (env_body_type e = kind_tag k).

Lemma checkedEnvelope_typed bs e :
  octets bs → checkedEnvelope bs = Some e → envelope_typed e.
Proof.
  unfold checkedEnvelope. intros Ho. destruct (verifyEnvelope _ _ _ _) as [[]|] eqn:E; [|done].
  intros [= <-]. apply verifyEnvelope_Ok in E as (_ & _ & E). by apply (get_typed _ _ _ Ho E).
Qed.

(** Go through the envelope checks of every decoder. *)
Ltac envelope_cases k :=
  destruct k; cbn;
  unfold decodeClientHello, decodeServerHello, decodeClientFinished, decodeAuthorize,
    decodeAuthResult, decodeHeartbeat, decodeHeartbeatAck, decodeCloseSession, decodeError,
    validApplicationEnvelope, header_accepted in *.

Lemma header_rejected k bs e :
  checkedEnvelope bs = Some e → header_accepted k e = false →
  decodeAs k bs = Done (Err MessageError.UnexpectedType).
Proof.
  intros Hc. destruct e as [v r t b]. envelope_cases k; rewrite Hc; cbn;
  destruct (v =? 0), (r =? 0), (bool_decide _); done.
Qed.

Lemma null_body_undefined k bs e :
  checkedEnvelope bs = Some e → header_accepted k e = true → env_body e = None →
  k ≠ MessageKind.CloseSession → decodeAs k bs = Undefined.
Proof.
  intros Hc Ha Hb Hk. destruct e as [v r t b]. cbn in Hb. subst b. revert Ha.
  envelope_cases k; try done; rewrite Hc; cbn;
  intros [[Hv Hr]%andb_true_iff ->%bool_decide_eq_true]%andb_true_iff; revert Hv Hr;
  rewrite bool_decide_eq_true_2 by done; destruct (v =? 0), (r =? 0); done.
Qed.

(** A present body of the right discriminator is always readable. *)
Lemma body_defined k bs e b :
  octets bs → checkedEnvelope bs = Some e → env_body e = Some b → decodeAs k bs ≠ Undefined.
Proof.
  intros Ho Hc Hb. pose proof (checkedEnvelope_typed _ _ Ho Hc) as (_ & _ & Ht).
  rewrite Hb in Ht. destruct Ht as [Ht _]. destruct e as [v r t ob]. cbn in Hb, Ht. subst ob t.
  envelope_cases k; rewrite Hc; cbn;
  destruct b; cbn; rewrite ?orb_true_r, ?andb_false_r; try done;
  destruct (v =? 0), (r =? 0); cbn; try done; repeat split_match; done.
Qed.

Lemma copyFixed_typed o n a : opt_octets o → copyFixed o n = Some a → is_array n a.
Proof. intros Ho [-> <-]%copyFixed_Some. done. Qed.

(** Walk down a decoder that returned a message: its envelope is well typed,
    its body present, and every test on the way is a fact of the context. *)
Ltac open_decoder Ho Hd :=
  match type of Hd with context [checkedEnvelope ?bs] =>
    let Hc := fresh "Hc" in let Hv := fresh "Hv" in let Hr := fresh "Hr" in
    let Ht := fresh "Ht" in
    destruct (checkedEnvelope bs) as [[v r t b]|] eqn:Hc; [|done];
    pose proof (checkedEnvelope_typed _ _ Ho Hc) as (Hv & Hr & Ht);
    unfold validApplicationEnvelope in Hd; cbn in *; split_match_in Hd; [done|]
  end; reflect_bools; subst;
  match goal with
  | t : option MessageBody |- _ => destruct t as [[]|]; try done
  | _ => idtac
  end;
  repeat match goal with H : _ ∧ _ |- _ => destruct H end; try discriminate;
  cbn -[kKeySize kSignatureSize kSha256Size kSessionIdSize] in *;
  repeat match goal with H : _ ∧ _ |- _ => destruct H end;
  repeat (split_match_in Hd; try discriminate Hd);
  injection Hd as <-; reflect_bools; cbn -[kKeySize kSignatureSize kSha256Size kSessionIdSize];
  repeat match goal with
  | H : copyFixed ?o ?n = Some ?a |- _ =>
      assert (is_array n a) by (eapply copyFixed_typed; [|exact H]; assumption); clear H
  end;
  decide_tests; try done.

Lemma decoded_ClientHello bs m :
  octets bs → decodeClientHello bs = Done (Ok m) →
  any_typed (AnyClientHello m) ∧ is_ok (encodeClientHello m) = true.
Proof.
  intros Ho Hd. unfold decodeClientHello, encodeClientHello in *. open_decoder Ho Hd.
Qed.

Lemma decoded_ServerHello bs m :
  octets bs → decodeServerHello bs = Done (Ok m) →
  any_typed (AnyServerHello m) ∧ is_ok (encodeServerHello m) = true.
Proof.
  intros Ho Hd. unfold decodeServerHello, encodeServerHello in *. open_decoder Ho Hd.
Qed.

Lemma decoded_ClientFinished bs m :
  octets bs → decodeClientFinished bs = Done (Ok m) →
  any_typed (AnyClientFinished m) ∧ is_ok (encodeClientFinished m) = true.
Proof.
  intros Ho Hd. unfold decodeClientFinished, encodeClientFinished in *. open_decoder Ho Hd.
Qed.

Lemma decoded_Authorize bs m :
  octets bs → decodeAuthorize bs = Done (Ok m) →
  any_typed (AnyAuthorize m) ∧ is_ok (encodeAuthorize m) = true.
Proof.
  intros Ho Hd. unfold decodeAuthorize, encodeAuthorize in *. open_decoder Ho Hd.
Qed.

Lemma decoded_Heartbeat bs m :
  octets bs → decodeHeartbeat bs = Done (Ok m) →
  any_typed (AnyHeartbeat m) ∧ is_ok (encodeHeartbeat m) = true.
Proof.
  intros Ho Hd. unfold decodeHeartbeat, encodeHeartbeat in *. open_decoder Ho Hd.
Qed.

Lemma decoded_HeartbeatAck bs m :
  octets bs → decodeHeartbeatAck bs = Done (Ok m) →
  any_typed (AnyHeartbeatAck m) ∧ is_ok (encodeHeartbeatAck m) = true.
Proof.
  intros Ho Hd. unfold decodeHeartbeatAck, encodeHeartbeatAck in *. open_decoder Ho Hd.
  rewrite copyFeatures_valid by done. done.
Qed.

Lemma decoded_CloseSession bs m :
  octets bs → decodeCloseSession bs = Done (Ok m) →
  any_typed (AnyCloseSession m) ∧ is_ok (encodeCloseSession m) = true.
Proof.
  intros Ho Hd. unfold decodeCloseSession, encodeCloseSession in *. open_decoder Ho Hd.
Qed.

Lemma decoded_Error bs m :
  octets bs → decodeError bs = Done (Ok m) →
  any_typed (AnyError m) ∧ is_ok (encodeError m) = true.
Proof.
  intros Ho Hd. unfold decodeError, encodeError in *. open_decoder Ho Hd.
Qed.

Lemma decoded_AuthResult bs m :
  octets bs → decodeAuthResult bs = Done (Ok m) →
  any_typed (AnyAuthResult m) ∧ is_ok (encodeAuthResult m) = true.
Proof.
  intros Ho Hd. unfold decodeAuthResult, encodeAuthResult in *. open_decoder Ho Hd.
  all: rewrite copyFeatures_valid by done; cbn; split; [|done];
    split_and!; try done; by intros ? [= <-].
Qed.

Lemma decoded_any k bs m :
  octets bs → decodeAs k bs = Done (Ok m) →
  any_kind m = k ∧ any_typed m ∧ is_ok (encodeAny m) = true.
Proof.
  intros Ho. destruct k; cbn; intros Hd;
  match type of Hd with exec_map _ ?x = _ => destruct x as [[m'|]| |] eqn:E; try discriminate Hd end;
  injection Hd as <-; (split; [done|]);
  [ eapply decoded_ClientHello | eapply decoded_ServerHello | eapply decoded_ClientFinished
  | eapply decoded_Authorize | eapply decoded_AuthResult | eapply decoded_Heartbeat
  | eapply decoded_HeartbeatAck | eapply decoded_CloseSession | eapply decoded_Error ]; done.
Qed.

(** The envelope an accepted message travels in. *)
Lemma encodeAny_envelope m bs :
  any_typed m → encodeAny m = Ok bs →
  ∃ e, checkedEnvelope bs = Some e ∧ header_accepted (any_kind m) e = true.
Proof.
  intros Ht He. pose proof (any_roundtrip m bs Ht He) as Hd.
  destruct (checkedEnvelope bs) as [e|] eqn:Hc.
  - exists e. split; [done|]. destruct (header_accepted _ e) eqn:Ha; [done|].
    rewrite (header_rejected _ _ _ Hc Ha) in Hd. done.
  - exfalso. revert Hd. envelope_cases (any_kind m); rewrite Hc; done.
Qed.

Lemma header_accepted_kind k k' e :
  header_accepted k e = true → header_accepted k' e = true → k = k'.
Proof.
  unfold header_accepted. intros H1 H2. reflect_bools.
  assert (kind_tag k = kind_tag k') as E by congruence. by destruct k, k'.
Qed.

(** Size of an encoded message, for the layers below. *)
Lemma encodeAny_body m bs :
  any_typed m → encodeAny m = Ok bs →
  ∃ b v r, bs = finish b v r ∧ body_weight b <= 2 ^ 16.
Proof.
  intros Ht He. destruct m as [m|m|m|m|m|m|m|m|m]; destruct m; cbn -[kSessionIdSize] in *;
  repeat match goal with H : _ ∧ _ |- _ => destruct H end;
  unfold encodeClientHello, encodeServerHello, encodeClientFinished, encodeAuthorize,
    encodeAuthResult, encodeHeartbeat, encodeHeartbeatAck, encodeCloseSession, encodeError in He;
  cbn -[kSessionIdSize] in He; accepted He; do 3 eexists; (split; [reflexivity|]);
  repeat match goal with
  | H : validFeatures ?fs = true |- _ => apply features_weight_valid in H
  end; try weigh.
  destruct ar_session_id0 as [i|]; cbn -[kSessionIdSize] in *; [|lia].
  match goal with H : ∀ id, _ |- _ => destruct (H i eq_refl) as [-> _] end.
  unfold kSessionIdSize. lia.
Qed.

Lemma encodeAny_size m bs :
  any_typed m → encodeAny m = Ok bs → octets bs ∧ 8 <= zlen bs <= 2 ^ 17.
Proof.
  intros Ht He. destruct (encodeAny_body m bs Ht He) as (b & v & r & -> & Hw).
  split; [apply finish_octets|]. unfold finish.
  pose proof (finish_size v r b ltac:(lia)). lia.
Qed.

(** C21. Encoding and decoding of every message are inverse: what an encoder
    produced from a message struct is decoded to the same struct. *)
Theorem message_roundtrip m bs :
  any_typed m → encodeAny m = Ok bs → decodeAs (any_kind m) bs = Done (Ok m).
Proof. apply any_roundtrip. Qed.

(** C22. A decoder validates: whatever bytes it is given, a message it returns
    is of its kind, has every field in range and is one that the encoder
    accepts, so that the limits of encoder and decoder agree. *)
Theorem decoded_message_valid k bs m :
  octets bs → decodeAs k bs = Done (Ok m) →
  any_kind m = k ∧ any_typed m ∧ ∃ bs', encodeAny m = Ok bs' ∧ decodeAs k bs' = Done (Ok m).
Proof.
  intros Ho Hd. destruct (decoded_any k bs m Ho Hd) as (<- & Ht & He).
  split_and!; try done. apply is_ok_true in He as [bs' He]. exists bs'.
  split; [done|]. by apply any_roundtrip.
Qed.

(** Message kinds cannot be confused: a decoder rejects every other
    kind's encoding with [UnexpectedType], whatever the two bodies contain. *)
Theorem decode_kind_separation m bs k :
  any_typed m → encodeAny m = Ok bs → k ≠ any_kind m →
  decodeAs k bs = Done (Err MessageError.UnexpectedType).
Proof.
  intros Ht He Hk. destruct (encodeAny_envelope m bs Ht He) as (e & Hc & Ha).
  apply (header_rejected k bs e Hc). destruct (header_accepted k e) eqn:Ha'; [|done].
  by destruct Hk; apply (header_accepted_kind k _ e).
Qed.

(** A decoder is undefined (it dereferences a null pointer) exactly on the
    buffers that pass every envelope check but carry no union value: the
    verifier accepts them and only [decodeCloseSession] does not read the
    body.  On all other buffers it returns. *)
Theorem decode_undefined_iff k bs :
  octets bs →
  decodeAs k bs = Undefined ↔
  k ≠ MessageKind.CloseSession
  ∧ ∃ e, checkedEnvelope bs = Some e ∧ header_accepted k e = true ∧ env_body e = None.
Proof.
  intros Ho. split.
  - intros Hd. destruct (checkedEnvelope bs) as [e|] eqn:Hc.
    + split; [intros ->; revert Hd; cbn; unfold decodeCloseSession; rewrite Hc;
              by destruct (negb _)|].
      exists e. destruct (header_accepted k e) eqn:Ha.
      2: { by rewrite (header_rejected _ _ _ Hc Ha) in Hd. }
      split_and!; try done. destruct (env_body e) as [b|] eqn:Hb; [|done].
      by destruct (body_defined k bs e b Ho Hc Hb).
    + revert Hd. envelope_cases k; rewrite Hc; done.
  - intros (Hk & e & Hc & Ha & Hb). by apply (null_body_undefined k bs e).
Qed.

End Theorems.

(** ** Concrete messages *)

Section Witnesses.
#[local] Existing Instance toy_buffers.

Definition sample_result : AuthResultMessage :=
  {| ar_request_id := 7; ar_protocol_version := 1; ar_error := AuthorizationError.None;
     ar_session_id := Some (be_split 16 99); ar_features := ["export"; "render"];
     ar_expire_time := 2000000000; ar_heartbeat_interval_ms := 30000;
     ar_heartbeat_timeout_ms := 90000 |}.

Definition sample_result_bytes : bytes :=
  match encodeAuthResult sample_result with Ok bs => bs | Err _ => [] end.

Lemma sample_result_encoded : encodeAny (AnyAuthResult sample_result) = Ok sample_result_bytes.
Proof. vm_compute. reflexivity. Qed.

Lemma sample_result_typed : any_typed (AnyAuthResult sample_result).
Proof.
  unfold any_typed, in_width. cbn [sample_result ar_request_id ar_protocol_version ar_session_id
    ar_expire_time ar_heartbeat_interval_ms ar_heartbeat_timeout_ms].
  split_and!; try lia. intros id [= <-]. split; [done|apply be_split_octets].
Qed.

Lemma message_roundtrip_witness :
  decodeAs MessageKind.AuthResult sample_result_bytes = Done (Ok (AnyAuthResult sample_result)).
Proof.
  exact (message_roundtrip (AnyAuthResult sample_result) sample_result_bytes
           sample_result_typed sample_result_encoded).
Defined.

Lemma decode_kind_separation_witness :
  decodeAs MessageKind.HeartbeatAck sample_result_bytes = Done (Err MessageError.UnexpectedType).
Proof.
  apply (decode_kind_separation (AnyAuthResult sample_result) sample_result_bytes
           MessageKind.HeartbeatAck sample_result_typed sample_result_encoded).
  discriminate.
Defined.

Lemma sample_octets : octets sample_result_bytes.
Proof. apply small_octets. vm_compute. reflexivity. Qed.

Lemma decoded_message_valid_witness :
  any_kind (AnyAuthResult sample_result) = MessageKind.AuthResult
  ∧ any_typed (AnyAuthResult sample_result)
  ∧ ∃ bs', encodeAny (AnyAuthResult sample_result) = Ok bs'
           ∧ decodeAs MessageKind.AuthResult bs' = Done (Ok (AnyAuthResult sample_result)).
Proof.
  apply (decoded_message_valid MessageKind.AuthResult sample_result_bytes _ sample_octets).
  vm_compute. reflexivity.
Defined.

(** A [ClientHello] envelope without a body: a discriminator and no value. *)
Definition null_hello : bytes :=
  root_buffer "YAMS" (e_envelope (mkEnvelope 0 1 Message.ClientHello None)).

Lemma decode_undefined_iff_witness : decodeAs MessageKind.ClientHello null_hello = Undefined.
Proof.
  apply (decode_undefined_iff MessageKind.ClientHello null_hello).
  - apply small_octets. reflexivity.
  - split; [discriminate|]. exists (mkEnvelope 0 1 Message.ClientHello None).
    split; [vm_compute; reflexivity|]. split; reflexivity.
Defined.
End Witnesses.
