(* ===== verification/Status.v ===== *)
(** * Status: the error codes of the license core

    Models [src/ya_license_core/include/yoauthorize/core/status.h]: the
    operations of [License.v], [MachineIdentity.v] and [Session.v] return
    [result ErrorCode T] for [core::Result<T>]. *)

From S2P Require Import Prelude.

Module ErrorCode.
Inductive ErrorCode :=
| InvalidFormat
| UnsupportedVersion
| UnknownKey
| InvalidSignature
| InvalidLicense
| NotYetValid
| Expired
| ProductMismatch
| MachineMismatch
| MachineIdentityUnavailable
| SessionLimitExceeded
| InvalidSession
| InternalError.
End ErrorCode.
Abbreviation ErrorCode := ErrorCode.ErrorCode.

#[global] Instance ErrorCode_eq_dec : EqDecision ErrorCode.
Proof. solve_decision. Defined.
