(* ===== verification/License.v ===== *)
(** * License: validation of a signed license package

    Models [src/ya_license_core/src/license.cpp] and its header:
    [signatureInput] and [LicenseValidator::validate].  The FlatBuffers code
    is the class [LicenseBuffers]; the signature check is [CryptoApi].

    - [validate_accepts_iff] says exactly which packages are accepted and what
      the returned snapshot holds.
    - [validate_stable] says what happens to an accepted license as time
      passes, on another machine and for another product.
    - [signatureInput_injective]: the signed bytes determine their fields. *)

From S2P Require Import Prelude CryptoApi FlatBuf Status.

(** ** [license.h] *)

Module LicenseType.
Inductive LicenseType := Trial | Subscription | Permanent.
End LicenseType.
Abbreviation LicenseType := LicenseType.LicenseType.

Module MachineMode.
Inductive MachineMode := Unbound | Exact.
End MachineMode.
Abbreviation MachineMode := MachineMode.MachineMode.

#[global] Instance LicenseType_eq_dec : EqDecision LicenseType.
Proof. solve_decision. Defined.
#[global] Instance MachineMode_eq_dec : EqDecision MachineMode.
Proof. solve_decision. Defined.

Record LicenseSnapshot := mkLicenseSnapshot {
  ls_license_id : string;
  ls_product_id : string;
  ls_customer_id : string;
  ls_issue_time : Z;
  ls_not_before : Z;
  ls_expire_time : Z;
  ls_type : LicenseType;
  ls_features : list string;
  ls_max_sessions : Z;
  ls_machine_mode : MachineMode;
  ls_machine_id : string;
}.

Record LicenseValidator := mkLicenseValidator { lv_trusted_keys : gmap string bytes }.

(** ** [license.cpp] *)

Definition kMaxLicenseSize : Z := 1024 * 1024.
Definition kSignatureDomain : string := "YOAUTHORIZE-LICENSE-V1".

Module LicenseBytes.
Definition appendU16 (output : bytes) (value : Z) : bytes :=
  output ++ [u8 (Z.shiftr value 8)] ++ [u8 value].

(** The loop over [i = 0..3] with shift [24 - 8 i]. *)
Definition appendU32 (output : bytes) (value : Z) : bytes :=
  fold_left (fun output i => output ++ [u8 (Z.shiftr value (24 - 8 * i))]) [0; 1; 2; 3] output.
End LicenseBytes.

Definition signatureInput (version : Z) (key_id : string) (payload : bytes) : bytes :=
  let input := [] in
  let input := input ++ string_bytes kSignatureDomain in
  let input := LicenseBytes.appendU16 input version in
  let input := LicenseBytes.appendU16 input (wrap 16 (str_size key_id)) in
  let input := input ++ string_bytes key_id in
  let input := LicenseBytes.appendU32 input (wrap 32 (zlen payload)) in
  input ++ payload.

Definition convertType (type : Z) : LicenseType :=
  if type =? kTypeSubscription then LicenseType.Subscription
  else if type =? kTypePermanent then LicenseType.Permanent
  else LicenseType.Trial.

(** [!s || s->empty()] for a FlatBuffers string. *)
Definition missing (s : option string) : bool :=
  match s with None => true | Some s => str_empty s end.

Definition string_of (s : option string) : string :=
  match s with None => "" | Some s => s end.

(** The feature loop at the end of [validate]; [None] is its early return. *)
Fixpoint snapshotFeatures (features : StringVector) : option (list string) :=
  match features with
  | [] => Some []
  | feature :: features' =>
      if missing feature then None
      else fs ← snapshotFeatures features'; Some (string_of feature :: fs)
  end.

Section Validator.
Context {C : CryptoApi} {L : LicenseBuffers}.

(** The checks after the signature: they look at the payload only. *)
Definition validatePayload (payload : bytes) (expected_product machine_id : string) (now : Z)
  : result ErrorCode LicenseSnapshot :=
  if negb (VerifyLicensePayload payload) then Err ErrorCode.InvalidLicense
  else
  let data := GetLicensePayload payload in
  if missing (lpt_license_id data) || missing (lpt_product_id data)
     || (lpt_max_sessions data =? 0) || negb (bool_decide (is_Some (lpt_machine_policy data)))
  then Err ErrorCode.InvalidLicense
  else if negb (lpt_license_type data =? kTypeTrial)
          && negb (lpt_license_type data =? kTypeSubscription)
          && negb (lpt_license_type data =? kTypePermanent)
  then Err ErrorCode.InvalidLicense
  else if negb (bool_decide (string_of (lpt_product_id data) = expected_product))
  then Err ErrorCode.ProductMismatch
  else if now <? lpt_not_before data then Err ErrorCode.NotYetValid
  else if (lpt_license_type data =? kTypePermanent) && negb (lpt_expire_time data =? 0)
  then Err ErrorCode.InvalidLicense
  else if negb (lpt_license_type data =? kTypePermanent)
          && ((lpt_expire_time data <=? lpt_not_before data) || (lpt_expire_time data <=? now))
  then Err ErrorCode.Expired
  else
  match lpt_machine_policy data with
  | None => Err ErrorCode.InvalidLicense
  | Some policy =>
      if negb (mpt_mode policy =? kModeUnbound) && negb (mpt_mode policy =? kModeExact)
      then Err ErrorCode.InvalidLicense
      else if (mpt_mode policy =? kModeExact)
              && (missing (mpt_machine_id policy)
                  || negb (bool_decide (string_of (mpt_machine_id policy) = machine_id)))
      then Err ErrorCode.MachineMismatch
      else
        let snapshot features :=
          {| ls_license_id := string_of (lpt_license_id data);
             ls_product_id := string_of (lpt_product_id data);
             ls_customer_id := string_of (lpt_customer_id data);
             ls_issue_time := lpt_issue_time data;
             ls_not_before := lpt_not_before data;
             ls_expire_time := lpt_expire_time data;
             ls_type := convertType (lpt_license_type data);
             ls_features := features;
             ls_max_sessions := lpt_max_sessions data;
             ls_machine_mode := if mpt_mode policy =? kModeExact
                                then MachineMode.Exact else MachineMode.Unbound;
             ls_machine_id := string_of (mpt_machine_id policy) |} in
        match lpt_features data with
        | None => Ok (snapshot [])
        | Some v =>
            match snapshotFeatures v with
            | Some features => Ok (snapshot features)
            | None => Err ErrorCode.InvalidLicense
            end
        end
  end.

Definition validate (validator : LicenseValidator) (package : bytes)
    (expected_product machine_id : string) (now : Z) : result ErrorCode LicenseSnapshot :=
  if (zlen package =? 0) || (kMaxLicenseSize <? zlen package) || (zlen package <? 8)
     || negb (LicensePackageBufferHasIdentifier package)
  then Err ErrorCode.InvalidFormat
  else if negb (VerifyLicensePackageBuffer package) then Err ErrorCode.InvalidFormat
  else
  let outer := GetLicensePackage package in
  if negb (lkt_format_version outer =? 1) then Err ErrorCode.UnsupportedVersion
  else
  match lkt_key_id outer, lkt_payload outer, lkt_signature outer with
  | Some key_id, Some payload, Some signature =>
      if str_empty key_id || (2 ^ 16 - 1 <? str_size key_id) || (zlen payload =? 0)
         || negb (zlen signature =? kSignatureSize)
      then Err ErrorCode.InvalidLicense
      else
      match lv_trusted_keys validator !! key_id with
      | None => Err ErrorCode.UnknownKey
      | Some key =>
          let signed_bytes := signatureInput (lkt_format_version outer) key_id payload in
          match cr_verifyEd25519 key signed_bytes signature with
          | Err _ => Err ErrorCode.InvalidSignature
          | Ok _ => validatePayload payload expected_product machine_id now
          end
      end
  | _, _, _ => Err ErrorCode.InvalidLicense
  end.
End Validator.

(** ** Specification *)

Definition typeCode (t : LicenseType) : Z :=
  match t with
  | LicenseType.Trial => kTypeTrial
  | LicenseType.Subscription => kTypeSubscription
  | LicenseType.Permanent => kTypePermanent
  end.
Definition modeCode (m : MachineMode) : Z :=
  match m with MachineMode.Unbound => kModeUnbound | MachineMode.Exact => kModeExact end.

(** The payload table is complete and [snap] is its contents. *)
Record snapshot_of (data : LicensePayloadT) (snap : LicenseSnapshot) : Prop := {
  so_license_id : lpt_license_id data = Some (ls_license_id snap) ∧ ls_license_id snap ≠ "";
  so_product_id : lpt_product_id data = Some (ls_product_id snap) ∧ ls_product_id snap ≠ "";
  so_customer_id : ls_customer_id snap = string_of (lpt_customer_id data);
  so_issue_time : lpt_issue_time data = ls_issue_time snap;
  so_not_before : lpt_not_before data = ls_not_before snap;
  so_expire_time : lpt_expire_time data = ls_expire_time snap;
  so_type : lpt_license_type data = typeCode (ls_type snap);
  so_features :
    match lpt_features data with
    | None => ls_features snap = []
    | Some v => v = map Some (ls_features snap) ∧ Forall (.≠ "") (ls_features snap)
    end;
  so_max_sessions : lpt_max_sessions data = ls_max_sessions snap ∧ ls_max_sessions snap ≠ 0;
  so_machine : ∃ policy, lpt_machine_policy data = Some policy
    ∧ mpt_mode policy = modeCode (ls_machine_mode snap)
    ∧ ls_machine_id snap = string_of (mpt_machine_id policy)
    ∧ (ls_machine_mode snap = MachineMode.Exact → ls_machine_id snap ≠ "");
  so_period :
    match ls_type snap with
    | LicenseType.Permanent => ls_expire_time snap = 0
    | _ => ls_not_before snap < ls_expire_time snap
    end;
}.

(** What a license says about a product on a machine at a time, as the code
    orders the answers. *)
Definition outcome (snap : LicenseSnapshot) (product machine : string) (now : Z)
  : result ErrorCode LicenseSnapshot :=
  if negb (bool_decide (ls_product_id snap = product)) then Err ErrorCode.ProductMismatch
  else if now <? ls_not_before snap then Err ErrorCode.NotYetValid
  else if negb (bool_decide (ls_type snap = LicenseType.Permanent)) && (ls_expire_time snap <=? now)
  then Err ErrorCode.Expired
  else if bool_decide (ls_machine_mode snap = MachineMode.Exact)
          && negb (bool_decide (ls_machine_id snap = machine))
  then Err ErrorCode.MachineMismatch
  else Ok snap.

Definition in_force (snap : LicenseSnapshot) (product machine : string) (now : Z) : Prop :=
  ls_product_id snap = product ∧ ls_not_before snap <= now
  ∧ (ls_type snap ≠ LicenseType.Permanent → now < ls_expire_time snap)
  ∧ (ls_machine_mode snap = MachineMode.Exact → ls_machine_id snap = machine).

(** The package is well formed and [payload] is signed by a trusted key. *)
Definition authentic `{CryptoApi} `{LicenseBuffers} (validator : LicenseValidator)
    (package payload : bytes) : Prop :=
  8 <= zlen package <= kMaxLicenseSize
  ∧ LicensePackageBufferHasIdentifier package = true
  ∧ VerifyLicensePackageBuffer package = true
  ∧ ∃ key_id signature key,
      GetLicensePackage package = mkLicensePackageT 1 (Some key_id) (Some payload) (Some signature)
      ∧ 0 < str_size key_id < 2 ^ 16 ∧ payload ≠ [] ∧ zlen signature = kSignatureSize
      ∧ lv_trusted_keys validator !! key_id = Some key
      ∧ cr_verifyEd25519 key (signatureInput 1 key_id payload) signature = Ok ().

(** ** Lemmas *)

Lemma appendU16_split output v : LicenseBytes.appendU16 output v = output ++ be_split 2 v.
Proof. reflexivity. Qed.

Lemma appendU32_split output v : LicenseBytes.appendU32 output v = output ++ be_split 4 v.
Proof. unfold LicenseBytes.appendU32. cbn [fold_left]. rewrite <- !app_assoc. done. Qed.

Lemma signatureInput_value v k p :
  str_size k < 2 ^ 16 → zlen p < 2 ^ 32 →
  signatureInput v k p =
  string_bytes kSignatureDomain ++ be_split 2 v ++ be_split 2 (str_size k) ++ string_bytes k
  ++ be_split 4 (zlen p) ++ p.
Proof.
  intros Hk Hp. unfold signatureInput.
  rewrite appendU32_split, !appendU16_split, <- !app_assoc. cbn [app].
  rewrite !wrap_small; [done|..]; unfold in_width, str_size in *;
    [pose proof (zlen_nonneg p)|]; lia.
Qed.

Lemma snapshotFeatures_Some v fs :
  snapshotFeatures v = Some fs ↔ v = map Some fs ∧ Forall (.≠ "") fs.
Proof.
  revert fs. induction v as [|f v IH]; intros fs; cbn.
  - destruct fs; cbn; split; [done|done|done|by intros [? _]].
  - destruct f as [f|]; cbn.
    + destruct (str_empty f) eqn:E.
      * apply str_empty_spec in E as ->. split; [done|]. destruct fs; cbn; [by intros [? _]|].
        intros [[= <- _] Hf]. by inversion Hf.
      * rewrite bind_Some. split.
        -- intros (gs & Hg & [= <-]). apply IH in Hg as [-> Hg]. split; [done|].
           constructor; [|done]. intros ->. done.
        -- destruct fs as [|g fs]; cbn; [by intros [? _]|]. intros [[= -> ->] Hf].
           exists fs. split; [|done]. apply IH. split; [done|]. by inversion Hf.
    + split; [done|]. destruct fs; cbn; by intros [? _].
Qed.

Lemma missing_false s : missing s = false ↔ ∃ t, s = Some t ∧ t ≠ "".
Proof.
  destruct s as [t|]; cbn; [|split; [done|by intros (? & ? & _)]].
  split; [|intros (u & [= ->] & Hu); by destruct u]. intros Ht. exists t. split; [done|]. by intros ->.
Qed.

Lemma outcome_Ok snap prod mach now s :
  outcome snap prod mach now = Ok s ↔ s = snap ∧ in_force snap prod mach now.
Proof.
  unfold outcome, in_force. repeat case_bool_decide; cbn;
    destruct (Z.ltb_spec now (ls_not_before snap)); cbn;
    destruct (Z.leb_spec (ls_expire_time snap) now); cbn;
    naive_solver lia.
Qed.

Section ValidatorFacts.
Context {C : CryptoApi} {L : LicenseBuffers}.

Lemma type_code_cases t :
  negb (t =? kTypeTrial) && negb (t =? kTypeSubscription) && negb (t =? kTypePermanent) = false →
  t = typeCode (convertType t).
Proof.
  unfold convertType, kTypeTrial, kTypeSubscription, kTypePermanent.
  destruct (Z.eqb_spec t 0), (Z.eqb_spec t 1), (Z.eqb_spec t 2); cbn; done || lia.
Qed.

Lemma typeCode_permanent t : (typeCode t =? kTypePermanent) = bool_decide (t = LicenseType.Permanent).
Proof. by destruct t. Qed.
Lemma modeCode_exact m : (modeCode m =? kModeExact) = bool_decide (m = MachineMode.Exact).
Proof. by destruct m. Qed.
Lemma convertType_code t : convertType (typeCode t) = t.
Proof. by destruct t. Qed.

Lemma expired_test snap now :
  match ls_type snap with
  | LicenseType.Permanent => ls_expire_time snap = 0
  | _ => ls_not_before snap < ls_expire_time snap
  end →
  negb (bool_decide (ls_type snap = LicenseType.Permanent)) && (ls_expire_time snap <=? now)
  = negb (bool_decide (ls_type snap = LicenseType.Permanent))
    && ((ls_expire_time snap <=? ls_not_before snap) || (ls_expire_time snap <=? now)).
Proof.
  destruct (ls_type snap); cbn; intros Hp; [| |done];
  by rewrite (proj2 (Z.leb_gt _ _) Hp).
Qed.

Lemma machine_test mode id mach mid :
  id = string_of mid → (mode = MachineMode.Exact → id ≠ "") →
  bool_decide (mode = MachineMode.Exact) && negb (bool_decide (id = mach))
  = bool_decide (mode = MachineMode.Exact) && (missing mid || negb (bool_decide (id = mach))).
Proof.
  intros -> Hex. destruct mode; [done|]. cbn.
  destruct (missing mid) eqn:E; [|done]. destruct mid as [s|]; cbn in *.
  - apply str_empty_spec in E as ->. by destruct Hex.
  - by destruct Hex.
Qed.

Lemma features_copied (o : option StringVector) fs :
  match o with
  | None => fs = []
  | Some v => v = map Some fs ∧ Forall (.≠ "") fs
  end →
  o = None ∧ fs = [] ∨ ∃ v, o = Some v ∧ snapshotFeatures v = Some fs.
Proof.
  destruct o as [v|]; [|by left]. intros Hv%snapshotFeatures_Some. right. eauto.
Qed.

(** Once the table is complete, what is left is the outcome of the license. *)
Lemma validatePayload_outcome payload snap prod mach now :
  VerifyLicensePayload payload = true → snapshot_of (GetLicensePayload payload) snap →
  validatePayload payload prod mach now = outcome snap prod mach now.
Proof.
  intros Hv S. destruct S as [[Hl Hln] [Hp Hpn] Hc Hi Hnb He Ht Hf [Hm Hmn] (po & Hpo & Hmo & Hid & Hex) Hper].
  unfold validatePayload, outcome. rewrite Hv. cbn [negb].
  rewrite Hl, Hp, Hm, Hpo, Ht, Hmo, Hi, Hnb, He. cbn [missing string_of].
  destruct (str_empty (ls_license_id snap)) eqn:E1; [by apply str_empty_spec in E1|].
  destruct (str_empty (ls_product_id snap)) eqn:E2; [by apply str_empty_spec in E2|].
  rewrite (proj2 (Z.eqb_neq _ 0) Hmn), bool_decide_eq_true_2 by eauto. cbn [orb negb].
  replace (negb (typeCode (ls_type snap) =? kTypeTrial)
    && negb (typeCode (ls_type snap) =? kTypeSubscription)
    && negb (typeCode (ls_type snap) =? kTypePermanent)) with false by (by destruct (ls_type snap)).
  replace (negb (modeCode (ls_machine_mode snap) =? kModeUnbound)
    && negb (modeCode (ls_machine_mode snap) =? kModeExact)) with false
    by (by destruct (ls_machine_mode snap)).
  rewrite typeCode_permanent, modeCode_exact, convertType_code, <- Hid, <- Hc.
  destruct (negb (bool_decide (ls_product_id snap = prod))); [done|].
  destruct (now <? ls_not_before snap); [done|].
  replace (bool_decide (ls_type snap = LicenseType.Permanent) && negb (ls_expire_time snap =? 0))
    with false by (destruct (ls_type snap); [done|done|by rewrite Hper]).
  replace (negb (bool_decide (ls_type snap = LicenseType.Permanent))
    && ((ls_expire_time snap <=? ls_not_before snap) || (ls_expire_time snap <=? now)))
    with (negb (bool_decide (ls_type snap = LicenseType.Permanent))
          && (ls_expire_time snap <=? now)) by (by apply expired_test).
  destruct (_ && (_ <=? now)); [done|].
  replace (bool_decide (ls_machine_mode snap = MachineMode.Exact)
    && (missing (mpt_machine_id po) || negb (bool_decide (ls_machine_id snap = mach))))
    with (bool_decide (ls_machine_mode snap = MachineMode.Exact)
          && negb (bool_decide (ls_machine_id snap = mach))) by (by apply machine_test).
  destruct (_ && _); [done|].
  replace (if bool_decide (ls_machine_mode snap = MachineMode.Exact)
           then MachineMode.Exact else MachineMode.Unbound) with (ls_machine_mode snap)
    by (by destruct (ls_machine_mode snap)).
  apply features_copied in Hf as [[-> Hf]|(v & -> & ->)]; [rewrite <- Hf|]; by destruct snap.
Qed.

Lemma period_test data now :
  lpt_license_type data = typeCode (convertType (lpt_license_type data)) →
  (lpt_license_type data =? kTypePermanent) && negb (lpt_expire_time data =? 0) = false →
  negb (lpt_license_type data =? kTypePermanent)
    && ((lpt_expire_time data <=? lpt_not_before data) || (lpt_expire_time data <=? now)) = false →
  match convertType (lpt_license_type data) with
  | LicenseType.Permanent => lpt_expire_time data = 0
  | _ => lpt_not_before data < lpt_expire_time data
  end.
Proof.
  intros ->. rewrite convertType_code, typeCode_permanent.
  destruct (convertType _); case_bool_decide; try done; cbn; intros; reflect_bools; lia.
Qed.

Lemma mode_test po :
  negb (mpt_mode po =? kModeUnbound) && negb (mpt_mode po =? kModeExact) = false →
  mpt_mode po
  = modeCode (if mpt_mode po =? kModeExact then MachineMode.Exact else MachineMode.Unbound).
Proof.
  unfold kModeUnbound, kModeExact.
  destruct (Z.eqb_spec (mpt_mode po) 0), (Z.eqb_spec (mpt_mode po) 1); done || lia.
Qed.

Lemma exact_bound po mach :
  (mpt_mode po =? kModeExact)
    && (missing (mpt_machine_id po)
        || negb (bool_decide (string_of (mpt_machine_id po) = mach))) = false →
  (if mpt_mode po =? kModeExact then MachineMode.Exact else MachineMode.Unbound)
    = MachineMode.Exact →
  string_of (mpt_machine_id po) ≠ "".
Proof.
  destruct (_ =? _); [|done]. intros [H _]%orb_false_iff _.
  apply missing_false in H as (t & -> & Ht). done.
Qed.

(** Only a complete table of a license in force is accepted. *)
Lemma validatePayload_snapshot payload snap prod mach now :
  validatePayload payload prod mach now = Ok snap →
  VerifyLicensePayload payload = true ∧ snapshot_of (GetLicensePayload payload) snap.
Proof.
  unfold validatePayload. set (data := GetLicensePayload payload). intros Hv.
  destruct (negb (VerifyLicensePayload payload)) eqn:E0; [done|].
  destruct (_ || _) eqn:E1 in Hv; [done|]. destruct (negb _ && _ && _) eqn:E2 in Hv; [done|].
  destruct (negb _) eqn:E3 in Hv; [done|]. destruct (now <? _) eqn:E4 in Hv; [done|].
  destruct (_ && _) eqn:E5 in Hv; [done|]. destruct (_ && _) eqn:E6 in Hv; [done|].
  destruct (lpt_machine_policy data) as [po|] eqn:Hpo; [|done].
  destruct (_ && _) eqn:E7 in Hv; [done|]. destruct (_ && _) eqn:E8 in Hv; [done|].
  reflect_bools.
  match goal with H : missing (lpt_license_id _) = false |- _ =>
    apply missing_false in H as (lid & Hl & Hln) end.
  match goal with H : missing (lpt_product_id _) = false |- _ =>
    apply missing_false in H as (pid & Hp & Hpn) end.
  split; [done|]. apply type_code_cases in E2.
  pose proof (period_test data now E2 E5 E6) as Hper. pose proof (mode_test po E7) as Hmode.
  rewrite Hl, Hp in Hv. cbn [string_of] in Hv.
  assert (∀ fs, (match lpt_features data with
                 | None => fs = [] | Some v => v = map Some fs ∧ Forall (.≠ "") fs end) →
    snapshot_of data (mkLicenseSnapshot lid pid (string_of (lpt_customer_id data))
      (lpt_issue_time data) (lpt_not_before data) (lpt_expire_time data)
      (convertType (lpt_license_type data)) fs (lpt_max_sessions data)
      (if mpt_mode po =? kModeExact then MachineMode.Exact else MachineMode.Unbound)
      (string_of (mpt_machine_id po)))) as Hs.
  { intros fs Hf. split; cbn [ls_license_id ls_product_id ls_customer_id ls_issue_time ls_not_before
      ls_expire_time ls_type ls_features ls_max_sessions ls_machine_mode ls_machine_id]; try done.
    exists po. split_and!; try done. intros Hx. apply (exact_bound _ _ E8 Hx). }
  destruct (lpt_features data) as [v|] eqn:Ef.
  - destruct (snapshotFeatures v) as [fs|] eqn:Efs; [|done].
    apply Ok_inj in Hv as <-. by apply Hs, snapshotFeatures_Some.
  - apply Ok_inj in Hv as <-. by apply Hs.
Qed.

(** ** The outer package *)

Lemma validate_authentic validator package payload prod mach now :
  authentic validator package payload →
  validate validator package prod mach now = validatePayload payload prod mach now.
Proof.
  intros ([Hs1 Hs2] & Hi & Hv & k & sig & key & Hg & [Hk1 Hk2] & Hp & Hsig & Ht & Hver).
  unfold validate. rewrite Hi, Hv, Hg. cbn [negb lkt_format_version lkt_key_id lkt_payload lkt_signature].
  rewrite (proj2 (Z.eqb_neq (zlen package) 0)), (proj2 (Z.ltb_ge kMaxLicenseSize _)),
    (proj2 (Z.ltb_ge _ 8)) by lia. cbn [orb Z.eqb Pos.eqb negb].
  rewrite (proj2 (str_nonempty_size k)), (proj2 (Z.ltb_ge (2 ^ 16 - 1) _)), Hsig by lia.
  destruct (Z.eqb_spec (zlen payload) 0) as [Hz|_].
  { by apply zlen_zero in Hz. }
  rewrite Z.eqb_refl. cbn [orb negb]. by rewrite Ht, Hver.
Qed.

Lemma validate_payload validator package prod mach now snap :
  validate validator package prod mach now = Ok snap →
  ∃ payload, authentic validator package payload
             ∧ validatePayload payload prod mach now = Ok snap.
Proof.
  unfold validate. destruct ((zlen package =? 0) || _ || _ || _) eqn:E1; [done|].
  destruct (negb (VerifyLicensePackageBuffer _)) eqn:E2; [done|].
  destruct (negb (_ =? 1)) eqn:E3; [done|]. reflect_bools.
  destruct (GetLicensePackage package) as [ver ok op os] eqn:Eg. cbn in *. subst ver.
  destruct ok as [k|], op as [payload|], os as [sig|]; try done.
  destruct (_ || _) eqn:E4; [done|]. reflect_bools.
  destruct (_ !! k) as [key|] eqn:Ek; [|done].
  destruct (cr_verifyEd25519 _ _ _) as [[]|] eqn:Ev; [|done]. intros Hp.
  exists payload. split; [|done]. unfold authentic. split; [lia|]. split_and!; try done.
  exists k, sig, key. rewrite (str_nonempty_size k) in *.
  split_and!; try done; try lia. by intros ->.
Qed.

Lemma validate_Ok validator package prod mach now snap :
  validate validator package prod mach now = Ok snap ↔
  ∃ payload, authentic validator package payload ∧ VerifyLicensePayload payload = true
             ∧ snapshot_of (GetLicensePayload payload) snap ∧ in_force snap prod mach now.
Proof.
  split.
  - intros (payload & Ha & Hp)%validate_payload. exists payload.
    destruct (validatePayload_snapshot _ _ _ _ _ Hp) as [Hv Hs].
    rewrite (validatePayload_outcome _ _ _ _ _ Hv Hs) in Hp. apply outcome_Ok in Hp as [_ Hp]. done.
  - intros (payload & Ha & Hv & Hs & Hf). rewrite (validate_authentic _ _ _ _ _ _ Ha).
    rewrite (validatePayload_outcome _ _ _ _ _ Hv Hs). by apply outcome_Ok.
Qed.

(** C4. A package is accepted exactly when it is well formed, its payload is
    signed by a trusted key, the payload table is complete, and the license it
    describes is in force: for this product, begun, not expired unless
    permanent, and for this machine if it is bound to one. *)
Theorem validate_accepts_iff validator package prod mach now snap :
  validate validator package prod mach now = Ok snap ↔
  ∃ payload, authentic validator package payload ∧ VerifyLicensePayload payload = true
             ∧ snapshot_of (GetLicensePayload payload) snap ∧ in_force snap prod mach now.
Proof. apply validate_Ok. Qed.

(** A package once accepted has a fixed meaning: at any other time, for
    any other product and on any other machine the validator answers with the
    outcome of that same snapshot, in the documented order of errors. *)
Theorem validate_stable validator package prod0 mach0 now0 snap prod mach now :
  validate validator package prod0 mach0 now0 = Ok snap →
  validate validator package prod mach now = outcome snap prod mach now.
Proof.
  intros (payload & Ha & Hv & Hs & _)%validate_Ok.
  rewrite (validate_authentic _ _ _ _ _ _ Ha). by apply validatePayload_outcome.
Qed.

(** The signed bytes determine version, key id and payload: a signature
    cannot be carried over to another split of the same bytes. *)
Theorem signatureInput_injective v k p v' k' p' :
  in_width 16 v → in_width 16 v' → str_size k < 2 ^ 16 → str_size k' < 2 ^ 16 →
  zlen p < 2 ^ 32 → zlen p' < 2 ^ 32 →
  signatureInput v k p = signatureInput v' k' p' → v = v' ∧ k = k' ∧ p = p'.
Proof.
  intros Hv Hv' Hk Hk' Hp Hp' E. rewrite !signatureInput_value in E by done.
  apply app_inj_len in E as [_ E]; [|done].
  apply app_inj_len in E as [Ev E]; [|by rewrite !length_be_split].
  apply app_inj_len in E as [Ek E]; [|by rewrite !length_be_split].
  apply be_split_inj in Ev, Ek; try (unfold in_width, str_size in *; lia).
  apply app_inj_len in E as [Es E]; [|by rewrite !string_bytes_length; unfold str_size in *; lia].
  apply string_bytes_inj in Es.
  apply app_inj_len in E as [_ E]; [done|by rewrite !length_be_split].
Qed.

Lemma signatureInput_injective_witness :
  let a := signatureInput 1 "k1" [1; 2] in
  a = signatureInput 1 "k1" [1; 2] ∧ (1 = 1 ∧ "k1" = "k1" ∧ [1; 2] = [1; 2]).
Proof.
  split; [reflexivity|].
  apply (signatureInput_injective 1 "k1" [1; 2] 1 "k1" [1; 2]);
    try reflexivity; split; (discriminate || reflexivity).
Defined.
End ValidatorFacts.
