(* ===== verification/Issuer.v ===== *)
(** * Issuer: creation of signed license packages

    Models [tools/license_generator/issuer.cpp] and its header.  The round
    trip theorems connect it with [License.v]: an issued package is accepted
    by a validator that trusts the issuing key, exactly while it is in force,
    and yields the definition it was issued from. *)

From S2P Require Import Prelude CryptoApi ToySsl FlatBuf ToyBuf Status License.

Module IssueError.
Inductive IssueError := InvalidInput | SigningFailed.
End IssueError.
Abbreviation IssueError := IssueError.IssueError.

Record LicenseDefinition := mkLicenseDefinition {
  ld_key_id : string;
  ld_license_id : string;
  ld_product_id : string;
  ld_customer_id : string;
  ld_issue_time : Z;
  ld_not_before : Z;
  ld_expire_time : Z;
  ld_features : list string;
  ld_max_sessions : Z;
  ld_machine_id : string;
}.

Module Issuer.
Definition kSignatureDomain : string := "YOAUTHORIZE-LICENSE-V1".
Definition kMaxIdentifierSize : Z := 255.
Definition kMaxFeatures : Z := 256.
Definition kMaxFeatureSize : Z := 128.

Definition appendU16 (output : bytes) (value : Z) : bytes :=
  output ++ [u8 (Z.shiftr value 8)] ++ [u8 value].

Definition appendU32 (output : bytes) (value : Z) : bytes :=
  fold_left (fun output i => output ++ [u8 (Z.shiftr value (24 - 8 * i))]) [0; 1; 2; 3] output.

Definition valid (definition : LicenseDefinition) : bool :=
  if str_empty (ld_key_id definition) || (2 ^ 16 - 1 <? str_size (ld_key_id definition))
     || str_empty (ld_license_id definition)
     || (kMaxIdentifierSize <? str_size (ld_license_id definition))
     || str_empty (ld_product_id definition)
     || (kMaxIdentifierSize <? str_size (ld_product_id definition))
     || str_empty (ld_customer_id definition)
     || (kMaxIdentifierSize <? str_size (ld_customer_id definition))
     || (ld_issue_time definition =? 0) || (ld_not_before definition =? 0)
     || (ld_not_before definition <? ld_issue_time definition)
     || (ld_max_sessions definition =? 0)
     || (kMaxFeatures <? zlen (ld_features definition))
  then false
  else if negb (ld_expire_time definition =? 0)
          && (ld_expire_time definition <=? ld_not_before definition)
  then false
  else forallb (fun feature =>
         negb (str_empty feature || (kMaxFeatureSize <? str_size feature)))
         (ld_features definition).

(** The table built by [CreateMachinePolicy] and [CreateLicensePayload]. *)
Definition payloadTable (definition : LicenseDefinition) : LicensePayloadT :=
  {| lpt_license_id := Some (ld_license_id definition);
     lpt_product_id := Some (ld_product_id definition);
     lpt_customer_id := Some (ld_customer_id definition);
     lpt_issue_time := ld_issue_time definition;
     lpt_not_before := ld_not_before definition;
     lpt_expire_time := ld_expire_time definition;
     lpt_license_type := if ld_expire_time definition =? 0 then kTypePermanent
                         else kTypeSubscription;
     lpt_features := Some (map Some (ld_features definition));
     lpt_max_sessions := ld_max_sessions definition;
     lpt_machine_policy := Some
       {| mpt_mode := if str_empty (ld_machine_id definition) then kModeUnbound else kModeExact;
          mpt_machine_id := Some (ld_machine_id definition) |} |}.

(** The bytes that [issueLicense] signs. *)
Definition signedBytes (definition : LicenseDefinition) (payload_bytes : bytes) : bytes :=
  let signed_bytes := [] in
  let signed_bytes := signed_bytes ++ string_bytes kSignatureDomain in
  let signed_bytes := appendU16 signed_bytes 1 in
  let signed_bytes := appendU16 signed_bytes (wrap 16 (str_size (ld_key_id definition))) in
  let signed_bytes := signed_bytes ++ string_bytes (ld_key_id definition) in
  let signed_bytes := appendU32 signed_bytes (wrap 32 (zlen payload_bytes)) in
  signed_bytes ++ payload_bytes.

Definition issueLicense `{CryptoApi} `{LicenseBuffers} (definition : LicenseDefinition)
    (signing_private_key : bytes) : result IssueError bytes :=
  if negb (valid definition) then Err IssueError.InvalidInput
  else
  let payload_bytes := FinishLicensePayload (payloadTable definition) in
  let signed_bytes := signedBytes definition payload_bytes in
  match cr_signEd25519 signing_private_key signed_bytes with
  | Err _ => Err IssueError.SigningFailed
  | Ok signature =>
      Ok (FinishLicensePackageBuffer
            {| lkt_format_version := 1;
               lkt_key_id := Some (ld_key_id definition);
               lkt_payload := Some payload_bytes;
               lkt_signature := Some signature |})
  end.
End Issuer.

(** ** Issue and validate *)

(** The fields of a definition in their C++ types. *)
Definition definition_typed (d : LicenseDefinition) : Prop :=
  in_width 64 (ld_issue_time d) ∧ in_width 64 (ld_not_before d)
  ∧ in_width 64 (ld_expire_time d) ∧ in_width 32 (ld_max_sessions d).

(** What a validator reports for the license of a definition. *)
Definition definition_snapshot (d : LicenseDefinition) : LicenseSnapshot :=
  {| ls_license_id := ld_license_id d;
     ls_product_id := ld_product_id d;
     ls_customer_id := ld_customer_id d;
     ls_issue_time := ld_issue_time d;
     ls_not_before := ld_not_before d;
     ls_expire_time := ld_expire_time d;
     ls_type := if ld_expire_time d =? 0 then LicenseType.Permanent else LicenseType.Subscription;
     ls_features := ld_features d;
     ls_max_sessions := ld_max_sessions d;
     ls_machine_mode := if str_empty (ld_machine_id d) then MachineMode.Unbound
                        else MachineMode.Exact;
     ls_machine_id := ld_machine_id d |}.

Lemma signedBytes_input d payload :
  Issuer.signedBytes d payload = signatureInput 1 (ld_key_id d) payload.
Proof. reflexivity. Qed.

(** The facts the guard of [issueLicense] establishes. *)
Record valid_definition (d : LicenseDefinition) : Prop := {
  vd_key_id : 0 < str_size (ld_key_id d) < 2 ^ 16;
  vd_license_id : 0 < str_size (ld_license_id d) <= 255;
  vd_product_id : 0 < str_size (ld_product_id d) <= 255;
  vd_customer_id : 0 < str_size (ld_customer_id d) <= 255;
  vd_times : ld_issue_time d ≠ 0 ∧ ld_issue_time d <= ld_not_before d;
  vd_max_sessions : ld_max_sessions d ≠ 0;
  vd_expire : ld_expire_time d = 0 ∨ ld_not_before d < ld_expire_time d;
  vd_feature_count : zlen (ld_features d) <= 256;
  vd_features : Forall (fun f => f ≠ "" ∧ str_size f <= 128) (ld_features d);
}.

Lemma valid_spec d : Issuer.valid d = true → valid_definition d.
Proof.
  unfold Issuer.valid. intros Hv. destruct (_ || _) eqn:E1 in Hv; [done|].
  destruct (negb _ && _) eqn:E2 in Hv; [done|].
  unfold Issuer.kMaxIdentifierSize, Issuer.kMaxFeatures in *. reflect_bools.
  rewrite !str_nonempty_size in *.
  split; try lia.
  rewrite forallb_forall in Hv. apply List.Forall_forall. intros f Hf%Hv.
  unfold Issuer.kMaxFeatureSize in Hf. reflect_bools. split; [|done]. by intros ->.
Qed.

Section RoundTrip.
Context {C : CryptoApi} {L : LicenseBuffers} {LL : LicenseBuffersLaws L}.

Lemma payloadTable_snapshot d :
  valid_definition d → snapshot_of (Issuer.payloadTable d) (definition_snapshot d).
Proof.
  intros [Hk Hl Hp Hc Ht Hm He Hn Hf]. unfold Issuer.payloadTable, definition_snapshot.
  split; cbn.
  - split; [done|]. apply str_size_nonempty; lia.
  - split; [done|]. apply str_size_nonempty; lia.
  - done.
  - done.
  - done.
  - done.
  - by destruct (_ =? 0).
  - split; [done|]. eapply Forall_impl; [exact Hf|]. by intros f [? _].
  - done.
  - eexists. split; [done|]. cbn. split_and!; [by destruct (str_empty _)|done|].
    destruct (ld_machine_id d); done.
  - destruct (Z.eqb_spec (ld_expire_time d) 0); [done|lia].
Qed.

Lemma payloadTable_typed d : definition_typed d → payload_typed (Issuer.payloadTable d).
Proof.
  intros (? & ? & ? & ?). unfold payload_typed. cbn -[Z.pow]. split_and!; try done.
  - by destruct (_ =? 0).
  - by destruct (str_empty _).
Qed.

Lemma payloadTable_weight d :
  valid_definition d → payload_weight (Issuer.payloadTable d) <= 40000 + str_size (ld_machine_id d).
Proof.
  intros [Hk Hl Hp Hc Ht Hm He Hn Hf]. unfold payload_weight. cbn -[Z.mul Z.add strings_weight].
  pose proof (strings_weight_bound (ld_features d) 256 128 Hn) as Hw.
  specialize (Hw (Forall_impl _ _ _ Hf (fun f H => proj2 H)) ltac:(lia)). lia.
Qed.

(** Bound on the machine id: the issuer does not limit it, the validator
    limits the whole package. *)
Definition issuable (d : LicenseDefinition) : Prop :=
  definition_typed d ∧ str_size (ld_machine_id d) <= 2 ^ 19.

Lemma issueLicense_authentic kp d package trusted :
  CryptoLaws C → CryptoAvailable C → ed25519_pair kp → issuable d →
  Issuer.issueLicense d (kp_private kp) = Ok package →
  trusted !! ld_key_id d = Some (kp_public kp) →
  let payload := FinishLicensePayload (Issuer.payloadTable d) in
  authentic (mkLicenseValidator trusted) package payload
  ∧ VerifyLicensePayload payload = true
  ∧ snapshot_of (GetLicensePayload payload) (definition_snapshot d).
Proof.
  intros HL HA Hkp [Hd Hid] Hi Ht payload. unfold Issuer.issueLicense in Hi.
  destruct (Issuer.valid d) eqn:Hv; [|done]. cbn [negb] in Hi. apply valid_spec in Hv.
  fold payload in Hi. rewrite signedBytes_input in Hi.
  destruct (cr_signEd25519 _ _) as [sig|] eqn:Hs; [|done]. apply Ok_inj in Hi as <-.
  pose proof (payloadTable_weight d Hv) as Hw. pose proof (payloadTable_typed d Hd) as Hty.
  pose proof (payload_size (Issuer.payloadTable d) ltac:(lia)) as Hps. fold payload in Hps.
  pose proof (sign_array _ _ _ Hs) as [Hsz Hso].
  set (k := mkLicensePackageT 1 (Some (ld_key_id d)) (Some payload) (Some sig)).
  assert (package_weight k <= 72 + 2 ^ 16 + zlen payload + 64) as Hkw.
  { unfold package_weight. cbn. destruct (vd_key_id d Hv).
    unfold kSignatureSize in Hsz. lia. }
  assert (package_typed k) as Hkt by (split_and!; [done|apply payload_octets|done]).
  pose proof (package_size k ltac:(lia)). split_and!.
  - split; [unfold kMaxLicenseSize; lia|]. split; [apply package_identifier|].
    split; [apply package_verifies; [done|lia]|].
    exists (ld_key_id d), sig, (kp_public kp). rewrite get_package by (done || lia).
    split_and!; try done; try apply (vd_key_id d Hv).
    + intros E. rewrite E, (zlen_nil (A:=Z)) in Hps. lia.
    + by apply (sign_verify kp).
  - apply payload_verifies; [done|lia].
  - unfold payload. rewrite get_payload by (done || lia). by apply payloadTable_snapshot.
Qed.

(** C8. Issue and validate are inverse: a package issued with a key pair is
    accepted by every validator that trusts the public key under the key id,
    with the snapshot of the definition it was issued from, exactly as far as
    the definition is in force (product, period, machine). *)
Theorem issued_license_validates kp d package trusted prod mach now :
  CryptoLaws C → CryptoAvailable C → ed25519_pair kp → issuable d →
  Issuer.issueLicense d (kp_private kp) = Ok package →
  trusted !! ld_key_id d = Some (kp_public kp) →
  validate (mkLicenseValidator trusted) package prod mach now
  = outcome (definition_snapshot d) prod mach now.
Proof.
  intros HL HA Hkp Hd Hi Ht.
  destruct (issueLicense_authentic kp d package trusted HL HA Hkp Hd Hi Ht) as (Ha & Hv & Hs).
  rewrite (validate_authentic _ _ _ _ _ _ Ha). by apply validatePayload_outcome.
Qed.

End RoundTrip.

(** ** A concrete license *)

Section Witnesses.
#[local] Existing Instance toy_crypto.
#[local] Existing Instance toy_licenses.

Definition sample_signer : KeyPair := Eval vm_compute in
  match cr_generateEd25519KeyPair (7 : @cr_rng toy_crypto) with
  | (Ok kp, _) => kp
  | (Err _, _) => mkKeyPair [] []
  end.

Lemma sample_signer_pair : ed25519_pair sample_signer.
Proof. exists (7 : @cr_rng toy_crypto). eexists. vm_compute. reflexivity. Qed.

Definition sample_definition : LicenseDefinition :=
  {| ld_key_id := "vendor-1"; ld_license_id := "L-1"; ld_product_id := "demo";
     ld_customer_id := "acme"; ld_issue_time := 1000; ld_not_before := 1000;
     ld_expire_time := 2000; ld_features := ["export"; "render"]; ld_max_sessions := 2;
     ld_machine_id := "m1" |}.

Lemma sample_issuable : issuable sample_definition.
Proof.
  unfold issuable, definition_typed, in_width, sample_definition, str_size. cbn -[Z.pow].
  split_and!; lia.
Qed.

Definition sample_package : bytes := Eval vm_compute in
  match Issuer.issueLicense sample_definition (kp_private sample_signer) with
  | Ok p => p | Err _ => []
  end.

Lemma sample_issued :
  Issuer.issueLicense sample_definition (kp_private sample_signer) = Ok sample_package.
Proof. vm_compute. reflexivity. Qed.

Definition sample_validator : LicenseValidator :=
  mkLicenseValidator {["vendor-1" := kp_public sample_signer]}.

Lemma issued_license_validates_witness :
  validate sample_validator sample_package "demo" "m1" 1500
  = Ok (definition_snapshot sample_definition)
  ∧ validate sample_validator sample_package "demo" "m2" 1500 = Err ErrorCode.MachineMismatch
  ∧ validate sample_validator sample_package "demo" "m1" 2000 = Err ErrorCode.Expired.
Proof.
  pose proof (fun mach now => issued_license_validates sample_signer sample_definition sample_package
    {["vendor-1" := kp_public sample_signer]} "demo" mach now _ _ sample_signer_pair
    sample_issuable sample_issued eq_refl) as H.
  split; [|split]; (etransitivity; [apply H|]); vm_compute; reflexivity.
Defined.

Lemma sample_validates :
  validate sample_validator sample_package "demo" "m1" 1500
  = Ok (definition_snapshot sample_definition).
Proof. vm_compute. reflexivity. Qed.

Lemma validate_stable_witness :
  validate sample_validator sample_package "demo" "m1" 999 = Err ErrorCode.NotYetValid
  ∧ validate sample_validator sample_package "other" "m1" 1500 = Err ErrorCode.ProductMismatch.
Proof.
  pose proof (fun prod now => validate_stable sample_validator sample_package "demo" "m1" 1500 _
    prod "m1" now sample_validates) as H.
  split; (etransitivity; [apply H|]); vm_compute; reflexivity.
Defined.
End Witnesses.
