(* ===== verification/Session.v ===== *)
(** * Session: the session table of the service

    Models [src/ya_license_core/src/session.cpp] and its header.  Every
    operation holds the manager's mutex for its whole body, so concurrent use
    is a sequence of operations: [session_step] is one of them, and the
    invariants hold along every sequence.

    The loop in [create] that draws session ids until one is unused has no
    static bound; [drawId] takes a number of iterations and [create_returns]
    shows how many are enough. *)

From S2P Require Import Prelude CryptoApi ToySsl Status.

(** [SessionId] is [std::array<std::uint8_t, 16>]. *)
Definition kSessionIdBytes : Z := 16.

Record Session := mkSession {
  se_id : bytes;
  se_product_id : string;
  se_peer_identity : string;
  se_features : list string;
  se_expire_time : Z;
  se_last_heartbeat_ms : Z;
}.

(** [sessions_] *)
Abbreviation SessionManager := (gmap bytes Session).

(** [SessionIdHash]: 64-bit wrap-around of the multiplication. *)
Definition SessionIdHash (id : bytes) : Z :=
  fold_left (fun hash byte => Z.lxor (wrap 64 (hash * 131)) byte) id 0.

(** [std::ranges::count_if(sessions_, ...)] *)
Definition activeSessions (sessions : SessionManager) (product_id : string) : Z :=
  Z.of_nat (size (filter (fun entry : bytes * Session => se_product_id entry.2 = product_id)
                    sessions)).

Definition set_heartbeat (now_monotonic_ms : Z) (s : Session) : Session :=
  {| se_id := se_id s; se_product_id := se_product_id s; se_peer_identity := se_peer_identity s;
     se_features := se_features s; se_expire_time := se_expire_time s;
     se_last_heartbeat_ms := now_monotonic_ms |}.

Section Manager.
Context {C : CryptoApi}.

(** The [do ... while (sessions_.contains(session.id))] loop. *)
Fixpoint drawId (fuel : nat) (sessions : SessionManager) (g : cr_rng)
  : exec (result ErrorCode bytes * cr_rng) :=
  match fuel with
  | O => Running
  | S fuel' =>
      match cr_randomBytes kSessionIdBytes g with
      | (Err _, g') => Done (Err ErrorCode.InternalError, g')
      | (Ok id, g') =>
          if bool_decide (is_Some (sessions !! id)) then drawId fuel' sessions g'
          else Done (Ok id, g')
      end
  end.

Definition create (fuel : nat) (sessions : SessionManager) (g : cr_rng)
    (product_id peer_identity : string) (features : list string)
    (expire_time now_monotonic_ms max_sessions : Z)
  : exec (result ErrorCode Session * SessionManager * cr_rng) :=
  if str_empty product_id || str_empty peer_identity || (max_sessions =? 0)
  then Done (Err ErrorCode.InvalidLicense, sessions, g)
  else
  let active := activeSessions sessions product_id in
  if max_sessions <=? active then Done (Err ErrorCode.SessionLimitExceeded, sessions, g)
  else
    drawn ← drawId fuel sessions g;
    let '(id, g') := drawn in
    match id with
    | Err e => Done (Err e, sessions, g')
    | Ok id =>
        let session :=
          {| se_id := id;
             se_product_id := product_id;
             se_peer_identity := peer_identity;
             se_features := features;
             se_expire_time := expire_time;
             se_last_heartbeat_ms := now_monotonic_ms |} in
        Done (Ok session, <[id := session]> sessions, g')
    end.

Definition heartbeat (sessions : SessionManager) (id : bytes) (now_monotonic_ms : Z)
  : result ErrorCode () * SessionManager :=
  match sessions !! id with
  | None => (Err ErrorCode.InvalidSession, sessions)
  | Some session => (Ok (), <[id := set_heartbeat now_monotonic_ms session]> sessions)
  end.

(** [sessions_.erase(id) == 1] *)
Definition close (sessions : SessionManager) (id : bytes) : bool * SessionManager :=
  (bool_decide (is_Some (sessions !! id)), delete id sessions).

(** The predicate of [erase_if]; the subtraction is at 64 bits. *)
Definition inactive (now_monotonic_ms timeout_ms : Z) (session : Session) : bool :=
  let heartbeat := se_last_heartbeat_ms session in
  (heartbeat <=? now_monotonic_ms) && (timeout_ms <=? wrap 64 (now_monotonic_ms - heartbeat)).

Definition expireInactive (sessions : SessionManager) (now_monotonic_ms timeout_ms : Z)
  : Z * SessionManager :=
  let kept := filter (fun entry : bytes * Session =>
                inactive now_monotonic_ms timeout_ms entry.2 = false) sessions in
  (Z.of_nat (size sessions) - Z.of_nat (size kept), kept).

Definition sessionCount (sessions : SessionManager) : Z := Z.of_nat (size sessions).

(** ** Sequences of operations *)

Inductive SessionOp :=
| OpCreate (product_id peer_identity : string) (features : list string)
    (expire_time now_monotonic_ms max_sessions : Z)
| OpHeartbeat (id : bytes) (now_monotonic_ms : Z)
| OpClose (id : bytes)
| OpExpire (now_monotonic_ms timeout_ms : Z).

Inductive session_step : SessionManager * cr_rng → SessionOp → SessionManager * cr_rng → Prop :=
| StepCreate fuel m g p peer fs t now max r m' g' :
    create fuel m g p peer fs t now max = Done (r, m', g') →
    session_step (m, g) (OpCreate p peer fs t now max) (m', g')
| StepHeartbeat m g id now :
    session_step (m, g) (OpHeartbeat id now) ((heartbeat m id now).2, g)
| StepClose m g id : session_step (m, g) (OpClose id) ((close m id).2, g)
| StepExpire m g now timeout :
    session_step (m, g) (OpExpire now timeout) ((expireInactive m now timeout).2, g).

Inductive session_run : SessionManager * cr_rng → list SessionOp → SessionManager * cr_rng → Prop :=
| RunNil st : session_run st [] st
| RunCons st op st' ops st'' :
    session_step st op st' → session_run st' ops st'' → session_run st (op :: ops) st''.
End Manager.

(** ** Counting *)

Lemma activeSessions_mono m m' p : m ⊆ m' → activeSessions m p <= activeSessions m' p.
Proof.
  intros Hm. unfold activeSessions. apply Nat2Z.inj_le, map_subseteq_size.
  by apply map_filter_subseteq_mono.
Qed.

Lemma activeSessions_fresh m id s p :
  m !! id = None →
  activeSessions (<[id := s]> m) p
  = activeSessions m p + (if bool_decide (se_product_id s = p) then 1 else 0).
Proof.
  intros Hn. unfold activeSessions. case_bool_decide as Hp.
  - rewrite map_filter_insert_True by done. rewrite map_size_insert_None; [lia|].
    apply map_lookup_filter_None. by left.
  - rewrite map_filter_insert_not'; [lia|done|]. intros y Hy. congruence.
Qed.

Lemma activeSessions_update m id s s' p :
  m !! id = Some s → se_product_id s' = se_product_id s →
  activeSessions (<[id := s']> m) p = activeSessions m p.
Proof.
  intros Hs Hp. unfold activeSessions. f_equal.
  destruct (decide (se_product_id s = p)) as [Hq|Hq].
  - rewrite map_filter_insert_True by (cbn; congruence). apply map_size_insert_Some.
    exists s. by apply map_lookup_filter_Some.
  - rewrite map_filter_insert_not'; [done|cbn; congruence|]. intros y Hy. cbn. congruence.
Qed.

Section ManagerFacts.
Context {C : CryptoApi} {CL : CryptoLaws C}.

Lemma drawId_Ok fuel m g id g' :
  drawId fuel m g = Done (Ok id, g') → m !! id = None ∧ is_array kSessionIdBytes id.
Proof.
  revert g. induction fuel as [|fuel IH]; intros g; [done|]. cbn.
  destruct (cr_randomBytes _ g) as [[i|e] g1] eqn:E; [|done].
  case_bool_decide as Hi; [apply IH|]. intros [= <- <-].
  split; [by apply eq_None_not_Some|]. by apply (randomBytes_array _ _ _ _ E).
Qed.

Lemma drawId_Err fuel m g e g' :
  drawId fuel m g = Done (Err e, g') → e = ErrorCode.InternalError.
Proof.
  revert g. induction fuel as [|fuel IH]; intros g; [done|]. cbn.
  destruct (cr_randomBytes _ g) as [[i|e'] g1] eqn:E; [|congruence].
  case_bool_decide; [apply IH|congruence].
Qed.

Lemma drawId_defined fuel m g : drawId fuel m g ≠ Undefined.
Proof.
  revert g. induction fuel as [|fuel IH]; intros g; [done|]. cbn.
  destruct (cr_randomBytes _ g) as [[i|e'] g1]; [|done]. case_bool_decide; [apply IH|done].
Qed.

(** What a successful [create] has done: an unused id, one new entry. *)
Record created (m : SessionManager) (s : Session) (m' : SessionManager)
    (p peer : string) (fs : list string) (t now max : Z) : Prop := {
  cr_fresh : m !! se_id s = None;
  cr_id : is_array kSessionIdBytes (se_id s);
  cr_session : s = mkSession (se_id s) p peer fs t now;
  cr_table : m' = <[se_id s := s]> m;
  cr_limit : activeSessions m p < max;
  cr_product : p ≠ "";
  cr_peer : peer ≠ "";
}.

Lemma create_Ok fuel m g p peer fs t now max s m' g' :
  create fuel m g p peer fs t now max = Done (Ok s, m', g') →
  created m s m' p peer fs t now max.
Proof.
  unfold create. destruct (_ || _) eqn:E1; [done|]. destruct (_ <=? _) eqn:E2; [done|].
  intros ([[id|e] g1] & Hd & Hr)%exec_bind_Done; [|done]. injection Hr as <- <- <-.
  apply drawId_Ok in Hd as [Hn Hi]. reflect_bools. split; try done.
  - intros ->. done.
  - intros ->. done.
Qed.

(** A failed [create] leaves the table alone and says why. *)
Lemma create_Err fuel m g p peer fs t now max e m' g' :
  create fuel m g p peer fs t now max = Done (Err e, m', g') →
  m' = m ∧
  (e = ErrorCode.InvalidLicense ∧ (p = "" ∨ peer = "" ∨ max = 0)
   ∨ e = ErrorCode.SessionLimitExceeded ∧ max <= activeSessions m p
   ∨ e = ErrorCode.InternalError).
Proof.
  unfold create. destruct (_ || _) eqn:E1.
  - intros [= <- <- <-]. split; [done|]. left. split; [done|].
    rewrite !orb_true_iff, !str_empty_spec, Z.eqb_eq in E1. tauto.
  - destruct (_ <=? _) eqn:E2.
    + intros [= <- <- <-]. reflect_bools. auto.
    + intros ([[id|e'] g1] & Hd & Hr)%exec_bind_Done; [done|]. injection Hr as <- <- <-.
      apply drawId_Err in Hd. auto.
Qed.

(** ** Invariant *)

Definition sessions_wf (m : SessionManager) : Prop :=
  map_Forall (fun id s => se_id s = id ∧ is_array kSessionIdBytes id
                          ∧ se_product_id s ≠ "" ∧ se_peer_identity s ≠ "") m.

Definition within_limits (limit : string → Z) (m : SessionManager) : Prop :=
  ∀ p, activeSessions m p <= limit p.

(** Every [create] in the sequence passes at most the product's limit. *)
Definition respects (limit : string → Z) (op : SessionOp) : Prop :=
  match op with
  | OpCreate p _ _ _ _ max => max <= limit p
  | _ => True
  end.

Lemma step_wf st op st' : session_step st op st' → sessions_wf st.1 → sessions_wf st'.1.
Proof.
  intros Hs Hwf. destruct Hs as [fuel m g p peer fs t now max [s|e] m' g' Hc|m g id now|m g id|m g now timeout];
    cbn in *.
  - apply create_Ok in Hc as [Hf Hid Hse -> _ Hp Hq]. apply map_Forall_insert_2; [|done].
    rewrite Hse. done.
  - by apply create_Err in Hc as [-> _].
  - unfold heartbeat. destruct (m !! id) as [s|] eqn:E; [|done]. cbn.
    apply map_Forall_insert_2; [|done]. by apply (Hwf id s).
  - by apply map_Forall_delete.
  - intros id s Hs. apply map_lookup_filter_Some in Hs as [Hs _]. by apply Hwf.
Qed.

Lemma step_limits limit st op st' :
  session_step st op st' → respects limit op →
  within_limits limit st.1 → within_limits limit st'.1.
Proof.
  intros Hs Hr Hl q. destruct Hs as [fuel m g p peer fs t now max [s|e] m' g' Hc|m g id now|m g id|m g now timeout];
    cbn in *.
  - apply create_Ok in Hc as [Hf Hid Hse -> Hm _ _]. rewrite activeSessions_fresh by done.
    specialize (Hl q). rewrite Hse. cbn. case_bool_decide; subst; lia.
  - apply create_Err in Hc as [-> _]. apply Hl.
  - unfold heartbeat. destruct (m !! id) as [s|] eqn:E; [|apply Hl]. cbn.
    rewrite (activeSessions_update m id s) by done. apply Hl.
  - etransitivity; [apply activeSessions_mono, delete_subseteq|apply Hl].
  - etransitivity; [apply activeSessions_mono, map_filter_subseteq|apply Hl].
Qed.

Lemma run_ind (P : SessionManager * cr_rng → Prop) (Q : SessionOp → Prop) :
  (∀ st op st', session_step st op st' → Q op → P st → P st') →
  ∀ st ops st', session_run st ops st' → Forall Q ops → P st → P st'.
Proof.
  intros Hstep st ops st'. induction 1 as [|st op st1 ops st2 Hs _ IH]; [done|].
  intros Hq Hp. apply Forall_cons in Hq as [Hq Hqs]. eauto.
Qed.

(** C19. Along every sequence of operations the table is well formed (each
    entry is stored under its own 16-byte id, with a product and a peer) and
    no product ever has more sessions than the largest limit its [create]
    calls passed. *)
Theorem sessions_within_limits limit g ops m g' :
  session_run (∅, g) ops (m, g') → Forall (respects limit) ops → (∀ p, 0 <= limit p) →
  sessions_wf m ∧ within_limits limit m.
Proof.
  intros Hr Ho Hl.
  apply (run_ind (fun st => sessions_wf st.1 ∧ within_limits limit st.1) (respects limit))
    in Hr; [done| |done|].
  - intros st op st' Hs Hq [Hwf Hlim]. split; [by eapply step_wf|by eapply step_limits].
  - split; [by apply map_Forall_empty|]. intros p. cbn. unfold activeSessions.
    rewrite map_filter_empty, map_size_empty. apply Hl.
Qed.

(** ** Termination of the id loop *)

(** The ids the generator would draw in [n] successful calls. *)
Fixpoint draws (n : nat) (g : cr_rng) : option (list bytes) :=
  match n with
  | O => Some []
  | S n' =>
      match cr_randomBytes kSessionIdBytes g with
      | (Ok id, g') => ids ← draws n' g'; Some (id :: ids)
      | (Err _, _) => None
      end
  end.

Lemma drawId_running fuel m g :
  drawId fuel m g = Running →
  ∃ ids, draws fuel g = Some ids ∧ length ids = fuel ∧ Forall (fun id => id ∈ dom m) ids.
Proof.
  revert g. induction fuel as [|fuel IH]; intros g; cbn; [by exists []|].
  destruct (cr_randomBytes _ g) as [[id|e] g'] eqn:E; [|done].
  case_bool_decide as Hi; [|done]. intros (ids & -> & Hl & Hf)%IH.
  exists (id :: ids). cbn. split; [done|]. split; [congruence|].
  constructor; [by apply elem_of_dom|done].
Qed.

Lemma NoDup_in_dom (m : SessionManager) ids :
  NoDup ids → Forall (fun id => id ∈ dom m) ids → (length ids <= size m)%nat.
Proof.
  intros Hn Hf. rewrite <- (size_dom (D:=gset bytes)), <- (size_list_to_set (C:=gset bytes)) by done.
  apply subseteq_size. intros id Hid%elem_of_list_to_set.
  rewrite Forall_forall in Hf. by apply Hf.
Qed.

Lemma create_total m g p peer fs t now max :
  (∀ ids, draws (S (size m)) g = Some ids → NoDup ids) →
  ∃ r, create (S (size m)) m g p peer fs t now max = Done r.
Proof.
  intros Hd. unfold create. destruct (_ || _); [eauto|]. destruct (_ <=? _); [eauto|].
  destruct (drawId (S (size m)) m g) as [[[id|e] g']| |] eqn:E; cbn; [eauto..| |].
  - by apply drawId_defined in E.
  - apply drawId_running in E as (ids & Hi & Hl & Hf). pose proof (NoDup_in_dom m ids (Hd _ Hi) Hf). lia.
Qed.

(** [create] returns: when the generator does not repeat an id within
    one more draw than there are sessions, that many iterations of the loop
    are enough (and if a draw fails, [create] returns the error). *)
Theorem create_returns m g p peer fs t now max :
  (∀ ids, draws (S (size m)) g = Some ids → NoDup ids) →
  ∃ r, create (S (size m)) m g p peer fs t now max = Done r.
Proof. apply create_total. Qed.

(** ** Lifetime of a session *)

Lemma inactive_false now timeout s :
  in_width 64 now → in_width 64 (se_last_heartbeat_ms s) →
  inactive now timeout s = false ↔
  now < se_last_heartbeat_ms s ∨ now - se_last_heartbeat_ms s < timeout.
Proof.
  unfold inactive, in_width. intros Hn Hh.
  destruct (Z.leb_spec (se_last_heartbeat_ms s) now); cbn; [|split; [by left|done]].
  rewrite wrap_small by (unfold in_width; lia).
  destruct (Z.leb_spec timeout (now - se_last_heartbeat_ms s)); split; try done; lia.
Qed.

(** The operations leave session [id], last heard of at [hb], alone: it is not
    closed, and no expiry finds it silent for the timeout. *)
Fixpoint leaves_alive (id : bytes) (hb : Z) (ops : list SessionOp) : Prop :=
  match ops with
  | [] => True
  | OpCreate _ _ _ _ _ _ :: ops' => leaves_alive id hb ops'
  | OpHeartbeat id' now :: ops' =>
      in_width 64 now ∧ leaves_alive id (if bool_decide (id' = id) then now else hb) ops'
  | OpClose id' :: ops' => id' ≠ id ∧ leaves_alive id hb ops'
  | OpExpire now timeout :: ops' =>
      in_width 64 now ∧ (now < hb ∨ now - hb < timeout) ∧ leaves_alive id hb ops'
  end.

Lemma step_other st op st' id s :
  session_step st op st' → st.1 !! id = Some s →
  match op with
  | OpCreate _ _ _ _ _ _ => st'.1 !! id = Some s
  | OpHeartbeat id' now =>
      st'.1 !! id = Some (if bool_decide (id' = id) then set_heartbeat now s else s)
  | OpClose id' => id' ≠ id → st'.1 !! id = Some s
  | OpExpire now timeout => inactive now timeout s = false → st'.1 !! id = Some s
  end.
Proof.
  intros Hs Hid. destruct Hs as [fuel m g p peer fs t now max [s'|e] m' g' Hc|m g id' now|m g id'|m g now timeout];
    cbn in *.
  - apply create_Ok in Hc as [Hf _ _ -> _ _ _]. by rewrite lookup_insert_ne by congruence.
  - by apply create_Err in Hc as [-> _].
  - unfold heartbeat. case_bool_decide as Hi; subst.
    + rewrite Hid. cbn. by rewrite lookup_insert_eq.
    + destruct (m !! id') as [s'|]; [|done]. cbn. by rewrite lookup_insert_ne.
  - intros Hn. by rewrite lookup_delete_ne.
  - intros Hi. by apply map_lookup_filter_Some.
Qed.

(** A session lives until it is closed or has been silent for the timeout:
    whatever other clients do in between, it stays in the table with its
    product, peer, features and expiry unchanged. *)
Theorem session_survives st ops st' id s :
  session_run st ops st' → st.1 !! id = Some s → in_width 64 (se_last_heartbeat_ms s) →
  leaves_alive id (se_last_heartbeat_ms s) ops →
  ∃ hb, st'.1 !! id = Some (set_heartbeat hb s).
Proof.
  intros Hr. revert s. induction Hr as [st|st op st1 ops st2 Hs _ IH]; intros s Hid Hw Ha.
  - exists (se_last_heartbeat_ms s). by destruct s.
  - pose proof (step_other _ _ _ _ _ Hs Hid) as Hn. destruct op as [p peer fs t now max|id' now|id'|now timeout].
    + by apply IH.
    + destruct Ha as [Hnow Ha]. case_bool_decide.
      * by apply (IH (set_heartbeat now s)).
      * by apply IH.
    + destruct Ha as [Hne Ha]. auto.
    + destruct Ha as (Hnow & Hlive & Ha). apply IH; [|done..]. apply Hn. by apply inactive_false.
Qed.

(** Expiry removes exactly the silent sessions and reports how many; the
    clock subtraction cannot wrap because it is guarded. *)
Theorem expireInactive_exact m now timeout :
  in_width 64 now → map_Forall (fun _ s => in_width 64 (se_last_heartbeat_ms s)) m →
  let '(n, m') := expireInactive m now timeout in
  (∀ id s, m' !! id = Some s ↔
           m !! id = Some s ∧ (now < se_last_heartbeat_ms s ∨ now - se_last_heartbeat_ms s < timeout))
  ∧ sessionCount m' = sessionCount m - n ∧ 0 <= n
  ∧ expireInactive m' now timeout = (0, m').
Proof.
  intros Hn Hm. unfold expireInactive, sessionCount.
  set (m' := filter _ m). split_and!.
  - intros id s. unfold m'. rewrite map_lookup_filter_Some. cbn.
    split; intros [Hs Hi]; (split; [done|]);
    by apply (inactive_false now timeout s Hn (Hm id s Hs)).
  - lia.
  - assert (size m' <= size m)%nat by apply map_subseteq_size, map_filter_subseteq. lia.
  - assert (filter (fun entry : bytes * Session => inactive now timeout entry.2 = false) m' = m') as E.
    { apply map_filter_id. intros id s [_ Hi]%map_lookup_filter_Some. done. }
    rewrite E. f_equal. lia.
Qed.
End ManagerFacts.

(** ** A concrete table *)

Section Witnesses.
#[local] Existing Instance toy_crypto.

Definition sample_rng : cr_rng := (100 : @cr_rng toy_crypto).

Definition two_creates : list SessionOp :=
  [OpCreate "demo" "user" ["export"] 0 10 1; OpCreate "demo" "user" [] 0 11 1;
   OpHeartbeat [] 12; OpExpire 13 90].

Definition created_table : SessionManager * cr_rng :=
  match create 1 ∅ sample_rng "demo" "user" ["export"] 0 10 1 with
  | Done (_, m, g) => (m, g)
  | _ => (∅, sample_rng)
  end.

Lemma created_table_step :
  session_step (∅, sample_rng) (OpCreate "demo" "user" ["export"] 0 10 1) created_table.
Proof.
  unfold created_table. destruct (create 1 ∅ sample_rng "demo" "user" ["export"] 0 10 1)
    as [[[r m] g]| |] eqn:E; [by apply (StepCreate 1 _ _ _ _ _ _ _ _ r)|..];
  vm_compute in E; discriminate E.
Qed.

Lemma two_creates_run :
  ∃ st, session_run (∅, sample_rng) two_creates st.
Proof.
  eexists. eapply RunCons; [exact created_table_step|].
  eapply RunCons; [apply (StepCreate 1 _ _ _ _ _ _ _ _ (Err ErrorCode.SessionLimitExceeded)); vm_compute; reflexivity|].
  eapply RunCons; [apply StepHeartbeat|]. eapply RunCons; [apply StepExpire|]. apply RunNil.
Qed.

Lemma sessions_within_limits_witness :
  ∃ m g, session_run (∅, sample_rng) two_creates (m, g)
         ∧ sessions_wf m ∧ within_limits (fun _ => 1) m.
Proof.
  destruct two_creates_run as [[m g] H]. exists m, g. split; [exact H|].
  apply (sessions_within_limits (fun _ => 1) sample_rng two_creates m g H).
  - repeat constructor; cbn; lia.
  - intros _; lia.
Defined.

Lemma create_returns_witness :
  ∃ r, create 2 created_table.1 created_table.2 "demo" "other" [] 0 12 5 = Done r.
Proof.
  apply (create_returns created_table.1 created_table.2 "demo" "other" [] 0 12 5).
  intros ids Hids. vm_compute in Hids. injection Hids as <-.
  apply NoDup_cons. split; [|apply NoDup_singleton].
  intros Hin%list_elem_of_singleton. discriminate Hin.
Defined.

Definition created_id : bytes :=
  match create 1 ∅ sample_rng "demo" "user" ["export"] 0 10 1 with
  | Done (Ok s, _, _) => se_id s
  | _ => []
  end.

Lemma session_survives_witness :
  ∃ (st : SessionManager * cr_rng) hb, st.1 !! created_id
           = Some (set_heartbeat hb (mkSession created_id "demo" "user" ["export"] 0 10)).
Proof.
  assert (∃ st, session_run created_table [OpHeartbeat created_id 50; OpExpire 120 90] st)
    as [st Hrun].
  { destruct created_table as [m g]. eexists.
    eapply RunCons; [apply StepHeartbeat|]. eapply RunCons; [apply StepExpire|]. apply RunNil. }
  exists st.
  apply (session_survives created_table [OpHeartbeat created_id 50; OpExpire 120 90] st created_id
           (mkSession created_id "demo" "user" ["export"] 0 10) Hrun).
  - vm_compute. reflexivity.
  - split; [discriminate|reflexivity].
  - cbn -[created_id]. rewrite bool_decide_eq_true_2 by reflexivity. unfold in_width. split; lia.
Defined.

Lemma expireInactive_exact_witness :
  let '(n, m') := expireInactive created_table.1 200 90 in
  (∀ id s, m' !! id = Some s ↔
     created_table.1 !! id = Some s
     ∧ (200 < se_last_heartbeat_ms s ∨ 200 - se_last_heartbeat_ms s < 90))
  ∧ sessionCount m' = sessionCount created_table.1 - n ∧ 0 <= n
  ∧ expireInactive m' 200 90 = (0, m').
Proof.
  apply (expireInactive_exact created_table.1 200 90).
  - split; [discriminate|reflexivity].
  - intros id s Hs.
    assert (created_table.1 = {[created_id := mkSession created_id "demo" "user" ["export"] 0 10]})
      as E by (vm_compute; reflexivity).
    rewrite E in Hs. apply lookup_singleton_Some in Hs as [_ <-].
    split; [discriminate|reflexivity].
Defined.
End Witnesses.
