(* ===== verification/MachineIdentity.v ===== *)
(** * MachineIdentity: the machine id a license can be bound to

    Models [src/ya_license_core/src/machine_identity.cpp] and its header.
    File contents are byte sequences; the file system is an argument
    ([FileSystem]), and a reader that throws is a reader that returns [None].

    The theorems: normalization ignores surrounding white space and letter
    case and yields 32 lower-case hex digits; the identity depends only on the
    normalized components; two machines with the same identity have the same
    components unless SHA-256 has a collision. *)

From S2P Require Import Prelude CryptoApi ToySsl Status.

(** ** [machine_identity.h] *)

Module MachineIdentityComponentType.
Inductive MachineIdentityComponentType := MachineId | ProductUuid.
End MachineIdentityComponentType.
Abbreviation ComponentType := MachineIdentityComponentType.MachineIdentityComponentType.

Module MachineIdentityComponentStatus.
Inductive MachineIdentityComponentStatus := Available | Missing | Unreadable | Invalid.
End MachineIdentityComponentStatus.
Abbreviation ComponentStatus := MachineIdentityComponentStatus.MachineIdentityComponentStatus.

Module MachineIdentityReadStatus.
Inductive MachineIdentityReadStatus := Success | Missing | Failure.
End MachineIdentityReadStatus.
Abbreviation ReadStatus := MachineIdentityReadStatus.MachineIdentityReadStatus.

#[global] Instance ComponentStatus_eq_dec : EqDecision ComponentStatus.
Proof. solve_decision. Defined.

Record MachineIdentityReadResult := mkReadResult {
  mr_status : ReadStatus;
  mr_contents : bytes;
}.

(** [MachineIdentityReadFunction]; [None] is an exception. *)
Abbreviation ReadFunction := (string → option MachineIdentityReadResult).

Record LinuxMachineIdentityConfig := mkLinuxMachineIdentityConfig {
  mc_machine_id_path : string;
  mc_product_uuid_path : string;
  mc_require_machine_id : bool;
  mc_require_product_uuid : bool;
}.

Definition defaultMachineIdentityConfig : LinuxMachineIdentityConfig :=
  mkLinuxMachineIdentityConfig "/etc/machine-id" "/sys/class/dmi/id/product_uuid" true false.

Record MachineIdentityComponent := mkComponent {
  mi_type : ComponentType;
  mi_status : ComponentStatus;
}.

Record MachineIdentity := mkMachineIdentity {
  mi_exact_id : string;
  mi_components : list MachineIdentityComponent;
}.

(** ** [machine_identity.cpp] *)

Definition kHashDomain : string := "YOAUTHORIZE-MACHINE-ID-V1".
Definition kComponentHashDomain : string := "YOAUTHORIZE-MACHINE-COMPONENT-V1".
Definition kMaxComponentSize : Z := 4096.

Record NormalizedComponent := mkNormalized { nc_type : string; nc_value : bytes }.

(** [' '], ['\t'], ['\n'], ['\r'], ['\f'], ['\v'] *)
Definition isAsciiSpace (value : Z) : bool :=
  (value =? 32) || (value =? 9) || (value =? 10) || (value =? 13) || (value =? 12) || (value =? 11).

(** ['0'..'9'], ['a'..'f'], ['A'..'F'] *)
Definition isAsciiHex (value : Z) : bool :=
  ((48 <=? value) && (value <=? 57)) || ((97 <=? value) && (value <=? 102))
  || ((65 <=? value) && (value <=? 70)).

Definition asciiLower (value : Z) : Z :=
  if (65 <=? value) && (value <=? 70) then value + (97 - 65) else value.

(** The two loops of [trimAscii]: [remove_prefix], then [remove_suffix]. *)
Fixpoint trimFront (value : bytes) : bytes :=
  match value with
  | [] => []
  | c :: value' => if isAsciiSpace c then trimFront value' else value
  end.
Definition trimBack (value : bytes) : bytes := rev (trimFront (rev value)).
Definition trimAscii (value : bytes) : bytes := trimBack (trimFront value).

(** [None] is [return false]. *)
Definition normalizeMachineId (input : bytes) : option bytes :=
  let input := trimAscii input in
  if negb (zlen input =? 32) || negb (forallb isAsciiHex input) then None
  else Some (map asciiLower input).

Definition hyphens : list Z := [8; 13; 18; 23].

(** The loop of [normalizeProductUuid] from [index] on. *)
Fixpoint uuidLoop (index : Z) (input : bytes) (output : bytes) : option bytes :=
  match input with
  | [] => Some output
  | c :: input' =>
      if existsb (Z.eqb index) hyphens
      then if negb (c =? 45) then None else uuidLoop (index + 1) input' output
      else if negb (isAsciiHex c) then None
      else uuidLoop (index + 1) input' (output ++ [asciiLower c])
  end.

Definition normalizeProductUuid (input : bytes) : option bytes :=
  let input := trimAscii input in
  if negb (zlen input =? 36) then None else uuidLoop 0 input [].

(** What opening a file gives: an error, or the characters [get] returns
    before the end and whether the stream is [bad] there. *)
Inductive OpenResult :=
| OpenError (enoent : bool)
| OpenStream (chars : bytes) (bad : bool).
Abbreviation FileSystem := (string → OpenResult).

(** [while (contents.size() <= kMaxComponentSize && stream.get(value))]:
    the contents and [stream.bad()] afterwards. *)
Fixpoint readLoop (chars : bytes) (bad : bool) (contents : bytes) : bytes * bool :=
  if zlen contents <=? kMaxComponentSize
  then match chars with
       | [] => (contents, bad)
       | value :: chars' => readLoop chars' bad (contents ++ [value])
       end
  else (contents, false).

Definition readFile (fs : FileSystem) (path : string) : MachineIdentityReadResult :=
  match fs path with
  | OpenError enoent =>
      mkReadResult (if enoent then MachineIdentityReadStatus.Missing
                    else MachineIdentityReadStatus.Failure) []
  | OpenStream chars bad =>
      let '(contents, bad) := readLoop chars bad [] in
      if bad || (kMaxComponentSize <? zlen contents)
      then mkReadResult MachineIdentityReadStatus.Failure []
      else mkReadResult MachineIdentityReadStatus.Success contents
  end.

Module IdentityBytes.
Definition appendU32 (output : bytes) (value : Z) : bytes :=
  let narrowed := wrap 32 value in
  fold_left (fun output index => output ++ [u8 (Z.shiftr narrowed (24 - index * 8))])
    [0; 1; 2; 3] output.
Definition appendField (output : bytes) (value : bytes) : bytes :=
  appendU32 output (zlen value) ++ value.
End IdentityBytes.
Import IdentityBytes.

Definition hexDigit (n : Z) : Ascii.ascii :=
  match String.get (Z.to_nat n) "0123456789abcdef" with Some c => c | None => Ascii.zero end.

Fixpoint hexDigest (digest : bytes) : string :=
  match digest with
  | [] => ""
  | byte :: digest' =>
      String (hexDigit (Z.shiftr byte 4)) (String (hexDigit (Z.land byte 15)) (hexDigest digest'))
  end.

Definition componentName (type : ComponentType) : string :=
  match type with
  | MachineIdentityComponentType.MachineId => "machine-id"
  | MachineIdentityComponentType.ProductUuid => "product-uuid"
  end.

Definition readComponent (reader : ReadFunction) (path : string) (type : ComponentType)
    (out : list NormalizedComponent) : ComponentStatus * list NormalizedComponent :=
  match reader path with
  | None => (MachineIdentityComponentStatus.Unreadable, out)
  | Some read =>
      match mr_status read with
      | MachineIdentityReadStatus.Missing => (MachineIdentityComponentStatus.Missing, out)
      | MachineIdentityReadStatus.Failure => (MachineIdentityComponentStatus.Unreadable, out)
      | MachineIdentityReadStatus.Success =>
          let normalized :=
            match type with
            | MachineIdentityComponentType.MachineId => normalizeMachineId (mr_contents read)
            | MachineIdentityComponentType.ProductUuid => normalizeProductUuid (mr_contents read)
            end in
          match normalized with
          | None => (MachineIdentityComponentStatus.Invalid, out)
          | Some value =>
              (MachineIdentityComponentStatus.Available,
               out ++ [mkNormalized (componentName type) value])
          end
      end
  end.

(** [std::sort] by [left.type < right.type]. *)
Fixpoint insertByType (c : NormalizedComponent) (l : list NormalizedComponent)
  : list NormalizedComponent :=
  match l with
  | [] => [c]
  | d :: l' => if String.ltb (nc_type d) (nc_type c) then d :: insertByType c l' else c :: l
  end.
Definition sortByType (l : list NormalizedComponent) : list NormalizedComponent :=
  fold_right insertByType [] l.

Section Collect.
Context {C : CryptoApi}.

Definition componentInput (component : NormalizedComponent) : bytes :=
  let component_input := appendField [] (string_bytes kComponentHashDomain) in
  let component_input := appendField component_input (string_bytes (nc_type component)) in
  appendField component_input (nc_value component).

(** The loop over the components; [None] is a failed hash. *)
Fixpoint appendComponents (transcript : bytes) (normalized : list NormalizedComponent)
  : option bytes :=
  match normalized with
  | [] => Some transcript
  | component :: normalized' =>
      match cr_sha256 (componentInput component) with
      | Err _ => None
      | Ok component_digest =>
          let transcript := appendField transcript (string_bytes (nc_type component)) in
          let transcript := appendU32 transcript (zlen component_digest) in
          appendComponents (transcript ++ component_digest) normalized'
      end
  end.

Definition identityTranscript (normalized : list NormalizedComponent) : option bytes :=
  let transcript := appendField [] (string_bytes kHashDomain) in
  let transcript := appendU32 transcript (zlen normalized) in
  appendComponents transcript normalized.

Definition unavailable (required : bool) (status : ComponentStatus) : bool :=
  required && negb (bool_decide (status = MachineIdentityComponentStatus.Available)).

(** The two [readComponent] calls in the initializer of [components]. *)
Definition readComponents (fs : FileSystem) (config : LinuxMachineIdentityConfig)
    (read_file : option ReadFunction)
  : ComponentStatus * ComponentStatus * list NormalizedComponent :=
  let read_file := match read_file with Some f => f | None => fun path => Some (readFile fs path) end in
  let '(status0, normalized) :=
    readComponent read_file (mc_machine_id_path config) MachineIdentityComponentType.MachineId [] in
  let '(status1, normalized) :=
    readComponent read_file (mc_product_uuid_path config) MachineIdentityComponentType.ProductUuid
      normalized in
  (status0, status1, normalized).

(** The error carries the component statuses, as in the source. *)
Definition collectLinuxMachineIdentity (fs : FileSystem) (config : LinuxMachineIdentityConfig)
    (read_file : option ReadFunction)
  : result (ErrorCode * MachineIdentity) MachineIdentity :=
  let '(status0, status1, normalized) := readComponents fs config read_file in
  let identity exact_id := mkMachineIdentity exact_id
    [mkComponent MachineIdentityComponentType.MachineId status0;
     mkComponent MachineIdentityComponentType.ProductUuid status1] in
  if unavailable (mc_require_machine_id config) status0
     || unavailable (mc_require_product_uuid config) status1
  then Err (ErrorCode.MachineIdentityUnavailable, identity "")
  else if zlen normalized =? 0
  then Err (ErrorCode.MachineIdentityUnavailable, identity "")
  else
  let normalized := sortByType normalized in
  match identityTranscript normalized with
  | None => Err (ErrorCode.InternalError, identity "")
  | Some transcript =>
      match cr_sha256 transcript with
      | Err _ => Err (ErrorCode.InternalError, identity "")
      | Ok digest => Ok (identity (hexDigest digest))
      end
  end.
End Collect.

(** ** Normalization *)

Lemma trimFront_spaces a s : forallb isAsciiSpace a = true → trimFront (a ++ s) = trimFront s.
Proof.
  induction a as [|c a IH]; [done|]. cbn. intros [-> Ha]%andb_true_iff. auto.
Qed.

Lemma trimFront_all s : forallb isAsciiSpace s = true → trimFront s = [].
Proof. intros H. rewrite <- (app_nil_r s). by rewrite trimFront_spaces. Qed.

Lemma trimFront_app s b :
  forallb isAsciiSpace s = false → trimFront (s ++ b) = trimFront s ++ b.
Proof.
  induction s as [|c s IH]; [done|]. cbn. by destruct (isAsciiSpace c).
Qed.

Lemma forallb_rev {A} (f : A → bool) l : forallb f (rev l) = forallb f l.
Proof.
  induction l as [|x l IH]; [done|]. cbn. rewrite forallb_app, IH. cbn.
  rewrite andb_true_r. apply andb_comm.
Qed.

Lemma trimBack_spaces s b : forallb isAsciiSpace b = true → trimBack (s ++ b) = trimBack s.
Proof.
  intros Hb. unfold trimBack. rewrite rev_app_distr, trimFront_spaces; [done|].
  by rewrite forallb_rev.
Qed.

(** White space around a value does not matter. *)
Lemma trimAscii_padded a s b :
  forallb isAsciiSpace a = true → forallb isAsciiSpace b = true →
  trimAscii (a ++ s ++ b) = trimAscii s.
Proof.
  intros Ha Hb. unfold trimAscii. rewrite trimFront_spaces by done.
  destruct (forallb isAsciiSpace s) eqn:Es.
  - rewrite !trimFront_all; [done|done|]. by rewrite forallb_app, Es.
  - rewrite trimFront_app by done. by apply trimBack_spaces.
Qed.

Lemma asciiLower_space c : isAsciiSpace (asciiLower c) = isAsciiSpace c.
Proof.
  unfold asciiLower. destruct (_ && _) eqn:E; [|done]. reflect_bools. unfold isAsciiSpace.
  by rewrite !(proj2 (Z.eqb_neq _ _)) by lia.
Qed.

Lemma asciiLower_hex c : isAsciiHex (asciiLower c) = isAsciiHex c.
Proof.
  unfold asciiLower. destruct ((65 <=? c) && (c <=? 70)) eqn:E; [|done].
  unfold isAsciiHex. rewrite E, orb_true_r. reflect_bools.
  rewrite (proj2 (Z.leb_le 97 _)), (proj2 (Z.leb_le _ 102)) by lia. by rewrite orb_true_r.
Qed.

Lemma asciiLower_idem c : asciiLower (asciiLower c) = asciiLower c.
Proof.
  unfold asciiLower. destruct ((65 <=? c) && (c <=? 70)) eqn:E; [|by rewrite E]. reflect_bools.
  destruct (Z.leb_spec (c + (97 - 65)) 70); [lia|]. by rewrite andb_false_r.
Qed.

Lemma asciiLower_hyphen c : (asciiLower c =? 45) = (c =? 45).
Proof.
  unfold asciiLower. destruct (_ && _) eqn:E; [|done]. reflect_bools.
  by rewrite !(proj2 (Z.eqb_neq _ _)) by lia.
Qed.

Lemma trimFront_lower s : trimFront (map asciiLower s) = map asciiLower (trimFront s).
Proof.
  induction s as [|c s IH]; [done|]. cbn. rewrite asciiLower_space. by destruct (isAsciiSpace c).
Qed.

Lemma trimAscii_lower s : trimAscii (map asciiLower s) = map asciiLower (trimAscii s).
Proof.
  unfold trimAscii, trimBack. by rewrite trimFront_lower, <- map_rev, trimFront_lower, map_rev.
Qed.

Lemma zlen_map {A B} (f : A → B) l : zlen (map f l) = zlen l.
Proof. unfold zlen. by rewrite length_map. Qed.

Lemma uuidLoop_lower i s out : uuidLoop i (map asciiLower s) out = uuidLoop i s out.
Proof.
  revert i out. induction s as [|c s IH]; intros i out; [done|]. cbn [map uuidLoop].
  by rewrite asciiLower_hyphen, asciiLower_hex, asciiLower_idem, !IH.
Qed.

Definition normalize (type : ComponentType) (contents : bytes) : option bytes :=
  match type with
  | MachineIdentityComponentType.MachineId => normalizeMachineId contents
  | MachineIdentityComponentType.ProductUuid => normalizeProductUuid contents
  end.

Lemma normalize_padded type a s b :
  forallb isAsciiSpace a = true → forallb isAsciiSpace b = true →
  normalize type (a ++ s ++ b) = normalize type s.
Proof.
  intros Ha Hb. destruct type; cbn; unfold normalizeMachineId, normalizeProductUuid;
  by rewrite (trimAscii_padded a s b).
Qed.

Lemma normalize_lower type s : normalize type (map asciiLower s) = normalize type s.
Proof.
  destruct type; cbn; unfold normalizeMachineId, normalizeProductUuid;
    rewrite trimAscii_lower, zlen_map.
  - rewrite map_map. destruct (negb _); [done|]. cbn.
    replace (forallb isAsciiHex (map asciiLower (trimAscii s)))
      with (forallb isAsciiHex (trimAscii s)).
    + destruct (negb _); [done|]. f_equal. apply map_ext. intros. by rewrite asciiLower_idem.
    + induction (trimAscii s) as [|c l IH]; [done|]. cbn. by rewrite asciiLower_hex, IH.
  - by rewrite uuidLoop_lower.
Qed.

(** A lower-case hex digit. *)
Definition lowerHex (c : Z) : Prop := 48 <= c <= 57 ∨ 97 <= c <= 102.

Lemma asciiLower_lowerHex c : isAsciiHex c = true → lowerHex (asciiLower c).
Proof.
  unfold isAsciiHex, asciiLower, lowerHex. intros H.
  destruct ((65 <=? c) && (c <=? 70)) eqn:E; [reflect_bools; lia|].
  rewrite orb_false_r in H. apply orb_true_iff in H as [H|H]; reflect_bools; lia.
Qed.

Lemma map_lowerHex s : forallb isAsciiHex s = true → Forall lowerHex (map asciiLower s).
Proof.
  induction s as [|c s IH]; cbn; [constructor|]. intros [Hc Hs]%andb_true_iff.
  constructor; auto using asciiLower_lowerHex.
Qed.

(** Positions of a UUID that hold digits. *)
Fixpoint digitsFrom (i : Z) (n : nat) : nat :=
  match n with
  | O => 0
  | S n' => (if existsb (Z.eqb i) hyphens then 0 else 1) + digitsFrom (i + 1) n'
  end.

Lemma uuidLoop_shape i s out v :
  uuidLoop i s out = Some v → Forall lowerHex out →
  length v = (length out + digitsFrom i (length s))%nat ∧ Forall lowerHex v.
Proof.
  revert i out. induction s as [|c s IH]; intros i out; cbn [uuidLoop digitsFrom length].
  - intros [= <-] Ho. split; [lia|done].
  - destruct (existsb _ _).
    + destruct (negb _); [done|]. apply IH.
    + destruct (isAsciiHex c) eqn:Hc; [|done]. cbn [negb]. intros Hu Ho.
      apply IH in Hu as [Hl Hf].
      * rewrite length_app in Hl. cbn in Hl. split; [lia|done].
      * apply Forall_app. split; [done|]. constructor; [by apply asciiLower_lowerHex|done].
Qed.

Lemma normalize_shape type s v : normalize type s = Some v → zlen v = 32 ∧ Forall lowerHex v.
Proof.
  destruct type; cbn; unfold normalizeMachineId, normalizeProductUuid.
  - destruct (_ || _) eqn:E; [done|]. reflect_bools. intros [= <-]. rewrite zlen_map.
    split; [done|by apply map_lowerHex].
  - destruct (Z.eqb_spec (zlen (trimAscii s)) 36) as [Hl|]; [|done]. cbn [negb]. intros Hu.
    apply uuidLoop_shape in Hu as [Hv Hf]; [|constructor]. split; [|done].
    unfold zlen in *. replace (length (trimAscii s)) with 36%nat in Hv by lia.
    rewrite Hv. reflexivity.
Qed.

Lemma lowerHex_digit c : lowerHex c → isAsciiHex c = true ∧ asciiLower c = c ∧ isAsciiSpace c = false.
Proof.
  unfold lowerHex, isAsciiHex, asciiLower, isAsciiSpace. intros H.
  rewrite !(proj2 (Z.eqb_neq _ _)) by lia. split_and!; [|by destruct (Z.leb_spec 65 c), (Z.leb_spec c 70); cbn; lia|done].
  destruct H; [rewrite (proj2 (Z.leb_le 48 c)), (proj2 (Z.leb_le c 57)) by lia; done|].
  rewrite (proj2 (Z.leb_le 97 c)), (proj2 (Z.leb_le c 102)) by lia. by rewrite orb_true_r.
Qed.

Lemma trimFront_none s : Forall (fun c => isAsciiSpace c = false) s → trimFront s = s.
Proof. destruct 1 as [|c s Hc _]; [done|]. cbn. by rewrite Hc. Qed.

Lemma normalizeMachineId_idem v :
  zlen v = 32 → Forall lowerHex v → normalizeMachineId v = Some v.
Proof.
  intros Hl Hv. unfold normalizeMachineId.
  assert (trimAscii v = v) as ->.
  { assert (Forall (fun c => isAsciiSpace c = false) v) as Hs
      by (eapply Forall_impl; [exact Hv|]; by intros c (_ & _ & ?)%lowerHex_digit).
    unfold trimAscii, trimBack. rewrite (trimFront_none v) by done.
    rewrite trimFront_none by (by apply Forall_rev). apply rev_involutive. }
  rewrite Hl. cbn [Z.eqb Pos.eqb negb orb].
  assert (forallb isAsciiHex v = true ∧ map asciiLower v = v) as [-> ->]; [|done].
  clear Hl. induction Hv as [|c v (Hc & Hlow & _)%lowerHex_digit _ [IH1 IH2]]; [done|]. cbn.
  by rewrite Hc, IH1, Hlow, IH2.
Qed.

(** Normalization is canonical: white space around a component and the
    case of its digits do not change the result, a result is 32 lower-case hex
    digits, and normalizing it again gives it back. *)
Theorem normalize_canonical type a s b :
  forallb isAsciiSpace a = true → forallb isAsciiSpace b = true →
  normalize type (a ++ map asciiLower s ++ b) = normalize type s
  ∧ ∀ v, normalize type s = Some v →
         zlen v = 32 ∧ Forall lowerHex v ∧ normalizeMachineId v = Some v.
Proof.
  intros Ha Hb. rewrite normalize_padded, normalize_lower by done. split; [done|].
  intros v Hv. destruct (normalize_shape _ _ _ Hv) as [Hl Hf].
  split_and!; try done. by apply normalizeMachineId_idem.
Qed.

Lemma normalize_canonical_witness :
  normalize MachineIdentityComponentType.ProductUuid
    ([32; 9] ++ map asciiLower (string_bytes "4C4C4544-0042-3510-8052-B4C04F564433") ++ [10])
  = Some (string_bytes "4c4c454400423510" ++ string_bytes "8052b4c04f564433").
Proof.
  etransitivity; [apply (normalize_canonical MachineIdentityComponentType.ProductUuid);
                  reflexivity|].
  vm_compute. reflexivity.
Defined.

(** ** Hex digests *)

Definition hexVal (c : Ascii.ascii) : Z :=
  let b := char_byte c in if b <? 58 then b - 48 else b - 87.

Lemma hexVal_digit n : 0 <= n < 16 → hexVal (hexDigit n) = n ∧ lowerHex (char_byte (hexDigit n)).
Proof.
  intros Hn. assert (∃ k, (k < 16)%nat ∧ n = Z.of_nat k) as (k & Hk & ->)
    by (exists (Z.to_nat n); lia).
  do 16 (destruct k as [|k]; [by split; vm_compute; [reflexivity|left + right; split; discriminate]|]).
  lia.
Qed.

Lemma nibbles b : in_width 8 b → 0 <= Z.shiftr b 4 < 16 ∧ 0 <= Z.land b 15 < 16
  ∧ b = 16 * Z.shiftr b 4 + Z.land b 15.
Proof.
  unfold in_width. intros Hb. change 15 with (Z.ones 4). rewrite Z.land_ones by lia.
  rewrite Z.shiftr_div_pow2 by lia. change (2 ^ 4) with 16.
  pose proof (Z.div_mod b 16). pose proof (Z.mod_pos_bound b 16). 
  pose proof (Z.div_pos b 16). pose proof (Z.div_lt_upper_bound b 16 16). lia.
Qed.

Lemma hexDigest_inj a b : octets a → octets b → hexDigest a = hexDigest b → a = b.
Proof.
  intros Ha. revert b. induction Ha as [|x a Hx _ IH]; intros b Hb;
    destruct Hb as [|y b Hy Hb]; cbn; try done.
  intros [= E1 E2 E3]. destruct (nibbles x Hx) as (Hx1 & Hx2 & ->), (nibbles y Hy) as (Hy1 & Hy2 & ->).
  apply (f_equal hexVal) in E1, E2.
  rewrite (proj1 (hexVal_digit _ Hx1)), (proj1 (hexVal_digit _ Hy1)) in E1.
  rewrite (proj1 (hexVal_digit _ Hx2)), (proj1 (hexVal_digit _ Hy2)) in E2.
  rewrite E1, E2. f_equal. by apply IH.
Qed.

Lemma hexDigest_size a :
  octets a → str_size (hexDigest a) = 2 * zlen a ∧ Forall lowerHex (string_bytes (hexDigest a)).
Proof.
  induction 1 as [|x a Hx _ [IH1 IH2]]; [done|]. cbn [hexDigest string_bytes].
  destruct (nibbles x Hx) as (Hx1 & Hx2 & _). unfold str_size in *. cbn [String.length].
  rewrite zlen_cons. split; [lia|].
  constructor; [by apply hexVal_digit|]. constructor; [by apply hexVal_digit|done].
Qed.

(** ** The identity transcript *)

Lemma IdentityBytes_appendU32 out v : appendU32 out v = out ++ be_split 4 (wrap 32 v).
Proof. unfold appendU32. cbn [fold_left]. by rewrite <- !app_assoc. Qed.

Lemma appendField_value out v :
  zlen v < 2 ^ 32 → appendField out v = out ++ be_split 4 (zlen v) ++ v.
Proof.
  intros Hv. unfold appendField. rewrite IdentityBytes_appendU32, <- app_assoc, wrap_small; [done|].
  split; [apply zlen_nonneg|done].
Qed.

(** A field is self-delimiting. *)
Lemma field_inj (v w r r' : bytes) :
  zlen v < 2 ^ 32 → zlen w < 2 ^ 32 →
  be_split 4 (zlen v) ++ v ++ r = be_split 4 (zlen w) ++ w ++ r' → v = w ∧ r = r'.
Proof.
  intros Hv Hw E. apply app_inj_len in E as [El E]; [|by rewrite !length_be_split].
  pose proof (zlen_nonneg v). pose proof (zlen_nonneg w).
  apply be_split_inj in El; [|change (8 * Z.of_nat 4) with 32; unfold in_width; lia..].
  apply app_inj_len in E; [done|]. unfold zlen in El. lia.
Qed.

Definition component_wf (c : NormalizedComponent) : Prop :=
  str_size (nc_type c) < 2 ^ 32 ∧ zlen (nc_value c) < 2 ^ 32.

Lemma componentInput_inj c d :
  component_wf c → component_wf d → componentInput c = componentInput d → c = d.
Proof.
  intros [Hc1 Hc2] [Hd1 Hd2]. unfold componentInput.
  rewrite !appendField_value by (done || by rewrite zlen_string_bytes). rewrite <- !app_assoc.
  cbn [app]. intros E%app_inv_head%app_inv_head.
  destruct (field_inj (string_bytes (nc_type c)) (string_bytes (nc_type d)) _ _
    ltac:(by rewrite zlen_string_bytes) ltac:(by rewrite zlen_string_bytes) E) as [Et E'].
  destruct (field_inj (nc_value c) (nc_value d) [] []) as [Ev _];
    [done|done|by rewrite !app_nil_r|].
  apply string_bytes_inj in Et. destruct c, d. cbn in *. congruence.
Qed.

Section CollectFacts.
Context {C : CryptoApi} {CL : CryptoLaws C}.

(** Two different inputs with the same digest. *)
Definition sha256_collision : Prop :=
  ∃ x y d, x ≠ y ∧ cr_sha256 x = Ok d ∧ cr_sha256 y = Ok d.

Lemma sha256_equal x y d :
  cr_sha256 x = Ok d → cr_sha256 y = Ok d → x = y ∨ sha256_collision.
Proof.
  intros Hx Hy. destruct (decide (x = y)) as [|Hn]; [by left|]. right. by exists x, y, d.
Qed.

(** The encoding of a list of components after the header. *)
Fixpoint encodeComponents (l : list NormalizedComponent) : option bytes :=
  match l with
  | [] => Some []
  | c :: l' =>
      match cr_sha256 (componentInput c) with
      | Err _ => None
      | Ok d =>
          e ← encodeComponents l';
          Some (be_split 4 (zlen (string_bytes (nc_type c))) ++ string_bytes (nc_type c)
                ++ be_split 4 (zlen d) ++ d ++ e)
      end
  end.

Lemma appendComponents_encode l t :
  Forall component_wf l →
  appendComponents t l = (e ← encodeComponents l; Some (t ++ e)).
Proof.
  intros Hl. revert t.
  induction Hl as [|c l [Hc _] _ IH]; intros t; cbn [appendComponents encodeComponents].
  - cbn. by rewrite app_nil_r.
  - destruct (cr_sha256 (componentInput c)) as [d|] eqn:Hd; [|done].
    rewrite IH, appendField_value, IdentityBytes_appendU32 by (by rewrite zlen_string_bytes).
    apply sha256_array in Hd as [Hz _]. rewrite wrap_small by (rewrite Hz; unfold in_width, kSha256Size; lia).
    destruct (encodeComponents l) as [e|]; [|done]. cbn. by rewrite <- !app_assoc.
Qed.

Lemma encodeComponents_inj l l' e :
  Forall component_wf l → Forall component_wf l' → length l = length l' →
  encodeComponents l = Some e → encodeComponents l' = Some e → l = l' ∨ sha256_collision.
Proof.
  intros Hl. revert l' e. induction Hl as [|c l Hc _ IH]; intros l' e Hl' Hn;
    destruct Hl' as [|c' l' Hc' Hl']; try done; [by left|].
  cbn [encodeComponents]. destruct (cr_sha256 (componentInput c)) as [d|] eqn:Hd; [|done].
  destruct (cr_sha256 (componentInput c')) as [d'|] eqn:Hd'; [|done].
  intros (f & Hf & He)%bind_Some (f' & Hf' & E)%bind_Some.
  rewrite <- He in E. apply (inj Some) in E. clear He.
  pose proof (sha256_array _ _ Hd) as [Hz _]. pose proof (sha256_array _ _ Hd') as [Hz' _].
  apply field_inj in E as [_ E];
    [|rewrite zlen_string_bytes; by apply Hc'|rewrite zlen_string_bytes; by apply Hc].
  apply field_inj in E as [-> ->]; [|by rewrite Hz'|by rewrite Hz].
  destruct (sha256_equal _ _ _ Hd Hd') as [E|]; [|by right].
  apply componentInput_inj in E as ->; [|done|done].
  destruct (IH l' f Hl' ltac:(cbn in Hn; lia) Hf Hf') as [->|]; [by left|by right].
Qed.

Lemma identityTranscript_inj l l' t :
  Forall component_wf l → Forall component_wf l' → zlen l < 2 ^ 32 → zlen l' < 2 ^ 32 →
  identityTranscript l = Some t → identityTranscript l' = Some t → l = l' ∨ sha256_collision.
Proof.
  intros Hl Hl' Hn Hn'. unfold identityTranscript.
  rewrite !appendComponents_encode by done.
  intros (e & He & Ht)%bind_Some (e' & He' & Ht')%bind_Some.
  rewrite <- Ht' in Ht. apply (inj Some) in Ht as E. rewrite !IdentityBytes_appendU32, <- !app_assoc in E.
  apply app_inv_head, app_inj_len in E as [E ->]; [|by rewrite !length_be_split].
  rewrite !wrap_small in E by (split; [apply zlen_nonneg|done]).
  apply be_split_inj in E;
    [|change (8 * Z.of_nat 4) with 32; split; [apply zlen_nonneg|done]..].
  eapply encodeComponents_inj; try done. unfold zlen in E. lia.
Qed.

(** ** Collection *)

(** What the two component reads can leave in [normalized]. *)
Lemma readComponents_shape fs config rd s0 s1 l :
  readComponents fs config rd = (s0, s1, l) →
  ∃ v0 v1, l = (if bool_decide (s0 = MachineIdentityComponentStatus.Available)
                then [mkNormalized "machine-id" v0] else [])
               ++ (if bool_decide (s1 = MachineIdentityComponentStatus.Available)
                   then [mkNormalized "product-uuid" v1] else [])
           ∧ zlen v0 = 32 ∧ zlen v1 = 32.
Proof.
  unfold readComponents. set (reader := match rd with Some f => f | None => _ end).
  assert (∀ path type out s out', readComponent reader path type out = (s, out') →
    ∃ v, out' = out ++ (if bool_decide (s = MachineIdentityComponentStatus.Available)
                        then [mkNormalized (componentName type) v] else []) ∧ zlen v = 32) as Hc.
  { intros path type out s out'. unfold readComponent.
    destruct (reader path) as [r|]; [|intros [= <- <-]; exists (be_split 32 0); by rewrite app_nil_r].
    destruct (mr_status r); try (intros [= <- <-]; exists (be_split 32 0); by rewrite app_nil_r).
    change (match type with MachineIdentityComponentType.MachineId => _ | _ => _ end)
      with (normalize type (mr_contents r)).
    destruct (normalize type (mr_contents r)) as [v|] eqn:E.
    - intros [= <- <-]. exists v. split; [done|]. by apply normalize_shape in E as [? _].
    - intros [= <- <-]. exists (be_split 32 0). by rewrite app_nil_r. }
  destruct (readComponent reader (mc_machine_id_path config) _ []) as [t0 l0] eqn:E0.
  destruct (readComponent reader (mc_product_uuid_path config) _ l0) as [t1 l1] eqn:E1.
  intros [= <- <- <-]. apply Hc in E0 as (v0 & -> & H0). apply Hc in E1 as (v1 & -> & H1).
  by exists v0, v1.
Qed.

Definition componentsOf fs config rd : list NormalizedComponent := (readComponents fs config rd).2.

Lemma componentsOf_sorted fs config rd :
  sortByType (componentsOf fs config rd) = componentsOf fs config rd
  ∧ Forall component_wf (componentsOf fs config rd) ∧ zlen (componentsOf fs config rd) < 2 ^ 32.
Proof.
  unfold componentsOf. destruct (readComponents fs config rd) as [[s0 s1] l] eqn:E. cbn.
  apply readComponents_shape in E as (v0 & v1 & -> & H0 & H1).
  assert (component_wf (mkNormalized "machine-id" v0)) by (split; cbn; [done|lia]).
  assert (component_wf (mkNormalized "product-uuid" v1)) by (split; cbn; [done|lia]).
  do 2 case_bool_decide; cbn; (split; [done|]); (split; [|done]);
    rewrite ?Forall_cons; auto using Forall_nil_2.
Qed.

Lemma collect_Ok fs config rd i :
  collectLinuxMachineIdentity fs config rd = Ok i →
  ∃ t d, identityTranscript (componentsOf fs config rd) = Some t ∧ cr_sha256 t = Ok d
         ∧ mi_exact_id i = hexDigest d.
Proof.
  destruct (componentsOf_sorted fs config rd) as [Hs _]. revert Hs.
  unfold collectLinuxMachineIdentity, componentsOf.
  destruct (readComponents fs config rd) as [[s0 s1] l]. cbn [snd]. intros Hs.
  destruct (_ || _); [done|]. destruct (_ =? 0); [done|]. rewrite Hs.
  destruct (identityTranscript l) as [t|]; [|done].
  destruct (cr_sha256 t) as [d|] eqn:Hd; [|done]. intros [= <-]. by exists t, d.
Qed.

(** The machine identity identifies: two collections (from any files, with
    any configuration) that give the same exact id read the same normalized
    components, unless SHA-256 has a collision. *)
Theorem same_identity_same_components fs config rd i fs' config' rd' i' :
  collectLinuxMachineIdentity fs config rd = Ok i →
  collectLinuxMachineIdentity fs' config' rd' = Ok i' →
  mi_exact_id i = mi_exact_id i' →
  componentsOf fs config rd = componentsOf fs' config' rd' ∨ sha256_collision.
Proof.
  intros (t & d & Ht & Hd & Hi)%collect_Ok (t' & d' & Ht' & Hd' & Hi')%collect_Ok E.
  rewrite Hi, Hi' in E. apply hexDigest_inj in E as <-;
    [|by apply (sha256_array _ _ Hd)|by apply (sha256_array _ _ Hd')].
  destruct (sha256_equal _ _ _ Hd Hd') as [<-|]; [|by right].
  destruct (componentsOf_sorted fs config rd) as (_ & Hw & Hn).
  destruct (componentsOf_sorted fs' config' rd') as (_ & Hw' & Hn').
  by apply (identityTranscript_inj _ _ t).
Qed.

Lemma encodeComponents_available l : CryptoAvailable C → is_Some (encodeComponents l).
Proof.
  intros CA. induction l as [|c l [e IH]]; cbn [encodeComponents]; [eauto|].
  destruct (proj1 (is_ok_true _) (sha256_available (componentInput c))) as [d ->].
  rewrite IH. cbn. eauto.
Qed.

(** Collection succeeds exactly when every required component is available
    and at least one component is; the exact id is then 64 lower-case hex
    digits, and otherwise it is empty and the statuses say what is missing. *)
Theorem collect_outcome fs config rd :
  CryptoAvailable C →
  let '(s0, s1, l) := readComponents fs config rd in
  let missing := unavailable (mc_require_machine_id config) s0
                 || unavailable (mc_require_product_uuid config) s1
                 || (zlen l =? 0) in
  match collectLinuxMachineIdentity fs config rd with
  | Ok i => missing = false ∧ map mi_status (mi_components i) = [s0; s1]
            ∧ str_size (mi_exact_id i) = 64 ∧ Forall lowerHex (string_bytes (mi_exact_id i))
  | Err (e, i) => missing = true ∧ e = ErrorCode.MachineIdentityUnavailable
                  ∧ mi_exact_id i = "" ∧ map mi_status (mi_components i) = [s0; s1]
  end.
Proof.
  intros CA. pose proof (componentsOf_sorted fs config rd) as (Hs & Hw & _). revert Hs Hw.
  unfold collectLinuxMachineIdentity, componentsOf.
  destruct (readComponents fs config rd) as [[s0 s1] l]. cbn [snd]. intros Hs Hw.
  destruct (_ || unavailable _ s1); cbn [orb]; [done|]. destruct (_ =? 0); [done|]. rewrite Hs.
  unfold identityTranscript. rewrite appendComponents_encode by done.
  destruct (encodeComponents_available l CA) as [e ->]. cbn [mbind option_bind].
  match goal with |- context [cr_sha256 ?t] =>
    destruct (proj1 (is_ok_true _) (sha256_available t)) as [d Hd]; rewrite Hd end.
  destruct (sha256_array _ _ Hd) as [Hz Ho]. destruct (hexDigest_size d Ho) as [Hsz Hhex].
  cbn [mi_exact_id mi_components]. rewrite Hsz, Hz. done.
Qed.
End CollectFacts.

(** ** A concrete machine *)

Section Witnesses.
#[local] Existing Instance toy_crypto.

Definition sample_files : FileSystem := fun path =>
  if String.eqb path "/etc/machine-id"
  then OpenStream (string_bytes "0123456789abcdef0123456789ABCDEF" ++ [10]) false
  else OpenError true.

Definition sample_identity : MachineIdentity := Eval vm_compute in
  match collectLinuxMachineIdentity sample_files defaultMachineIdentityConfig None with
  | Ok i => i | Err (_, i) => i
  end.

Lemma sample_collected :
  collectLinuxMachineIdentity sample_files defaultMachineIdentityConfig None = Ok sample_identity.
Proof. vm_compute. reflexivity. Qed.

Lemma same_identity_same_components_witness :
  componentsOf sample_files defaultMachineIdentityConfig None
  = [mkNormalized "machine-id" (string_bytes "0123456789abcdef0123456789abcdef")]
  ∧ (componentsOf sample_files defaultMachineIdentityConfig None
     = componentsOf sample_files defaultMachineIdentityConfig None ∨ sha256_collision).
Proof.
  split; [vm_compute; reflexivity|].
  apply (same_identity_same_components _ _ _ _ _ _ _ _ sample_collected sample_collected eq_refl).
Defined.

Lemma collect_outcome_witness :
  str_size (mi_exact_id sample_identity) = 64
  ∧ Forall lowerHex (string_bytes (mi_exact_id sample_identity)).
Proof.
  pose proof (collect_outcome sample_files defaultMachineIdentityConfig None _) as H.
  rewrite sample_collected in H.
  destruct (readComponents sample_files defaultMachineIdentityConfig None) as [[s0 s1] l].
  apply H.
Defined.
End Witnesses.
