(* ===== verification/Handshake.v ===== *)
(** * Handshake: the two handshake state machines

    Models [src/ya_license_protocol/{include/.../handshake.h,src/handshake.cpp}]:
    [ClientHandshake] and [ServerHandshake], every public operation with its
    effect on every member.  An operation that draws randomness takes the
    generator state; an operation that decodes a message is an [exec], because
    the decoders are.

    Theorems: the state invariants hold along every sequence of calls; an
    honest run establishes both sides with complementary keys; a client that
    gets established has a signature of a trusted key on its own view of the
    negotiation, so (if signatures cannot be forged) the service has the same
    view and the version was not downgraded; the service gets established only
    by a confirmation under the keys it derived. *)

From S2P Require Import Prelude Frame CryptoApi Crypto ToySsl KeySchedule RecordLayer FlatBuf.
From S2P Require Import ToyBuf Messages.

(** ** [handshake.h] *)

Module HandshakeError.
Inductive HandshakeError :=
| InvalidState
| InvalidMessage
| UnsupportedVersion
| UnknownServiceKey
| InvalidServiceSignature
| KeyExchangeFailed
| InvalidFinished
| InternalError.
End HandshakeError.
Abbreviation HandshakeError := HandshakeError.HandshakeError.

Module HandshakeState.
Inductive HandshakeState := Initial | HelloSent | AwaitingFinished | Established | Failed.
End HandshakeState.
Abbreviation HandshakeState := HandshakeState.HandshakeState.

#[global] Instance HandshakeState_eq_dec : EqDecision HandshakeState.
Proof. solve_decision. Defined.

Record ClientHandshake := mkClientHandshake {
  hc_trusted_keys : gmap string bytes;
  hc_sdk_version : string;
  hc_request_id : Z;
  hc_min_version : Z;
  hc_max_version : Z;
  hc_selected_version : Z;
  hc_nonce : bytes;
  hc_ephemeral : KeyPair;
  hc_writer : option RecordWriter;
  hc_reader : option RecordReader;
  hc_state : HandshakeState;
}.

Record ServerHandshake := mkServerHandshake {
  hs_service_key_id : string;
  hs_identity_private_key : bytes;
  hs_min_version : Z;
  hs_max_version : Z;
  hs_selected_version : Z;
  hs_request_id : Z;
  hs_transcript_hash : bytes;
  hs_writer : option RecordWriter;
  hs_reader : option RecordReader;
  hs_state : HandshakeState;
}.

(** ** [handshake.cpp] *)

Definition recordKey (key : DirectionalKey) : RecordKey :=
  {| rk_key := dk_key key; rk_nonce_salt := dk_nonce_salt key |}.

Definition transcriptFor (client : ClientHelloMessage) (server : ServerHelloMessage)
  : HandshakeTranscript :=
  {| ht_min_version := ch_min_version client;
     ht_max_version := ch_max_version client;
     ht_selected_version := sh_selected_version server;
     ht_client_nonce := ch_nonce client;
     ht_server_nonce := sh_nonce server;
     ht_client_public_key := ch_public_key client;
     ht_server_public_key := sh_public_key server;
     ht_service_key_id := sh_service_key_id server |}.

Definition newClientHandshake (trusted_keys : gmap string bytes) (sdk_version : string)
    (request_id min_version max_version : Z) : ClientHandshake :=
  {| hc_trusted_keys := trusted_keys; hc_sdk_version := sdk_version;
     hc_request_id := request_id; hc_min_version := min_version; hc_max_version := max_version;
     hc_selected_version := 0; hc_nonce := zeroed kKeySize;
     hc_ephemeral := mkKeyPair (zeroed kKeySize) (zeroed kKeySize);
     hc_writer := None; hc_reader := None; hc_state := HandshakeState.Initial |}.

Definition client_fail (c : ClientHandshake) : ClientHandshake :=
  {| hc_trusted_keys := hc_trusted_keys c; hc_sdk_version := hc_sdk_version c;
     hc_request_id := hc_request_id c; hc_min_version := hc_min_version c;
     hc_max_version := hc_max_version c; hc_selected_version := hc_selected_version c;
     hc_nonce := hc_nonce c;
     hc_ephemeral := mkKeyPair (cleanse (kp_private (hc_ephemeral c))) (kp_public (hc_ephemeral c));
     hc_writer := None; hc_reader := None; hc_state := HandshakeState.Failed |}.

(** Assignments to the members that [start] writes. *)
Definition set_hello (c : ClientHandshake) (nonce : bytes) (ephemeral : KeyPair)
    (state : HandshakeState) : ClientHandshake :=
  {| hc_trusted_keys := hc_trusted_keys c; hc_sdk_version := hc_sdk_version c;
     hc_request_id := hc_request_id c; hc_min_version := hc_min_version c;
     hc_max_version := hc_max_version c; hc_selected_version := hc_selected_version c;
     hc_nonce := nonce; hc_ephemeral := ephemeral;
     hc_writer := hc_writer c; hc_reader := hc_reader c; hc_state := state |}.

(** The members [handleServerHello] writes once the keys are derived. *)
Definition set_keys (c : ClientHandshake) (writer : RecordWriter) (reader : RecordReader)
    (selected_version : Z) (state : HandshakeState) : ClientHandshake :=
  {| hc_trusted_keys := hc_trusted_keys c; hc_sdk_version := hc_sdk_version c;
     hc_request_id := hc_request_id c; hc_min_version := hc_min_version c;
     hc_max_version := hc_max_version c; hc_selected_version := selected_version;
     hc_nonce := hc_nonce c;
     hc_ephemeral := mkKeyPair (cleanse (kp_private (hc_ephemeral c))) (kp_public (hc_ephemeral c));
     hc_writer := Some writer; hc_reader := Some reader; hc_state := state |}.

(** The [ClientHelloMessage] literal of [start] and of [handleServerHello]. *)
Definition clientHello (c : ClientHandshake) : ClientHelloMessage :=
  {| ch_request_id := hc_request_id c; ch_min_version := hc_min_version c;
     ch_max_version := hc_max_version c; ch_nonce := hc_nonce c;
     ch_public_key := kp_public (hc_ephemeral c); ch_sdk_version := hc_sdk_version c |}.

Definition newServerHandshake (service_key_id : string) (identity_private_key : bytes)
    (min_version max_version : Z) : ServerHandshake :=
  {| hs_service_key_id := service_key_id; hs_identity_private_key := identity_private_key;
     hs_min_version := min_version; hs_max_version := max_version;
     hs_selected_version := 0; hs_request_id := 0; hs_transcript_hash := zeroed kSha256Size;
     hs_writer := None; hs_reader := None; hs_state := HandshakeState.Initial |}.

Definition server_fail (s : ServerHandshake) : ServerHandshake :=
  {| hs_service_key_id := hs_service_key_id s;
     hs_identity_private_key := cleanse (hs_identity_private_key s);
     hs_min_version := hs_min_version s; hs_max_version := hs_max_version s;
     hs_selected_version := hs_selected_version s; hs_request_id := hs_request_id s;
     hs_transcript_hash := hs_transcript_hash s;
     hs_writer := None; hs_reader := None; hs_state := HandshakeState.Failed |}.

Definition set_reader (s : ServerHandshake) (reader : RecordReader) (state : HandshakeState)
  : ServerHandshake :=
  {| hs_service_key_id := hs_service_key_id s;
     hs_identity_private_key := hs_identity_private_key s;
     hs_min_version := hs_min_version s; hs_max_version := hs_max_version s;
     hs_selected_version := hs_selected_version s; hs_request_id := hs_request_id s;
     hs_transcript_hash := hs_transcript_hash s;
     hs_writer := hs_writer s; hs_reader := Some reader; hs_state := state |}.

Section Machines.
Context {C : CryptoApi} {P : ProtocolBuffers}.

Definition start (c : ClientHandshake) (g : cr_rng)
  : result HandshakeError bytes * ClientHandshake * cr_rng :=
  if negb (bool_decide (hc_state c = HandshakeState.Initial)) || (hc_request_id c =? 0)
     || (hc_min_version c =? 0) || (hc_max_version c <? hc_min_version c)
  then (Err HandshakeError.InvalidState, client_fail c, g)
  else
  match cr_randomBytes kKeySize g with
  | (Err _, g) => (Err HandshakeError.InternalError, client_fail c, g)
  | (Ok nonce, g) =>
      let c := set_hello c nonce (hc_ephemeral c) (hc_state c) in
      match cr_generateX25519KeyPair g with
      | (Err _, g) => (Err HandshakeError.KeyExchangeFailed, client_fail c, g)
      | (Ok key_pair, g) =>
          let c := set_hello c nonce key_pair (hc_state c) in
          match encodeClientHello (clientHello c) with
          | Err _ => (Err HandshakeError.InvalidMessage, client_fail c, g)
          | Ok encoded =>
              (Ok encoded, set_hello c nonce key_pair HandshakeState.HelloSent, g)
          end
      end
  end.

(** [shared ? deriveSessionKeys(...) : {.error = DerivationFailed}] *)
Definition sessionKeys (private_key public_key transcript_hash : bytes)
  : result CryptoError SessionKeys :=
  match cr_deriveX25519 private_key public_key with
  | Ok shared => deriveSessionKeys shared transcript_hash
  | Err _ => Err CryptoError.DerivationFailed
  end.

Definition handleServerHello (c : ClientHandshake) (message : bytes)
  : exec (result HandshakeError bytes * ClientHandshake) :=
  if negb (bool_decide (hc_state c = HandshakeState.HelloSent))
  then Done (Err HandshakeError.InvalidState, client_fail c)
  else
  server ← decodeServerHello message;
  match server with
  | Err _ => Done (Err HandshakeError.InvalidMessage, client_fail c)
  | Ok server =>
  if negb (sh_request_id server =? hc_request_id c)
  then Done (Err HandshakeError.InvalidMessage, client_fail c)
  else if (sh_selected_version server <? hc_min_version c)
          || (hc_max_version c <? sh_selected_version server)
  then Done (Err HandshakeError.UnsupportedVersion, client_fail c)
  else
  match hc_trusted_keys c !! sh_service_key_id server with
  | None => Done (Err HandshakeError.UnknownServiceKey, client_fail c)
  | Some trusted_key =>
  let transcript := transcriptFor (clientHello c) server in
  match encodeTranscript transcript, hashTranscript transcript with
  | Ok encoded_transcript, Ok transcript_hash =>
      match cr_verifyEd25519 trusted_key encoded_transcript (sh_signature server) with
      | Err _ => Done (Err HandshakeError.InvalidServiceSignature, client_fail c)
      | Ok _ =>
      match sessionKeys (kp_private (hc_ephemeral c)) (sh_public_key server) transcript_hash with
      | Err _ => Done (Err HandshakeError.KeyExchangeFailed, client_fail c)
      | Ok keys =>
          let writer := newRecordWriter (recordKey (sk_client_to_service keys)) in
          let reader := newRecordReader (recordKey (sk_service_to_client keys)) in
          let c := set_keys c writer reader (sh_selected_version server) (hc_state c) in
          match encodeClientFinished
                  {| cf_request_id := hc_request_id c;
                     cf_protocol_version := hc_selected_version c;
                     cf_transcript_hash := transcript_hash |} with
          | Err _ => Done (Err HandshakeError.InvalidMessage, client_fail c)
          | Ok finished =>
              match RecordWriter_seal writer finished with
              | (Err _, _) => Done (Err HandshakeError.InternalError, client_fail c)
              | (Ok encrypted, writer) =>
                  Done (Ok encrypted,
                        set_keys c writer reader (sh_selected_version server)
                          HandshakeState.Established)
              end
          end
      end
      end
  | _, _ => Done (Err HandshakeError.InvalidServiceSignature, client_fail c)
  end
  end
  end.

Definition client_seal (c : ClientHandshake) (plaintext : bytes)
  : result RecordError bytes * ClientHandshake :=
  match hc_state c, hc_writer c with
  | HandshakeState.Established, Some writer =>
      let '(r, writer) := RecordWriter_seal writer plaintext in
      (r, {| hc_trusted_keys := hc_trusted_keys c; hc_sdk_version := hc_sdk_version c;
             hc_request_id := hc_request_id c; hc_min_version := hc_min_version c;
             hc_max_version := hc_max_version c; hc_selected_version := hc_selected_version c;
             hc_nonce := hc_nonce c; hc_ephemeral := hc_ephemeral c;
             hc_writer := Some writer; hc_reader := hc_reader c; hc_state := hc_state c |})
  | _, _ => (Err RecordError.InvalidFrame, c)
  end.

Definition client_open (c : ClientHandshake) (frame : bytes)
  : result RecordError bytes * ClientHandshake :=
  match hc_state c, hc_reader c with
  | HandshakeState.Established, Some reader =>
      let '(r, reader) := RecordReader_open reader frame in
      (r, {| hc_trusted_keys := hc_trusted_keys c; hc_sdk_version := hc_sdk_version c;
             hc_request_id := hc_request_id c; hc_min_version := hc_min_version c;
             hc_max_version := hc_max_version c; hc_selected_version := hc_selected_version c;
             hc_nonce := hc_nonce c; hc_ephemeral := hc_ephemeral c;
             hc_writer := hc_writer c; hc_reader := Some reader; hc_state := hc_state c |})
  | _, _ => (Err RecordError.InvalidFrame, c)
  end.

Definition handleClientHello (s : ServerHandshake) (message : bytes) (g : cr_rng)
  : exec (result HandshakeError bytes * ServerHandshake * cr_rng) :=
  if negb (bool_decide (hs_state s = HandshakeState.Initial))
  then Done (Err HandshakeError.InvalidState, server_fail s, g)
  else
  client ← decodeClientHello message;
  match client with
  | Err _ => Done (Err HandshakeError.InvalidMessage, server_fail s, g)
  | Ok client =>
  let lowest := Z.max (hs_min_version s) (ch_min_version client) in
  let highest := Z.min (hs_max_version s) (ch_max_version client) in
  if highest <? lowest then Done (Err HandshakeError.UnsupportedVersion, server_fail s, g)
  else
  match cr_generateX25519KeyPair g with
  | (Err _, g) => Done (Err HandshakeError.InternalError, server_fail s, g)
  | (Ok ephemeral, g) =>
  match cr_randomBytes kKeySize g with
  | (Err _, g) => Done (Err HandshakeError.InternalError, server_fail s, g)
  | (Ok nonce, g) =>
  let server signature :=
    {| sh_request_id := ch_request_id client; sh_selected_version := highest;
       sh_nonce := nonce; sh_public_key := kp_public ephemeral;
       sh_service_key_id := hs_service_key_id s; sh_signature := signature |} in
  let transcript := transcriptFor client (server (zeroed kSignatureSize)) in
  match encodeTranscript transcript, hashTranscript transcript with
  | Ok encoded_transcript, Ok transcript_hash =>
      match cr_signEd25519 (hs_identity_private_key s) encoded_transcript with
      | Err _ => Done (Err HandshakeError.InternalError, server_fail s, g)
      | Ok signature =>
          let s := {| hs_service_key_id := hs_service_key_id s;
                      hs_identity_private_key := cleanse (hs_identity_private_key s);
                      hs_min_version := hs_min_version s; hs_max_version := hs_max_version s;
                      hs_selected_version := hs_selected_version s;
                      hs_request_id := hs_request_id s;
                      hs_transcript_hash := hs_transcript_hash s;
                      hs_writer := hs_writer s; hs_reader := hs_reader s;
                      hs_state := hs_state s |} in
          match encodeServerHello (server signature),
                sessionKeys (kp_private ephemeral) (ch_public_key client) transcript_hash with
          | Ok encoded_server, Ok keys =>
              Done (Ok encoded_server,
                {| hs_service_key_id := hs_service_key_id s;
                   hs_identity_private_key := hs_identity_private_key s;
                   hs_min_version := hs_min_version s; hs_max_version := hs_max_version s;
                   hs_selected_version := highest;
                   hs_request_id := ch_request_id client;
                   hs_transcript_hash := transcript_hash;
                   hs_writer := Some (newRecordWriter (recordKey (sk_service_to_client keys)));
                   hs_reader := Some (newRecordReader (recordKey (sk_client_to_service keys)));
                   hs_state := HandshakeState.AwaitingFinished |}, g)
          | _, _ => Done (Err HandshakeError.KeyExchangeFailed, server_fail s, g)
          end
      end
  | _, _ => Done (Err HandshakeError.InvalidMessage, server_fail s, g)
  end
  end
  end
  end.

Definition handleClientFinished (s : ServerHandshake) (encrypted_frame : bytes)
  : exec (result HandshakeError () * ServerHandshake) :=
  match hs_state s, hs_reader s with
  | HandshakeState.AwaitingFinished, Some reader =>
      match RecordReader_open reader encrypted_frame with
      | (Err _, reader) =>
          Done (Err HandshakeError.InvalidFinished, server_fail (set_reader s reader (hs_state s)))
      | (Ok plaintext, reader) =>
          let s := set_reader s reader (hs_state s) in
          finished ← decodeClientFinished plaintext;
          match finished with
          | Err _ => Done (Err HandshakeError.InvalidFinished, server_fail s)
          | Ok finished =>
              if negb (cf_request_id finished =? hs_request_id s)
                 || negb (cf_protocol_version finished =? hs_selected_version s)
                 || negb (bool_decide (cf_transcript_hash finished = hs_transcript_hash s))
              then Done (Err HandshakeError.InvalidFinished, server_fail s)
              else Done (Ok (), set_reader s reader HandshakeState.Established)
          end
      end
  | _, _ => Done (Err HandshakeError.InvalidState, server_fail s)
  end.

Definition server_seal (s : ServerHandshake) (plaintext : bytes)
  : result RecordError bytes * ServerHandshake :=
  match hs_state s, hs_writer s with
  | HandshakeState.Established, Some writer =>
      let '(r, writer) := RecordWriter_seal writer plaintext in
      (r, {| hs_service_key_id := hs_service_key_id s;
             hs_identity_private_key := hs_identity_private_key s;
             hs_min_version := hs_min_version s; hs_max_version := hs_max_version s;
             hs_selected_version := hs_selected_version s; hs_request_id := hs_request_id s;
             hs_transcript_hash := hs_transcript_hash s;
             hs_writer := Some writer; hs_reader := hs_reader s; hs_state := hs_state s |})
  | _, _ => (Err RecordError.InvalidFrame, s)
  end.

Definition server_open (s : ServerHandshake) (frame : bytes)
  : result RecordError bytes * ServerHandshake :=
  match hs_state s, hs_reader s with
  | HandshakeState.Established, Some reader =>
      let '(r, reader) := RecordReader_open reader frame in
      (r, set_reader s reader (hs_state s))
  | _, _ => (Err RecordError.InvalidFrame, s)
  end.
End Machines.

(** ** What a successful step has checked and done *)

Section Steps.
Context {C : CryptoApi} {P : ProtocolBuffers}.

Record started (c : ClientHandshake) (g : cr_rng) (hello : bytes) (c' : ClientHandshake)
    (g' : cr_rng) : Prop := mkStarted {
  st_state : hc_state c = HandshakeState.Initial;
  st_versions : hc_min_version c ≠ 0 ∧ hc_min_version c <= hc_max_version c;
  st_nonce : ∃ g1, cr_randomBytes kKeySize g = (Ok (hc_nonce c'), g1)
                   ∧ cr_generateX25519KeyPair g1 = (Ok (hc_ephemeral c'), g');
  st_client : c' = set_hello c (hc_nonce c') (hc_ephemeral c') HandshakeState.HelloSent;
  st_hello : encodeClientHello (clientHello c') = Ok hello;
}.

Lemma start_Ok c g hello c' g' : start c g = (Ok hello, c', g') → started c g hello c' g'.
Proof.
  unfold start. destruct (_ || _) eqn:E; [done|]. reflect_bools.
  destruct (cr_randomBytes kKeySize g) as [[nonce|] g1] eqn:E1; [|done].
  destruct (cr_generateX25519KeyPair g1) as [[kp|] g2] eqn:E2; [|done].
  destruct (encodeClientHello _) as [e|] eqn:E3; [|done].
  intros [= <- <- <-]. split; try done. cbn. eauto.
Qed.

Record accepted_server (c : ClientHandshake) (message finished : bytes) (c' : ClientHandshake)
    (server : ServerHelloMessage) (key hash : bytes) (keys : SessionKeys) : Prop := mkAccepted {
  as_state : hc_state c = HandshakeState.HelloSent;
  as_decoded : decodeServerHello message = Done (Ok server);
  as_request : sh_request_id server = hc_request_id c;
  as_version : hc_min_version c <= sh_selected_version server <= hc_max_version c;
  as_trusted : hc_trusted_keys c !! sh_service_key_id server = Some key;
  as_signed : ∃ e, encodeTranscript (transcriptFor (clientHello c) server) = Ok e
                   ∧ cr_verifyEd25519 key e (sh_signature server) = Ok ();
  as_hash : hashTranscript (transcriptFor (clientHello c) server) = Ok hash;
  as_keys : sessionKeys (kp_private (hc_ephemeral c)) (sh_public_key server) hash = Ok keys;
  as_finished : ∃ f w,
    encodeClientFinished (mkClientFinishedMessage (hc_request_id c) (sh_selected_version server) hash)
    = Ok f
    ∧ RecordWriter_seal (newRecordWriter (recordKey (sk_client_to_service keys))) f
      = (Ok finished, w)
    ∧ c' = set_keys c w (newRecordReader (recordKey (sk_service_to_client keys)))
             (sh_selected_version server) HandshakeState.Established;
}.

Lemma cleanse_idem bs : cleanse (cleanse bs) = cleanse bs.
Proof. unfold cleanse. by rewrite length_replicate. Qed.

Lemma handleServerHello_Ok c message finished c' :
  handleServerHello c message = Done (Ok finished, c') →
  ∃ server key hash keys, accepted_server c message finished c' server key hash keys.
Proof.
  unfold handleServerHello. destruct (negb _) eqn:E; [done|]. reflect_bools.
  intros ([server|] & Hd & H)%exec_bind_Done; [|done].
  destruct (negb _) eqn:E1 in H; [done|]. destruct (_ || _) eqn:E2 in H; [done|].
  destruct (_ !! _) as [key|] eqn:E3 in H; [|done].
  destruct (encodeTranscript _) as [e|] eqn:E4 in H; [|done].
  destruct (hashTranscript _) as [hash|] eqn:E5 in H; [|done].
  destruct (cr_verifyEd25519 _ _ _) as [[]|] eqn:E6 in H; [|done].
  destruct (sessionKeys _ _ _) as [keys|] eqn:E7 in H; [|done].
  cbn [set_keys hc_request_id hc_selected_version] in H.
  destruct (encodeClientFinished _) as [f|] eqn:E8 in H; [|done].
  destruct (RecordWriter_seal _ _) as [[enc|] w] eqn:E9 in H; [|done].
  injection H as <- <-. reflect_bools.
  exists server, key, hash, keys. split; try done; [eauto|].
  exists f, w. split_and!; try done. unfold set_keys. cbn -[cleanse]. by rewrite cleanse_idem.
Qed.

Record answered_client (s : ServerHandshake) (message : bytes) (g : cr_rng) (hello : bytes)
    (s' : ServerHandshake) (g' : cr_rng) (client : ClientHelloMessage)
    (server : ServerHelloMessage) (hash : bytes) (keys : SessionKeys) (ephemeral : KeyPair)
  : Prop := mkAnswered {
  an_state : hs_state s = HandshakeState.Initial;
  an_decoded : decodeClientHello message = Done (Ok client);
  an_version : sh_selected_version server = Z.min (hs_max_version s) (ch_max_version client)
    ∧ hs_min_version s <= sh_selected_version server
    ∧ ch_min_version client <= sh_selected_version server;
  an_request : sh_request_id server = ch_request_id client;
  an_key_id : sh_service_key_id server = hs_service_key_id s;
  an_random : ∃ g1, cr_generateX25519KeyPair g = (Ok ephemeral, g1)
                    ∧ cr_randomBytes kKeySize g1 = (Ok (sh_nonce server), g');
  an_public : sh_public_key server = kp_public ephemeral;
  an_signed : ∃ e, encodeTranscript (transcriptFor client server) = Ok e
                   ∧ cr_signEd25519 (hs_identity_private_key s) e = Ok (sh_signature server);
  an_hash : hashTranscript (transcriptFor client server) = Ok hash;
  an_hello : encodeServerHello server = Ok hello;
  an_keys : sessionKeys (kp_private ephemeral) (ch_public_key client) hash = Ok keys;
  an_server : s' =
    mkServerHandshake (hs_service_key_id s) (cleanse (hs_identity_private_key s))
      (hs_min_version s) (hs_max_version s) (sh_selected_version server) (ch_request_id client) hash
      (Some (newRecordWriter (recordKey (sk_service_to_client keys))))
      (Some (newRecordReader (recordKey (sk_client_to_service keys))))
      HandshakeState.AwaitingFinished;
}.

Lemma handleClientHello_Ok s message g hello s' g' :
  handleClientHello s message g = Done (Ok hello, s', g') →
  ∃ client server hash keys ephemeral,
    answered_client s message g hello s' g' client server hash keys ephemeral.
Proof.
  unfold handleClientHello. destruct (negb _) eqn:E; [done|]. reflect_bools.
  intros ([client|] & Hd & H)%exec_bind_Done; [|done].
  destruct (_ <? _) eqn:E1 in H; [done|].
  destruct (cr_generateX25519KeyPair g) as [[eph|] g1] eqn:E2 in H; [|done].
  destruct (cr_randomBytes kKeySize g1) as [[nonce|] g2] eqn:E3 in H; [|done].
  destruct (encodeTranscript _) as [e|] eqn:E4 in H; [|done].
  destruct (hashTranscript _) as [hash|] eqn:E5 in H; [|done].
  destruct (cr_signEd25519 _ _) as [sig|] eqn:E6 in H; [|done].
  destruct (encodeServerHello _) as [enc|] eqn:E7 in H; [|done].
  destruct (sessionKeys _ _ _) as [keys|] eqn:E8 in H; [|done].
  injection H as <- <- <-. reflect_bools.
  eexists client, _, hash, keys, eph. split; try exact E7; try done; cbn; try lia; eauto.
Qed.

Record confirmed_client (s : ServerHandshake) (frame : bytes) (s' : ServerHandshake)
    (plaintext : bytes) (reader reader' : RecordReader) : Prop := mkConfirmed {
  co_state : hs_state s = HandshakeState.AwaitingFinished;
  co_reader : hs_reader s = Some reader;
  co_opened : RecordReader_open reader frame = (Ok plaintext, reader');
  co_decoded : decodeClientFinished plaintext
    = Done (Ok (mkClientFinishedMessage (hs_request_id s) (hs_selected_version s)
                  (hs_transcript_hash s)));
  co_server : s' = set_reader s reader' HandshakeState.Established;
}.

Lemma handleClientFinished_Ok s frame s' :
  handleClientFinished s frame = Done (Ok (), s') →
  ∃ plaintext reader reader', confirmed_client s frame s' plaintext reader reader'.
Proof.
  unfold handleClientFinished. destruct (hs_state s) eqn:Es; try done.
  destruct (hs_reader s) as [reader|] eqn:Er; [|done].
  destruct (RecordReader_open reader frame) as [[p|] reader'] eqn:Eo; [|done].
  intros ([[r v h]|] & Hd & H)%exec_bind_Done; [|done]. cbn in H.
  destruct (_ || _) eqn:E in H; [done|]. injection H as <-. reflect_bools. subst.
  exists p, reader, reader'. by split.
Qed.
End Steps.

(** ** State invariants *)

Definition wiped (bs : bytes) : Prop := Forall (fun b => b = 0) bs.

Lemma wiped_cleanse bs : wiped (cleanse bs).
Proof. by apply Forall_replicate. Qed.

(** Key material is there exactly from the derivation on, the private keys are
    erased then and on failure, and a failed side never holds keys again. *)
Definition client_inv (c : ClientHandshake) : Prop :=
  match hc_state c with
  | HandshakeState.Initial | HandshakeState.HelloSent => hc_writer c = None ∧ hc_reader c = None
  | HandshakeState.AwaitingFinished => False
  | HandshakeState.Established =>
      (∃ w r, hc_writer c = Some w ∧ hc_reader c = Some r ∧ writer_wf w ∧ reader_wf r)
      ∧ hc_min_version c <= hc_selected_version c <= hc_max_version c
      ∧ wiped (kp_private (hc_ephemeral c))
  | HandshakeState.Failed =>
      hc_writer c = None ∧ hc_reader c = None ∧ wiped (kp_private (hc_ephemeral c))
  end.

Definition server_inv (s : ServerHandshake) : Prop :=
  match hs_state s with
  | HandshakeState.Initial => hs_writer s = None ∧ hs_reader s = None
  | HandshakeState.HelloSent => False
  | HandshakeState.AwaitingFinished | HandshakeState.Established =>
      (∃ w r, hs_writer s = Some w ∧ hs_reader s = Some r ∧ writer_wf w ∧ reader_wf r)
      ∧ hs_min_version s <= hs_selected_version s <= hs_max_version s
      ∧ wiped (hs_identity_private_key s)
  | HandshakeState.Failed =>
      hs_writer s = None ∧ hs_reader s = None ∧ wiped (hs_identity_private_key s)
  end.

Section Calls.
Context {C : CryptoApi} {P : ProtocolBuffers}.

(** One call that returns; the result does not matter here. *)
Inductive client_step : ClientHandshake → ClientHandshake → Prop :=
| CStart c g r c' g' : start c g = (r, c', g') → client_step c c'
| CServerHello c m r c' : handleServerHello c m = Done (r, c') → client_step c c'
| CSeal c p r c' : client_seal c p = (r, c') → client_step c c'
| COpen c f r c' : client_open c f = (r, c') → client_step c c'.

Inductive server_step : ServerHandshake → ServerHandshake → Prop :=
| SClientHello s m g r s' g' : handleClientHello s m g = Done (r, s', g') → server_step s s'
| SClientFinished s f r s' : handleClientFinished s f = Done (r, s') → server_step s s'
| SSeal s p r s' : server_seal s p = (r, s') → server_step s s'
| SOpen s f r s' : server_open s f = (r, s') → server_step s s'.

Lemma client_fail_inv c : client_inv (client_fail c).
Proof. split_and!; try done. apply wiped_cleanse. Qed.
Lemma server_fail_inv s : server_inv (server_fail s).
Proof. split_and!; try done. apply wiped_cleanse. Qed.

(** An error is always [fail()]. *)
Lemma start_Err c g e c' g' : start c g = (Err e, c', g') → ∃ c0, c' = client_fail c0.
Proof. unfold start. repeat split_match; intros [= <- <- <-]; eauto. Qed.

Lemma handleServerHello_Err c m e c' :
  handleServerHello c m = Done (Err e, c') → ∃ c0, c' = client_fail c0.
Proof.
  unfold handleServerHello. destruct (negb _); [intros [= <- <-]; eauto|].
  intros ([server|] & _ & H)%exec_bind_Done; revert H; repeat split_match;
    intros [= <- <-]; eauto.
Qed.

Lemma handleClientHello_Err s m g e s' g' :
  handleClientHello s m g = Done (Err e, s', g') → ∃ s0, s' = server_fail s0.
Proof.
  unfold handleClientHello. destruct (negb _); [intros [= <- <- <-]; eauto|].
  intros ([client|] & _ & H)%exec_bind_Done; revert H; repeat split_match;
    intros [= <- <- <-]; eauto.
Qed.

Lemma handleClientFinished_Err s f e s' :
  handleClientFinished s f = Done (Err e, s') → ∃ s0, s' = server_fail s0.
Proof.
  unfold handleClientFinished.
  destruct (hs_state s), (hs_reader s); try (intros [= <- <-]; eauto).
  destruct (RecordReader_open _ _) as [[p|] r']; [|intros [= <- <-]; eauto].
  intros ([fin|] & _ & H)%exec_bind_Done; revert H; repeat split_match; intros [= <- <-]; eauto.
Qed.

Context {CL : CryptoLaws C}.

Lemma sessionKeys_wf priv pub hash keys :
  sessionKeys priv pub hash = Ok keys →
  record_key_wf (recordKey (sk_client_to_service keys))
  ∧ record_key_wf (recordKey (sk_service_to_client keys)).
Proof.
  unfold sessionKeys. destruct (cr_deriveX25519 _ _); [|done].
  intros H. by apply (deriveSessionKeys_wf _ _ _ H).
Qed.

Lemma open_wf r f x r' : reader_wf r → RecordReader_open r f = (x, r') → reader_wf r'.
Proof.
  intros Hr. destruct x as [p|e]; intros Ho; [|by apply open_Err in Ho as ->].
  revert Ho. unfold RecordReader_open.
  destruct (Z.eqb_spec (rr_next_sequence r) UINT64_MAX); [done|].
  repeat split_match; intros [= <- <-]. by apply reader_wf_step.
Qed.

Lemma client_step_inv c c' : client_step c c' → client_inv c → client_inv c'.
Proof.
  intros Hs Hi. destruct Hs as [c g [h|e] c' g' Hs|c m [f|e] c' Hs|c p r c' Hs|c f r c' Hs].
  - apply start_Ok in Hs as [Hst _ _ -> _]. unfold client_inv in *. rewrite Hst in Hi. done.
  - apply start_Err in Hs as [c0 ->]. apply client_fail_inv.
  - apply handleServerHello_Ok in Hs as (server & key & hash & keys & []).
    destruct as_finished0 as (f' & w & _ & Hseal & ->).
    destruct (sessionKeys_wf _ _ _ _ as_keys0) as [Hk1 Hk2].
    split; [|split; [cbn; lia|apply wiped_cleanse]].
    eexists _, _. split_and!; [done..| |by apply new_reader_wf].
    eapply seal_wf; [|exact Hseal]. by apply new_writer_wf.
  - apply handleServerHello_Err in Hs as [c0 ->]. apply client_fail_inv.
  - unfold client_seal in Hs. destruct (hc_state c) eqn:Es; try by injection Hs as <- <-.
    destruct (hc_writer c) as [w|] eqn:Ew; [|by injection Hs as <- <-].
    destruct (RecordWriter_seal w p) as [r' w'] eqn:E. injection Hs as <- <-.
    unfold client_inv in *. rewrite Es in *. cbn.
    destruct Hi as ((w0 & r0 & H1 & H2 & H3 & H4) & Hv & Hw). split_and!; try done; try lia.
    exists w', r0. split_and!; try done. eapply seal_wf; [|exact E]. congruence.
  - unfold client_open in Hs. destruct (hc_state c) eqn:Es; try by injection Hs as <- <-.
    destruct (hc_reader c) as [r0|] eqn:Er; [|by injection Hs as <- <-].
    destruct (RecordReader_open r0 f) as [x r'] eqn:E. injection Hs as <- <-.
    unfold client_inv in *. rewrite Es in *. cbn.
    destruct Hi as ((w0 & r1 & H1 & H2 & H3 & H4) & Hv & Hw). split_and!; try done; try lia.
    exists w0, r'. split_and!; try done. eapply open_wf; [|exact E]. congruence.
Qed.

Lemma server_step_inv s s' : server_step s s' → server_inv s → server_inv s'.
Proof.
  intros Hs Hi. destruct Hs as [s m g [h|e] s' g' Hs|s f [[]|e] s' Hs|s p r s' Hs|s f r s' Hs].
  - apply handleClientHello_Ok in Hs as (client & server & hash & keys & eph & []).
    rewrite an_server0. destruct (sessionKeys_wf _ _ _ _ an_keys0) as [Hk1 Hk2].
    split_and!; cbn; try lia; [|apply wiped_cleanse].
    eexists _, _. split_and!; [done..|by apply new_writer_wf|by apply new_reader_wf].
  - apply handleClientHello_Err in Hs as [s0 ->]. apply server_fail_inv.
  - apply handleClientFinished_Ok in Hs as (p & r & r' & [Hst Hr Ho _ ->]).
    unfold server_inv in *. rewrite Hst in Hi. cbn.
    destruct Hi as ((w0 & r0 & H1 & H2 & H3 & H4) & Hv & Hw). split_and!; try done; try lia.
    exists w0, r'. split_and!; try done. eapply open_wf; [|exact Ho]. congruence.
  - apply handleClientFinished_Err in Hs as [s0 ->]. apply server_fail_inv.
  - unfold server_seal in Hs. destruct (hs_state s) eqn:Es; try by injection Hs as <- <-.
    destruct (hs_writer s) as [w|] eqn:Ew; [|by injection Hs as <- <-].
    destruct (RecordWriter_seal w p) as [r' w'] eqn:E. injection Hs as <- <-.
    unfold server_inv in *. rewrite Es in *. cbn.
    destruct Hi as ((w0 & r0 & H1 & H2 & H3 & H4) & Hv & Hw). split_and!; try done; try lia.
    exists w', r0. split_and!; try done. eapply seal_wf; [|exact E]. congruence.
  - unfold server_open in Hs. destruct (hs_state s) eqn:Es; try by injection Hs as <- <-.
    destruct (hs_reader s) as [r0|] eqn:Er; [|by injection Hs as <- <-].
    destruct (RecordReader_open r0 f) as [x r'] eqn:E. injection Hs as <- <-.
    unfold server_inv in *. rewrite Es in *. cbn.
    destruct Hi as ((w0 & r1 & H1 & H2 & H3 & H4) & Hv & Hw). split_and!; try done; try lia.
    exists w0, r'. split_and!; try done. eapply open_wf; [|exact E]. congruence.
Qed.

Lemma client_reachable_inv trusted sdk rid lo hi c :
  rtc client_step (newClientHandshake trusted sdk rid lo hi) c → client_inv c.
Proof.
  apply (rtc_ind_r (fun c => client_inv c)); [done|]. intros c1 c2 _ Hs Hi. by eapply client_step_inv.
Qed.

Lemma server_reachable_inv kid key lo hi s :
  rtc server_step (newServerHandshake kid key lo hi) s → server_inv s.
Proof.
  apply (rtc_ind_r (fun s => server_inv s)); [done|]. intros s1 s2 _ Hs Hi. by eapply server_step_inv.
Qed.

(** Along every sequence of calls on a client handshake (in any order, on
    any input) record keys exist exactly while it is established, the version
    is then within the range it offered, and after success or failure the
    ephemeral private key has been erased. *)
Theorem client_handshake_invariant trusted sdk rid lo hi c :
  rtc client_step (newClientHandshake trusted sdk rid lo hi) c → client_inv c.
Proof. apply client_reachable_inv. Qed.

(** The same for the service side: keys exist from the answer on until a
    failure, the negotiated version is within its range, and the identity key
    does not outlive the answer. *)
Theorem server_handshake_invariant kid key lo hi s :
  rtc server_step (newServerHandshake kid key lo hi) s → server_inv s.
Proof. apply server_reachable_inv. Qed.
End Calls.

(** ** Agreement *)

Section Agreement.
Context {C : CryptoApi} {CL : CryptoLaws C} {CA : CryptoAvailable C}.
Context {P : ProtocolBuffers} {PL : ProtocolBuffersLaws P}.

Lemma decodeServerHello_typed bs m :
  octets bs → decodeServerHello bs = Done (Ok m) → any_typed (AnyServerHello m).
Proof. intros Ho Hd. by apply (decoded_ServerHello bs m Ho Hd). Qed.

Lemma decodeClientHello_typed bs m :
  octets bs → decodeClientHello bs = Done (Ok m) → any_typed (AnyClientHello m).
Proof. intros Ho Hd. by apply (decoded_ClientHello bs m Ho Hd). Qed.

(** A client that has sent its hello, with fields of their C++ types. *)
Definition client_typed (c : ClientHandshake) : Prop :=
  in_width 64 (hc_request_id c) ∧ in_width 16 (hc_min_version c) ∧ in_width 16 (hc_max_version c).

Lemma started_typed c0 g hello c g' :
  client_typed c0 → started c0 g hello c g' →
  any_typed (AnyClientHello (clientHello c)) ∧ x25519_pair (hc_ephemeral c).
Proof.
  intros (Hr & Hlo & Hhi) [_ _ (g1 & Hn & Hk) Hc _].
  assert (x25519_pair (hc_ephemeral c)) as Hp by (by exists g1, g').
  split; [|done]. rewrite Hc in *. cbn in *. split_and!; try done.
  - by apply (randomBytes_array _ _ _ _ Hn).
  - by apply x25519_array.
Qed.

Lemma clientHello_transcript_wf c message server :
  any_typed (AnyClientHello (clientHello c)) → octets message →
  decodeServerHello message = Done (Ok server) →
  transcript_wf (transcriptFor (clientHello c) server).
Proof.
  intros (_ & ? & ? & ? & ?) Ho Hd.
  destruct (decodeServerHello_typed _ _ Ho Hd) as (_ & ? & ? & ? & ?). by split_and!.
Qed.

Lemma answered_transcript_wf s msg g hello s' g' client server hash keys eph :
  octets msg → answered_client s msg g hello s' g' client server hash keys eph →
  transcript_wf (transcriptFor client server) ∧ x25519_pair eph.
Proof.
  intros Ho [_ Hd (Hsel & _ & Hmin) _ _ (g1 & Hk & Hn) Hpub _ _ _ _ _].
  destruct (decodeClientHello_typed _ _ Ho Hd) as (_ & Hlo & Hhi & ? & ?).
  assert (x25519_pair eph) as Hp by (by exists g, g1). split; [|done].
  split_and!; cbn; try done.
  - rewrite Hsel in *. unfold in_width in *. lia.
  - by apply (randomBytes_array _ _ _ _ Hn).
  - rewrite Hpub. by apply x25519_array.
Qed.

(** A service answered a hello with exactly this transcript. *)
Definition signed_in_a_run (e : bytes) (s : ServerHandshake) (s' : ServerHandshake)
    (client : ClientHelloMessage) : Prop :=
  ∃ msg g hello g' server hash keys eph,
    octets msg ∧ answered_client s msg g hello s' g' client server hash keys eph
    ∧ encodeTranscript (transcriptFor client server) = Ok e.

(** The idealised strength of the signature, for the one signature the client
    looks at: if it is good under a trusted key, a service made it. *)
Definition signature_unforged (c : ClientHandshake) (message : bytes) : Prop :=
  ∀ server key e,
    decodeServerHello message = Done (Ok server) →
    hc_trusted_keys c !! sh_service_key_id server = Some key →
    encodeTranscript (transcriptFor (clientHello c) server) = Ok e →
    cr_verifyEd25519 key e (sh_signature server) = Ok () →
    ∃ s s' client, signed_in_a_run e s s' client.

(** The same record keys, crossed over, at the same positions. *)
Definition linked (c : ClientHandshake) (s : ServerHandshake) : Prop :=
  (∃ k n, hc_writer c = Some (mkRecordWriter k n) ∧ hs_reader s = Some (mkRecordReader k n))
  ∧ (∃ k n, hc_reader c = Some (mkRecordReader k n) ∧ hs_writer s = Some (mkRecordWriter k n)).

Definition crossed_keys (c : ClientHandshake) (s : ServerHandshake) : Prop :=
  option_map rw_key (hc_writer c) = option_map rr_key (hs_reader s)
  ∧ option_map rr_key (hc_reader c) = option_map rw_key (hs_writer s).

Lemma sessionKeys_symmetric a b hash :
  x25519_pair a → x25519_pair b →
  sessionKeys (kp_private a) (kp_public b) hash = sessionKeys (kp_private b) (kp_public a) hash.
Proof. intros Ha Hb. unfold sessionKeys. by rewrite (derive_symmetric a b). Qed.

Lemma accepted_writer_key c message finished c' server key hash keys :
  accepted_server c message finished c' server key hash keys →
  hc_state c' = HandshakeState.Established
  ∧ hc_selected_version c' = sh_selected_version server
  ∧ hc_writer c' = Some (mkRecordWriter (recordKey (sk_client_to_service keys)) 2)
  ∧ hc_reader c' = Some (newRecordReader (recordKey (sk_service_to_client keys))).
Proof.
  intros []. destruct as_finished0 as (f & w & _ & Hs & ->).
  apply seal_Ok in Hs as (_ & _ & -> & _). done.
Qed.


(** ** The service's confirmation *)

Lemma answered_reader s msg g hello s' g' client server hash keys eph :
  answered_client s msg g hello s' g' client server hash keys eph →
  reader_wf (newRecordReader (recordKey (sk_client_to_service keys)))
  ∧ writer_wf (newRecordWriter (recordKey (sk_service_to_client keys))).
Proof.
  intros []. destruct (sessionKeys_wf _ _ _ _ an_keys0).
  split; [by apply new_reader_wf|by apply new_writer_wf].
Qed.

(** C23. The service gets established only by a confirmation: a frame that is
    the first record under the client-to-service key it derived, whose
    plaintext is a [ClientFinished] with the request id, the version and the
    transcript hash of this handshake. *)
Theorem service_established_by_finished s msg g hello s1 g' frame s2 :
  handleClientHello s msg g = Done (Ok hello, s1, g') → octets frame →
  handleClientFinished s1 frame = Done (Ok (), s2) →
  hs_state s2 = HandshakeState.Established
  ∧ ∃ key p, option_map rr_key (hs_reader s1) = Some key ∧ authentic_frame key 1 p frame
    ∧ decodeClientFinished p
      = Done (Ok (mkClientFinishedMessage (hs_request_id s1) (hs_selected_version s1)
                    (hs_transcript_hash s1))).
Proof.
  intros (client & server & hash & keys & eph & Han)%handleClientHello_Ok Ho
    (p & r & r' & [_ Hr Hop Hd ->])%handleClientFinished_Ok.
  split; [done|].
  destruct (answered_reader _ _ _ _ _ _ _ _ _ _ _ Han) as [Hwf _].
  rewrite (an_server _ _ _ _ _ _ _ _ _ _ _ Han) in *. cbn in *. injection Hr as <-.
  exists (recordKey (sk_client_to_service keys)), p.
  split; [done|]. split; [|done].
  pose proof (open_plaintext_octets _ _ _ _ Ho Hop) as Hp.
  apply open_Ok_iff in Hop as (_ & _ & Ha & _); [|done..]. done.
Qed.

(** ** The honest run *)

Lemma honest_transcript c0 g hello c g1 s gs shello s1 gs1 :
  client_typed c0 → start c0 g = (Ok hello, c, g1) → hs_min_version s <= hs_max_version s →
  in_width 16 (hs_max_version s) →
  handleClientHello s hello gs = Done (Ok shello, s1, gs1) →
  ∃ server hash keys eph,
    answered_client s hello gs shello s1 gs1 (clientHello c) server hash keys eph
    ∧ decodeServerHello shello = Done (Ok server) ∧ x25519_pair eph ∧ x25519_pair (hc_ephemeral c)
    ∧ octets shello.
Proof.
  intros Ht Hst _ Hmax (client & server & hash & keys & eph & Han)%handleClientHello_Ok.
  apply start_Ok in Hst. destruct (started_typed _ _ _ _ _ Ht Hst) as [Hct Hpc].
  pose proof (st_hello _ _ _ _ _ Hst) as Hh.
  destruct (encodeAny_size (AnyClientHello (clientHello c)) hello Hct Hh) as [Hoh _].
  assert (client = clientHello c) as ->.
  { pose proof (ClientHello_roundtrip _ _ Hct Hh) as Hd.
    pose proof (an_decoded _ _ _ _ _ _ _ _ _ _ _ Han) as Hd'. congruence. }
  destruct (answered_transcript_wf _ _ _ _ _ _ _ _ _ _ _ Hoh Han) as [Hwf Hpe].
  assert (any_typed (AnyServerHello server)) as Hty.
  { destruct Hwf as (_ & _ & Hsel & _ & Hn & _ & Hpub). destruct Han.
    destruct an_signed0 as (e & _ & Hs). cbn in *. rewrite an_request0.
    split_and!; try done; [apply Hct|by apply (sign_array _ _ _ Hs)]. }
  exists server, hash, keys, eph. split; [done|].
  pose proof (an_hello _ _ _ _ _ _ _ _ _ _ _ Han) as He.
  split; [by apply ServerHello_roundtrip|]. split_and!; try done.
  by apply (encodeAny_size (AnyServerHello server) shello).
Qed.

(** The client's side of an honest run. *)
Lemma client_accepts_honest c0 g hello c g1 s gs shello s1 gs1 server hash keys eph kp :
  client_typed c0 → start c0 g = (Ok hello, c, g1) →
  answered_client s hello gs shello s1 gs1 (clientHello c) server hash keys eph →
  decodeServerHello shello = Done (Ok server) → x25519_pair eph → x25519_pair (hc_ephemeral c) →
  ed25519_pair kp → hs_identity_private_key s = kp_private kp →
  hc_trusted_keys c0 !! hs_service_key_id s = Some (kp_public kp) →
  ∃ f finished, encodeClientFinished
      (mkClientFinishedMessage (hc_request_id c) (sh_selected_version server) hash) = Ok f
    ∧ RecordWriter_seal (newRecordWriter (recordKey (sk_client_to_service keys))) f
      = (Ok finished, mkRecordWriter (recordKey (sk_client_to_service keys)) 2)
    ∧ handleServerHello c shello
      = Done (Ok finished, set_keys c (mkRecordWriter (recordKey (sk_client_to_service keys)) 2)
                (newRecordReader (recordKey (sk_service_to_client keys)))
                (sh_selected_version server) HandshakeState.Established).
Proof.
  intros Ht Hst Han Hd Hpe Hpc Hkp Hpriv Htr. apply start_Ok in Hst.
  destruct (started_typed _ _ _ _ _ Ht Hst) as [Hct _].
  destruct (sessionKeys_wf _ _ _ _ (an_keys _ _ _ _ _ _ _ _ _ _ _ Han)) as [Hk1 _].
  destruct Han as [_ _ (Hsel & _ & Hlo) Hreq Hkid _ Hpub (e & He & Hsig) Hhash _ Hkeys _].
  destruct Hst as [_ [Hnz Hle] _ Hc Hhello]. cbn in Hsel, Hlo, Hreq.
  assert (hc_request_id c ≠ 0 ∧ hc_min_version c ≠ 0) as [Hr0 Hm0].
  { rewrite Hc. cbn. split; [|done]. intros E0. revert Hhello. unfold encodeClientHello.
    rewrite Hc. cbn. by rewrite E0. }
  assert (hc_state c = HandshakeState.HelloSent ∧ hc_trusted_keys c = hc_trusted_keys c0)
    as [Hcs Hct'] by (by rewrite Hc).
  destruct Hct as (Hr & Hlo16 & Hhi16 & _).  cbn in Hr, Hlo16, Hhi16.
  assert (is_array kSha256Size hash) as Hha.
  { revert Hhash. unfold hashTranscript. rewrite He. apply sha256_array. }
  set (m := mkClientFinishedMessage (hc_request_id c) (sh_selected_version server) hash).
  assert (any_typed (AnyClientFinished m)) as Hmt.
  { cbn. split_and!; try done. unfold in_width in *. lia. }
  assert (∃ f, encodeClientFinished m = Ok f) as [f Hf].
  { unfold encodeClientFinished, m. cbn. unfold in_width in *.
    rewrite !(proj2 (Z.eqb_neq _ 0)) by lia. cbn. eauto. }
  destruct (encodeAny_size (AnyClientFinished m) f Hmt Hf) as [Hof Hsz].
  destruct (seal_total (newRecordWriter (recordKey (sk_client_to_service keys))) f) as [fin Hfin];
    [by apply new_writer_wf|done|split; [done|unfold kDefaultMaxPayloadSize, kTagSize; lia]|].
  exists f, fin. split; [done|]. split; [done|].
  unfold handleServerHello. rewrite Hcs, Hd. cbn [negb bool_decide mbind exec_bind decide_rel].
  rewrite bool_decide_eq_true_2 by done. cbn [negb].
  rewrite Hreq, Z.eqb_refl. cbn [negb].
  rewrite (proj2 (Z.ltb_ge _ (hc_min_version c))), (proj2 (Z.ltb_ge (hc_max_version c) _)) by lia.
  cbn [orb]. rewrite Hct', Hkid, Htr, He, Hhash.
  rewrite Hpriv in Hsig. rewrite (sign_verify kp e _ Hkp Hsig).
  rewrite Hpub, sessionKeys_symmetric by done. cbn in Hkeys. rewrite Hkeys.
  cbn [set_keys hc_request_id hc_selected_version]. fold m. rewrite Hf, Hfin.
  do 2 f_equal. unfold set_keys. cbn -[cleanse]. by rewrite cleanse_idem.
Qed.

(** The service's side. *)
Lemma service_confirms_honest c0 g hello c g1 s gs shello s1 gs1 server hash keys eph f fin :
  client_typed c0 → start c0 g = (Ok hello, c, g1) →
  answered_client s hello gs shello s1 gs1 (clientHello c) server hash keys eph →
  encodeClientFinished
    (mkClientFinishedMessage (hc_request_id c) (sh_selected_version server) hash) = Ok f →
  RecordWriter_seal (newRecordWriter (recordKey (sk_client_to_service keys))) f
    = (Ok fin, mkRecordWriter (recordKey (sk_client_to_service keys)) 2) →
  handleClientFinished s1 fin
  = Done (Ok (), set_reader s1 (mkRecordReader (recordKey (sk_client_to_service keys)) 2)
                   HandshakeState.Established).
Proof.
  intros Ht Hst Han Hf Hseal. apply start_Ok in Hst.
  destruct (started_typed _ _ _ _ _ Ht Hst) as [(Hr & Hlo & Hhi & _) _].
  destruct (answered_reader _ _ _ _ _ _ _ _ _ _ _ Han) as [Hwf _].
  destruct Han as [_ _ (Hsel & _ & Hmin) Hreq _ _ _ (e & He & _) Hhash _ _ ->].
  assert (is_array kSha256Size hash) as Hha.
  { revert Hhash. unfold hashTranscript. rewrite He. apply sha256_array. }
  set (m := mkClientFinishedMessage (hc_request_id c) (sh_selected_version server) hash) in *.
  assert (any_typed (AnyClientFinished m)) as Hmt.
  { cbn in *. split_and!; try done. unfold in_width in *. lia. }
  destruct (encodeAny_size (AnyClientFinished m) f Hmt Hf) as [Hof Hsz].
  pose proof (open_after_seal (newRecordReader (recordKey (sk_client_to_service keys))) f fin _
    Hwf Hof Hseal) as Hopen.
  unfold handleClientFinished. cbn -[RecordReader_open]. rewrite Hopen.
  rewrite (ClientFinished_roundtrip m f Hmt Hf). cbn.
  rewrite !Z.eqb_refl, bool_decide_eq_true_2 by done. done.
Qed.

(** The run, with the positions of the record layers. *)
Lemma honest_run c0 g hello c g1 s gs shello s1 gs1 kp :
  client_typed c0 → hs_min_version s <= hs_max_version s → in_width 16 (hs_max_version s) →
  ed25519_pair kp → hs_identity_private_key s = kp_private kp →
  hc_trusted_keys c0 !! hs_service_key_id s = Some (kp_public kp) →
  start c0 g = (Ok hello, c, g1) →
  handleClientHello s hello gs = Done (Ok shello, s1, gs1) →
  ∃ finished c' s2,
    handleServerHello c shello = Done (Ok finished, c')
    ∧ handleClientFinished s1 finished = Done (Ok (), s2)
    ∧ hc_state c' = HandshakeState.Established ∧ hs_state s2 = HandshakeState.Established
    ∧ hc_selected_version c' = Z.min (hs_max_version s) (hc_max_version c0)
    ∧ hs_selected_version s2 = hc_selected_version c'
    ∧ linked c' s2
    ∧ (∃ k, hc_writer c' = Some (mkRecordWriter k 2))
    ∧ (∃ k, hs_writer s2 = Some (newRecordWriter k)).
Proof.
  intros Ht Hle Hmax Hkp Hpriv Htr Hst Hh.
  destruct (honest_transcript _ _ _ _ _ _ _ _ _ _ Ht Hst Hle Hmax Hh)
    as (server & hash & keys & eph & Han & Hd & Hpe & Hpc & Hos).
  destruct (client_accepts_honest _ _ _ _ _ _ _ _ _ _ _ _ _ _ _ Ht Hst Han Hd Hpe Hpc Hkp Hpriv Htr)
    as (f & fin & Hf & Hseal & Hacc).
  pose proof (service_confirms_honest _ _ _ _ _ _ _ _ _ _ _ _ _ _ _ _ Ht Hst Han Hf Hseal) as Hfin.
  exists fin. eexists. eexists. split; [exact Hacc|]. split; [exact Hfin|].
  destruct (an_version _ _ _ _ _ _ _ _ _ _ _ Han) as [Hsel _]. cbn in Hsel.
  assert (hc_max_version c = hc_max_version c0) as Hcm
    by (apply start_Ok in Hst as [_ _ _ -> _]; done).
  rewrite (an_server _ _ _ _ _ _ _ _ _ _ _ Han). cbn. rewrite Hsel, Hcm.
  split_and!; try done; try by eexists. split; eexists _, _; done.
Qed.

(** C9. An honest run succeeds: when the service answers a client that trusts
    its key, the client accepts the answer, the service accepts the client's
    confirmation, both are established on the highest common version and
    their record layers are linked. *)
Theorem handshake_completes c0 g hello c g1 s gs shello s1 gs1 kp :
  client_typed c0 → hs_min_version s <= hs_max_version s → in_width 16 (hs_max_version s) →
  ed25519_pair kp → hs_identity_private_key s = kp_private kp →
  hc_trusted_keys c0 !! hs_service_key_id s = Some (kp_public kp) →
  start c0 g = (Ok hello, c, g1) →
  handleClientHello s hello gs = Done (Ok shello, s1, gs1) →
  ∃ finished c' s2,
    handleServerHello c shello = Done (Ok finished, c')
    ∧ handleClientFinished s1 finished = Done (Ok (), s2)
    ∧ hc_state c' = HandshakeState.Established ∧ hs_state s2 = HandshakeState.Established
    ∧ hc_selected_version c' = Z.min (hs_max_version s) (hc_max_version c0)
    ∧ hs_selected_version s2 = hc_selected_version c'
    ∧ linked c' s2.
Proof.
  intros Ht Hle Hmax Hkp Hpriv Htr Hst Hh.
  destruct (honest_run _ _ _ _ _ _ _ _ _ _ _ Ht Hle Hmax Hkp Hpriv Htr Hst Hh)
    as (f & c' & s2 & ? & ? & ? & ? & ? & ? & ? & _).
  by exists f, c', s2.
Qed.

(** ** The channel afterwards *)

Lemma linked_deliver c s p f :
  linked c s → client_inv c → server_inv s →
  hc_state c = HandshakeState.Established → hs_state s = HandshakeState.Established → octets p →
  (∀ c', client_seal c p = (Ok f, c') →
         ∃ s', server_open s f = (Ok p, s') ∧ linked c' s')
  ∧ (∀ s', server_seal s p = (Ok f, s') →
           ∃ c', client_open c f = (Ok p, c') ∧ linked c' s').
Proof.
  intros [(k & n & Hcw & Hsr) (k' & n' & Hcr & Hsw)] Hci Hsi Hcs Hss Hp.
  unfold client_inv in Hci. rewrite Hcs in Hci. destruct Hci as ((w0 & r0 & E1 & E2 & Hw & Hr) & _).
  unfold server_inv in Hsi. rewrite Hss in Hsi. destruct Hsi as ((w1 & r1 & E3 & E4 & Hw1 & Hr1) & _).
  assert (reader_wf (mkRecordReader k n)) as Hrk by congruence.
  assert (reader_wf (mkRecordReader k' n')) as Hrk' by congruence. split.
  - intros c'. unfold client_seal, server_open. rewrite Hcs, Hcw, Hss, Hsr.
    destruct (RecordWriter_seal (mkRecordWriter k n) p) as [r w'] eqn:E. intros [= -> <-].
    rewrite (open_after_seal (mkRecordReader k n) p f w' Hrk Hp E).
    apply seal_Ok in E as (_ & _ & -> & _). cbn.
    eexists. split; [done|]. split; eexists _, _; cbn; done.
  - intros s'. unfold server_seal, client_open. rewrite Hcs, Hcr, Hss, Hsw.
    destruct (RecordWriter_seal (mkRecordWriter k' n') p) as [r w'] eqn:E. intros [= -> <-].
    rewrite (open_after_seal (mkRecordReader k' n') p f w' Hrk' Hp E).
    apply seal_Ok in E as (_ & _ & -> & _). cbn.
    eexists. split; [done|]. split; eexists _, _; cbn; done.
Qed.

(** The established channel delivers: what one linked side seals, the
    other opens to the same plaintext, in both directions, and the sides stay
    linked. *)
Theorem channel_delivers c s p f :
  linked c s → client_inv c → server_inv s →
  hc_state c = HandshakeState.Established → hs_state s = HandshakeState.Established → octets p →
  (∀ c', client_seal c p = (Ok f, c') →
         ∃ s', server_open s f = (Ok p, s') ∧ linked c' s')
  ∧ (∀ s', server_seal s p = (Ok f, s') →
           ∃ c', client_open c f = (Ok p, c') ∧ linked c' s').
Proof. apply linked_deliver. Qed.
End Agreement.

(** ** Key ids that the protocol cannot carry *)

Section LongKeyId.
Context {C : CryptoApi} {P : ProtocolBuffers}.

(** A configuration may name an identity key id of up to 65535 bytes, but
    a service whose id is longer than 255 answers no hello: it fails every
    handshake, whatever the client sends. *)
Theorem long_key_id_never_answers kid key lo hi message g r s' g' :
  kMaxKeyIdSize < str_size kid →
  handleClientHello (newServerHandshake kid key lo hi) message g = Done (r, s', g') →
  hs_state s' = HandshakeState.Failed ∧ ∃ e, r = Err e.
Proof.
  intros Hk Hh. destruct r as [hello|e].
  - apply handleClientHello_Ok in Hh as (cl & se & ha & ke & ep & Han). exfalso.
    destruct Han as [_ _ _ _ Hid _ _ _ _ He _ _]. revert He. unfold encodeServerHello.
    rewrite Hid. cbn [hs_service_key_id newServerHandshake].
    rewrite (proj2 (Z.ltb_lt _ _) Hk), ?orb_true_r. cbn. by rewrite ?orb_true_r.
  - split; [|by exists e]. by apply handleClientHello_Err in Hh as [s0 ->].
Qed.
End LongKeyId.

(** ** A concrete run *)

Section Witnesses.
#[local] Existing Instance toy_crypto.
#[local] Existing Instance toy_buffers.

Definition run_rng (n : Z) : cr_rng := (n : @cr_rng toy_crypto).

Definition service_pair : KeyPair := Eval vm_compute in
  match cr_generateEd25519KeyPair (run_rng 3) with
  | (Ok kp, _) => kp | (Err _, _) => mkKeyPair [] []
  end.

Lemma service_pair_generated : ed25519_pair service_pair.
Proof. exists (run_rng 3). eexists. vm_compute. reflexivity. Qed.

Definition run_client : ClientHandshake :=
  newClientHandshake {["svc" := kp_public service_pair]} "1.0.0" 7 1 3.
Definition run_service : ServerHandshake :=
  newServerHandshake "svc" (kp_private service_pair) 1 2.

(** The states and messages along the run. *)
Definition run_hello : bytes * ClientHandshake * cr_rng := Eval vm_compute in
  match start run_client (run_rng 11) with
  | (Ok h, c, g) => (h, c, g) | (Err _, c, g) => ([], c, g)
  end.
Definition run_answer : bytes * ServerHandshake * cr_rng := Eval vm_compute in
  match handleClientHello run_service run_hello.1.1 (run_rng 22) with
  | Done (Ok h, s, g) => (h, s, g) | _ => ([], run_service, run_rng 22)
  end.
Definition run_finished : bytes * ClientHandshake := Eval vm_compute in
  match handleServerHello run_hello.1.2 run_answer.1.1 with
  | Done (Ok f, c) => (f, c) | _ => ([], run_client)
  end.
Definition run_established : ServerHandshake := Eval vm_compute in
  match handleClientFinished run_answer.1.2 run_finished.1 with
  | Done (Ok _, s) => s | _ => run_service
  end.

Lemma run_started :
  start run_client (run_rng 11) = (Ok run_hello.1.1, run_hello.1.2, run_hello.2).
Proof. vm_compute. reflexivity. Qed.
Lemma run_answered :
  handleClientHello run_service run_hello.1.1 (run_rng 22)
  = Done (Ok run_answer.1.1, run_answer.1.2, run_answer.2).
Proof. vm_compute. reflexivity. Qed.
Lemma run_accepted :
  handleServerHello run_hello.1.2 run_answer.1.1 = Done (Ok run_finished.1, run_finished.2).
Proof. vm_compute. reflexivity. Qed.
Lemma run_confirmed :
  handleClientFinished run_answer.1.2 run_finished.1 = Done (Ok (), run_established).
Proof. vm_compute. reflexivity. Qed.

Lemma run_typed : client_typed run_client.
Proof. unfold client_typed, in_width. cbn -[Z.pow]. lia. Qed.

Lemma run_versions :
  hs_min_version run_service <= hs_max_version run_service
  ∧ in_width 16 (hs_max_version run_service).
Proof. unfold in_width. cbn -[Z.pow]. lia. Qed.

Lemma client_handshake_invariant_witness :
  hc_state run_finished.2 = HandshakeState.Established ∧ client_inv run_finished.2.
Proof.
  split; [vm_compute; reflexivity|].
  apply (client_handshake_invariant {["svc" := kp_public service_pair]} "1.0.0" 7 1 3).
  eapply rtc_l; [apply (CStart _ _ _ _ _ run_started)|].
  eapply rtc_l; [apply (CServerHello _ _ _ _ run_accepted)|]. apply rtc_refl.
Defined.

Lemma server_handshake_invariant_witness :
  hs_state run_established = HandshakeState.Established ∧ server_inv run_established.
Proof.
  split; [vm_compute; reflexivity|].
  apply (server_handshake_invariant "svc" (kp_private service_pair) 1 2).
  eapply rtc_l; [apply (SClientHello _ _ _ _ _ _ run_answered)|].
  eapply rtc_l; [apply (SClientFinished _ _ _ _ run_confirmed)|]. apply rtc_refl.
Defined.

Lemma run_answer_octets : octets run_answer.1.1.
Proof. apply small_octets. vm_compute. reflexivity. Qed.
Lemma run_finished_octets : octets run_finished.1.
Proof. apply small_octets. vm_compute. reflexivity. Qed.

Lemma run_unforged : signature_unforged run_hello.1.2 run_answer.1.1.
Proof.
  intros server key e Hd _ He _.
  destruct (honest_transcript _ _ _ _ _ _ _ _ _ _ run_typed run_started
    (proj1 run_versions) (proj2 run_versions) run_answered)
    as (server' & hash & keys & eph & Han & Hd' & _ & _ & _).
  assert (server' = server) as -> by congruence.
  exists run_service, run_answer.1.2, (clientHello run_hello.1.2).
  do 8 eexists. split; [|split; [exact Han|exact He]].
  apply small_octets. vm_compute. reflexivity.
Qed.


Lemma service_established_by_finished_witness :
  hs_state run_established = HandshakeState.Established
  ∧ ∃ key p, option_map rr_key (hs_reader run_answer.1.2) = Some key
    ∧ authentic_frame key 1 p run_finished.1
    ∧ decodeClientFinished p
      = Done (Ok (mkClientFinishedMessage (hs_request_id run_answer.1.2)
                    (hs_selected_version run_answer.1.2) (hs_transcript_hash run_answer.1.2))).
Proof.
  exact (service_established_by_finished _ _ _ _ _ _ _ _ run_answered run_finished_octets
           run_confirmed).
Defined.

Lemma handshake_completes_witness :
  ∃ finished c' s2,
    handleServerHello run_hello.1.2 run_answer.1.1 = Done (Ok finished, c')
    ∧ handleClientFinished run_answer.1.2 finished = Done (Ok (), s2)
    ∧ hc_state c' = HandshakeState.Established ∧ hs_state s2 = HandshakeState.Established
    ∧ hc_selected_version c' = Z.min 2 3
    ∧ hs_selected_version s2 = hc_selected_version c' ∧ linked c' s2.
Proof.
  refine (handshake_completes run_client _ _ _ _ run_service _ _ _ _ service_pair run_typed
    (proj1 run_versions) (proj2 run_versions) service_pair_generated eq_refl _
    run_started run_answered).
  vm_compute. reflexivity.
Defined.

Lemma run_linked : linked run_finished.2 run_established.
Proof. split; eexists _, _; split; vm_compute; reflexivity. Qed.

Lemma channel_delivers_witness :
  ∃ f c', client_seal run_finished.2 [1; 2; 3] = (Ok f, c')
          ∧ ∃ s', server_open run_established f = (Ok [1; 2; 3], s') ∧ linked c' s'.
Proof.
  destruct (client_seal run_finished.2 [1; 2; 3]) as [[f|] c'] eqn:E;
    [|vm_compute in E; discriminate E].
  exists f, c'. split; [reflexivity|].
  refine (proj1 (channel_delivers run_finished.2 run_established [1; 2; 3] f run_linked _ _ _ _ _) c' E).
  - apply (client_reachable_inv {["svc" := kp_public service_pair]} "1.0.0" 7 1 3).
    eapply rtc_l; [apply (CStart _ _ _ _ _ run_started)|].
    eapply rtc_l; [apply (CServerHello _ _ _ _ run_accepted)|]. apply rtc_refl.
  - apply (server_reachable_inv "svc" (kp_private service_pair) 1 2).
    eapply rtc_l; [apply (SClientHello _ _ _ _ _ _ run_answered)|].
    eapply rtc_l; [apply (SClientFinished _ _ _ _ run_confirmed)|]. apply rtc_refl.
  - vm_compute. reflexivity.
  - vm_compute. reflexivity.
  - apply small_octets. reflexivity.
Defined.
Definition long_id : string := String.concat "" (replicate 256 "k").

Definition long_state := (result HandshakeError bytes * ServerHandshake * @cr_rng toy_crypto)%type.
Definition long_done (x : exec long_state) : long_state :=
  match x with Done a => a | _ => (Ok [], run_service, run_rng 0) end.
Definition long_answer : long_state := Eval vm_compute in
  long_done (handleClientHello (newServerHandshake long_id (kp_private service_pair) 1 1)
    run_hello.1.1 (run_rng 22)).

Lemma long_answered :
  handleClientHello (newServerHandshake long_id (kp_private service_pair) 1 1)
    run_hello.1.1 (run_rng 22) = Done (long_answer.1.1, long_answer.1.2, long_answer.2).
Proof. vm_compute. reflexivity. Qed.

Lemma long_key_id_never_answers_witness :
  hs_state long_answer.1.2 = HandshakeState.Failed ∧ ∃ e, long_answer.1.1 = Err e.
Proof.
  refine (long_key_id_never_answers long_id (kp_private service_pair) 1 1 run_hello.1.1
    (run_rng 22) _ _ _ _ long_answered). vm_compute. reflexivity.
Defined.
End Witnesses.
