(* ===== verification/Connection.v ===== *)
(** * Connection: one client of the service

    Models [src/ya_license_service/{include/.../connection.h,src/connection.cpp}].
    A connection refers to the service's session table, so every operation
    takes and returns the table ([SessionManager]) besides the connection.
    [fuel] bounds the iterations of the session id loop (see [Session.v]).

    Theorems: the invariant between the connection state, the handshake and
    the session it holds; a session is only ever created for an authenticated
    peer with a license in force; a connection releases what it took; the
    answers on every branch. *)

From S2P Require Import Prelude Frame CryptoApi Crypto ToySsl KeySchedule RecordLayer FlatBuf.
From S2P Require Import ToyBuf Messages Handshake Status License Session.

(** ** [connection.h] *)

Module ConnectionError.
Inductive ConnectionError :=
| None
| InvalidFrame
| HandshakeFailed
| InvalidMessage
| ProductMismatch
| SessionLimitExceeded
| InvalidSession
| LicenseExpired
| Closed.
End ConnectionError.
Abbreviation ConnectionError := ConnectionError.ConnectionError.

#[global] Instance ConnectionError_eq_dec : EqDecision ConnectionError.
Proof. solve_decision. Defined.

Record ConnectionResult := mkConnectionResult {
  cx_error : ConnectionError;
  cx_response : option bytes;
  cx_closed : bool;
}.

Module ConnectionState.
Inductive ConnectionState :=
| AwaitingHello | AwaitingFinished | AwaitingAuthorize | Active | Closed.
End ConnectionState.
Abbreviation ConnectionState := ConnectionState.ConnectionState.

#[global] Instance ConnectionState_eq_dec : EqDecision ConnectionState.
Proof. solve_decision. Defined.

Record Connection := mkConnection {
  cn_handshake : ServerHandshake;
  cn_license : LicenseSnapshot;
  cn_peer_identity : string;
  cn_heartbeat_interval_ms : Z;
  cn_heartbeat_timeout_ms : Z;
  cn_session : option Session;
  cn_state : ConnectionState;
}.

(** ** [connection.cpp] *)

Definition wrapPlaintext (payload : bytes) : bytes :=
  encodeHeader {| fh_version := kFrameVersion; fh_flags := 0; fh_sequence := 0;
                  fh_payload_size := wrap 32 (zlen payload) |} ++ payload.

(** The handshake's default version range is [1..1]. *)
Definition newConnection (service_key_id : string) (identity_private_key : bytes)
    (license : LicenseSnapshot) (peer_identity : string)
    (heartbeat_interval_ms heartbeat_timeout_ms : Z) : Connection :=
  {| cn_handshake := newServerHandshake service_key_id identity_private_key 1 1;
     cn_license := license;
     cn_peer_identity := peer_identity;
     cn_heartbeat_interval_ms := heartbeat_interval_ms;
     cn_heartbeat_timeout_ms := heartbeat_timeout_ms;
     cn_session := None;
     cn_state := ConnectionState.AwaitingHello |}.

(** Assignments to the mutable members. *)
Definition with_handshake (c : Connection) (h : ServerHandshake) : Connection :=
  mkConnection h (cn_license c) (cn_peer_identity c) (cn_heartbeat_interval_ms c)
    (cn_heartbeat_timeout_ms c) (cn_session c) (cn_state c).
Definition with_session (c : Connection) (s : option Session) : Connection :=
  mkConnection (cn_handshake c) (cn_license c) (cn_peer_identity c) (cn_heartbeat_interval_ms c)
    (cn_heartbeat_timeout_ms c) s (cn_state c).
Definition with_state (c : Connection) (st : ConnectionState) : Connection :=
  mkConnection (cn_handshake c) (cn_license c) (cn_peer_identity c) (cn_heartbeat_interval_ms c)
    (cn_heartbeat_timeout_ms c) (cn_session c) st.

Definition closeSession (c : Connection) (sessions : SessionManager)
  : Connection * SessionManager :=
  match cn_session c with
  | None => (c, sessions)
  | Some session => (with_session c None, (close sessions (se_id session)).2)
  end.

(** [state_ = Closed; closeSession(); return {.error = error, .closed = true}] *)
Definition shutDown (c : Connection) (sessions : SessionManager) (error : ConnectionError)
  : ConnectionResult * Connection * SessionManager :=
  let '(c, sessions) := closeSession (with_state c ConnectionState.Closed) sessions in
  (mkConnectionResult error None true, c, sessions).

(** [license_.expire_time != 0 && now_unix_seconds >= license_.expire_time] *)
Definition licenseExpired (license : LicenseSnapshot) (now_unix_seconds : Z) : bool :=
  negb (ls_expire_time license =? 0) && (ls_expire_time license <=? now_unix_seconds).

Definition established (c : Connection) : bool :=
  bool_decide (cn_state c = ConnectionState.AwaitingAuthorize)
  || bool_decide (cn_state c = ConnectionState.Active).

Definition closed (c : Connection) : bool := bool_decide (cn_state c = ConnectionState.Closed).

Section Handlers.
Context {C : CryptoApi} {P : ProtocolBuffers}.

Definition encryptedResponse (c : Connection) (sessions : SessionManager) (plaintext : bytes)
    (close_after : bool) : ConnectionResult * Connection * SessionManager :=
  match server_seal (cn_handshake c) plaintext with
  | (Err _, h) => shutDown (with_handshake c h) sessions ConnectionError.InvalidFrame
  | (Ok sealed, h) =>
      let c := with_handshake c h in
      (mkConnectionResult ConnectionError.None (Some sealed) close_after,
       if close_after then with_state c ConnectionState.Closed else c, sessions)
  end.

Definition handleHello (c : Connection) (sessions : SessionManager) (g : cr_rng) (frame : bytes)
  : exec (ConnectionResult * Connection * SessionManager * cr_rng) :=
  let invalid :=
    (mkConnectionResult ConnectionError.InvalidFrame None true,
     with_state c ConnectionState.Closed, sessions, g) in
  match decodeFrame frame kDefaultMaxPayloadSize with
  | Err _ => Done invalid
  | Ok decoded =>
      if negb (fh_flags (fd_header decoded) =? 0) || negb (fh_sequence (fd_header decoded) =? 0)
      then Done invalid
      else
        answer ← handleClientHello (cn_handshake c) (fd_payload decoded) g;
        let '(response, h, g) := answer in
        let c := with_handshake c h in
        match response with
        | Err _ =>
            Done (mkConnectionResult ConnectionError.HandshakeFailed None true,
                  with_state c ConnectionState.Closed, sessions, g)
        | Ok response =>
            Done (mkConnectionResult ConnectionError.None (Some (wrapPlaintext response)) false,
                  with_state c ConnectionState.AwaitingFinished, sessions, g)
        end
  end.

(** The answer that grants or refuses the request, before it is encoded: the
    message, the error to report, the connection, the table. *)
Definition authorizeRequest (fuel : nat) (c : Connection) (sessions : SessionManager) (g : cr_rng)
    (request : AuthorizeMessage) (now_monotonic_ms now_unix_seconds : Z)
  : exec (AuthResultMessage * ConnectionError * Connection * SessionManager * cr_rng) :=
  let license := cn_license c in
  let response error session_id features expire_time :=
    {| ar_request_id := az_request_id request;
       ar_protocol_version := hs_selected_version (cn_handshake c);
       ar_error := error;
       ar_session_id := session_id;
       ar_features := features;
       ar_expire_time := expire_time;
       ar_heartbeat_interval_ms := cn_heartbeat_interval_ms c;
       ar_heartbeat_timeout_ms := cn_heartbeat_timeout_ms c |} in
  if negb (bool_decide (az_product_id request = ls_product_id license))
  then Done (response AuthorizationError.ProductMismatch None [] 0,
             ConnectionError.ProductMismatch, c, sessions, g)
  else if licenseExpired license now_unix_seconds
  then Done (response AuthorizationError.Expired None [] 0,
             ConnectionError.LicenseExpired, c, sessions, g)
  else
    created ← create fuel sessions g (ls_product_id license) (cn_peer_identity c)
                (ls_features license) (ls_expire_time license) now_monotonic_ms
                (ls_max_sessions license);
    let '(session, sessions, g) := created in
    match session with
    | Err _ => Done (response AuthorizationError.SessionLimitExceeded None [] 0,
                     ConnectionError.SessionLimitExceeded, c, sessions, g)
    | Ok session =>
        Done (response AuthorizationError.None (Some (se_id session)) (se_features session)
                (se_expire_time session),
              ConnectionError.None,
              with_state (with_session c (Some session)) ConnectionState.Active, sessions, g)
    end.

Definition handleAuthorize (fuel : nat) (c : Connection) (sessions : SessionManager) (g : cr_rng)
    (plaintext : bytes) (now_monotonic_ms now_unix_seconds : Z)
  : exec (ConnectionResult * Connection * SessionManager * cr_rng) :=
  request ← decodeAuthorize plaintext;
  let invalid :=
    (mkConnectionResult ConnectionError.InvalidMessage None true,
     with_state c ConnectionState.Closed, sessions, g) in
  match request with
  | Err _ => Done invalid
  | Ok request =>
      if negb (az_protocol_version request =? hs_selected_version (cn_handshake c))
      then Done invalid
      else
        answer ← authorizeRequest fuel c sessions g request now_monotonic_ms now_unix_seconds;
        let '(response, result_error, c, sessions, g) := answer in
        match encodeAuthResult response with
        | Err _ =>
            let '(r, c, sessions) := shutDown c sessions ConnectionError.InvalidMessage in
            Done (r, c, sessions, g)
        | Ok encoded =>
            let '(r, c, sessions) :=
              encryptedResponse c sessions encoded
                (negb (bool_decide (result_error = ConnectionError.None))) in
            Done (mkConnectionResult result_error (cx_response r) (cx_closed r), c, sessions, g)
        end
  end.

(** The heartbeat is for this connection's session and the table knows it:
    the session and the updated table. *)
Definition acceptHeartbeat (c : Connection) (sessions : SessionManager)
    (heartbeat_message : HeartbeatMessage) (now_monotonic_ms : Z)
  : option Session * SessionManager :=
  if negb (hb_protocol_version heartbeat_message =? hs_selected_version (cn_handshake c))
  then (None, sessions)
  else
  match cn_session c with
  | None => (None, sessions)
  | Some session =>
      if negb (bool_decide (hb_session_id heartbeat_message = se_id session))
      then (None, sessions)
      else
        match heartbeat sessions (se_id session) now_monotonic_ms with
        | (Err _, sessions) => (None, sessions)
        | (Ok _, sessions) => (Some session, sessions)
        end
  end.

Definition handleActive (c : Connection) (sessions : SessionManager) (plaintext : bytes)
    (now_monotonic_ms now_unix_seconds : Z)
  : exec (ConnectionResult * Connection * SessionManager) :=
  heartbeat_message ← decodeHeartbeat plaintext;
  match heartbeat_message with
  | Ok heartbeat_message =>
      match acceptHeartbeat c sessions heartbeat_message now_monotonic_ms with
      | (None, sessions) => Done (shutDown c sessions ConnectionError.InvalidSession)
      | (Some session, sessions) =>
          let expired := licenseExpired (cn_license c) now_unix_seconds in
          let ack :=
            {| ha_request_id := hb_request_id heartbeat_message;
               ha_protocol_version := hs_selected_version (cn_handshake c);
               ha_state := if expired then AuthorizationState.Expired
                           else AuthorizationState.Valid;
               ha_features := se_features session;
               ha_expire_time := se_expire_time session |} in
          match encodeHeartbeatAck ack with
          | Err _ => Done (shutDown c sessions ConnectionError.InvalidMessage)
          | Ok encoded =>
              if expired
              then
                let '(c, sessions) := closeSession c sessions in
                let '(r, c, sessions) := encryptedResponse c sessions encoded true in
                Done (mkConnectionResult ConnectionError.LicenseExpired (cx_response r)
                        (cx_closed r), c, sessions)
              else Done (encryptedResponse c sessions encoded false)
          end
      end
  | Err _ =>
      close_message ← decodeCloseSession plaintext;
      match close_message with
      | Ok close_message =>
          if cs_protocol_version close_message =? hs_selected_version (cn_handshake c)
          then Done (shutDown c sessions ConnectionError.None)
          else Done (shutDown c sessions ConnectionError.InvalidMessage)
      | Err _ => Done (shutDown c sessions ConnectionError.InvalidMessage)
      end
  end.

Definition handle (fuel : nat) (c : Connection) (sessions : SessionManager) (g : cr_rng)
    (frame : bytes) (now_monotonic_ms now_unix_seconds : Z)
  : exec (ConnectionResult * Connection * SessionManager * cr_rng) :=
  match cn_state c with
  | ConnectionState.Closed =>
      Done (mkConnectionResult ConnectionError.Closed None false, c, sessions, g)
  | ConnectionState.AwaitingHello => handleHello c sessions g frame
  | ConnectionState.AwaitingFinished =>
      finished ← handleClientFinished (cn_handshake c) frame;
      let '(r, h) := finished in
      let c := with_handshake c h in
      match r with
      | Err _ =>
          Done (mkConnectionResult ConnectionError.HandshakeFailed None true,
                with_state c ConnectionState.Closed, sessions, g)
      | Ok _ =>
          Done (mkConnectionResult ConnectionError.None None false,
                with_state c ConnectionState.AwaitingAuthorize, sessions, g)
      end
  | ConnectionState.AwaitingAuthorize | ConnectionState.Active =>
      match server_open (cn_handshake c) frame with
      | (Err _, h) =>
          let '(r, c, sessions) :=
            shutDown (with_handshake c h) sessions ConnectionError.InvalidFrame in
          Done (r, c, sessions, g)
      | (Ok opened, h) =>
          let c := with_handshake c h in
          if bool_decide (cn_state c = ConnectionState.AwaitingAuthorize)
          then handleAuthorize fuel c sessions g opened now_monotonic_ms now_unix_seconds
          else
            handled ← handleActive c sessions opened now_monotonic_ms now_unix_seconds;
            let '(r, c, sessions) := handled in
            Done (r, c, sessions, g)
      end
  end.
End Handlers.

(** ** Invariant *)

(** The connection state says how far the handshake is, and a session is held
    exactly in the active state. *)
Definition conn_inv (c : Connection) : Prop :=
  server_inv (cn_handshake c)
  ∧ match cn_state c with
    | ConnectionState.AwaitingHello =>
        hs_state (cn_handshake c) = HandshakeState.Initial ∧ cn_session c = None
    | ConnectionState.AwaitingFinished =>
        hs_state (cn_handshake c) = HandshakeState.AwaitingFinished ∧ cn_session c = None
    | ConnectionState.AwaitingAuthorize =>
        hs_state (cn_handshake c) = HandshakeState.Established ∧ cn_session c = None
    | ConnectionState.Active =>
        hs_state (cn_handshake c) = HandshakeState.Established ∧ is_Some (cn_session c)
    | ConnectionState.Closed => cn_session c = None
    end.

(** The table is [base] plus the entry of the session this connection holds. *)
Definition owns (base : SessionManager) (c : Connection) (m : SessionManager) : Prop :=
  match cn_session c with
  | None => m = base
  | Some s => base !! se_id s = None ∧ ∃ s', m = <[se_id s := s']> base
  end.

Lemma closeSession_owns base c m c' m' :
  owns base c m → closeSession c m = (c', m') → c' = with_session c None ∧ m' = base.
Proof.
  unfold owns, closeSession. destruct c as [h l p i t s st]. cbn.
  destruct s as [s|]; [|intros -> [= <- <-]; done].
  intros (Hn & s' & ->) [= <- <-]. split; [done|]. by rewrite delete_insert_id.
Qed.

Lemma shutDown_owns base c m e r c' m' :
  owns base c m → shutDown c m e = (r, c', m') →
  r = mkConnectionResult e None true
  ∧ c' = with_session (with_state c ConnectionState.Closed) None ∧ m' = base.
Proof.
  intros Ho. unfold shutDown. destruct (closeSession _ m) as [c1 m1] eqn:E. intros [= <- <- <-].
  apply (closeSession_owns base) in E as [-> ->]; [done|]. exact Ho.
Qed.

Lemma closed_inv c : server_inv (cn_handshake c) →
  conn_inv (with_session (with_state c ConnectionState.Closed) None).
Proof. intros H. by split. Qed.

Section ConnectionFacts.
Context {C : CryptoApi} {CL : CryptoLaws C} {P : ProtocolBuffers}.

Lemma server_seal_inv h p r h' :
  server_seal h p = (r, h') → server_inv h → server_inv h' ∧ hs_state h' = hs_state h.
Proof.
  intros Hs Hi. split; [by apply (server_step_inv h h'); [eapply SSeal|]|].
  revert Hs. unfold server_seal. destruct (hs_state h) eqn:E; try (intros [= <- <-]; done).
  destruct (hs_writer h); [|by intros [= <- <-]]. destruct (RecordWriter_seal _ _).
  by intros [= <- <-].
Qed.

Lemma server_open_inv h f r h' :
  server_open h f = (r, h') → server_inv h → server_inv h' ∧ hs_state h' = hs_state h.
Proof.
  intros Hs Hi. split; [by apply (server_step_inv h h'); [eapply SOpen|]|].
  revert Hs. unfold server_open. destruct (hs_state h) eqn:E; try (intros [= <- <-]; done).
  destruct (hs_reader h); [|by intros [= <- <-]]. destruct (RecordReader_open _ _).
  by intros [= <- <-].
Qed.

(** What a response does: it is sealed and the state stays or becomes closed,
    or sealing failed and the connection is shut down. *)
Lemma encryptedResponse_spec base c m p ca r c' m' :
  owns base c m → server_inv (cn_handshake c) → encryptedResponse c m p ca = (r, c', m') →
  server_inv (cn_handshake c')
  ∧ hs_state (cn_handshake c') = hs_state (cn_handshake c)
  ∧ hs_selected_version (cn_handshake c') = hs_selected_version (cn_handshake c)
  ∧ ((∃ f, cx_response r = Some f ∧ cx_error r = ConnectionError.None ∧ cx_closed r = ca
           ∧ cn_session c' = cn_session c ∧ m' = m
           ∧ cn_state c' = if ca then ConnectionState.Closed else cn_state c)
     ∨ r = mkConnectionResult ConnectionError.InvalidFrame None true
       ∧ cn_session c' = None ∧ m' = base ∧ cn_state c' = ConnectionState.Closed).
Proof.
  intros Ho Hi. unfold encryptedResponse.
  destruct (server_seal (cn_handshake c) p) as [x h] eqn:E.
  destruct (server_seal_inv _ _ _ _ E Hi) as [Hi' Hst].
  assert (hs_selected_version h = hs_selected_version (cn_handshake c)) as Hv.
  { revert E. unfold server_seal. repeat split_match; intros [= <- <-]; done. }
  destruct x as [f|].
  - intros [= <- <- <-].
    assert (∀ c0 : Connection, c0 = (if ca then with_state (with_handshake c h) ConnectionState.Closed
        else with_handshake c h) → cn_handshake c0 = h ∧ cn_session c0 = cn_session c
        ∧ cn_state c0 = if ca then ConnectionState.Closed else cn_state c) as Hc
      by (intros c0 ->; by destruct ca).
    destruct (Hc _ eq_refl) as (-> & -> & ->).
    split_and!; try done. left. exists f. split_and!; done.
  - intros H. apply (shutDown_owns base) in H as (-> & -> & ->); [|exact Ho].
    split_and!; try done. right. done.
Qed.

Lemma handleHello_owns base c m g frame r c' m' g' :
  conn_inv c → cn_state c = ConnectionState.AwaitingHello → owns base c m →
  handleHello c m g frame = Done (r, c', m', g') →
  conn_inv c' ∧ owns base c' m' ∧ m' = m.
Proof.
  intros [Hi Hst] Hs Ho. rewrite Hs in Hst. destruct Hst as [Hh Hn]. unfold handleHello.
  assert (conn_inv (with_state c ConnectionState.Closed)) as Hclosed by (by split).
  destruct (decodeFrame _ _) as [d|]; [|intros [= <- <- <- <-]; done].
  destruct (_ || _); [intros [= <- <- <- <-]; done|].
  intros ([[x h] g1] & Ha & Hr)%exec_bind_Done.
  assert (server_inv h) as Hi' by (by apply (server_step_inv (cn_handshake c)); [eapply SClientHello|]).
  destruct x as [resp|e]; injection Hr as <- <- <- <-; (split; [|done]); split; try done.
  split; [|done]. cbn.
  apply handleClientHello_Ok in Ha as (cl & se & ha & ke & ep & Han).
  by rewrite (an_server _ _ _ _ _ _ _ _ _ _ _ Han).
Qed.

Lemma authorizeRequest_owns fuel base c m g req t u msg e c' m' g' :
  cn_session c = None → owns base c m →
  authorizeRequest fuel c m g req t u = Done (msg, e, c', m', g') →
  cn_handshake c' = cn_handshake c ∧ cn_license c' = cn_license c ∧ owns base c' m'
  ∧ (e ≠ ConnectionError.None ∧ c' = c ∧ m' = m
     ∨ e = ConnectionError.None ∧ cn_state c' = ConnectionState.Active
       ∧ ∃ s, cn_session c' = Some s
              ∧ created m s m' (ls_product_id (cn_license c)) (cn_peer_identity c)
                  (ls_features (cn_license c)) (ls_expire_time (cn_license c)) t
                  (ls_max_sessions (cn_license c))
              ∧ az_product_id req = ls_product_id (cn_license c)
              ∧ licenseExpired (cn_license c) u = false).
Proof.
  intros Hn Ho. unfold authorizeRequest. unfold owns in Ho. rewrite Hn in Ho. subst m.
  destruct (negb _) eqn:E1.
  { intros [= <- <- <- <- <-]. unfold owns. rewrite Hn. split_and!; try done. by left. }
  destruct (licenseExpired _ u) eqn:E2.
  { intros [= <- <- <- <- <-]. unfold owns. rewrite Hn. split_and!; try done. by left. }
  intros ([[x m1] g1] & Hc & Hr)%exec_bind_Done. destruct x as [s|err].
  - injection Hr as <- <- <- <- <-. apply create_Ok in Hc as Hcr.
    split; [done|]. split; [done|]. unfold owns. cbn.
    split; [destruct Hcr; by eauto|]. right. split; [done|]. split; [done|].
    exists s. reflect_bools. done.
  - injection Hr as <- <- <- <- <-. apply create_Err in Hc as [-> _]. unfold owns. rewrite Hn.
    split_and!; try done. by left.
Qed.

(** A session appeared in the table: who asked for it, and with what right. *)
Definition grant (c : Connection) (m : SessionManager) (plaintext : bytes) (t u : Z)
    (c' : Connection) (m' : SessionManager) : Prop :=
  ∃ s req,
    decodeAuthorize plaintext = Done (Ok req)
    ∧ az_protocol_version req = hs_selected_version (cn_handshake c)
    ∧ az_product_id req = ls_product_id (cn_license c)
    ∧ licenseExpired (cn_license c) u = false
    ∧ cn_session c' = Some s ∧ cn_state c' = ConnectionState.Active
    ∧ created m s m' (ls_product_id (cn_license c)) (cn_peer_identity c)
        (ls_features (cn_license c)) (ls_expire_time (cn_license c)) t
        (ls_max_sessions (cn_license c)).

Lemma handleAuthorize_owns fuel base c m g plaintext t u r c' m' g' :
  conn_inv c → cn_state c = ConnectionState.AwaitingAuthorize → owns base c m →
  handleAuthorize fuel c m g plaintext t u = Done (r, c', m', g') →
  conn_inv c' ∧ owns base c' m' ∧ (m' = m ∨ grant c m plaintext t u c' m').
Proof.
  intros [Hi Hst] Hs Ho. rewrite Hs in Hst. destruct Hst as [Hh Hn]. unfold handleAuthorize.
  assert (conn_inv (with_state c ConnectionState.Closed)) as Hclosed by (by split).
  assert (m = base) as Hm by (unfold owns in Ho; by rewrite Hn in Ho).
  intros ([req|] & Hd & Hr)%exec_bind_Done; [|injection Hr as <- <- <- <-; by auto].
  destruct (negb _) eqn:Ev; [injection Hr as <- <- <- <-; by auto|]. reflect_bools.
  apply exec_bind_Done in Hr as ([[[[msg e] c1] m1] g1] & Ha & Hr).
  destruct (authorizeRequest_owns _ base _ _ _ _ _ _ _ _ _ _ _ Hn Ho Ha)
    as (Hch & Hcl & Ho1 & Hcase).
  assert (server_inv (cn_handshake c1)) as Hi1 by (by rewrite Hch).
  destruct (encodeAuthResult msg) as [enc|].
  - destruct (encryptedResponse c1 m1 enc _) as [[r1 c2] m2] eqn:Er. injection Hr as <- <- <- <-.
    destruct (encryptedResponse_spec base _ _ _ _ _ _ _ Ho1 Hi1 Er)
      as (Hi2 & Hst2 & Hv2 & [(f & _ & _ & _ & Hse2 & -> & Hs2)|(_ & Hse2 & -> & Hs2)]).
    + destruct Hcase as [(He & -> & ->)|(-> & Hact & s & Hses & Hcr & Hp & Hexp)].
      * rewrite bool_decide_eq_false_2 in Hs2 by done. cbn in Hs2. rewrite Hn in Hse2.
        split; [split; [done|by rewrite Hs2]|]. split; [|by left]. unfold owns. by rewrite Hse2.
      * rewrite bool_decide_eq_true_2 in Hs2 by done. cbn in Hs2. rewrite Hact in Hs2.
        split; [split; [done|]|split].
        -- rewrite Hs2, Hst2, Hch. split; [done|]. rewrite Hse2, Hses. eauto.
        -- unfold owns in *. by rewrite Hse2.
        -- right. exists s, req. rewrite Hse2. split_and!; done.
    + split; [split; [done|by rewrite Hs2]|]. split; [unfold owns; by rewrite Hse2|]. left. done.
  - destruct (shutDown c1 m1 _) as [[r1 c2] m2] eqn:Er. injection Hr as <- <- <- <-.
    apply (shutDown_owns base) in Er as (-> & -> & ->); [|done].
    split; [by apply closed_inv|]. split; [done|]. by left.
Qed.

Lemma acceptHeartbeat_owns base c m hb t os m' :
  owns base c m → acceptHeartbeat c m hb t = (os, m') →
  owns base c m'
  ∧ match os with
    | None => m' = m
    | Some s => cn_session c = Some s ∧ hb_session_id hb = se_id s
                ∧ hb_protocol_version hb = hs_selected_version (cn_handshake c)
                ∧ ∃ s', m !! se_id s = Some s' ∧ m' = <[se_id s := set_heartbeat t s']> m
    end.
Proof.
  intros Ho. unfold acceptHeartbeat. destruct (negb _) eqn:E1; [by intros [= <- <-]|].
  destruct (cn_session c) as [s|] eqn:Es; [|by intros [= <- <-]].
  destruct (negb (bool_decide _)) eqn:E2; [by intros [= <- <-]|]. reflect_bools.
  unfold heartbeat. destruct (m !! se_id s) as [s'|] eqn:El; [|by intros [= <- <-]].
  intros [= <- <-]. unfold owns in *. rewrite Es in *. destruct Ho as (Hb & s0 & ->).
  split; [|by eauto 8]. split; [done|]. eexists. by rewrite insert_insert_eq.
Qed.

Lemma handleActive_owns base c m plaintext t u r c' m' :
  conn_inv c → cn_state c = ConnectionState.Active → owns base c m →
  handleActive c m plaintext t u = Done (r, c', m') →
  conn_inv c' ∧ owns base c' m' ∧ (cn_session c' = None ∨ cn_session c' = cn_session c).
Proof.
  intros [Hi Hst] Hs Ho. rewrite Hs in Hst. destruct Hst as [Hh Hsome].
  unfold handleActive.
  assert (∀ m0 e r c' m', owns base c m0 → shutDown c m0 e = (r, c', m') →
    conn_inv c' ∧ owns base c' m' ∧ (cn_session c' = None ∨ cn_session c' = cn_session c)) as Hshut.
  { intros m0 e r0 c0 m1 Ho0 E. apply (shutDown_owns base) in E as (-> & -> & ->); [|done].
    split; [by apply closed_inv|]. split; [done|by left]. }
  intros ([hb|] & Hd & Hr)%exec_bind_Done.
  - destruct (acceptHeartbeat c m hb t) as [[s|] m1] eqn:Ea;
      destruct (acceptHeartbeat_owns base _ _ _ _ _ _ Ho Ea) as [Ho1 Hacc];
      [|injection Hr as Hr; by eapply Hshut].
    destruct (encodeHeartbeatAck _) as [enc|]; [|injection Hr as Hr; by eapply Hshut].
    destruct (licenseExpired (cn_license c) u) eqn:Eexp.
    + destruct (closeSession c m1) as [c1 m2] eqn:Ec.
      apply (closeSession_owns base) in Ec as [-> ->]; [|done].
      destruct (encryptedResponse _ base enc true) as [[r1 c2] m3] eqn:Er.
      injection Hr as <- <- <-.
      edestruct (encryptedResponse_spec base (with_session c None)) as (Hi2 & _ & _ & Hcase);
        [done|done|exact Er|].
      destruct Hcase as [(f & _ & _ & _ & Hse & -> & Hst2)|(_ & Hse & -> & Hst2)];
        (split; [split; [done|by rewrite Hst2]|split; [unfold owns; by rewrite Hse|by left]]).
    + injection Hr as Hr.
      edestruct (encryptedResponse_spec base c m1) as (Hi2 & Hh2 & _ & Hcase);
        [done|done|exact Hr|].
      destruct Hcase as [(f & _ & _ & _ & Hse & -> & Hst2)|(_ & Hse & -> & Hst2)].
      * split; [split; [done|]|split; [unfold owns in *; by rewrite Hse|by right]].
        rewrite Hst2, Hs, Hh2, Hse. done.
      * split; [split; [done|by rewrite Hst2]|split; [unfold owns; by rewrite Hse|by left]].
  - apply exec_bind_Done in Hr as ([cs|] & _ & Hr); [destruct (_ =? _)|];
      injection Hr as Hr; by eapply Hshut.
Qed.

(** Every call keeps the invariant and the ownership of the table entry; an
    entry appears only by a grant. *)
Lemma handle_owns fuel base c m g frame t u r c' m' g' :
  conn_inv c → owns base c m → handle fuel c m g frame t u = Done (r, c', m', g') →
  conn_inv c' ∧ owns base c' m'.
Proof.
  intros Hc Ho. unfold handle. destruct (cn_state c) eqn:Es.
  - intros Hh. destruct (handleHello_owns base _ _ _ _ _ _ _ _ Hc Es Ho Hh) as (? & ? & _). done.
  - pose proof Hc as [Hi Hst]. rewrite Es in Hst. destruct Hst as [Hh Hn].
    intros ([x h] & Hf & Hr)%exec_bind_Done.
    assert (server_inv h) as Hi'
      by (by apply (server_step_inv (cn_handshake c)); [eapply SClientFinished|]).
    destruct x as [[]|e]; injection Hr as <- <- <- <-; (split; [split; [done|]|done]); [|done].
    apply handleClientFinished_Ok in Hf as (p & rd & rd' & [_ _ _ _ ->]). done.
  - pose proof Hc as [Hi Hst]. rewrite Es in Hst. destruct Hst as [Hh Hn].
    destruct (server_open (cn_handshake c) frame) as [x h] eqn:Eo.
    destruct (server_open_inv _ _ _ _ Eo Hi) as [Hi' Hst'].
    destruct x as [p|]; cbn.
    + rewrite Es. rewrite bool_decide_eq_true_2 by done. intros Ha.
      eapply (handleAuthorize_owns fuel base) in Ha as (? & ? & _); [done| |done|done].
      split; [done|]. cbn. rewrite Es. split; [congruence|done].
    + destruct (shutDown _ m _) as [[r1 c1] m1] eqn:Er. intros [= <- <- <- <-].
      apply (shutDown_owns base) in Er as (-> & -> & ->); [|done]. split; [by apply closed_inv|done].
  - pose proof Hc as [Hi Hst]. rewrite Es in Hst. destruct Hst as [Hh Hn].
    destruct (server_open (cn_handshake c) frame) as [x h] eqn:Eo.
    destruct (server_open_inv _ _ _ _ Eo Hi) as [Hi' Hst'].
    destruct x as [p|]; cbn.
    + rewrite Es. rewrite bool_decide_eq_false_2 by done.
      intros ([[r1 c1] m1] & Ha & Hr)%exec_bind_Done. injection Hr as <- <- <- <-.
      eapply (handleActive_owns base) in Ha as (? & ? & _); [done| |done|done].
      split; [done|]. cbn. rewrite Es. split; [congruence|done].
    + destruct (shutDown _ m _) as [[r1 c1] m1] eqn:Er. intros [= <- <- <- <-].
      apply (shutDown_owns base) in Er as (-> & -> & ->); [|done]. split; [by apply closed_inv|done].
  - intros [= <- <- <- <-]. done.
Qed.

(** ** Whole connections *)

(** A connection that handles frames, each with the two clock readings. *)
Inductive conn_run (fuel : nat)
  : Connection * SessionManager * cr_rng → list (bytes * Z * Z) →
    Connection * SessionManager * cr_rng → Prop :=
| ConnNil st : conn_run fuel st [] st
| ConnCons c m g frame t u r c1 m1 g1 frames st :
    handle fuel c m g frame t u = Done (r, c1, m1, g1) →
    conn_run fuel (c1, m1, g1) frames st →
    conn_run fuel (c, m, g) ((frame, t, u) :: frames) st.

Lemma run_owns fuel base st frames st' :
  conn_run fuel st frames st' → conn_inv st.1.1 → owns base st.1.1 st.1.2 →
  conn_inv st'.1.1 ∧ owns base st'.1.1 st'.1.2.
Proof.
  induction 1 as [st|c m g frame t u r c1 m1 g1 frames st Hh _ IH]; [done|]. cbn in *.
  intros Hc Ho. destruct (handle_owns _ base _ _ _ _ _ _ _ _ _ _ Hc Ho Hh). auto.
Qed.

Lemma run_owns_state fuel base c m g frames c' m' g' :
  conn_run fuel (c, m, g) frames (c', m', g') → conn_inv c → owns base c m →
  conn_inv c' ∧ owns base c' m'.
Proof. intros Hr. exact (run_owns fuel base _ _ _ Hr). Qed.

Lemma conn_run_app fuel st xs st1 ys st2 :
  conn_run fuel st xs st1 → conn_run fuel st1 ys st2 → conn_run fuel st (xs ++ ys) st2.
Proof. induction 1; [done|]. intros. cbn. eapply ConnCons; eauto. Qed.

Lemma newConnection_inv kid key license peer hi ht :
  conn_inv (newConnection kid key license peer hi ht).
Proof. by split. Qed.

(** C20. A connection releases what it took: after any frames whatsoever it has
    added at most one entry to the session table, and when it is destroyed the
    table is exactly what it was before the connection. *)
Theorem connection_releases_session fuel kid key license peer hi ht m g frames c' m' g' :
  conn_run fuel (newConnection kid key license peer hi ht, m, g) frames (c', m', g') →
  conn_inv c'
  ∧ (m' = m ∨ ∃ s s', cn_session c' = Some s ∧ m !! se_id s = None ∧ m' = <[se_id s := s']> m)
  ∧ (closeSession c' m').2 = m.
Proof.
  intros Hr. destruct (run_owns _ m _ _ _ Hr) as [Hc Ho]; [apply newConnection_inv|done|].
  cbn in *. split; [done|]. split.
  - unfold owns in Ho. destruct (cn_session c') as [s|] eqn:E; [|by left].
    destruct Ho as (Hn & s' & ->). right. eauto.
  - destruct (closeSession c' m') as [c2 m2] eqn:E.
    by apply (closeSession_owns m) in E as [_ ->].
Qed.

(** C5. Sessions are only granted by right: if a frame makes a session appear
    that was not in the table, the connection was waiting for an
    authorization, its handshake was established, the frame opened under the
    session keys to a well-formed request for the licensed product in the
    negotiated version, the license had not expired and the product was below
    its session limit. *)
Theorem session_granted_by_right fuel base c m g frame t u r c' m' g' id s :
  conn_inv c → owns base c m → handle fuel c m g frame t u = Done (r, c', m', g') →
  m !! id = None → m' !! id = Some s →
  cn_state c = ConnectionState.AwaitingAuthorize
  ∧ hs_state (cn_handshake c) = HandshakeState.Established
  ∧ ∃ plaintext h, server_open (cn_handshake c) frame = (Ok plaintext, h)
    ∧ grant (with_handshake c h) m plaintext t u c' m'.
Proof.
  intros Hc Ho Hh Hn Hid.
  destruct (handle_owns _ base _ _ _ _ _ _ _ _ _ _ Hc Ho Hh) as [Hc' Ho'].
  assert (cn_session c' = None ∨ cn_session c' = cn_session c → False) as Hnew.
  { intros Hse. unfold owns in *. destruct Hse as [Hse|Hse]; rewrite Hse in Ho'.
    - subst m'. destruct (cn_session c) as [s0|]; [|congruence].
      destruct Ho as (_ & s' & ->). apply lookup_insert_None in Hn as [Hn _]. congruence.
    - destruct (cn_session c) as [s0|]; [|congruence].
      destruct Ho as (_ & s1 & ->), Ho' as (_ & s2 & ->).
      apply lookup_insert_None in Hn as [Hn Hne]. rewrite lookup_insert_ne in Hid by done. congruence. }
  pose proof Hc as [Hi Hst]. revert Hh. unfold handle. destruct (cn_state c) eqn:Es.
  - intros Hh. destruct (handleHello_owns base _ _ _ _ _ _ _ _ Hc Es Ho Hh) as (_ & _ & ->). congruence.
  - intros ([x h] & _ & Hr)%exec_bind_Done. exfalso.
    destruct x as [[]|]; injection Hr as <- <- <- <-; congruence.
  - destruct Hst as [Hhs Hse].
    destruct (server_open (cn_handshake c) frame) as [x h] eqn:Eo.
    destruct (server_open_inv _ _ _ _ Eo Hi) as [Hi' Hst']. destruct x as [p|]; cbn.
    + rewrite Es, bool_decide_eq_true_2 by done. intros Ha.
      eapply (handleAuthorize_owns fuel base) in Ha as (_ & _ & [->|Hg]); [congruence| | |done|done].
      * split; [done|]. split; [done|]. by exists p, h.
      * split; [done|]. cbn. rewrite Es. split; [congruence|done].
    + destruct (shutDown _ m _) as [[r1 c1] m1] eqn:Er. intros [= <- <- <- <-]. exfalso.
      apply (shutDown_owns base) in Er as (-> & -> & ->); [|done]. auto.
  - destruct Hst as [Hhs Hse]. intros Hh. exfalso. revert Hh.
    destruct (server_open (cn_handshake c) frame) as [x h] eqn:Eo.
    destruct (server_open_inv _ _ _ _ Eo Hi) as [Hi' Hst']. destruct x as [p|]; cbn.
    + rewrite Es, bool_decide_eq_false_2 by done.
      intros ([[r1 c1] m1] & Ha & Hr)%exec_bind_Done. injection Hr as <- <- <- <-.
      eapply (handleActive_owns base) in Ha as (_ & _ & Hcase); [by auto| |done|done].
      split; [done|]. cbn. rewrite Es. split; [congruence|done].
    + destruct (shutDown _ m _) as [[r1 c1] m1] eqn:Er. intros [= <- <- <- <-].
      apply (shutDown_owns base) in Er as (-> & -> & ->); [|done]. auto.
  - intros [= <- <- <- <-]. congruence.
Qed.

(** C40. A frame whose payload is a [ClientHello] envelope without a body makes
    the service dereference a null pointer: a peer that may connect needs no
    key for it. *)
Theorem null_hello_undefined fuel c m g frame t u d e :
  cn_state c = ConnectionState.AwaitingHello →
  hs_state (cn_handshake c) = HandshakeState.Initial →
  decodeFrame frame kDefaultMaxPayloadSize = Ok d →
  fh_flags (fd_header d) = 0 → fh_sequence (fd_header d) = 0 →
  checkedEnvelope (fd_payload d) = Some e →
  header_accepted MessageKind.ClientHello e = true → env_body e = None →
  handle fuel c m g frame t u = Undefined.
Proof.
  intros Hs Hh Hd Hf Hq Hc Ha Hb. unfold handle, handleHello. rewrite Hs, Hd, Hf, Hq. cbn.
  unfold handleClientHello. rewrite Hh. rewrite bool_decide_eq_true_2 by done. cbn.
  pose proof (null_body_undefined MessageKind.ClientHello _ _ Hc Ha Hb) as Hn.
  cbn in Hn. specialize (Hn ltac:(done)).
  by destruct (decodeClientHello (fd_payload d)).
Qed.
End ConnectionFacts.

(** ** Answers *)

Section Answers.
Context {C : CryptoApi} {CL : CryptoLaws C} {CA : CryptoAvailable C}.
Context {P : ProtocolBuffers} {PL : ProtocolBuffersLaws P}.

(** The service can still send: its record sequence is not exhausted. *)
Definition can_send (h : ServerHandshake) : Prop :=
  ∃ w, hs_writer h = Some w ∧ rw_next_sequence w ≠ UINT64_MAX.

Lemma server_seal_total h m p :
  server_inv h → hs_state h = HandshakeState.Established → can_send h →
  any_typed m → encodeAny m = Ok p → ∃ f h', server_seal h p = (Ok f, h').
Proof.
  intros Hi Hs (w & Hw & Hne) Hm He. unfold server_inv in Hi. rewrite Hs in Hi.
  destruct Hi as ((w0 & r0 & E & _ & Hwf & _) & _). destruct (encodeAny_size m p Hm He) as [Ho Hz].
  destruct (seal_total w p) as [f Hf]; [congruence|done| |].
  - split; [done|]. unfold kDefaultMaxPayloadSize, kTagSize. lia.
  - unfold server_seal. rewrite Hs, Hw, Hf. eauto.
Qed.

Definition heartbeatAck (h : ServerHandshake) (s : Session) (rid : Z) (expired : bool)
  : HeartbeatAckMessage :=
  mkHeartbeatAckMessage rid (hs_selected_version h)
    (if expired then AuthorizationState.Expired else AuthorizationState.Valid)
    (se_features s) (se_expire_time s).

Lemma heartbeatAck_encodes h s rid expired :
  in_width 64 rid → in_width 16 (hs_selected_version h) → in_width 64 (se_expire_time s) →
  rid ≠ 0 → hs_selected_version h ≠ 0 → validFeatures (se_features s) = true →
  any_typed (AnyHeartbeatAck (heartbeatAck h s rid expired))
  ∧ ∃ enc, encodeHeartbeatAck (heartbeatAck h s rid expired) = Ok enc.
Proof.
  intros Hr Hv He Hr0 Hv0 Hf. split; [done|]. unfold encodeHeartbeatAck. cbn.
  rewrite !(proj2 (Z.eqb_neq _ 0)) by done. rewrite Hf. destruct expired; cbn; eauto.
Qed.

(** A heartbeat for the connection's own session is answered: before the
    license expires with a [Valid] acknowledgement that renews the session,
    from the expiry on with an [Expired] one, after which the connection is
    closed and the session gone. *)
Theorem heartbeat_answered fuel base c m g frame t u plaintext h hb s :
  conn_inv c → owns base c m → cn_state c = ConnectionState.Active →
  cn_session c = Some s → is_Some (m !! se_id s) → octets plaintext →
  server_open (cn_handshake c) frame = (Ok plaintext, h) →
  decodeHeartbeat plaintext = Done (Ok hb) → hb_session_id hb = se_id s →
  hb_protocol_version hb = hs_selected_version (cn_handshake c) →
  validFeatures (se_features s) = true → in_width 64 (se_expire_time s) → can_send h →
  let expired := licenseExpired (cn_license c) u in
  ∃ f c' m' enc,
    handle fuel c m g frame t u
    = Done (mkConnectionResult (if expired then ConnectionError.LicenseExpired
                                else ConnectionError.None) (Some f) expired, c', m', g)
    ∧ encodeHeartbeatAck (heartbeatAck h s (hb_request_id hb) expired) = Ok enc
    ∧ (server_seal h enc).1 = Ok f
    ∧ if expired then cn_state c' = ConnectionState.Closed ∧ m' = base
      else cn_state c' = ConnectionState.Active
           ∧ ∃ s0, m !! se_id s = Some s0 ∧ m' = <[se_id s := set_heartbeat t s0]> m.
Proof.
  intros Hc Ho Hs Hse [s0 Hl] Hp Hop Hd Hid Hv Hf He Hcs expired.
  pose proof Hc as [Hi Hst]. rewrite Hs in Hst. destruct Hst as [Hh _].
  destruct (server_open_inv _ _ _ _ Hop Hi) as [Hi' Hh'].
  assert (hs_selected_version h = hs_selected_version (cn_handshake c)) as Hvh.
  { revert Hop. unfold server_open. repeat split_match; intros [= _ <-]; done. }
  destruct (decoded_Heartbeat plaintext hb Hp Hd) as [(Hr64 & Hv16 & _) Hok].
  assert (hb_request_id hb ≠ 0 ∧ hb_protocol_version hb ≠ 0) as [Hr0 Hv0].
  { revert Hok. unfold encodeHeartbeat. destruct (_ || _) eqn:E; [done|]. reflect_bools. done. }
  destruct (heartbeatAck_encodes h s (hb_request_id hb) expired) as [Hty [enc Henc]];
    [done|congruence|done|done|congruence|done|].
  destruct (server_seal_total h _ enc Hi' ltac:(congruence) Hcs Hty Henc) as (f & h2 & Hseal).
  unfold handle. rewrite Hs, Hop. cbn [cn_state with_handshake]. rewrite Hs.
  rewrite bool_decide_eq_false_2 by done. unfold handleActive. rewrite Hd. cbn [mbind exec_bind].
  unfold acceptHeartbeat. cbn [cn_handshake cn_session with_handshake].
  rewrite Hv, <- Hvh, Z.eqb_refl. cbn [negb]. rewrite Hse, Hid, bool_decide_eq_true_2 by done.
  cbn [negb]. unfold heartbeat. rewrite Hl. cbn [cn_license].
  fold expired. unfold heartbeatAck in *.
  cbn [cn_license cn_handshake with_handshake]. fold expired. rewrite Henc.
  destruct expired eqn:Eexp.
  - unfold closeSession. cbn [cn_session with_handshake]. rewrite Hse.
    unfold encryptedResponse. cbn [cn_handshake with_session with_handshake]. rewrite Hseal. cbn.
    exists f. eexists _, _, enc. split; [done|]. split; [done|].
    rewrite Hseal. split; [done|]. split; [done|].
    unfold owns in Ho. rewrite Hse in Ho. destruct Ho as (Hb & s1 & ->).
    rewrite insert_insert_eq. by rewrite delete_insert_id.
  - unfold encryptedResponse. cbn [cn_handshake with_handshake]. rewrite Hseal. cbn.
    exists f. eexists _, _, enc. split; [done|]. split; [done|].
    rewrite Hseal. split; [done|]. split; [done|]. by exists s0.
Qed.
(** The answer to a request that is granted. *)
Definition grantedResult (c : Connection) (s : Session) (rid : Z) : AuthResultMessage :=
  mkAuthResultMessage rid (hs_selected_version (cn_handshake c)) AuthorizationError.None
    (Some (se_id s)) (se_features s) (se_expire_time s)
    (cn_heartbeat_interval_ms c) (cn_heartbeat_timeout_ms c).

Lemma server_open_version h f r h' :
  server_open h f = (r, h') → hs_selected_version h' = hs_selected_version h
                              ∧ hs_writer h' = hs_writer h.
Proof. unfold server_open. repeat split_match; intros [= _ <-]; done. Qed.

(** A request with every right is granted. *)
Lemma authorize_granted fuel c m g frame t u plaintext h req s m' g' :
  conn_inv c → cn_state c = ConnectionState.AwaitingAuthorize →
  server_open (cn_handshake c) frame = (Ok plaintext, h) →
  decodeAuthorize plaintext = Done (Ok req) → az_request_id req ≠ 0 →
  in_width 64 (az_request_id req) → az_product_id req = ls_product_id (cn_license c) →
  az_protocol_version req = hs_selected_version (cn_handshake c) →
  hs_selected_version (cn_handshake c) ≠ 0 → in_width 16 (hs_selected_version (cn_handshake c)) →
  licenseExpired (cn_license c) u = false →
  create fuel m g (ls_product_id (cn_license c)) (cn_peer_identity c) (ls_features (cn_license c))
    (ls_expire_time (cn_license c)) t (ls_max_sessions (cn_license c)) = Done (Ok s, m', g') →
  validFeatures (ls_features (cn_license c)) = true → in_width 64 (ls_expire_time (cn_license c)) →
  in_width 32 (cn_heartbeat_interval_ms c) → in_width 32 (cn_heartbeat_timeout_ms c) → can_send h →
  ∃ f c' enc,
    handle fuel c m g frame t u
    = Done (mkConnectionResult ConnectionError.None (Some f) false, c', m', g')
    ∧ any_typed (AnyAuthResult (grantedResult c s (az_request_id req)))
    ∧ encodeAuthResult (grantedResult c s (az_request_id req)) = Ok enc
    ∧ server_seal h enc = (Ok f, cn_handshake c')
    ∧ cn_state c' = ConnectionState.Active ∧ cn_session c' = Some s.
Proof.
  intros Hc Hs Hop Hd Hr0 Hr64 Hp Hv Hv0 Hv16 Hexp Hcr Hf He Hhi Hht Hcs.
  pose proof Hc as [Hi Hst]. rewrite Hs in Hst. destruct Hst as [Hh _].
  destruct (server_open_inv _ _ _ _ Hop Hi) as [Hi' Hh'].
  destruct (server_open_version _ _ _ _ Hop) as [Hvh _].
  destruct (create_Ok _ _ _ _ _ _ _ _ _ _ _ _ Hcr) as [_ Hid Hse _ _ _ _].
  assert (any_typed (AnyAuthResult (grantedResult c s (az_request_id req)))) as Hty.
  { cbn. rewrite Hse. cbn. split_and!; try done; (congruence || by intros ? [= <-]). }
  assert (∃ enc, encodeAuthResult (grantedResult c s (az_request_id req)) = Ok enc) as [enc Henc].
  { unfold encodeAuthResult. cbn. rewrite !(proj2 (Z.eqb_neq _ 0)) by done.
    rewrite Hse. cbn. rewrite Hf. cbn. eauto. }
  destruct (server_seal_total h _ enc Hi' ltac:(congruence) Hcs Hty Henc) as (f & h2 & Hseal).
  unfold handle. rewrite Hs, Hop. cbn [cn_state with_handshake]. rewrite Hs.
  rewrite bool_decide_eq_true_2 by done. unfold handleAuthorize. rewrite Hd. cbn [mbind exec_bind].
  cbn [cn_handshake with_handshake]. rewrite Hv, <- Hvh, Z.eqb_refl. cbn [negb].
  unfold authorizeRequest. cbn [cn_license with_handshake cn_peer_identity cn_handshake].
  rewrite Hp, bool_decide_eq_true_2 by done. cbn [negb]. rewrite Hexp, Hcr. cbn [mbind exec_bind].
  unfold grantedResult in *. rewrite Hvh. cbn [cn_heartbeat_interval_ms cn_heartbeat_timeout_ms with_handshake].
  rewrite Henc. unfold encryptedResponse. cbn [cn_handshake with_state with_session with_handshake].
  rewrite Hseal, bool_decide_eq_true_2 by done. cbn. exists f. eexists _, enc. done.
Qed.
End Answers.

(** ** A concrete connection *)

Section Witnesses.
#[local] Existing Instance toy_crypto.
#[local] Existing Instance toy_buffers.

Definition demo_license : LicenseSnapshot :=
  mkLicenseSnapshot "L-1" "demo" "acme" 1000 1000 2000 LicenseType.Subscription ["export"] 1
    MachineMode.Unbound "".

Definition demo_connection : Connection :=
  newConnection "svc" (kp_private service_pair) demo_license "uid=1;gid=1;pid=7" 30000 90000.

(** The client side of the conversation, fed with the service's answers. *)
Definition demo_finished : bytes * ClientHandshake * Connection * cr_rng := Eval vm_compute in
  match handle 1 demo_connection ∅ (run_rng 22) (wrapPlaintext run_hello.1.1) 10 1500 with
  | Done (r, c, _, g) =>
      match cx_response r with
      | Some f =>
          match handleServerHello run_hello.1.2 (drop 20 f) with
          | Done (Ok fin, cl) => (fin, cl, c, g)
          | _ => ([], run_client, c, g)
          end
      | None => ([], run_client, c, g)
      end
  | _ => ([], run_client, demo_connection, run_rng 22)
  end.

Definition sealed_request (cl : ClientHandshake) (m : AnyMessage) : bytes * ClientHandshake :=
  match encodeAny m with
  | Ok p => match client_seal cl p with (Ok f, cl') => (f, cl') | (Err _, cl') => ([], cl') end
  | Err _ => ([], cl)
  end.

Definition demo_authorize : bytes * ClientHandshake := Eval vm_compute in
  sealed_request demo_finished.1.1.2 (AnyAuthorize (mkAuthorizeMessage 8 1 "demo" 7 0)).

Definition demo_frames : list (bytes * Z * Z) :=
  [(wrapPlaintext run_hello.1.1, 10, 1500); (demo_finished.1.1.1, 11, 1500)].

(** The connection when it waits for the authorization, and when it is active. *)
Definition demo_state := (ConnectionResult * Connection * SessionManager * @cr_rng toy_crypto)%type.
Definition done_or (d : demo_state) (x : exec demo_state) : demo_state :=
  match x with Done a => a | _ => d end.
Definition demo_default : demo_state :=
  (mkConnectionResult ConnectionError.Closed None true, demo_connection, ∅, run_rng 22).

Definition demo_waiting : demo_state := Eval vm_compute in
  done_or demo_default
    (handle 1 demo_finished.1.2 ∅ demo_finished.2 demo_finished.1.1.1 11 1500).

Definition demo_active : demo_state := Eval vm_compute in
  done_or demo_default
    (handle 1 demo_waiting.1.1.2 demo_waiting.1.2 demo_waiting.2 demo_authorize.1 12 1500).

Lemma demo_waiting_run :
  conn_run 1 (demo_connection, ∅, run_rng 22) demo_frames
    (demo_waiting.1.1.2, demo_waiting.1.2, demo_waiting.2).
Proof.
  assert (∃ r, handle 1 demo_connection ∅ (run_rng 22) (wrapPlaintext run_hello.1.1) 10 1500
               = Done (r, demo_finished.1.2, ∅, demo_finished.2)) as [r1 H1]
    by (eexists; vm_compute; reflexivity).
  assert (∃ r, handle 1 demo_finished.1.2 ∅ demo_finished.2 demo_finished.1.1.1 11 1500
               = Done (r, demo_waiting.1.1.2, demo_waiting.1.2, demo_waiting.2)) as [r2 H2]
    by (eexists; vm_compute; reflexivity).
  eapply ConnCons; [exact H1|]. eapply ConnCons; [exact H2|]. apply ConnNil.
Qed.

Lemma demo_active_step :
  handle 1 demo_waiting.1.1.2 demo_waiting.1.2 demo_waiting.2 demo_authorize.1 12 1500
  = Done (demo_active.1.1.1, demo_active.1.1.2, demo_active.1.2, demo_active.2).
Proof. vm_compute. reflexivity. Qed.

Lemma demo_waiting_owns :
  conn_inv demo_waiting.1.1.2 ∧ owns ∅ demo_waiting.1.1.2 demo_waiting.1.2.
Proof.
  apply (run_owns_state 1 ∅ _ _ _ _ _ _ _ demo_waiting_run); [apply newConnection_inv|reflexivity].
Qed.

Lemma demo_active_owns : conn_inv demo_active.1.1.2 ∧ owns ∅ demo_active.1.1.2 demo_active.1.2.
Proof.
  exact (handle_owns 1 ∅ _ _ _ _ _ _ _ _ _ _ (proj1 demo_waiting_owns) (proj2 demo_waiting_owns)
           demo_active_step).
Qed.

Lemma connection_releases_session_witness :
  ∃ c m g frames, conn_run 1 (demo_connection, ∅, run_rng 22) frames (c, m, g)
    ∧ cn_state c = ConnectionState.Active ∧ size m = 1%nat ∧ (closeSession c m).2 = ∅.
Proof.
  assert (conn_run 1 (demo_connection, ∅, run_rng 22) (demo_frames ++ [(demo_authorize.1, 12, 1500)])
            (demo_active.1.1.2, demo_active.1.2, demo_active.2)) as Hr.
  { eapply conn_run_app; [exact demo_waiting_run|].
    eapply ConnCons; [exact demo_active_step|]. apply ConnNil. }
  do 4 eexists. split; [exact Hr|]. split; [vm_compute; reflexivity|].
  split; [vm_compute; reflexivity|].
  exact (proj2 (proj2 (connection_releases_session 1 "svc" (kp_private service_pair) demo_license
    "uid=1;gid=1;pid=7" 30000 90000 ∅ (run_rng 22) _ _ _ _ Hr))).
Defined.

Definition demo_session : Session := Eval vm_compute in default (mkSession [] "" "" [] 0 0) (cn_session demo_active.1.1.2).

Lemma session_granted_by_right_witness :
  cn_state demo_waiting.1.1.2 = ConnectionState.AwaitingAuthorize
  ∧ hs_state (cn_handshake demo_waiting.1.1.2) = HandshakeState.Established
  ∧ ∃ plaintext h, server_open (cn_handshake demo_waiting.1.1.2) demo_authorize.1 = (Ok plaintext, h)
    ∧ grant (with_handshake demo_waiting.1.1.2 h) demo_waiting.1.2 plaintext 12 1500
        demo_active.1.1.2 demo_active.1.2.
Proof.
  refine (session_granted_by_right 1 ∅ _ _ _ _ _ _ _ _ _ _ (se_id demo_session) demo_session
    (proj1 demo_waiting_owns) (proj2 demo_waiting_owns) demo_active_step _ _);
    vm_compute; reflexivity.
Defined.

Lemma null_hello_undefined_witness :
  handle 1 demo_connection ∅ (run_rng 22) (wrapPlaintext null_hello) 10 1500 = Undefined.
Proof.
  eapply (null_hello_undefined 1 demo_connection ∅ (run_rng 22) (wrapPlaintext null_hello) 10 1500
    (mkFrameDecoded (mkFrameHeader 1 0 0 (zlen null_hello)) null_hello)
    (mkEnvelope 0 1 Message.ClientHello None)); try reflexivity; vm_compute; reflexivity.
Defined.

(** A heartbeat after the authorization, before and after the expiry. *)
Definition demo_heartbeat : bytes := Eval vm_compute in
  (sealed_request demo_authorize.2
     (AnyHeartbeat (mkHeartbeatMessage 9 1 (se_id demo_session)))).1.

Definition demo_plaintext : bytes := Eval vm_compute in
  match encodeAny (AnyHeartbeat (mkHeartbeatMessage 9 1 (se_id demo_session))) with
  | Ok p => p | Err _ => []
  end.

Lemma heartbeat_answered_witness :
  ∃ f c' m', handle 1 demo_active.1.1.2 demo_active.1.2 demo_active.2 demo_heartbeat 100 2000
    = Done (mkConnectionResult ConnectionError.LicenseExpired (Some f) true, c', m', demo_active.2)
    ∧ cn_state c' = ConnectionState.Closed ∧ m' = ∅.
Proof.
  destruct demo_active_owns as [Hi Ho].
  destruct (heartbeat_answered 1 ∅ demo_active.1.1.2 demo_active.1.2 demo_active.2 demo_heartbeat
    100 2000 demo_plaintext (server_open (cn_handshake demo_active.1.1.2) demo_heartbeat).2
    (mkHeartbeatMessage 9 1 (se_id demo_session)) demo_session Hi Ho) as (f & c' & m' & enc & H & _ & _ & Hs).
  - vm_compute. reflexivity.
  - vm_compute. reflexivity.
  - eexists. vm_compute. reflexivity.
  - apply small_octets. vm_compute. reflexivity.
  - vm_compute. reflexivity.
  - vm_compute. reflexivity.
  - reflexivity.
  - vm_compute. reflexivity.
  - vm_compute. reflexivity.
  - replace (se_expire_time demo_session) with 2000 by (vm_compute; reflexivity).
    unfold in_width. lia.
  - unfold can_send. eexists. split; [vm_compute; reflexivity|]. vm_compute. discriminate.
  - assert (licenseExpired (cn_license demo_active.1.1.2) 2000 = true) as E
      by (vm_compute; reflexivity).
    rewrite E in H, Hs. exists f, c', m'. split; [exact H|exact Hs].
Defined.
End Witnesses.
