(* ===== verification/Transport.v ===== *)
(** * Transport: the byte stream the service and the SDK talk over

    Models [src/ya_license_transport/include/yoauthorize/transport/transport.h]:
    status codes, deadlines and the abstract class [ITransport] as a typeclass.
    The service and the SDK are modelled against it; [UnixSocket.v] models the
    implementation.

    [tr_state] is everything behind the interface: the stream, its peer and
    the steady clock.  A deadline is a reading of that clock in nanoseconds. *)

From S2P Require Import Prelude.

Module StatusCode.
Inductive StatusCode := Ok | Timeout | EndOfFile | Canceled | InvalidArgument | SystemError.
End StatusCode.
Abbreviation StatusCode := StatusCode.StatusCode.

#[global] Instance StatusCode_eq_dec : EqDecision StatusCode.
Proof. solve_decision. Defined.

Record TransportStatus := mkTransportStatus {
  ts_code : StatusCode;
  ts_system_error : Z;
}.

#[global] Instance TransportStatus_eq_dec : EqDecision TransportStatus.
Proof. solve_decision. Defined.

Definition success : TransportStatus := mkTransportStatus StatusCode.Ok 0.

(** [explicit operator bool] *)
Definition status_ok (s : TransportStatus) : bool := bool_decide (ts_code s = StatusCode.Ok).

Abbreviation Deadline := Z.

Class ITransport := {
  tr_state : Type;
  tr_now : tr_state → Z;
  tr_connect : Deadline → tr_state → TransportStatus * tr_state;
  (* the bytes read fill the whole span, or there is an error *)
  tr_readExact : Z → Deadline → tr_state → result TransportStatus bytes * tr_state;
  tr_writeAll : bytes → Deadline → tr_state → TransportStatus * tr_state;
  tr_close : tr_state → tr_state;
}.

(** What the callers rely on: a read that succeeds returns as many octets as
    were asked for. *)
Class ITransportLaws (T : ITransport) := {
  readExact_exact n d st bs st' :
    0 <= n → tr_readExact n d st = (Ok bs, st') → zlen bs = n ∧ octets bs;
}.

(** [std::chrono::steady_clock::now() + timeout] *)
Definition deadlineAfter `{ITransport} (st : tr_state) (milliseconds : Z) : Deadline :=
  tr_now st + milliseconds * 1000000.
