(* ===== verification/Program.v ===== *)
(** * Program: code that acts on an outside world

    Wrappers around system calls, OpenSSL objects and message sockets thread a
    state that belongs to code outside the repository.  [prog S] is the monad
    of such code over a state [S]; [wp] is its program logic, for partial
    correctness ([total := False]) and for total correctness ([total := True])
    at once.  In both, a run that satisfies [wp] is never [Undefined]. *)

From S2P Require Import Prelude.

Definition prog (S A : Type) : Type := S → exec (A * S).

#[global] Instance prog_mret {S} : MRet (prog S) := fun _ a s => Done (a, s).
#[global] Instance prog_mbind {S} : MBind (prog S) := fun _ _ f m s =>
  match m s with
  | Done (a, s') => f a s'
  | Undefined => Undefined
  | Running => Running
  end.

Definition call {S A} (f : S → A * S) : prog S A := fun s => Done (f s).
Definition effect {S} (f : S → S) : prog S () := fun s => Done ((), f s).
Definition observe {S A} (f : S → A) : prog S A := fun s => Done (f s, s).

(** A call whose behaviour is undefined on some arguments. *)
Definition attempt {S A} (f : S → option (A * S)) : prog S A := fun s =>
  match f s with Some r => Done r | None => Undefined end.

(** An access that must stay inside a buffer. *)
Definition must {S} (condition : bool) : prog S () := fun s =>
  if condition then Done ((), s) else Undefined.

(** A computation that does not touch the world. *)
Definition produce {S A} (e : exec A) : prog S A := fun s =>
  match e with Done a => Done (a, s) | Undefined => Undefined | Running => Running end.

(** What can be observed of a run that ends. *)
Definition outcome {A B} (f : A → B) (e : exec A) : option B :=
  match e with Done a => Some (f a) | _ => None end.

Lemma outcome_run {A B} (f : A → B) (e : exec A) b :
  outcome f e = Some b → ∃ a, e = Done a ∧ f a = b.
Proof. destruct e; cbn; [|done..]. intros [= <-]. eauto. Qed.

Definition wp {S} (total : Prop) {A} (m : prog S A) (s : S) (Q : A → S → Prop) : Prop :=
  match m s with
  | Done (a, s') => Q a s'
  | Undefined => False
  | Running => ¬ total
  end.

Section Logic.
Context {S : Type}.
Implicit Types (s : S) (total : Prop).

Lemma wp_ret total {A} (a : A) s (Q : A → S → Prop) : Q a s → wp total (mret a) s Q.
Proof. done. Qed.

Lemma wp_bind total {A B} (m : prog S A) (f : A → prog S B) s Q :
  wp total m s (fun a s' => wp total (f a) s' Q) → wp total (m ≫= f) s Q.
Proof. unfold wp, mbind, prog_mbind. cbn. by destruct (m s) as [[a s']| |]. Qed.

Lemma wp_mono total {A} (m : prog S A) s (Q R : A → S → Prop) :
  wp total m s Q → (∀ a s', Q a s' → R a s') → wp total m s R.
Proof. unfold wp. destruct (m s) as [[a s']| |]; auto. Qed.

Lemma wp_call total {A} (f : S → A * S) s (Q : A → S → Prop) :
  Q (f s).1 (f s).2 → wp total (call f) s Q.
Proof. unfold wp, call. by destruct (f s). Qed.

Lemma wp_effect total (f : S → S) s (Q : () → S → Prop) :
  Q () (f s) → wp total (effect f) s Q.
Proof. done. Qed.

Lemma wp_observe total {A} (f : S → A) s (Q : A → S → Prop) :
  Q (f s) s → wp total (observe f) s Q.
Proof. done. Qed.

Lemma wp_attempt total {A} (f : S → option (A * S)) s (Q : A → S → Prop) a s' :
  f s = Some (a, s') → Q a s' → wp total (attempt f) s Q.
Proof. intros E HQ. unfold wp, attempt. by rewrite E. Qed.

Lemma wp_must total c s (Q : () → S → Prop) : c = true → Q () s → wp total (must c) s Q.
Proof. by intros ->. Qed.

(** What holds of every run, and the run that total correctness gives. *)
Lemma wp_partial {A} (m : prog S A) s Q a s' : wp False m s Q → m s = Done (a, s') → Q a s'.
Proof. unfold wp. intros H E. by rewrite E in H. Qed.

Lemma wp_total {A} (m : prog S A) s Q : wp True m s Q → ∃ a s', m s = Done (a, s') ∧ Q a s'.
Proof. unfold wp. destruct (m s) as [[a s']| |]; naive_solver. Qed.
End Logic.

(** ** Handles

    A number that is not in use, for the concrete worlds. *)

Definition unused (s : gset Z) : Z := 1 + set_fold Z.max 0 s.

Lemma unused_fresh s : (unused s ∉ s) ∧ unused s ≠ 0.
Proof.
  assert (0 < unused s ∧ ∀ c, c ∈ s → c < unused s) as [Hp H].
  { unfold unused.
    apply (set_fold_ind_L (fun n (X : gset Z) => 0 < 1 + n ∧ ∀ c, c ∈ X → c < 1 + n)); [set_solver by lia|].
    intros x X n Hx [IHp IH]. split; [lia|].
    intros c [->%elem_of_singleton|Hc]%elem_of_union; [lia|]. specialize (IH c Hc). lia. }
  split; [|lia]. intros Hc. specialize (H _ Hc). lia.
Qed.
