(* ===== verification/Evp.v ===== *)
(** * Evp: OpenSSL objects behind pointers

    [src/ya_utils/yautils.cpp] calls OpenSSL through pointers to objects it has
    to free.  [Evp] is the interface it uses: each call takes the state behind
    OpenSSL and returns its value, or nothing where its behaviour would be
    undefined.  [EvpLaws] is what the code relies on: a ghost [View] of the
    objects that exist, when a call is defined, and how it changes the view.
    [ToyEvp.v] is a concrete instance.

    A call returns the [int] of the C function together with the bytes it wrote
    to the caller's buffer; the caller checks that they fit. *)

From S2P Require Import Prelude Program.

Abbreviation ptr := Z.

(** [EVP_PKEY_RSA], [EVP_PKEY_DSA] *)
Inductive KeyType := KeyRSA | KeyDSA.
(** [EVP_aes_256_cbc()], [EVP_des_cbc()] *)
Inductive Cipher := aes_256_cbc | des_cbc.
(** [EVP_md5()], [EVP_sha256()] *)
Inductive Digest := md5 | sha256.

#[global] Instance KeyType_eq_dec : EqDecision KeyType.
Proof. solve_decision. Defined.
#[global] Instance Cipher_eq_dec : EqDecision Cipher.
Proof. solve_decision. Defined.
#[global] Instance Digest_eq_dec : EqDecision Digest.
Proof. solve_decision. Defined.

(** ** The calls *)

Class Evp := {
  e_state : Type;
  EVP_CIPHER_block_size : Cipher → Z;
  EVP_MD_size : Digest → Z;
  EVP_CIPHER_CTX_new : e_state → option ptr * e_state;
  EVP_CIPHER_CTX_free : option ptr → e_state → option (() * e_state);
  (* the memory at [key.data()] and [iv.data()] *)
  EVP_EncryptInit_ex : ptr → Cipher → bytes → bytes → e_state → option (Z * e_state);
  EVP_EncryptUpdate : ptr → bytes → Z → e_state → option ((Z * bytes) * e_state);
  EVP_EncryptFinal_ex : ptr → e_state → option ((Z * bytes) * e_state);
  EVP_DecryptInit_ex : ptr → Cipher → bytes → bytes → e_state → option (Z * e_state);
  EVP_DecryptUpdate : ptr → bytes → Z → e_state → option ((Z * bytes) * e_state);
  EVP_DecryptFinal_ex : ptr → e_state → option ((Z * bytes) * e_state);
  EVP_MD_CTX_new : e_state → option ptr * e_state;
  EVP_MD_CTX_free : option ptr → e_state → option (() * e_state);
  EVP_DigestInit_ex : ptr → Digest → e_state → option (Z * e_state);
  EVP_DigestUpdate : ptr → bytes → e_state → option (Z * e_state);
  EVP_DigestFinal_ex : ptr → e_state → option ((Z * bytes) * e_state);
  (* [BIO_new(BIO_s_mem())] *)
  BIO_new_mem : e_state → option ptr * e_state;
  (* the memory and the length passed *)
  BIO_new_mem_buf : bytes → Z → e_state → option (option ptr * e_state);
  BIO_free : option ptr → e_state → option (() * e_state);
  BIO_read : ptr → Z → e_state → option ((Z * bytes) * e_state);
  EVP_PKEY_CTX_new_id : KeyType → e_state → option ptr * e_state;
  EVP_PKEY_CTX_new : ptr → e_state → option (option ptr * e_state);
  EVP_PKEY_CTX_free : option ptr → e_state → option (() * e_state);
  EVP_PKEY_free : option ptr → e_state → option (() * e_state);
  EVP_PKEY_keygen_init : ptr → e_state → option (Z * e_state);
  EVP_PKEY_CTX_set_rsa_keygen_bits : ptr → Z → e_state → option (Z * e_state);
  EVP_PKEY_CTX_set_dsa_paramgen_bits : ptr → Z → e_state → option (Z * e_state);
  (* the key is stored on success *)
  EVP_PKEY_keygen : ptr → e_state → option ((Z * option ptr) * e_state);
  PEM_write_bio_PUBKEY : ptr → ptr → e_state → option (Z * e_state);
  PEM_write_bio_PrivateKey : ptr → ptr → e_state → option (Z * e_state);
  PEM_read_bio_PUBKEY : option ptr → e_state → option (option ptr * e_state);
  PEM_read_bio_PrivateKey : option ptr → e_state → option (option ptr * e_state);
  EVP_PKEY_encrypt_init : ptr → e_state → option (Z * e_state);
  (* with no output buffer the length it would need, with one what is written *)
  EVP_PKEY_encrypt_size : ptr → bytes → e_state → option ((Z * Z) * e_state);
  EVP_PKEY_encrypt : ptr → bytes → e_state → option ((Z * bytes) * e_state);
  EVP_PKEY_decrypt_init : ptr → e_state → option (Z * e_state);
  EVP_PKEY_decrypt_size : ptr → bytes → e_state → option ((Z * Z) * e_state);
  EVP_PKEY_decrypt : ptr → bytes → e_state → option ((Z * bytes) * e_state);
  EVP_DigestSignInit : ptr → Digest → ptr → e_state → option (Z * e_state);
  EVP_DigestSignUpdate : ptr → bytes → e_state → option (Z * e_state);
  EVP_DigestSignFinal_size : ptr → e_state → option ((Z * Z) * e_state);
  EVP_DigestSignFinal : ptr → e_state → option ((Z * bytes) * e_state);
  EVP_DigestVerifyInit : ptr → Digest → ptr → e_state → option (Z * e_state);
  EVP_DigestVerifyUpdate : ptr → bytes → e_state → option (Z * e_state);
  EVP_DigestVerifyFinal : ptr → bytes → e_state → option (Z * e_state);
}.

(** ** The objects *)

(** What a cipher context has been told and has given out. *)
Record CipherJob := mkCipherJob {
  cj_encrypts : bool;
  cj_cipher : Cipher;
  cj_key : bytes;
  cj_iv : bytes;
  cj_fed : bytes;
  cj_emitted : bytes;
}.

Section Objects.
Context {Key : Type}.

Inductive DigestJob :=
| Hashing (md : Digest) (fed : bytes)
| Signing (md : Digest) (key : Key) (fed : bytes)
| Verifying (md : Digest) (key : Key) (fed : bytes).

Inductive KeyJob :=
| Generating (bits : option Z)
| Encrypting
| Decrypting.

Inductive Obj :=
| CipherCtx (job : option CipherJob)
| MdCtx (job : option DigestJob)
| MemBio (contents : bytes)
(* a key, with or without its private part *)
| PKey (type : KeyType) (key : Key) (is_private : bool)
| PKeyCtx (type : KeyType) (key : option (Key * bool)) (job : option KeyJob).
End Objects.
Arguments DigestJob : clear implicits.
Arguments Obj : clear implicits.

(** ** What the code relies on *)

Definition block_length (c : Cipher) : Z := match c with aes_256_cbc => 16 | des_cbc => 8 end.
Definition key_length (c : Cipher) : Z := match c with aes_256_cbc => 32 | des_cbc => 8 end.
Definition iv_length (c : Cipher) : Z := match c with aes_256_cbc => 16 | des_cbc => 8 end.
Definition md_length (d : Digest) : Z := match d with md5 => 16 | sha256 => 32 end.

Inductive Kind := KCipherCtx | KMdCtx | KBio | KPKey | KPKeyCtx.

Definition kind {Key} (o : Obj Key) : Kind :=
  match o with
  | CipherCtx _ => KCipherCtx
  | MdCtx _ => KMdCtx
  | MemBio _ => KBio
  | PKey _ _ _ => KPKey
  | PKeyCtx _ _ _ => KPKeyCtx
  end.

Definition start_job (encrypts : bool) (c : Cipher) (key iv : bytes) : CipherJob :=
  mkCipherJob encrypts c (take (Z.to_nat (key_length c)) key)
    (take (Z.to_nat (iv_length c)) iv) [] [].

Definition feed (j : CipherJob) (data out : bytes) : CipherJob :=
  mkCipherJob (cj_encrypts j) (cj_cipher j) (cj_key j) (cj_iv j)
    (cj_fed j ++ data) (cj_emitted j ++ out).

(** Return values: 1 for success; 0, or 0 or negative, for failure. *)
Definition is_zero (r : Z) : Prop := r = 0.
Definition not_positive (r : Z) : Prop := r <= 0.

Class EvpLaws (E : Evp) := {
  Key : Type;
  e_view : e_state → gmap ptr (Obj Key);
  (* no call will fail for lack of resources *)
  healthy : e_state → Prop;
  (* the algorithms *)
  cipher_encrypt : Cipher → bytes → bytes → bytes → bytes;
  cipher_decrypt : Cipher → bytes → bytes → bytes → option bytes;
  digest : Digest → bytes → bytes;
  pem_public : KeyType → Key → bytes;
  pem_private : KeyType → Key → bytes;
  pem_limit : nat;
  (* the longest plaintext and the longest output of a key *)
  key_limit : Key → Z;
  out_limit : Key → Z;
  encrypts_to : Key → bytes → bytes → Prop;
  verifies : Digest → Key → bytes → bytes → bool;
  (* a call that is defined, with its effect on the view *)
  served {A} (st : e_state) (r : option (A * e_state))
      (P : A → gmap ptr (Obj Key) → gmap ptr (Obj Key) → Prop) : Prop :=
    ∃ a st', r = Some (a, st') ∧ (healthy st → healthy st') ∧ P a (e_view st) (e_view st');
  (* a new object, or null *)
  created (st : e_state) (o : Obj Key) (why : Prop) (r : option (option ptr * e_state)) : Prop :=
    served st r (fun new v v' =>
      match new with
      | Some p => v !! p = None ∧ v' = <[p:=o]> v
      | None => v' = v ∧ (healthy st → why)
      end);
  (* a call on one object: it keeps its kind; [good] on success, [why] (or a
     lack of resources) on failure *)
  advanced {A} (st : e_state) (p : ptr) (code : A → Z) (fails : Z → Prop)
      (good : A → Obj Key → Prop) (why : Prop) (r : option (A * e_state)) : Prop :=
    served st r (fun a v v' => ∃ o o', v !! p = Some o ∧ kind o' = kind o ∧ v' = <[p:=o']> v
      ∧ ((code a = 1 ∧ good a o') ∨ (fails (code a) ∧ (healthy st → why))));
  (* freeing null does nothing *)
  freed (st : e_state) (k : Kind) (p : option ptr) (r : option (() * e_state)) : Prop :=
    (∀ q, p = Some q → ∃ o, e_view st !! q = Some o ∧ kind o = k) →
    served st r (fun _ v v' => v' = match p with Some q => delete q v | None => v end);
  law_block_size c : EVP_CIPHER_block_size c = block_length c;
  law_md_size d : EVP_MD_size d = md_length d;
  law_cipher_size c key iv p : zlen (cipher_encrypt c key iv p) <= zlen p + block_length c;
  law_cipher_inverse c key iv p : cipher_decrypt c key iv (cipher_encrypt c key iv p) = Some p;
  law_plain_size c key iv ct p : cipher_decrypt c key iv ct = Some p → zlen p <= zlen ct;
  law_digest_size d m : zlen (digest d m) = md_length d;
  law_pem_public t k : pem_public t k ≠ [] ∧ (length (pem_public t k) ≤ pem_limit)%nat
    ∧ zlen (pem_public t k) < 2 ^ 31;
  law_pem_private t k : pem_private t k ≠ [] ∧ (length (pem_private t k) ≤ pem_limit)%nat
    ∧ zlen (pem_private t k) < 2 ^ 31;
  law_out_limit k : 0 <= out_limit k;
  (* symmetric ciphers *)
  law_CIPHER_CTX_new st : created st (CipherCtx None) False (Some (EVP_CIPHER_CTX_new st));
  law_CIPHER_CTX_free p st : freed st KCipherCtx p (EVP_CIPHER_CTX_free p st);
  law_EncryptInit p j c key iv st : e_view st !! p = Some (CipherCtx j) →
    key_length c <= zlen key → iv_length c <= zlen iv →
    advanced st p id is_zero (fun _ o => o = CipherCtx (Some (start_job true c key iv))) False
      (EVP_EncryptInit_ex p c key iv st);
  (* the first data gives out a prefix of the ciphertext, the end the rest *)
  law_EncryptUpdate p j data n st : e_view st !! p = Some (CipherCtx (Some j)) →
    cj_encrypts j = true → cj_fed j = [] → cj_emitted j = [] → 0 <= n <= zlen data →
    advanced st p fst is_zero (fun '(_, out) o =>
      o = CipherCtx (Some (feed j (take (Z.to_nat n) data) out))
      ∧ out `prefix_of`
          cipher_encrypt (cj_cipher j) (cj_key j) (cj_iv j) (take (Z.to_nat n) data)) False
      (EVP_EncryptUpdate p data n st);
  law_EncryptFinal p j st : e_view st !! p = Some (CipherCtx (Some j)) → cj_encrypts j = true →
    cj_emitted j `prefix_of` cipher_encrypt (cj_cipher j) (cj_key j) (cj_iv j) (cj_fed j) →
    advanced st p fst is_zero (fun '(_, out) _ =>
      cj_emitted j ++ out = cipher_encrypt (cj_cipher j) (cj_key j) (cj_iv j) (cj_fed j)) False
      (EVP_EncryptFinal_ex p st);
  law_DecryptInit p j c key iv st : e_view st !! p = Some (CipherCtx j) →
    key_length c <= zlen key → iv_length c <= zlen iv →
    advanced st p id is_zero (fun _ o => o = CipherCtx (Some (start_job false c key iv))) False
      (EVP_DecryptInit_ex p c key iv st);
  law_DecryptUpdate p j data n st : e_view st !! p = Some (CipherCtx (Some j)) →
    cj_encrypts j = false → cj_fed j = [] → cj_emitted j = [] → 0 <= n <= zlen data →
    advanced st p fst is_zero (fun '(_, out) o =>
      o = CipherCtx (Some (feed j (take (Z.to_nat n) data) out)) ∧ zlen out <= n
      ∧ ∀ m, cipher_decrypt (cj_cipher j) (cj_key j) (cj_iv j) (take (Z.to_nat n) data) = Some m →
          out `prefix_of` m) False
      (EVP_DecryptUpdate p data n st);
  law_DecryptFinal p j st : e_view st !! p = Some (CipherCtx (Some j)) → cj_encrypts j = false →
    (∀ m, cipher_decrypt (cj_cipher j) (cj_key j) (cj_iv j) (cj_fed j) = Some m →
       cj_emitted j `prefix_of` m) →
    advanced st p fst is_zero (fun '(_, out) _ =>
      cipher_decrypt (cj_cipher j) (cj_key j) (cj_iv j) (cj_fed j) = Some (cj_emitted j ++ out))
      (cipher_decrypt (cj_cipher j) (cj_key j) (cj_iv j) (cj_fed j) = None)
      (EVP_DecryptFinal_ex p st);
  (* digests and signatures *)
  law_MD_CTX_new st : created st (MdCtx None) False (Some (EVP_MD_CTX_new st));
  law_MD_CTX_free p st : freed st KMdCtx p (EVP_MD_CTX_free p st);
  law_DigestInit p j d st : e_view st !! p = Some (MdCtx j) →
    advanced st p id is_zero (fun _ o => o = MdCtx (Some (Hashing d []))) False
      (EVP_DigestInit_ex p d st);
  law_DigestUpdate p d fed data st : e_view st !! p = Some (MdCtx (Some (Hashing d fed))) →
    advanced st p id is_zero (fun _ o => o = MdCtx (Some (Hashing d (fed ++ data)))) False
      (EVP_DigestUpdate p data st);
  law_DigestFinal p d fed st : e_view st !! p = Some (MdCtx (Some (Hashing d fed))) →
    advanced st p fst is_zero (fun '(_, out) _ => out = digest d fed) False
      (EVP_DigestFinal_ex p st);
  law_SignInit p j d q t k st : e_view st !! p = Some (MdCtx j) →
    e_view st !! q = Some (PKey t k true) →
    advanced st p id is_zero (fun _ o => o = MdCtx (Some (Signing d k []))) False
      (EVP_DigestSignInit p d q st);
  law_SignUpdate p d k fed data st : e_view st !! p = Some (MdCtx (Some (Signing d k fed))) →
    advanced st p id is_zero (fun _ o => o = MdCtx (Some (Signing d k (fed ++ data)))) False
      (EVP_DigestSignUpdate p data st);
  law_SignFinal_size p d k fed st : e_view st !! p = Some (MdCtx (Some (Signing d k fed))) →
    advanced st p fst is_zero (fun '(_, n) o =>
      n = out_limit k ∧ o = MdCtx (Some (Signing d k fed))) False (EVP_DigestSignFinal_size p st);
  law_SignFinal p d k fed st : e_view st !! p = Some (MdCtx (Some (Signing d k fed))) →
    advanced st p fst is_zero (fun '(_, out) _ =>
      zlen out <= out_limit k ∧ verifies d k fed out = true) False (EVP_DigestSignFinal p st);
  law_VerifyInit p j d q t k b st : e_view st !! p = Some (MdCtx j) →
    e_view st !! q = Some (PKey t k b) →
    advanced st p id is_zero (fun _ o => o = MdCtx (Some (Verifying d k []))) False
      (EVP_DigestVerifyInit p d q st);
  law_VerifyUpdate p d k fed data st : e_view st !! p = Some (MdCtx (Some (Verifying d k fed))) →
    advanced st p id is_zero (fun _ o => o = MdCtx (Some (Verifying d k (fed ++ data)))) False
      (EVP_DigestVerifyUpdate p data st);
  law_VerifyFinal p d k fed sig st : e_view st !! p = Some (MdCtx (Some (Verifying d k fed))) →
    advanced st p id not_positive (fun _ _ => verifies d k fed sig = true)
      (verifies d k fed sig = false) (EVP_DigestVerifyFinal p sig st);
  (* memory buffers *)
  law_BIO_new_mem st : created st (MemBio []) False (Some (BIO_new_mem st));
  law_BIO_new_mem_buf data n st : 0 <= n <= zlen data →
    created st (MemBio (take (Z.to_nat n) data)) (data = []) (BIO_new_mem_buf data n st);
  law_BIO_free p st : freed st KBio p (BIO_free p st);
  law_BIO_read p c n st : e_view st !! p = Some (MemBio c) → 0 < n →
    served st (BIO_read p n st) (fun '(r, out) v v' =>
      if bool_decide (c = []) then r <= 0 ∧ v' = v
      else 0 < r <= n ∧ r = zlen out ∧ ∃ rest, c = out ++ rest ∧ v' = <[p:=MemBio rest]> v);
  (* keys *)
  law_PKEY_free p st : freed st KPKey p (EVP_PKEY_free p st);
  law_PKEY_CTX_free p st : freed st KPKeyCtx p (EVP_PKEY_CTX_free p st);
  law_PKEY_CTX_new_id t st : created st (PKeyCtx t None None) False (Some (EVP_PKEY_CTX_new_id t st));
  law_PKEY_CTX_new q t k b st : e_view st !! q = Some (PKey t k b) →
    created st (PKeyCtx t (Some (k, b)) None) False (EVP_PKEY_CTX_new q st);
  law_keygen_init p t j st : e_view st !! p = Some (PKeyCtx t None j) →
    advanced st p id not_positive (fun _ o => o = PKeyCtx t None (Some (Generating None))) False
      (EVP_PKEY_keygen_init p st);
  law_rsa_bits p b n st : e_view st !! p = Some (PKeyCtx KeyRSA None (Some (Generating b))) →
    advanced st p id not_positive (fun _ o => o = PKeyCtx KeyRSA None (Some (Generating (Some n))))
      (n < 512) (EVP_PKEY_CTX_set_rsa_keygen_bits p n st);
  (* a context for key generation may refuse this parameter *)
  law_dsa_bits p b n st : e_view st !! p = Some (PKeyCtx KeyDSA None (Some (Generating b))) →
    advanced st p id not_positive (fun _ o => o = PKeyCtx KeyDSA None (Some (Generating (Some n))))
      True (EVP_PKEY_CTX_set_dsa_paramgen_bits p n st);
  law_keygen p t b st : e_view st !! p = Some (PKeyCtx t None (Some (Generating b))) →
    served st (EVP_PKEY_keygen p st) (fun '(r, new) v v' =>
      (r = 1 ∧ ∃ q k, new = Some q ∧ v !! q = None ∧ v' = <[q:=PKey t k true]> v
                      ∧ (∀ n, t = KeyRSA → b = Some n → key_limit k = n / 8 - 11))
      ∨ (r <= 0 ∧ v' = v ∧ (healthy st → t ≠ KeyRSA)));
  law_write_public p c q t k b st : e_view st !! p = Some (MemBio c) →
    e_view st !! q = Some (PKey t k b) →
    advanced st p id is_zero (fun _ o => o = MemBio (c ++ pem_public t k)) False
      (PEM_write_bio_PUBKEY p q st);
  law_write_private p c q t k st : e_view st !! p = Some (MemBio c) →
    e_view st !! q = Some (PKey t k true) →
    advanced st p id is_zero (fun _ o => o = MemBio (c ++ pem_private t k)) False
      (PEM_write_bio_PrivateKey p q st);
  law_read_public p c st : e_view st !! p = Some (MemBio c) →
    served st (PEM_read_bio_PUBKEY (Some p) st) (fun new v v' => ∃ rest,
      match new with
      | None => v' = <[p:=MemBio rest]> v ∧ (healthy st → ∀ t k, c ≠ pem_public t k)
      | Some q => ∃ t k, v !! q = None ∧ v' = <[q:=PKey t k false]> (<[p:=MemBio rest]> v)
                         ∧ (∀ t' k', c = pem_public t' k' → t' = t ∧ k' = k)
      end);
  law_read_private p c st : e_view st !! p = Some (MemBio c) →
    served st (PEM_read_bio_PrivateKey (Some p) st) (fun new v v' => ∃ rest,
      match new with
      | None => v' = <[p:=MemBio rest]> v ∧ (healthy st → ∀ t k, c ≠ pem_private t k)
      | Some q => ∃ t k, v !! q = None ∧ v' = <[q:=PKey t k true]> (<[p:=MemBio rest]> v)
                         ∧ (∀ t' k', c = pem_private t' k' → t' = t ∧ k' = k)
      end);
  law_encrypt_init p t k j st : e_view st !! p = Some (PKeyCtx t (Some k) j) →
    advanced st p id not_positive (fun _ o => o = PKeyCtx t (Some k) (Some Encrypting))
      (t ≠ KeyRSA) (EVP_PKEY_encrypt_init p st);
  law_encrypt_size p t k b data st : e_view st !! p = Some (PKeyCtx t (Some (k, b)) (Some Encrypting)) →
    advanced st p fst not_positive (fun '(_, n) o =>
      n = out_limit k ∧ o = PKeyCtx t (Some (k, b)) (Some Encrypting))
      (key_limit k < zlen data) (EVP_PKEY_encrypt_size p data st);
  law_encrypt p t k b data st : e_view st !! p = Some (PKeyCtx t (Some (k, b)) (Some Encrypting)) →
    advanced st p fst not_positive (fun '(_, out) _ =>
      zlen out <= out_limit k ∧ encrypts_to k data out)
      (key_limit k < zlen data) (EVP_PKEY_encrypt p data st);
  law_decrypt_init p t k j st : e_view st !! p = Some (PKeyCtx t (Some k) j) →
    advanced st p id not_positive (fun _ o => o = PKeyCtx t (Some k) (Some Decrypting))
      (t ≠ KeyRSA) (EVP_PKEY_decrypt_init p st);
  law_decrypt_size p t k data st : e_view st !! p = Some (PKeyCtx t (Some (k, true)) (Some Decrypting)) →
    advanced st p fst not_positive (fun '(_, n) o =>
      n = out_limit k ∧ o = PKeyCtx t (Some (k, true)) (Some Decrypting))
      (∀ m, ¬ encrypts_to k m data) (EVP_PKEY_decrypt_size p data st);
  law_decrypt p t k data st : e_view st !! p = Some (PKeyCtx t (Some (k, true)) (Some Decrypting)) →
    advanced st p fst not_positive (fun '(_, out) _ =>
      zlen out <= out_limit k ∧ (∀ m, encrypts_to k m data → out = m))
      (∀ m, ¬ encrypts_to k m data) (EVP_PKEY_decrypt p data st);
}.

(** ** The calls in the program logic

    [v] is the view the caller knows; [H] a condition under which no call has
    failed for lack of resources so far. *)
Section Rules.
Context {E : Evp} {EL : EvpLaws E}.
Implicit Types (st : e_state) (v : gmap ptr (Obj Key)) (total H : Prop).

Lemma wp_served total {A} f st P H (Q : A → e_state → Prop) :
  (H → healthy st) → served st (f st) P →
  (∀ a st', (H → healthy st') → P a (e_view st) (e_view st') → Q a st') →
  wp total (attempt f) st Q.
Proof.
  intros Hh (a & st' & Hf & Hh' & HP) HQ. eapply wp_attempt; [done|]. apply HQ; auto.
Qed.

Lemma wp_created total f st v o why H (Q : option ptr → e_state → Prop) :
  (H → healthy st) → e_view st = v → created st o why (f st) →
  (∀ p st', (H → healthy st') → v !! p = None → e_view st' = <[p:=o]> v → Q (Some p) st') →
  (∀ st', (H → healthy st') → (H → why) → e_view st' = v → Q None st') →
  wp total (attempt f) st Q.
Proof.
  intros Hh <- Hc Hs Hn. eapply wp_served; [done..|]. intros [p|] st' Hh'; [naive_solver|].
  intros [? Hw]. apply Hn; auto.
Qed.

Lemma wp_new total f st v o H (Q : option ptr → e_state → Prop) :
  (H → healthy st) → e_view st = v → created st o False (Some (f st)) →
  (∀ p st', (H → healthy st') → v !! p = None → e_view st' = <[p:=o]> v → Q (Some p) st') →
  (∀ st', (H → healthy st') → ¬ H → e_view st' = v → Q None st') →
  wp total (call f) st Q.
Proof.
  intros Hh <- (a & st' & [= Hf] & Hh' & HP) Hs Hn. apply wp_call. rewrite Hf. cbn.
  destruct a as [p|]; [apply Hs|apply Hn]; naive_solver.
Qed.

Lemma wp_advanced total {A} f st v p (code : A → Z) fails good why H (Q : A → e_state → Prop) :
  (H → healthy st) → e_view st = v → advanced st p code fails good why (f st) →
  (∀ a st' o o', (H → healthy st') → code a = 1 → good a o' →
     v !! p = Some o → kind o' = kind o → e_view st' = <[p:=o']> v → Q a st') →
  (∀ a st' o o', (H → healthy st') → fails (code a) → (H → why) →
     v !! p = Some o → kind o' = kind o → e_view st' = <[p:=o']> v → Q a st') →
  wp total (attempt f) st Q.
Proof.
  intros Hh <- Ha Hs Hf. eapply wp_served; [done..|].
  intros a st' Hh' (o & o' & Ho & Hk & Hv & [[Hc Hg]|[Hc Hw]]).
  - by eapply Hs.
  - eapply Hf; eauto.
Qed.

Lemma wp_freed total f st v k p H (Q : () → e_state → Prop) :
  (H → healthy st) → e_view st = v → freed st k p (f st) →
  (∀ q, p = Some q → ∃ o, v !! q = Some o ∧ kind o = k) →
  (∀ st', (H → healthy st') → e_view st' = match p with Some q => delete q v | None => v end →
     Q () st') →
  wp total (attempt f) st Q.
Proof.
  intros Hh <- Hf Hl HQ. eapply wp_served; [done|by apply Hf|]. intros [] st' Hh'. auto.
Qed.
End Rules.
