(* ===== verification/ToyEvp.v ===== *)
(** * ToyEvp: a concrete OpenSSL for the legacy utilities

    An instance of [Evp] that runs: objects in a finite map, a cipher that pads
    and masks, keys that are their own size in bits.  It can be told at which
    call to run out of resources, and a call on a missing object, on an object
    of the wrong kind or with too little memory is undefined.  Nothing here is
    secure; it shows that the laws can hold and gives the theorems inputs. *)

From S2P Require Import Prelude Program Evp.

Abbreviation ToyObj := (Obj Z).

Record ToyState := mkToy {
  te_objects : gmap ptr ToyObj;
  (* the number of calls until one fails for lack of resources *)
  te_until : option nat;
}.

Definition toy_start : ToyState := mkToy ∅ None.

(** Does this call fail? *)
Definition tick (st : ToyState) : bool * ToyState :=
  match te_until st with
  | None => (false, st)
  | Some O => (true, mkToy (te_objects st) None)
  | Some (S n) => (false, mkToy (te_objects st) (Some n))
  end.

Definition set_object (p : ptr) (o : ToyObj) (st : ToyState) : ToyState :=
  mkToy (<[p:=o]> (te_objects st)) (te_until st).

Definition next_ptr (m : gmap ptr ToyObj) : ptr := 1 + map_fold (fun p _ n => Z.max p n) 0 m.

Definition toy_new (o : ToyObj) (st : ToyState) : option ptr * ToyState :=
  match tick st with
  | (true, st) => (None, st)
  | (false, st) => let p := next_ptr (te_objects st) in (Some p, set_object p o st)
  end.

#[global] Instance Kind_eq_dec : EqDecision Kind.
Proof. solve_decision. Defined.

Definition toy_free (k : Kind) (p : option ptr) (st : ToyState) : option (() * ToyState) :=
  match p with
  | None => Some ((), st)
  | Some q =>
      o ← te_objects st !! q;
      if bool_decide (kind o = k)
      then Some ((), mkToy (delete q (te_objects st)) (te_until st)) else None
  end.

(** A call on the object at [p]: undefined where [step] is, [bad] if it runs out
    of resources. *)
Definition toy_act {A} (p : ptr) (step : ToyObj → option (A * ToyObj)) (bad : A) (st : ToyState)
  : option (A * ToyState) :=
  o ← te_objects st !! p;
  '(a, o') ← step o;
  match tick st with
  | (true, st) => Some (bad, st)
  | (false, st) => Some (a, set_object p o' st)
  end.

(** ** Toy algorithms *)

Definition mask (key : bytes) : bytes → bytes := map (Z.lxor (hd 0 key)).

Definition pad (n : Z) (p : bytes) : bytes :=
  let k := n - zlen p mod n in p ++ replicate (Z.to_nat k) k.

Definition unpad (n : Z) (q : bytes) : option bytes :=
  let k := List.last q 0 in
  if (zlen q mod n =? 0) && (1 <=? k) && (k <=? n) && (k <=? zlen q)
  then Some (take (Z.to_nat (zlen q - k)) q) else None.

Definition toy_encrypt (c : Cipher) (key iv p : bytes) : bytes := mask key (pad (block_length c) p).
Definition toy_decrypt (c : Cipher) (key iv ct : bytes) : option bytes :=
  unpad (block_length c) (mask key ct).

(** The whole blocks; when decrypting, without the last one. *)
Definition whole_blocks (c : Cipher) (n : Z) : nat := Z.to_nat (n / block_length c * block_length c).

Definition toy_digest (d : Digest) (m : bytes) : bytes := resize (md_length d) m.

Definition key_tag (t : KeyType) : Z := match t with KeyRSA => 1 | KeyDSA => 2 end.
Definition toy_pem (kind : Z) (t : KeyType) (k : Z) : bytes := [kind; key_tag t; k].
Definition toy_parse (kind : Z) (pem : bytes) : option (KeyType * Z) :=
  match pem with
  | [x; y; k] => if negb (x =? kind) then None
                 else if y =? 1 then Some (KeyRSA, k) else if y =? 2 then Some (KeyDSA, k) else None
  | _ => None
  end.

Definition toy_limit (k : Z) : Z := k / 8 - 11.
Definition toy_out (k : Z) : Z := Z.max 64 (k / 8).
Definition toy_verifies (d : Digest) (k : Z) (m sig : bytes) : bool :=
  bool_decide (sig = [k; foldr Z.add 0 m]).
Definition toy_rsa_decrypt (k : Z) (c : bytes) : option bytes :=
  match c with
  | x :: p => if (x =? k) && (zlen p <=? toy_limit k) then Some p else None
  | [] => None
  end.

(** ** The calls *)

Definition enough_bytes (c : Cipher) (key iv : bytes) : bool :=
  (key_length c <=? zlen key) && (iv_length c <=? zlen iv).

Definition toy_init (encrypts : bool) (p : ptr) (c : Cipher) (key iv : bytes) :=
  toy_act p (fun o =>
    match o with
    | CipherCtx _ => if enough_bytes c key iv
                     then Some (1, CipherCtx (Some (start_job encrypts c key iv))) else None
    | _ => None
    end) 0.

Definition toy_update (encrypts : bool) (p : ptr) (data : bytes) (n : Z) :=
  toy_act p (fun o =>
    match o with
    | CipherCtx (Some j) =>
        if negb (eqb (cj_encrypts j) encrypts) || (n <? 0) || (zlen data <? n) then None else
        let fed := take (Z.to_nat n) data in
        let out := if encrypts
                   then take (whole_blocks (cj_cipher j) n)
                          (toy_encrypt (cj_cipher j) (cj_key j) (cj_iv j) fed)
                   else take (whole_blocks (cj_cipher j) (n - 1)) (mask (cj_key j) fed) in
        Some ((1, out), CipherCtx (Some (feed j fed out)))
    | _ => None
    end) (0, []).

Definition toy_encrypt_final (p : ptr) :=
  toy_act p (fun o =>
    match o with
    | CipherCtx (Some j) =>
        if cj_encrypts j then
          Some ((1, drop (length (cj_emitted j))
                      (toy_encrypt (cj_cipher j) (cj_key j) (cj_iv j) (cj_fed j))), CipherCtx None)
        else None
    | _ => None
    end) (0, []).

Definition toy_decrypt_final (p : ptr) :=
  toy_act p (fun o =>
    match o with
    | CipherCtx (Some j) =>
        if cj_encrypts j then None else
        match toy_decrypt (cj_cipher j) (cj_key j) (cj_iv j) (cj_fed j) with
        | Some m => Some ((1, drop (length (cj_emitted j)) m), CipherCtx None)
        | None => Some ((0, []), CipherCtx None)
        end
    | _ => None
    end) (0, []).

Definition toy_md (p : ptr) (step : option (DigestJob Z) → option (Z * option (DigestJob Z))) :=
  toy_act p (fun o =>
    match o with
    | MdCtx j => '(r, j') ← step j; Some (r, MdCtx j')
    | _ => None
    end) 0.

Definition toy_key (st : ToyState) (q : ptr) : option (Z * bool) :=
  match te_objects st !! q with Some (PKey _ k b) => Some (k, b) | _ => None end.

Definition toy_pkey (p : ptr) {A} (bad : A)
    (step : KeyType → option (Z * bool) → option KeyJob → option (A * option KeyJob)) :=
  toy_act p (fun o =>
    match o with
    | PKeyCtx t k j => '(r, j') ← step t k j; Some (r, PKeyCtx t k j')
    | _ => None
    end) bad.

Definition toy_read (kind : Z) (is_private : bool) (p : option ptr) (st : ToyState)
  : option (option ptr * ToyState) :=
  p ← p;
  match te_objects st !! p with
  | Some (MemBio c) =>
      match toy_parse kind c with
      | None => Some (None, set_object p (MemBio []) st)
      | Some (t, k) => Some (toy_new (PKey t k is_private) (set_object p (MemBio []) st))
      end
  | _ => None
  end.

Definition toy_write (kind : Z) (p q : ptr) (st : ToyState) : option (Z * ToyState) :=
  match te_objects st !! q with
  | Some (PKey t k _) =>
      toy_act p (fun o =>
        match o with MemBio c => Some (1, MemBio (c ++ toy_pem kind t k)) | _ => None end) 0 st
  | _ => None
  end.

Definition toy_bio_read (p : ptr) (n : Z) (st : ToyState) : option ((Z * bytes) * ToyState) :=
  match te_objects st !! p with
  | Some (MemBio c) =>
      let out := take (Z.to_nat n) c in
      if bool_decide (c = []) then Some ((-1, []), st)
      else Some ((zlen out, out), set_object p (MemBio (drop (Z.to_nat n) c)) st)
  | _ => None
  end.

Definition toy_ctx_new (q : ptr) (st : ToyState) : option (option ptr * ToyState) :=
  match te_objects st !! q with
  | Some (PKey t k b) => Some (toy_new (PKeyCtx t (Some (k, b)) None) st)
  | _ => None
  end.

Definition toy_keygen (p : ptr) (st : ToyState) : option ((Z * option ptr) * ToyState) :=
  match te_objects st !! p with
  | Some (PKeyCtx t _ (Some (Generating bits))) =>
      match toy_new (PKey t (default 2048 bits) true) st with
      | (Some q, st) => Some ((1, Some q), st)
      | (None, st) => Some ((0, None), st)
      end
  | _ => None
  end.

Definition toy_set_bits (t : KeyType) (p : ptr) (n : Z) :=
  toy_pkey p 0 (fun t' k j =>
    match j with
    | Some (Generating _) => if bool_decide (t' = t) then Some (1, Some (Generating (Some n))) else None
    | _ => None
    end).

Definition toy_crypt_init (job : KeyJob) (p : ptr) :=
  toy_pkey p 0 (fun t k j => if bool_decide (t = KeyRSA) then Some (1, Some job) else Some (-2, j)).

(** Encryption and decryption: the result, if there is one. *)
Definition toy_rsa (encrypts : bool) (k : Z) (data : bytes) : option bytes :=
  if encrypts then (if zlen data <=? toy_limit k then Some (k :: data) else None)
  else toy_rsa_decrypt k data.

Definition toy_crypt {A} (encrypts : bool) (out : Z → bytes → A) (bad : A) (p : ptr) (data : bytes) :=
  toy_pkey p bad (fun _ k j =>
    match k, j, encrypts with
    | Some (k, _), Some Encrypting, true | Some (k, true), Some Decrypting, false =>
        match toy_rsa encrypts k data with Some m => Some (out k m, j) | None => Some (bad, j) end
    | _, _, _ => None
    end).

Definition toy_final {A} (p : ptr) (f : DigestJob Z → option (A * option (DigestJob Z))) (bad : A) :=
  toy_act p (fun o =>
    match o with MdCtx (Some j) => '(r, j') ← f j; Some (r, MdCtx j') | _ => None end) bad.

#[global] Instance toy_evp : Evp := {|
  e_state := ToyState;
  EVP_CIPHER_block_size := block_length;
  EVP_MD_size := md_length;
  EVP_CIPHER_CTX_new := toy_new (CipherCtx None);
  EVP_CIPHER_CTX_free := toy_free KCipherCtx;
  EVP_EncryptInit_ex := toy_init true;
  EVP_EncryptUpdate := toy_update true;
  EVP_EncryptFinal_ex := toy_encrypt_final;
  EVP_DecryptInit_ex := toy_init false;
  EVP_DecryptUpdate := toy_update false;
  EVP_DecryptFinal_ex := toy_decrypt_final;
  EVP_MD_CTX_new := toy_new (MdCtx None);
  EVP_MD_CTX_free := toy_free KMdCtx;
  EVP_DigestInit_ex p d := toy_md p (fun _ => Some (1, Some (Hashing d [])));
  EVP_DigestUpdate p data := toy_md p (fun j =>
    match j with Some (Hashing d fed) => Some (1, Some (Hashing d (fed ++ data))) | _ => None end);
  EVP_DigestFinal_ex p := toy_final p (fun j =>
    match j with Hashing d fed => Some ((1, toy_digest d fed), None) | _ => None end) (0, []);
  BIO_new_mem := toy_new (MemBio []);
  BIO_new_mem_buf data n st :=
    if (n <? 0) || (zlen data <? n) then None
    else if bool_decide (data = []) then Some (None, st)
    else let p := next_ptr (te_objects st) in
         Some (Some p, set_object p (MemBio (take (Z.to_nat n) data)) st);
  BIO_free := toy_free KBio;
  BIO_read := toy_bio_read;
  EVP_PKEY_CTX_new_id t := toy_new (PKeyCtx t None None);
  EVP_PKEY_CTX_new := toy_ctx_new;
  EVP_PKEY_CTX_free := toy_free KPKeyCtx;
  EVP_PKEY_free := toy_free KPKey;
  EVP_PKEY_keygen_init p := toy_pkey p 0 (fun _ k _ =>
    match k with None => Some (1, Some (Generating None)) | Some _ => None end);
  EVP_PKEY_CTX_set_rsa_keygen_bits := toy_set_bits KeyRSA;
  EVP_PKEY_CTX_set_dsa_paramgen_bits := toy_set_bits KeyDSA;
  EVP_PKEY_keygen := toy_keygen;
  PEM_write_bio_PUBKEY := toy_write 80;
  PEM_write_bio_PrivateKey := toy_write 75;
  PEM_read_bio_PUBKEY := toy_read 80 false;
  PEM_read_bio_PrivateKey := toy_read 75 true;
  EVP_PKEY_encrypt_init := toy_crypt_init Encrypting;
  EVP_PKEY_encrypt_size := toy_crypt true (fun k _ => (1, toy_out k)) (0, 0);
  EVP_PKEY_encrypt := toy_crypt true (fun _ m => (1, m)) (0, []);
  EVP_PKEY_decrypt_init := toy_crypt_init Decrypting;
  EVP_PKEY_decrypt_size := toy_crypt false (fun k _ => (1, toy_out k)) (0, 0);
  EVP_PKEY_decrypt := toy_crypt false (fun _ m => (1, m)) (0, []);
  EVP_DigestSignInit p d q st :=
    match toy_key st q with
    | Some (k, true) => toy_md p (fun _ => Some (1, Some (Signing d k []))) st
    | _ => None
    end;
  EVP_DigestSignUpdate p data := toy_md p (fun j =>
    match j with Some (Signing d k fed) => Some (1, Some (Signing d k (fed ++ data))) | _ => None end);
  EVP_DigestSignFinal_size p := toy_final p (fun j =>
    match j with Signing d k fed => Some ((1, toy_out k), Some j) | _ => None end) (0, 0);
  EVP_DigestSignFinal p := toy_final p (fun j =>
    match j with Signing d k fed => Some ((1, [k; foldr Z.add 0 fed]), None) | _ => None end) (0, []);
  EVP_DigestVerifyInit p d q st :=
    match toy_key st q with
    | Some (k, _) => toy_md p (fun _ => Some (1, Some (Verifying d k []))) st
    | _ => None
    end;
  EVP_DigestVerifyUpdate p data := toy_md p (fun j =>
    match j with Some (Verifying d k fed) => Some (1, Some (Verifying d k (fed ++ data))) | _ => None end);
  EVP_DigestVerifyFinal p sig := toy_final p (fun j =>
    match j with
    | Verifying d k fed => Some (if toy_verifies d k fed sig then 1 else 0, None)
    | _ => None
    end) 0;
|}.

(** ** The laws *)

Definition toy_served {A} (st : ToyState) (r : option (A * ToyState))
    (P : A → gmap ptr ToyObj → gmap ptr ToyObj → Prop) : Prop :=
  ∃ a st', r = Some (a, st') ∧ (te_until st = None → te_until st' = None)
           ∧ P a (te_objects st) (te_objects st').

Definition toy_created (st : ToyState) (o : ToyObj) (why : Prop)
    (r : option (option ptr * ToyState)) : Prop :=
  toy_served st r (fun new v v' =>
    match new with
    | Some p => v !! p = None ∧ v' = <[p:=o]> v
    | None => v' = v ∧ (te_until st = None → why)
    end).

Definition toy_advanced {A} (st : ToyState) (p : ptr) (code : A → Z) (fails : Z → Prop)
    (good : A → ToyObj → Prop) (why : Prop) (r : option (A * ToyState)) : Prop :=
  toy_served st r (fun a v v' => ∃ o o', v !! p = Some o ∧ kind o' = kind o ∧ v' = <[p:=o']> v
    ∧ ((code a = 1 ∧ good a o') ∨ (fails (code a) ∧ (te_until st = None → why)))).

Lemma next_ptr_fresh (m : gmap ptr ToyObj) : m !! next_ptr m = None.
Proof.
  assert (∀ p o, m !! p = Some o → p < next_ptr m) as H.
  { unfold next_ptr.
    apply (map_fold_weak_ind (fun n m => ∀ p o, m !! p = Some o → p < 1 + n)
             (fun p (_ : ToyObj) n => Z.max p n)).
    - intros p o Hp. by rewrite lookup_empty in Hp.
    - intros p o m' n Hm IH q o' Hq. destruct (decide (p = q)) as [->|Hne]; [lia|].
      rewrite lookup_insert_ne in Hq by done. specialize (IH _ _ Hq). lia. }
  destruct (m !! next_ptr m) eqn:E; [|done]. apply H in E. lia.
Qed.

Lemma tick_spec st : te_objects (tick st).2 = te_objects st
  ∧ (te_until st = None → te_until (tick st).2 = None ∧ (tick st).1 = false).
Proof. unfold tick. destruct (te_until st) as [[|n]|] eqn:E; cbn; naive_solver. Qed.

Lemma toy_new_created o st : toy_created st o False (Some (toy_new o st)).
Proof.
  unfold toy_created, toy_served, toy_new. destruct (tick_spec st) as [Ho Hu].
  destruct (tick st) as [[|] st'] eqn:E; cbn in *; eexists _, _; split; [done| |done|];
    split; try naive_solver.
  cbn. rewrite Ho. split; [|done]. apply next_ptr_fresh.
Qed.

Lemma toy_act_advanced {A} p (step : ToyObj → option (A * ToyObj)) (bad : A) st o a o'
    code (fails : Z → Prop) (good : A → ToyObj → Prop) why :
  te_objects st !! p = Some o → step o = Some (a, o') → kind o' = kind o → fails (code bad) →
  (code a = 1 ∧ good a o') ∨ (fails (code a) ∧ why) →
  toy_advanced st p code fails good why (toy_act p step bad st).
Proof.
  intros Hp Hs Hk Hb Hg. unfold toy_advanced, toy_served, toy_act. rewrite Hp. cbn. rewrite Hs. cbn.
  destruct (tick_spec st) as [Ho Hu].
  destruct (tick st) as [[|] st'] eqn:E; cbn in *; eexists _, _; split; [done| |done|];
    (split; [naive_solver|]).
  - exists o, o. rewrite Ho, insert_id by done. split_and!; naive_solver.
  - exists o, o'. cbn. rewrite Ho. split_and!; naive_solver.
Qed.

Lemma toy_free_spec k p st :
  (∀ q, p = Some q → ∃ o, te_objects st !! q = Some o ∧ kind o = k) →
  toy_served st (toy_free k p st) (fun _ v v' =>
    v' = match p with Some q => delete q v | None => v end).
Proof.
  intros Hp. unfold toy_served, toy_free. destruct p as [q|]; [|by eexists _, _].
  destruct (Hp q eq_refl) as (o & -> & Hk). cbn. rewrite bool_decide_eq_true_2 by done.
  by eexists _, _.
Qed.

Lemma block_length_pos c : 0 < block_length c.
Proof. by destruct c. Qed.

Lemma zlen_mask key p : zlen (mask key p) = zlen p.
Proof. unfold zlen, mask. by rewrite length_map. Qed.

Lemma mask_mask key p : mask key (mask key p) = p.
Proof.
  unfold mask. rewrite map_map. rewrite <- (map_id p) at 2. apply map_ext. intros x.
  by rewrite <- Z.lxor_assoc, Z.lxor_nilpotent, Z.lxor_0_l.
Qed.

Lemma pad_amount n (p : bytes) : 0 < n → 1 <= n - zlen p mod n <= n.
Proof. intros Hn. pose proof (Z.mod_pos_bound (zlen p) n Hn). lia. Qed.

Lemma zlen_pad n (p : bytes) : 0 < n → zlen (pad n p) = zlen p + (n - zlen p mod n).
Proof.
  intros Hn. pose proof (pad_amount n p Hn). unfold pad.
  rewrite zlen_app. unfold zlen at 2. rewrite length_replicate. lia.
Qed.

Lemma unpad_pad n p : 0 < n → unpad n (pad n p) = Some p.
Proof.
  intros Hn. pose proof (pad_amount n p Hn) as Hk. unfold unpad. rewrite zlen_pad by done.
  assert (List.last (pad n p) 0 = n - zlen p mod n) as ->.
  { unfold pad. set (k := n - zlen p mod n) in *. replace (Z.to_nat k) with (S (Z.to_nat k - 1)) by lia.
    rewrite replicate_S_end, app_assoc. apply last_last. }
  rewrite (Z.mod_eq (zlen p) n) by lia.
  replace (zlen p + (n - (zlen p - n * (zlen p / n)))) with ((zlen p / n + 1) * n) by lia.
  rewrite Z.mod_mul by lia. cbn [andb]. change (0 =? 0) with true. cbn [andb].
  pose proof (Z.mod_eq (zlen p) n). 
  rewrite !(proj2 (Z.leb_le _ _)) by (unfold zlen in *; lia). cbn [andb]. f_equal.
  replace (Z.to_nat _) with (length p) by (unfold zlen in *; lia).
  unfold pad. by rewrite take_app_length.
Qed.

Lemma unpad_Some n q m : unpad n q = Some m →
  ∃ k, 1 <= k <= n ∧ k <= zlen q ∧ zlen q mod n = 0 ∧ m = take (Z.to_nat (zlen q - k)) q.
Proof.
  unfold unpad. destruct (_ && _) eqn:E; [|done]. intros [= <-].
  apply andb_prop in E as [E ?%Z.leb_le]. apply andb_prop in E as [E ?%Z.leb_le].
  apply andb_prop in E as [?%Z.eqb_eq ?%Z.leb_le]. by exists (List.last q 0).
Qed.

Lemma toy_plain_size c key iv ct m : toy_decrypt c key iv ct = Some m → zlen m <= zlen ct.
Proof.
  intros (k & ? & ? & ? & ->)%unpad_Some. rewrite zlen_mask in *. unfold zlen.
  rewrite length_take. unfold mask. rewrite length_map. unfold zlen in *. lia.
Qed.

(** What decryption gives out before it has seen the padding. *)
Lemma toy_decrypt_prefix c key iv ct m :
  toy_decrypt c key iv ct = Some m →
  take (whole_blocks c (zlen ct - 1)) (mask key ct) `prefix_of` m.
Proof.
  intros (k & Hk & Hl & Hm & ->)%unpad_Some. rewrite zlen_mask in *.
  pose proof (block_length_pos c) as Hb. unfold whole_blocks.
  set (b := block_length c) in *.
  assert ((zlen ct - 1) / b * b <= zlen ct - k) as Hle.
  { apply Z.mod_divide in Hm as [q Hq]; [|lia]. rewrite Hq.
    replace (q * b - 1) with ((b - 1) + (q - 1) * b) by lia.
    rewrite Z.div_add, Z.div_small by lia. lia. }
  exists (drop (Z.to_nat ((zlen ct - 1) / b * b)) (take (Z.to_nat (zlen ct - k)) (mask key ct))).
  rewrite <- (take_drop (Z.to_nat ((zlen ct - 1) / b * b)) (take (Z.to_nat (zlen ct - k)) _)) at 1.
  f_equal. rewrite take_take. f_equal. lia.
Qed.

Lemma prefix_drop (l k : bytes) : l `prefix_of` k → l ++ drop (length l) k = k.
Proof. intros [r ->]. by rewrite drop_app_length. Qed.

Definition toy_encrypts_to (k : Z) (p c : bytes) : Prop := toy_rsa true k p = Some c.

Lemma toy_update_guard (j : CipherJob) b (data : bytes) n :
  cj_encrypts j = b → 0 <= n <= zlen data →
  negb (eqb (cj_encrypts j) b) || (n <? 0) || (zlen data <? n) = false.
Proof.
  intros <- Hn. rewrite (proj2 (Z.ltb_ge n 0)), (proj2 (Z.ltb_ge (zlen data) n)) by lia.
  by rewrite eqb_reflx.
Qed.

Lemma toy_law_encrypt_update p j data n st : te_objects st !! p = Some (CipherCtx (Some j)) →
  cj_encrypts j = true → cj_fed j = [] → cj_emitted j = [] → 0 <= n <= zlen data →
  toy_advanced st p fst is_zero (fun '(_, out) o =>
    o = CipherCtx (Some (feed j (take (Z.to_nat n) data) out))
    ∧ out `prefix_of` toy_encrypt (cj_cipher j) (cj_key j) (cj_iv j) (take (Z.to_nat n) data)) False
    (toy_update true p data n st).
Proof.
  intros Hp He Hf Hm Hn. eapply toy_act_advanced; [exact Hp|..].
  - cbn. by rewrite toy_update_guard.
  - done.
  - done.
  - left. split; [done|]. split; [done|]. apply prefix_take.
Qed.

Lemma toy_law_decrypt_update p j data n st : te_objects st !! p = Some (CipherCtx (Some j)) →
  cj_encrypts j = false → cj_fed j = [] → cj_emitted j = [] → 0 <= n <= zlen data →
  toy_advanced st p fst is_zero (fun '(_, out) o =>
    o = CipherCtx (Some (feed j (take (Z.to_nat n) data) out)) ∧ zlen out <= n
    ∧ ∀ m, toy_decrypt (cj_cipher j) (cj_key j) (cj_iv j) (take (Z.to_nat n) data) = Some m →
        out `prefix_of` m) False (toy_update false p data n st).
Proof.
  intros Hp He Hf Hm Hn. assert (zlen (take (Z.to_nat n) data) = n) as Hl.
  { unfold zlen in *. rewrite length_take. lia. }
  eapply toy_act_advanced; [exact Hp|..].
  - cbn. by rewrite toy_update_guard.
  - done.
  - done.
  - left. split; [done|]. split_and!; [done| |].
    + pose proof (zlen_mask (cj_key j) (take (Z.to_nat n) data)). unfold zlen in *.
      rewrite length_take. lia.
    + intros m Hd. pose proof (toy_decrypt_prefix _ _ _ _ _ Hd) as Hpre. by rewrite Hl in Hpre.
Qed.

Lemma toy_law_decrypt_final p j st : te_objects st !! p = Some (CipherCtx (Some j)) →
  cj_encrypts j = false →
  (∀ m, toy_decrypt (cj_cipher j) (cj_key j) (cj_iv j) (cj_fed j) = Some m →
     cj_emitted j `prefix_of` m) →
  toy_advanced st p fst is_zero (fun '(_, out) _ =>
    toy_decrypt (cj_cipher j) (cj_key j) (cj_iv j) (cj_fed j) = Some (cj_emitted j ++ out))
    (toy_decrypt (cj_cipher j) (cj_key j) (cj_iv j) (cj_fed j) = None) (toy_decrypt_final p st).
Proof.
  intros Hp He Hpre. destruct (toy_decrypt (cj_cipher j) _ _ _) as [m|] eqn:E.
  - eapply toy_act_advanced; [exact Hp|cbn; by rewrite He, E|done|done|].
    left. split; [done|]. by rewrite prefix_drop by auto.
  - eapply toy_act_advanced; [exact Hp|cbn; by rewrite He, E|done|done|]. by right.
Qed.

Lemma toy_law_bio_read p c n st : te_objects st !! p = Some (MemBio c) → 0 < n →
  toy_served st (toy_bio_read p n st) (fun '(r, out) v v' =>
    if bool_decide (c = []) then r <= 0 ∧ v' = v
    else 0 < r <= n ∧ r = zlen out ∧ ∃ rest, c = out ++ rest ∧ v' = <[p:=MemBio rest]> v).
Proof.
  intros Hp Hn. unfold toy_served, toy_bio_read. rewrite Hp. case_bool_decide as Hc.
  - by eexists _, _.
  - eexists _, _. split; [done|]. split; [done|]. split_and!; [| |done|].
    + destruct c; [done|]. unfold zlen. rewrite length_take. cbn. lia.
    + unfold zlen. rewrite length_take. lia.
    + exists (drop (Z.to_nat n) c). by rewrite take_drop.
Qed.

Lemma toy_parse_pem x t k : toy_parse x (toy_pem x t k) = Some (t, k).
Proof. unfold toy_parse, toy_pem. rewrite Z.eqb_refl. by destruct t. Qed.

Lemma toy_law_read x b p c st : te_objects st !! p = Some (MemBio c) →
  toy_served st (toy_read x b (Some p) st) (fun new v v' => ∃ rest,
    match new with
    | None => v' = <[p:=MemBio rest]> v ∧ (te_until st = None → ∀ t k, c ≠ toy_pem x t k)
    | Some q => ∃ t k, v !! q = None ∧ v' = <[q:=PKey t k b]> (<[p:=MemBio rest]> v)
                       ∧ (∀ t' k', c = toy_pem x t' k' → t' = t ∧ k' = k)
    end).
Proof.
  intros Hp. unfold toy_served, toy_read. cbn. rewrite Hp.
  destruct (toy_parse x c) as [[t k]|] eqn:E.
  - destruct (toy_new_created (PKey t k b) (set_object p (MemBio []) st)) as (new & st' & Hn & Hu & Hv).
    exists new, st'. split; [done|]. split; [done|]. exists []. destruct new as [q|].
    + destruct Hv as [Hq Hv]. exists t, k. split_and!; [|done|].
      * cbn in Hq. by apply lookup_insert_None in Hq as [? _].
      * intros t' k' ->. rewrite toy_parse_pem in E. by injection E.
    + destruct Hv as [Hv Hw]. split; [done|]. intros Hu'. by destruct (Hw Hu').
  - eexists _, _. split; [done|]. split; [done|]. exists []. split; [done|].
    intros _ t k ->. by rewrite toy_parse_pem in E.
Qed.

Lemma toy_law_keygen p t b st : te_objects st !! p = Some (PKeyCtx t None (Some (Generating b))) →
  toy_served st (toy_keygen p st) (fun '(r, new) v v' =>
    (r = 1 ∧ ∃ q k, new = Some q ∧ v !! q = None ∧ v' = <[q:=PKey t k true]> v
                    ∧ (∀ n, t = KeyRSA → b = Some n → toy_limit k = n / 8 - 11))
    ∨ (r <= 0 ∧ v' = v ∧ (te_until st = None → t ≠ KeyRSA))).
Proof.
  intros Hp. unfold toy_served, toy_keygen. rewrite Hp.
  destruct (toy_new_created (PKey t (default 2048 b) true) st) as (new & st' & [= Hn] & Hu & Hv).
  rewrite Hn. destruct new as [q|]; (eexists _, _; split; [done|]; split; [done|]).
  - left. split; [done|]. exists q, (default 2048 b). destruct Hv. split_and!; [done..|].
    by intros n _ ->.
  - right. destruct Hv as [? Hw]. split_and!; [done..|]. intros Hu'. by destruct (Hw Hu').
Qed.

Lemma toy_law_write x p c q t k b st : te_objects st !! p = Some (MemBio c) →
  te_objects st !! q = Some (PKey t k b) →
  toy_advanced st p id is_zero (fun _ o => o = MemBio (c ++ toy_pem x t k)) False (toy_write x p q st).
Proof.
  intros Hp Hq. unfold toy_write. rewrite Hq. eapply toy_act_advanced; [exact Hp|done|done|done|].
  by left.
Qed.

Lemma toy_law_crypt_init job p t k j st : te_objects st !! p = Some (PKeyCtx t (Some k) j) →
  toy_advanced st p id not_positive (fun _ o => o = PKeyCtx t (Some k) (Some job)) (t ≠ KeyRSA)
    (toy_crypt_init job p st).
Proof.
  intros Hp. destruct (decide (t = KeyRSA)) as [Ht|Ht].
  - eapply toy_act_advanced; [exact Hp|cbn; by rewrite bool_decide_eq_true_2|done|done|]. by left.
  - eapply toy_act_advanced; [exact Hp|cbn; by rewrite bool_decide_eq_false_2|done|done|]. by right.
Qed.

(** Encryption and decryption answer by [toy_rsa], whatever the output is. *)
Lemma toy_law_crypt {A} (encrypts b : bool) job (out : Z → bytes → Z * A) bad p t k data st
    (good : Z * A → ToyObj → Prop) (why : Prop) :
  te_objects st !! p = Some (PKeyCtx t (Some (k, b)) (Some job)) →
  (if encrypts then job = Encrypting else job = Decrypting ∧ b = true) →
  (∀ m, toy_rsa encrypts k data = Some m →
     fst (out k m) = 1 ∧ good (out k m) (PKeyCtx t (Some (k, b)) (Some job))) →
  (toy_rsa encrypts k data = None → why) → fst bad = 0 →
  toy_advanced st p fst not_positive good why (toy_crypt encrypts out bad p data st).
Proof.
  intros Hp Hj Hgood Hwhy Hbad. assert (not_positive (fst bad)) by (unfold not_positive; lia).
  assert (∃ r, toy_crypt encrypts out bad p data st = toy_act p (fun _ => Some (r,
    PKeyCtx t (Some (k, b)) (Some job))) bad st
    ∧ ((fst r = 1 ∧ good r (PKeyCtx t (Some (k, b)) (Some job))) ∨ (r = bad ∧ why)))
    as (r & -> & Hr).
  { destruct (toy_rsa encrypts k data) as [m|] eqn:E; [exists (out k m)|exists bad]; (split; [|naive_solver]);
      unfold toy_crypt, toy_pkey, toy_act; rewrite Hp; cbn -[toy_rsa];
      destruct encrypts; [|destruct Hj as [Hj ->]| |destruct Hj as [Hj ->]]; rewrite Hj, E;
      try done; by destruct b. }
  eapply toy_act_advanced; [exact Hp|done|done|done|]. naive_solver.
Qed.

Lemma toy_rsa_inverse k m c : toy_encrypts_to k m c → toy_rsa false k c = Some m.
Proof.
  unfold toy_encrypts_to. cbn. destruct (_ <=? _) eqn:E; [|done]. intros [= <-]. cbn.
  by rewrite Z.eqb_refl, E.
Qed.

Lemma toy_rsa_size b k data m : toy_rsa b k data = Some m → zlen m <= toy_out k.
Proof.
  unfold toy_out. destruct b; cbn.
  - destruct (_ <=? _) eqn:E; [|done]. intros [= <-]. apply Z.leb_le in E.
    unfold toy_limit in E. rewrite zlen_cons. lia.
  - destruct data as [|x p]; [done|]. cbn. destruct (_ =? _); [|done]. cbn.
    destruct (_ <=? _) eqn:E; [|done]. intros [= <-]. apply Z.leb_le in E.
    unfold toy_limit in E. lia.
Qed.

Lemma toy_encrypt_none k data : toy_rsa true k data = None → toy_limit k < zlen data.
Proof. cbn. destruct (Z.leb_spec (zlen data) (toy_limit k)); [done|lia]. Qed.

Lemma toy_decrypt_none k data : toy_rsa false k data = None → ∀ m, ¬ toy_encrypts_to k m data.
Proof. intros Hn m Hm%toy_rsa_inverse. congruence. Qed.

Ltac toy_step := intros; eapply toy_act_advanced; [eassumption|done|done|done|by left].

Lemma toy_law_init encrypts p j c key iv st : te_objects st !! p = Some (CipherCtx j) →
  key_length c <= zlen key → iv_length c <= zlen iv →
  toy_advanced st p id is_zero (fun _ o => o = CipherCtx (Some (start_job encrypts c key iv))) False
    (toy_init encrypts p c key iv st).
Proof.
  intros Hp Hk Hi. apply Z.leb_le in Hk, Hi.
  eapply toy_act_advanced; [exact Hp|cbn; unfold enough_bytes; by rewrite Hk, Hi|done|done|].
  by left.
Qed.

Lemma toy_law_set_bits t p b n st (why : Prop) :
  te_objects st !! p = Some (PKeyCtx t None (Some (Generating b))) →
  toy_advanced st p id not_positive (fun _ o => o = PKeyCtx t None (Some (Generating (Some n)))) why
    (toy_set_bits t p n st).
Proof.
  intros Hp. eapply toy_act_advanced; [exact Hp|cbn; by rewrite bool_decide_eq_true_2|done|done|].
  by left.
Qed.

#[global] Instance toy_evp_laws : EvpLaws toy_evp.
Proof.
  apply (Build_EvpLaws toy_evp Z te_objects (fun st => te_until st = None) toy_encrypt toy_decrypt
    toy_digest (toy_pem 80) (toy_pem 75) 3 toy_limit toy_out toy_encrypts_to toy_verifies).
  - done.
  - done.
  - intros c key iv p. pose proof (block_length_pos c). unfold toy_encrypt.
    rewrite zlen_mask, zlen_pad by done. pose proof (pad_amount (block_length c) p). lia.
  - intros c key iv p. unfold toy_decrypt, toy_encrypt. rewrite mask_mask.
    apply unpad_pad, block_length_pos.
  - intros c key iv. apply toy_plain_size.
  - intros d m. apply zlen_resize. by destruct d.
  - by intros.
  - by intros.
  - intros k. unfold toy_out. lia.
  - apply toy_new_created.
  - apply toy_free_spec.
  - apply toy_law_init.
  - apply toy_law_encrypt_update.
  - intros p j st Hp He Hpre. eapply toy_act_advanced; [exact Hp|cbn; by rewrite He|done|done|].
    left. split; [done|]. by rewrite prefix_drop.
  - apply toy_law_init.
  - apply toy_law_decrypt_update.
  - apply toy_law_decrypt_final.
  - apply toy_new_created.
  - apply toy_free_spec.
  - toy_step.
  - toy_step.
  - toy_step.
  - intros p j d q t k st Hp Hq. cbn. unfold toy_key. rewrite Hq. revert Hp. toy_step.
  - toy_step.
  - toy_step.
  - intros p d k fed st Hp. eapply toy_act_advanced; [exact Hp|done|done|done|]. left.
    split; [done|]. split; [unfold toy_out, zlen; cbn; lia|]. by apply bool_decide_eq_true_2.
  - intros p j d q t k b st Hp Hq. cbn. unfold toy_key. rewrite Hq. revert Hp. toy_step.
  - toy_step.
  - intros p d k fed sig st Hp. destruct (toy_verifies d k fed sig) eqn:E;
      (eapply toy_act_advanced; [exact Hp|cbn; by rewrite E|done|done|]); [by left|by right].
  - apply toy_new_created.
  - intros data n st Hn. unfold BIO_new_mem_buf. cbn.
    rewrite (proj2 (Z.ltb_ge n 0)), (proj2 (Z.ltb_ge (zlen data) n)) by lia. cbn.
    case_bool_decide; eexists _, _; (split; [done|]); split; [done|done|done|].
    split; [apply next_ptr_fresh|done].
  - apply toy_free_spec.
  - apply toy_law_bio_read.
  - apply toy_free_spec.
  - apply toy_free_spec.
  - intros t. apply toy_new_created.
  - intros q t k b st Hq. cbn. unfold toy_ctx_new. rewrite Hq. apply toy_new_created.
  - toy_step.
  - intros. by eapply toy_law_set_bits.
  - intros. by eapply toy_law_set_bits.
  - apply toy_law_keygen.
  - apply toy_law_write.
  - intros p c q t k st. apply toy_law_write.
  - apply toy_law_read.
  - apply toy_law_read.
  - apply toy_law_crypt_init.
  - intros. eapply toy_law_crypt; [eassumption|done|done|apply toy_encrypt_none|done].
  - intros. eapply toy_law_crypt; [eassumption|done| |apply toy_encrypt_none|done].
    intros m Hm. split; [done|]. split; [by eapply toy_rsa_size|done].
  - apply toy_law_crypt_init.
  - intros. eapply toy_law_crypt; [eassumption|done|done|apply toy_decrypt_none|done].
  - intros. eapply toy_law_crypt; [eassumption|done| |apply toy_decrypt_none|done].
    intros m Hm. split; [done|]. split; [by eapply toy_rsa_size|].
    intros m' Hm'%toy_rsa_inverse. congruence.
Defined.
