(* ===== verification/YaCrypto.v ===== *)
(** * YaCrypto: the cryptographic helpers of the legacy utilities

    Models [YaUtils::Crypto] of [src/ya_utils/yautils.cpp]: AES and DES
    encryption, digests, RSA encryption and DSA signatures over OpenSSL objects
    ([Evp.v]).  A [std::string], [std::string_view] or [CryptoBuffer] is its
    bytes; an output parameter is an argument and part of the result, because
    a call that fails leaves it as it is, or half changed.

    The theorems: every operation is defined (no use of a freed object, no
    write outside a buffer) and frees what it has created, except for one path
    of the two RSA operations; what is encrypted or signed can be decrypted and
    verified. *)

From S2P Require Import Prelude Program Evp ToyEvp.

(** The conversion of a [size_t] to an [int] parameter. *)
Definition to_int (n : Z) : Z := (n + 2 ^ 31) mod 2 ^ 32 - 2 ^ 31.

Section Impl.
Context `{Evp}.
Abbreviation evp := (prog e_state).

Definition Cipher_Encrypt (plaintext ciphertext key iv : bytes) (cipher : Cipher)
  : evp (bool * bytes) :=
  ctx ← call EVP_CIPHER_CTX_new;
  match ctx with
  | None => mret (false, ciphertext)
  | Some ctx =>
      r ← attempt (EVP_EncryptInit_ex ctx cipher key iv);
      if r =? 0 then
        attempt (EVP_CIPHER_CTX_free (Some ctx));; mret (false, ciphertext)
      else
      let buffer := zeroed (zlen plaintext + EVP_CIPHER_block_size cipher) in
      '(r, out) ← attempt (EVP_EncryptUpdate ctx plaintext (to_int (zlen plaintext)));
      if r =? 0 then
        attempt (EVP_CIPHER_CTX_free (Some ctx));; mret (false, ciphertext)
      else
      must (zlen out <=? zlen buffer);;
      let buffer := write_at buffer 0 out in
      let len := zlen out in
      let ciphertext_len := len in
      '(r, out) ← attempt (EVP_EncryptFinal_ex ctx);
      if r =? 0 then
        attempt (EVP_CIPHER_CTX_free (Some ctx));; mret (false, ciphertext)
      else
      must (len + zlen out <=? zlen buffer);;
      let buffer := write_at buffer len out in
      let ciphertext_len := ciphertext_len + zlen out in
      let buffer := resize ciphertext_len buffer in
      attempt (EVP_CIPHER_CTX_free (Some ctx));;
      mret (true, buffer)
  end.

Definition Cipher_Decrypt (ciphertext plaintext key iv : bytes) (cipher : Cipher)
  : evp (bool * bytes) :=
  ctx ← call EVP_CIPHER_CTX_new;
  match ctx with
  | None => mret (false, plaintext)
  | Some ctx =>
      r ← attempt (EVP_DecryptInit_ex ctx cipher key iv);
      if r =? 0 then
        attempt (EVP_CIPHER_CTX_free (Some ctx));; mret (false, plaintext)
      else
      let buffer := zeroed (zlen ciphertext) in
      '(r, out) ← attempt (EVP_DecryptUpdate ctx ciphertext (to_int (zlen ciphertext)));
      if r =? 0 then
        attempt (EVP_CIPHER_CTX_free (Some ctx));; mret (false, plaintext)
      else
      must (zlen out <=? zlen buffer);;
      let buffer := write_at buffer 0 out in
      let len := zlen out in
      let plaintext_len := len in
      '(r, out) ← attempt (EVP_DecryptFinal_ex ctx);
      if r =? 0 then
        attempt (EVP_CIPHER_CTX_free (Some ctx));; mret (false, plaintext)
      else
      must (len + zlen out <=? zlen buffer);;
      let buffer := write_at buffer len out in
      let plaintext_len := plaintext_len + zlen out in
      let buffer := resize plaintext_len buffer in
      attempt (EVP_CIPHER_CTX_free (Some ctx));;
      mret (true, buffer)
  end.

Definition Digest_Hash (data digest : bytes) (md : Digest) : evp (bool * bytes) :=
  ctx ← call EVP_MD_CTX_new;
  match ctx with
  | None => mret (false, digest)
  | Some ctx =>
      r ← attempt (EVP_DigestInit_ex ctx md);
      if r =? 0 then
        attempt (EVP_MD_CTX_free (Some ctx));; mret (false, digest)
      else
      r ← attempt (EVP_DigestUpdate ctx data);
      if r =? 0 then
        attempt (EVP_MD_CTX_free (Some ctx));; mret (false, digest)
      else
      let digest := resize (EVP_MD_size md) digest in
      '(r, out) ← attempt (EVP_DigestFinal_ex ctx);
      if r =? 0 then
        attempt (EVP_MD_CTX_free (Some ctx));; mret (false, digest)
      else
      must (zlen out <=? zlen digest);;
      let digest := resize (zlen out) (write_at digest 0 out) in
      attempt (EVP_MD_CTX_free (Some ctx));;
      mret (true, digest)
  end.

(** [while ((len = BIO_read(bio, tmp, sizeof(tmp))) > 0)] *)
Fixpoint Read_BIO (fuel : nat) (bio : ptr) (buf : bytes) : evp bytes :=
  match fuel with
  | O => fun _ => Running
  | S fuel' =>
      '(len, tmp) ← attempt (BIO_read bio 256);
      if 0 <? len then Read_BIO fuel' bio (buf ++ take (Z.to_nat len) tmp)
      else mret buf
  end.

(** The end of both key generations: free everything, return. *)
Definition release_keys {A} (pkey ctx : option ptr) (pub_bio pri_bio : option ptr) (a : A)
  : evp A :=
  attempt (EVP_PKEY_free pkey);;
  attempt (EVP_PKEY_CTX_free ctx);;
  attempt (BIO_free pub_bio);;
  attempt (BIO_free pri_bio);;
  mret a.

(** Both key generations from [BIO_new] on. *)
Definition write_KeyPair (fuel : nat) (pub pri : bytes) (ctx pkey : ptr)
  : evp (bool * (bytes * bytes)) :=
  pub_bio ← call BIO_new_mem;
  pri_bio ← call BIO_new_mem;
  match pub_bio, pri_bio with
  | Some pub_bio, Some pri_bio =>
      let fail := release_keys (Some pkey) (Some ctx) (Some pub_bio) (Some pri_bio)
                    (false, (pub, pri)) in
      r ← attempt (PEM_write_bio_PUBKEY pub_bio pkey);
      if r =? 0 then fail else
      r ← attempt (PEM_write_bio_PrivateKey pri_bio pkey);
      if r =? 0 then fail else
      pub ← Read_BIO fuel pub_bio [];
      pri ← Read_BIO fuel pri_bio [];
      release_keys (Some pkey) (Some ctx) (Some pub_bio) (Some pri_bio) (true, (pub, pri))
  | _, _ => release_keys (Some pkey) (Some ctx) pub_bio pri_bio (false, (pub, pri))
  end.

Definition Generate_KeyPair (type : KeyType)
    (set_bits : ptr → Z → e_state → option (Z * e_state)) (fuel : nat) (pub pri : bytes)
  : evp (bool * (bytes * bytes)) :=
  ctx ← call (EVP_PKEY_CTX_new_id type);
  match ctx with
  | None => mret (false, (pub, pri))
  | Some ctx =>
      let fail := attempt (EVP_PKEY_CTX_free (Some ctx));; mret (false, (pub, pri)) in
      r ← attempt (EVP_PKEY_keygen_init ctx);
      if r <=? 0 then fail else
      r ← attempt (set_bits ctx 2048);
      if r <=? 0 then fail else
      '(r, pkey) ← attempt (EVP_PKEY_keygen ctx);
      if r <=? 0 then fail else
      match pkey with
      | Some pkey => write_KeyPair fuel pub pri ctx pkey
      | None => fun _ => Undefined  (* success without a key *)
      end
  end.

Definition Generate_KeyPair_RSA : nat → bytes → bytes → evp (bool * (bytes * bytes)) :=
  Generate_KeyPair KeyRSA EVP_PKEY_CTX_set_rsa_keygen_bits.

Definition Generate_KeyPair_DSA : nat → bytes → bytes → evp (bool * (bytes * bytes)) :=
  Generate_KeyPair KeyDSA EVP_PKEY_CTX_set_dsa_paramgen_bits.

(** [EVP_PKEY_free(key); BIO_free(bio); return value;] *)
Definition release_key {A} (key : ptr) (bio : option ptr) (value : A) : evp A :=
  attempt (EVP_PKEY_free (Some key));; attempt (BIO_free bio);; mret value.

Definition RSA_Encrypt (pub plaintext : bytes) : evp (option bytes) :=
  bio ← attempt (BIO_new_mem_buf pub (to_int (zlen pub)));
  key ← attempt (PEM_read_bio_PUBKEY bio);
  match key with
  | None => attempt (BIO_free bio);; mret None
  | Some key =>
      ctx ← attempt (EVP_PKEY_CTX_new key);
      match ctx with
      | None => release_key key bio None
      | Some ctx =>
          let fail := attempt (EVP_PKEY_CTX_free (Some ctx));; release_key key bio None in
          r ← attempt (EVP_PKEY_encrypt_init ctx);
          if r <=? 0 then release_key key bio None else
          '(r, outlen) ← attempt (EVP_PKEY_encrypt_size ctx plaintext);
          if r <=? 0 then fail else
          let ciphertext := zeroed outlen in
          '(r, out) ← attempt (EVP_PKEY_encrypt ctx plaintext);
          if r <=? 0 then fail else
          must (zlen out <=? zlen ciphertext);;
          let ciphertext := resize (zlen out) (write_at ciphertext 0 out) in
          attempt (EVP_PKEY_CTX_free (Some ctx));;
          release_key key bio (Some ciphertext)
      end
  end.

Definition RSA_Decrypt (pri ciphertext : bytes) : evp (option bytes) :=
  bio ← attempt (BIO_new_mem_buf pri (to_int (zlen pri)));
  key ← attempt (PEM_read_bio_PrivateKey bio);
  match key with
  | None => attempt (BIO_free bio);; mret None
  | Some key =>
      ctx ← attempt (EVP_PKEY_CTX_new key);
      match ctx with
      | None => release_key key bio None
      | Some ctx =>
          let fail := attempt (EVP_PKEY_CTX_free (Some ctx));; release_key key bio None in
          r ← attempt (EVP_PKEY_decrypt_init ctx);
          if r <=? 0 then release_key key bio None else
          '(r, outlen) ← attempt (EVP_PKEY_decrypt_size ctx ciphertext);
          if r <=? 0 then fail else
          let buffer := zeroed outlen in
          '(r, out) ← attempt (EVP_PKEY_decrypt ctx ciphertext);
          if r <=? 0 then fail else
          must (zlen out <=? zlen buffer);;
          let plaintext := resize (zlen out) (write_at buffer 0 out) in
          attempt (EVP_PKEY_CTX_free (Some ctx));;
          release_key key bio (Some plaintext)
      end
  end.

Definition DSA_Sign (pri data : bytes) : evp (option bytes) :=
  bio ← attempt (BIO_new_mem_buf pri (to_int (zlen pri)));
  key ← attempt (PEM_read_bio_PrivateKey bio);
  match key with
  | None => attempt (BIO_free bio);; mret None
  | Some key =>
      ctx ← call EVP_MD_CTX_new;
      let fail := attempt (EVP_MD_CTX_free ctx);; release_key key bio None in
      match ctx with
      | None => fail
      | Some ctx =>
          r ← attempt (EVP_DigestSignInit ctx sha256 key);
          if r =? 0 then fail else
          r ← attempt (EVP_DigestSignUpdate ctx data);
          if r =? 0 then fail else
          '(r, sig_len) ← attempt (EVP_DigestSignFinal_size ctx);
          if r =? 0 then fail else
          let signature := zeroed sig_len in
          '(r, out) ← attempt (EVP_DigestSignFinal ctx);
          if r =? 0 then fail else
          must (zlen out <=? zlen signature);;
          let signature := resize (zlen out) (write_at signature 0 out) in
          attempt (EVP_MD_CTX_free (Some ctx));;
          release_key key bio (Some signature)
      end
  end.

Definition DSA_Verify (pub data signature : bytes) : evp bool :=
  bio ← attempt (BIO_new_mem_buf pub (to_int (zlen pub)));
  key ← attempt (PEM_read_bio_PUBKEY bio);
  match key with
  | None => attempt (BIO_free bio);; mret false
  | Some key =>
      ctx ← call EVP_MD_CTX_new;
      let fail := attempt (EVP_MD_CTX_free ctx);; release_key key bio false in
      match ctx with
      | None => fail
      | Some ctx =>
          r ← attempt (EVP_DigestVerifyInit ctx sha256 key);
          if r =? 0 then fail else
          r ← attempt (EVP_DigestVerifyUpdate ctx data);
          if r =? 0 then fail else
          r ← attempt (EVP_DigestVerifyFinal ctx signature);
          let result := r =? 1 in
          attempt (EVP_MD_CTX_free (Some ctx));;
          release_key key bio result
      end
  end.

(** ** The public operations of [YaUtils::Crypto] *)

Definition AES_Encrypt (plaintext key iv ciphertext : bytes) : evp (bool * bytes) :=
  Cipher_Encrypt plaintext ciphertext key iv aes_256_cbc.
Definition AES_Decrypt (ciphertext key iv plaintext : bytes) : evp (bool * bytes) :=
  Cipher_Decrypt ciphertext plaintext key iv aes_256_cbc.
Definition DES_Encrypt (plaintext key iv ciphertext : bytes) : evp (bool * bytes) :=
  Cipher_Encrypt plaintext ciphertext key iv des_cbc.
Definition DES_Decrypt (ciphertext key iv plaintext : bytes) : evp (bool * bytes) :=
  Cipher_Decrypt ciphertext plaintext key iv des_cbc.
Definition MD5_Hash (data digest : bytes) : evp (bool * bytes) := Digest_Hash data digest md5.
Definition SHA256_Hash (data digest : bytes) : evp (bool * bytes) := Digest_Hash data digest sha256.
Definition Generate_RSA_Key (fuel : nat) (public_key private_key : bytes)
  : evp (bool * (bytes * bytes)) := Generate_KeyPair_RSA fuel public_key private_key.
Definition Generate_DSA_Key (fuel : nat) (public_key private_key : bytes)
  : evp (bool * (bytes * bytes)) := Generate_KeyPair_DSA fuel public_key private_key.

Inductive Operation :=
| OpAesEncrypt (plaintext key iv : bytes)
| OpAesDecrypt (ciphertext key iv : bytes)
| OpDesEncrypt (plaintext key iv : bytes)
| OpDesDecrypt (ciphertext key iv : bytes)
| OpMd5 (data : bytes)
| OpSha256 (data : bytes)
| OpGenerateRsa
| OpRsaEncrypt (pub plaintext : bytes)
| OpRsaDecrypt (pri ciphertext : bytes)
| OpGenerateDsa
| OpDsaSign (pri data : bytes)
| OpDsaVerify (pub data signature : bytes).

(** An operation with empty output parameters; its outputs if it succeeds. *)
Definition when {A} (success : bool) (a : A) : option A := if success then Some a else None.

Definition perform (fuel : nat) (op : Operation) : evp (option (list bytes)) :=
  match op with
  | OpAesEncrypt p key iv => '(ok, c) ← AES_Encrypt p key iv []; mret (when ok [c])
  | OpAesDecrypt c key iv => '(ok, p) ← AES_Decrypt c key iv []; mret (when ok [p])
  | OpDesEncrypt p key iv => '(ok, c) ← DES_Encrypt p key iv []; mret (when ok [c])
  | OpDesDecrypt c key iv => '(ok, p) ← DES_Decrypt c key iv []; mret (when ok [p])
  | OpMd5 data => '(ok, d) ← MD5_Hash data []; mret (when ok [d])
  | OpSha256 data => '(ok, d) ← SHA256_Hash data []; mret (when ok [d])
  | OpGenerateRsa => '(ok, (pub, pri)) ← Generate_RSA_Key fuel [] []; mret (when ok [pub; pri])
  | OpRsaEncrypt pub p => c ← RSA_Encrypt pub p; mret (option_map (fun c => [c]) c)
  | OpRsaDecrypt pri c => p ← RSA_Decrypt pri c; mret (option_map (fun p => [p]) p)
  | OpGenerateDsa => '(ok, (pub, pri)) ← Generate_DSA_Key fuel [] []; mret (when ok [pub; pri])
  | OpDsaSign pri data => s ← DSA_Sign pri data; mret (option_map (fun s => [s]) s)
  | OpDsaVerify pub data sig => ok ← DSA_Verify pub data sig; mret (when ok [])
  end.
End Impl.

(** ** Every path, object by object *)

Section Proofs.
Context {E : Evp} {EL : EvpLaws E}.
Implicit Types (st : e_state) (v : gmap ptr (Obj Key)) (total H : Prop).

(** What holds when an operation returns: the objects are those of before, [H]
    still promises resources, and the result is as [Q] says. *)
Definition clean {A} H v (Q : A → Prop) (r : A) st : Prop :=
  e_view st = v ∧ (H → healthy st) ∧ Q r.

(** The object at [p] is freed last, or all objects are. *)
Lemma delete_created v p o : v !! p = None → delete p (<[p:=o]> v) = v.
Proof. apply delete_insert_id. Qed.

Lemma wp_free_last total f st v p o k H {A} (a : A) (Q : A → e_state → Prop) :
  (H → healthy st) → freed st k (Some p) (f st) → v !! p = None →
  e_view st = <[p:=o]> v → kind o = k →
  (∀ st', (H → healthy st') → e_view st' = v → Q a st') →
  wp total (attempt f;; mret a) st Q.
Proof.
  intros Hh Hf Hp Hv Hk HQ. apply wp_bind.
  eapply (wp_freed _ _ _ _ _ _ _ _ Hh Hv Hf).
  - intros q [= <-]. exists o. by rewrite lookup_insert_eq.
  - intros st' Hh' Hv'. apply HQ; [done|].
    by rewrite Hv', delete_created.
Qed.

Lemma to_int_small n : 0 <= n < 2 ^ 31 → to_int n = n.
Proof. intros Hn. unfold to_int. rewrite Z.mod_small by lia. lia. Qed.

Lemma to_int_le n : 0 <= n → to_int n <= n.
Proof.
  intros Hn. unfold to_int. assert (n + 2 ^ 31 = 2 ^ 32 * ((n + 2 ^ 31) / 2 ^ 32) + (n + 2 ^ 31) mod 2 ^ 32)
    as Hd by (apply Z.div_mod; lia).
  assert (0 <= (n + 2 ^ 31) / 2 ^ 32) by (apply Z.div_pos; lia). lia.
Qed.

(** How much of the input OpenSSL is told about. *)
Definition seen (data : bytes) : bytes := take (Z.to_nat (to_int (zlen data))) data.

Lemma seen_whole data : zlen data < 2 ^ 31 → seen data = data.
Proof.
  intros Hd. unfold seen. rewrite to_int_small by (unfold zlen in *; lia).
  apply take_ge. unfold zlen. lia.
Qed.

(** One call: [advance law] runs the next call by its law and leaves the rest of
    the program after a success; the path after a failure goes to [fail]. *)
Ltac view_lookup :=
  repeat match goal with Hv : e_view ?st = _ |- context [e_view ?st] => rewrite Hv end;
  repeat first [rewrite lookup_insert_eq; reflexivity | rewrite lookup_insert_ne by congruence
               | eassumption].
Ltac kind_kept :=
  match goal with
  | Hk : kind ?o' = kind ?o, Ho : _ !! _ = Some ?o |- kind ?o' = _ =>
      rewrite Hk; repeat rewrite lookup_insert_ne in Ho by congruence;
      rewrite lookup_insert_eq in Ho; by injection Ho as <-
  end.
Ltac decide_branch :=
  repeat match goal with x : (_ * _)%type |- _ => destruct x end;
  cbn [fst snd] in *; unfold id, is_zero, not_positive in *; cbn beta iota;
  match goal with
  | |- context [?r =? 0] => destruct (Z.eqb_spec r 0); [try lia|try lia]
  | |- context [?r <=? 0] => destruct (Z.leb_spec r 0); [try lia|try lia]
  | _ => idtac
  end.
Tactic Notation "advance" tactic3(law) "as" ident(st1) ident(Hh1) ident(Hv1) "else" tactic3(other) :=
  apply wp_bind; eapply wp_advanced;
  [eassumption|eassumption|law|
   let a := fresh "a" in let o := fresh "o" in let o' := fresh "o'" in
   let Hc := fresh "Hc" in let Hg := fresh "Hg" in let Ho := fresh "Ho" in let Hk := fresh "Hk" in
   intros a st1 o o' Hh1 Hc Hg Ho Hk Hv1; rewrite ?insert_insert_eq in Hv1; decide_branch|
   let a := fresh "a" in let o := fresh "o" in let o' := fresh "o'" in
   let Hc := fresh "Hc" in let Hw := fresh "Hw" in let Ho := fresh "Ho" in let Hk := fresh "Hk" in
   intros a st1 o o' Hh1 Hc Hw Ho Hk Hv1; rewrite ?insert_insert_eq in Hv1; decide_branch; other].

Ltac bail law :=
  eapply wp_free_last;
  [eassumption|apply law|eassumption|eassumption|kind_kept|
   intros; split_and!; try done; naive_solver].

Lemma seen_size data : zlen (seen data) <= zlen data.
Proof. unfold seen, zlen. rewrite length_take. lia. Qed.

(** The buffer of an encryption has room for everything. *)
Lemma cipher_fits c key iv p part :
  part `prefix_of` cipher_encrypt c key iv (seen p) →
  zlen part <= zlen (zeroed (zlen p + EVP_CIPHER_block_size c)).
Proof.
  intros Hp%prefix_length. rewrite law_block_size, zlen_zeroed
    by (unfold zlen; destruct c; cbn; lia).
  pose proof (law_cipher_size c key iv (seen p)). pose proof (seen_size p).
  unfold zlen in *. lia.
Qed.

Lemma Cipher_Encrypt_spec total H p out key iv c st :
  (H → healthy st) → key_length c <= zlen key → iv_length c <= zlen iv →
  0 <= to_int (zlen p) →
  wp total (Cipher_Encrypt p out key iv c) st (clean H (e_view st) (fun '(ok, ct) =>
    (ok = true → ct = cipher_encrypt c (take (Z.to_nat (key_length c)) key)
                        (take (Z.to_nat (iv_length c)) iv) (seen p))
    ∧ (ok = false → ct = out ∧ ¬ H))).
Proof.
  intros Hh Hk Hi Hn. unfold Cipher_Encrypt. apply wp_bind.
  eapply wp_new; [exact Hh|done|apply law_CIPHER_CTX_new|..].
  2: { intros st1 Hh1 HH Hv1. done. }
  intros ctx st1 Hh1 Hctx Hv1. cbn beta iota.
  advance (eapply law_EncryptInit; [view_lookup|done|done]) as st2 Hh2 Hv2 else
    (bail law_CIPHER_CTX_free). subst o'.
  advance (eapply law_EncryptUpdate; [view_lookup|done|done|done|split; [done|]]) as st3 Hh3 Hv3 else
    (bail law_CIPHER_CTX_free).
  { apply to_int_le. unfold zlen. lia. }
  destruct Hg as [-> Hg]. cbn in Hg. fold (seen p) in Hg.
  apply wp_bind, wp_must.
  { apply Z.leb_le. by eapply cipher_fits. }
  advance (eapply law_EncryptFinal; [view_lookup|done|done]) as st4 Hh4 Hv4 else
    (bail law_CIPHER_CTX_free).
  cbn in Hg0. fold (seen p) in Hg0.
  assert (zlen l + zlen l0 <= zlen (zeroed (zlen p + EVP_CIPHER_block_size c))) as Hfit.
  { rewrite <- zlen_app, Hg0. by eapply cipher_fits. }
  apply wp_bind, wp_must.
  { apply Z.leb_le. rewrite zlen_write_at; unfold zlen in *; lia. }
  rewrite resize_stores, Hg0 by (unfold zlen in *; lia). bail law_CIPHER_CTX_free.
Qed.

Lemma Cipher_Decrypt_spec total H ct out key iv c st :
  (H → healthy st) → key_length c <= zlen key → iv_length c <= zlen iv →
  0 <= to_int (zlen ct) →
  let p := cipher_decrypt c (take (Z.to_nat (key_length c)) key)
             (take (Z.to_nat (iv_length c)) iv) (seen ct) in
  wp total (Cipher_Decrypt ct out key iv c) st (clean H (e_view st) (fun '(ok, res) =>
    (ok = true → p = Some res) ∧ (ok = false → res = out ∧ (H → p = None)))).
Proof.
  intros Hh Hk Hi Hn p. unfold Cipher_Decrypt. apply wp_bind.
  eapply wp_new; [exact Hh|done|apply law_CIPHER_CTX_new|..].
  2: { intros st1 Hh1 HH Hv1. done. }
  intros ctx st1 Hh1 Hctx Hv1. cbn beta iota.
  assert (to_int (zlen ct) <= zlen ct) as Hle by (apply to_int_le; unfold zlen; lia).
  advance (eapply law_DecryptInit; [view_lookup|done|done]) as st2 Hh2 Hv2 else
    (bail law_CIPHER_CTX_free). subst o'.
  advance (eapply law_DecryptUpdate; [view_lookup|done|done|done|done]) as st3 Hh3 Hv3 else
    (bail law_CIPHER_CTX_free).
  destruct Hg as (-> & Hg & Hpre).
  assert (zlen (zeroed (zlen ct)) = zlen ct) as Hz by (apply zlen_zeroed; unfold zlen; lia).
  apply wp_bind, wp_must.
  { apply Z.leb_le. lia. }
  advance (eapply law_DecryptFinal; [view_lookup|done|exact Hpre]) as st4 Hh4 Hv4 else
    (bail law_CIPHER_CTX_free).
  cbn in Hg0. fold (seen ct) in Hg0. fold p in Hg0.
  pose proof (law_plain_size _ _ _ _ _ Hg0) as Hfit. rewrite zlen_app in Hfit.
  pose proof (seen_size ct).
  apply wp_bind, wp_must.
  { apply Z.leb_le. rewrite zlen_write_at; unfold zlen in *; lia. }
  rewrite resize_stores by (unfold zlen in *; lia). bail law_CIPHER_CTX_free.
Qed.

(** A digest that fails in its last call has already resized the output. *)
Lemma Digest_Hash_spec total H data out md st :
  (H → healthy st) →
  wp total (Digest_Hash data out md) st (clean H (e_view st) (fun '(ok, res) =>
    (ok = true → res = digest md data)
    ∧ (ok = false → (res = out ∨ res = resize (md_length md) out) ∧ ¬ H))).
Proof.
  intros Hh. unfold Digest_Hash. apply wp_bind.
  eapply wp_new; [exact Hh|done|apply law_MD_CTX_new|..].
  2: { intros st1 Hh1 HH Hv1. split_and!; naive_solver. }
  intros ctx st1 Hh1 Hctx Hv1. cbn beta iota.
  advance (eapply law_DigestInit; view_lookup) as st2 Hh2 Hv2 else (bail law_MD_CTX_free).
  subst o'.
  advance (eapply law_DigestUpdate; view_lookup) as st3 Hh3 Hv3 else (bail law_MD_CTX_free).
  subst o'. rewrite law_md_size.
  advance (eapply law_DigestFinal; view_lookup) as st4 Hh4 Hv4 else (bail law_MD_CTX_free).
  subst l. pose proof (law_digest_size md ([] ++ data)) as Hs. cbn [app] in *.
  assert (zlen (resize (md_length md) out) = zlen (digest md data)) as Hl.
  { rewrite Hs. apply zlen_resize. by destruct md. }
  apply wp_bind, wp_must.
  { apply Z.leb_le. lia. }
  rewrite resize_store by lia. bail law_MD_CTX_free.
Qed.

(** *** Keys *)

(** Freeing the object created last. *)
Lemma wp_free_top total f st v p o k H {A} (K : () → prog e_state A) (Q : A → e_state → Prop) :
  (H → healthy st) → freed st k (Some p) (f st) → v !! p = None →
  e_view st = <[p:=o]> v → kind o = k →
  (∀ st', (H → healthy st') → e_view st' = v → wp total (K ()) st' Q) →
  wp total (attempt f ≫= K) st Q.
Proof.
  intros Hh Hf Hp Hv Hk HQ. apply wp_bind.
  eapply (wp_freed _ _ _ _ _ _ _ _ Hh Hv Hf).
  - intros q [= <-]. exists o. by rewrite lookup_insert_eq.
  - intros st' Hh' Hv'. apply HQ; [done|]. by rewrite Hv', delete_created.
Qed.

Lemma release_key_spec total st v key bio ko bo H {A} (a : A) (Q : A → e_state → Prop) :
  (H → healthy st) → v !! bio = None → <[bio:=bo]> v !! key = None →
  e_view st = <[key:=ko]> (<[bio:=bo]> v) → kind ko = KPKey → kind bo = KBio →
  (∀ st', (H → healthy st') → e_view st' = v → Q a st') →
  wp total (release_key key (Some bio) a) st Q.
Proof.
  intros Hh Hb Hk Hv Hko Hbo HQ. unfold release_key.
  eapply wp_free_top; [exact Hh|apply law_PKEY_free|exact Hk|exact Hv|done|].
  intros st1 Hh1 Hv1.
  by eapply wp_free_last; [exact Hh1|apply law_BIO_free|exact Hb|exact Hv1|..].
Qed.

Lemma free_all_spec total f st v ctx key bio co ko bo k H {A} (a : A) (Q : A → e_state → Prop) :
  (H → healthy st) → freed st k (Some ctx) (f st) → kind co = k →
  v !! bio = None → <[bio:=bo]> v !! key = None → <[key:=ko]> (<[bio:=bo]> v) !! ctx = None →
  e_view st = <[ctx:=co]> (<[key:=ko]> (<[bio:=bo]> v)) → kind ko = KPKey → kind bo = KBio →
  (∀ st', (H → healthy st') → e_view st' = v → Q a st') →
  wp total (attempt f;; release_key key (Some bio) a) st Q.
Proof.
  intros Hh Hf Hco Hb Hk Hc Hv Hko Hbo HQ.
  eapply wp_free_top; [exact Hh|exact Hf|exact Hc|exact Hv|done|].
  intros st1 Hh1 Hv1. by eapply release_key_spec.
Qed.

(** The key and the buffer are freed, the context is not. *)
Lemma release_under_spec total st v ctx key bio co ko bo H {A} (a : A) (Q : A → e_state → Prop) :
  (H → healthy st) →
  v !! bio = None → <[bio:=bo]> v !! key = None → <[key:=ko]> (<[bio:=bo]> v) !! ctx = None →
  e_view st = <[ctx:=co]> (<[key:=ko]> (<[bio:=bo]> v)) → kind ko = KPKey → kind bo = KBio →
  (∀ st', (H → healthy st') → e_view st' = <[ctx:=co]> v → v !! ctx = None → Q a st') →
  wp total (release_key key (Some bio) a) st Q.
Proof.
  intros Hh Hb Hk Hc Hv Hko Hbo HQ.
  apply lookup_insert_None in Hc as [[Hc ?]%lookup_insert_None ?].
  eapply (release_key_spec _ _ (<[ctx:=co]> v)); [exact Hh| | | |done|done|auto].
  - by rewrite lookup_insert_ne.
  - apply lookup_insert_None in Hk as [??]. rewrite lookup_insert_ne, lookup_insert_ne by done. done.
  - by rewrite Hv, (insert_insert_ne _ ctx key), (insert_insert_ne _ ctx bio) by done.
Qed.

(** [reader] is one of the two PEM readers, for the encoding [pem]. *)
Definition reads_key (b : bool) (pem : KeyType → Key → bytes)
    (reader : option ptr → e_state → option (option ptr * e_state)) : Prop :=
  ∀ p c st, e_view st !! p = Some (MemBio c) →
    served st (reader (Some p) st) (fun new v v' => ∃ rest,
      match new with
      | None => v' = <[p:=MemBio rest]> v ∧ (healthy st → ∀ t k, c ≠ pem t k)
      | Some q => ∃ t k, v !! q = None ∧ v' = <[q:=PKey t k b]> (<[p:=MemBio rest]> v)
                         ∧ (∀ t' k', c = pem t' k' → t' = t ∧ k' = k)
      end).

(** The allocation of a memory buffer is the one the code does not check. *)
Definition buffers_available : Prop :=
  ∀ data n st new st', BIO_new_mem_buf data n st = Some (new, st') → data ≠ [] → is_Some new.

Definition readable (pem : bytes) : Prop := pem ≠ [] ∧ zlen pem < 2 ^ 31.

Context (Hbuf : buffers_available).

Lemma read_key_spec total b pem reader data st H {A} (bad : A) K (Q : A → e_state → Prop) :
  reads_key b pem reader → (H → healthy st) → readable data →
  (∀ st', (H → healthy st') → e_view st' = e_view st → (H → ∀ t k, data ≠ pem t k) → Q bad st') →
  (∀ bio key t k rest st', (H → healthy st') →
     e_view st !! bio = None → <[bio:=MemBio rest]> (e_view st) !! key = None →
     e_view st' = <[key:=PKey t k b]> (<[bio:=MemBio rest]> (e_view st)) →
     (∀ t' k', data = pem t' k' → t' = t ∧ k' = k) → wp total (K key (Some bio)) st' Q) →
  wp total (bio ← attempt (BIO_new_mem_buf data (to_int (zlen data)));
            key ← attempt (reader bio);
            match key with
            | None => attempt (BIO_free bio);; mret bad
            | Some key => K key bio
            end) st Q.
Proof.
  intros Hr Hh [Hne Hlt] Hbad HK. rewrite to_int_small by (unfold zlen in *; lia).
  destruct (law_BIO_new_mem_buf data (zlen data) st) as (new & st1 & Hf & Hh1 & Hc).
  { unfold zlen. lia. }
  destruct (Hbuf _ _ _ _ _ Hf Hne) as [bio ->]. destruct Hc as [Hbio Hv1].
  apply wp_bind. eapply wp_attempt; [exact Hf|]. apply wp_bind.
  replace (take (Z.to_nat (zlen data)) data) with data in Hv1
    by (symmetry; apply take_ge; unfold zlen; lia).
  eapply wp_served; [intros HH; apply Hh1, Hh, HH|apply (Hr bio data)|].
  { by rewrite Hv1, lookup_insert_eq. }
  intros [key|] st2 Hh2 [rest Hc].
  - destruct Hc as (t & k & Hkey & Hv2 & Hd). rewrite Hv1 in Hkey, Hv2.
    rewrite insert_insert_eq in Hv2. eapply HK; [done|done| |done|done].
    apply lookup_insert_None in Hkey as [??]. by apply lookup_insert_None.
  - destruct Hc as [Hv2 Hw]. rewrite Hv1, insert_insert_eq in Hv2.
    eapply wp_free_last; [exact Hh2|apply law_BIO_free|exact Hbio|exact Hv2|done|].
    intros st3 Hh3 Hv3. apply Hbad; auto.
Qed.

(** The two RSA operations are one program over three calls. *)
Definition RSA_run (reader : option ptr → e_state → option (option ptr * e_state))
    (init : ptr → e_state → option (Z * e_state))
    (size : ptr → bytes → e_state → option ((Z * Z) * e_state))
    (crypt : ptr → bytes → e_state → option ((Z * bytes) * e_state)) (pem input : bytes)
  : prog e_state (option bytes) :=
  bio ← attempt (BIO_new_mem_buf pem (to_int (zlen pem)));
  key ← attempt (reader bio);
  match key with
  | None => attempt (BIO_free bio);; mret None
  | Some key =>
      ctx ← attempt (EVP_PKEY_CTX_new key);
      match ctx with
      | None => release_key key bio None
      | Some ctx =>
          let fail := attempt (EVP_PKEY_CTX_free (Some ctx));; release_key key bio None in
          r ← attempt (init ctx);
          if r <=? 0 then release_key key bio None else
          '(r, outlen) ← attempt (size ctx input);
          if r <=? 0 then fail else
          '(r, out) ← attempt (crypt ctx input);
          if r <=? 0 then fail else
          must (zlen out <=? zlen (zeroed outlen));;
          attempt (EVP_PKEY_CTX_free (Some ctx));;
          release_key key bio (Some (resize (zlen out) (write_at (zeroed outlen) 0 out)))
      end
  end.

Lemma RSA_Encrypt_run : RSA_Encrypt = RSA_run PEM_read_bio_PUBKEY EVP_PKEY_encrypt_init
  EVP_PKEY_encrypt_size EVP_PKEY_encrypt.
Proof. reflexivity. Qed.

Lemma RSA_Decrypt_run : RSA_Decrypt = RSA_run PEM_read_bio_PrivateKey EVP_PKEY_decrypt_init
  EVP_PKEY_decrypt_size EVP_PKEY_decrypt.
Proof. reflexivity. Qed.

(** All objects are freed, or the context of a failed operation is left. *)
Definition clean_or_leak {A} H v (Q : option A → Prop) (r : option A) st : Prop :=
  (H → healthy st) ∧ Q r
  ∧ (e_view st = v ∨ (r = None ∧ ∃ ctx o, v !! ctx = None ∧ kind o = KPKeyCtx
                                        ∧ e_view st = <[ctx:=o]> v)).

Section RsaRun.
Context (b : bool) (pem : KeyType → Key → bytes) (job : KeyJob) (input : bytes).
Context (reader : option ptr → e_state → option (option ptr * e_state))
  (init : ptr → e_state → option (Z * e_state))
  (size : ptr → bytes → e_state → option ((Z * Z) * e_state))
  (crypt : ptr → bytes → e_state → option ((Z * bytes) * e_state)).
Context (good : Key → bytes → Prop) (why : Key → Prop).
Context (Hreader : reads_key b pem reader).
Context (Hinit : ∀ p t k j st, e_view st !! p = Some (PKeyCtx t (Some k) j) →
  advanced st p id not_positive (fun _ o => o = PKeyCtx t (Some k) (Some job)) (t ≠ KeyRSA)
    (init p st)).
Context (Hsize : ∀ p t k st, e_view st !! p = Some (PKeyCtx t (Some (k, b)) (Some job)) →
  advanced st p fst not_positive (fun '(_, n) o =>
    n = out_limit k ∧ o = PKeyCtx t (Some (k, b)) (Some job)) (why k) (size p input st)).
Context (Hcrypt : ∀ p t k st, e_view st !! p = Some (PKeyCtx t (Some (k, b)) (Some job)) →
  advanced st p fst not_positive (fun '(_, out) _ => zlen out <= out_limit k ∧ good k out)
    (why k) (crypt p input st)).

Lemma RSA_run_spec total H data st :
  (H → healthy st) → readable data →
  wp total (RSA_run reader init size crypt data input) st (clean_or_leak H (e_view st) (fun r =>
    ∀ k, data = pem KeyRSA k →
      match r with Some out => good k out | None => H → why k end)).
Proof.
  intros Hh Hd. unfold RSA_run.
  eapply (read_key_spec total b pem reader _ _ H None); [done..| |].
  { intros st1 Hh1 Hv1 Hn. split_and!; [done| |by left]. intros k Hk HH. by destruct (Hn HH _ _ Hk). }
  intros bio key t k rest st1 Hh1 Hbio Hkey Hv1 Huniq. apply wp_bind.
  eapply wp_created; [exact Hh1|exact Hv1|eapply law_PKEY_CTX_new; view_lookup|..].
  2: { intros st2 Hh2 HH Hv2. eapply release_key_spec; [exact Hh2|exact Hbio|exact Hkey|exact Hv2|done|done|].
       intros st3 Hh3 Hv3. split_and!; [done|naive_solver|by left]. }
  intros ctx st2 Hh2 Hctx Hv2. cbv zeta.
  advance (eapply Hinit; view_lookup) as st3 Hh3 Hv3 else idtac.
  2: { eapply release_under_spec; [exact Hh3|exact Hbio|exact Hkey|exact Hctx|exact Hv3|done|done|].
       intros st4 Hh4 Hv4 Hc4. split_and!; [done|naive_solver|]. right. split; [done|].
       exists ctx, o'. split_and!; [done| |done]. kind_kept. }
  subst o'.
  assert (∀ st' o, (H → healthy st') →
    e_view st' = <[ctx:=o]> (<[key:=PKey t k b]> (<[bio:=MemBio rest]> (e_view st))) →
    kind o = KPKeyCtx → (H → why k) →
    wp total (attempt (EVP_PKEY_CTX_free (Some ctx));; release_key key (Some bio) (@None bytes)) st'
      (clean_or_leak H (e_view st) (λ r, ∀ k, data = pem KeyRSA k →
        match r with Some out => good k out | None => H → why k end))) as Hfail.
  { intros st' o' Hh' Hv' Hko Hw.
    eapply free_all_spec; [exact Hh'|apply law_PKEY_CTX_free|done|exact Hbio|exact Hkey|exact Hctx|exact Hv'|done|done|].
    intros st4 Hh4 Hv4. split_and!; [done|naive_solver|by left]. }
  advance (eapply Hsize; view_lookup) as st4 Hh4 Hv4 else
    (eapply Hfail; [done|done|kind_kept|naive_solver]).
  destruct Hg as [-> ->].
  advance (eapply Hcrypt; view_lookup) as st5 Hh5 Hv5 else
    (eapply Hfail; [done|done|kind_kept|naive_solver]).
  destruct Hg as [Hl Hg]. rewrite <- (zlen_zeroed (out_limit k)) in Hl by apply law_out_limit.
  apply wp_bind, wp_must; [by apply Z.leb_le|]. rewrite resize_store by done.
  eapply free_all_spec; [exact Hh5|apply law_PKEY_CTX_free| |exact Hbio|exact Hkey|exact Hctx|exact Hv5|done|done|].
  { kind_kept. }
  intros st6 Hh6 Hv6. split_and!; [done| |by left]. intros k' Hk'. by destruct (Huniq _ _ Hk') as [_ ->].
Qed.
End RsaRun.

Lemma RSA_Encrypt_spec total H pub p st :
  (H → healthy st) → readable pub →
  wp total (RSA_Encrypt pub p) st (clean_or_leak H (e_view st) (fun r =>
    ∀ k, pub = pem_public KeyRSA k →
      match r with Some c => encrypts_to k p c | None => H → key_limit k < zlen p end)).
Proof.
  rewrite RSA_Encrypt_run. eapply (RSA_run_spec false pem_public Encrypting).
  - intros p' c st'. apply law_read_public.
  - apply law_encrypt_init.
  - intros. by eapply law_encrypt_size.
  - intros. by eapply law_encrypt.
Qed.

Lemma RSA_Decrypt_spec total H pri c st :
  (H → healthy st) → readable pri →
  wp total (RSA_Decrypt pri c) st (clean_or_leak H (e_view st) (fun r =>
    ∀ k, pri = pem_private KeyRSA k →
      match r with
      | Some p => ∀ m, encrypts_to k m c → p = m
      | None => H → ∀ m, ¬ encrypts_to k m c
      end)).
Proof.
  rewrite RSA_Decrypt_run. eapply (RSA_run_spec true pem_private Decrypting _ _ _ _ _
    (fun k p => ∀ m, encrypts_to k m c → p = m) (fun k => ∀ m, ¬ encrypts_to k m c)).
  - intros p' c' st'. apply law_read_private.
  - apply law_decrypt_init.
  - intros. by eapply law_decrypt_size.
  - intros. by eapply law_decrypt.
Qed.

(** A failed signature operation frees the context, the key and the buffer. *)
Ltac bail_all :=
  eapply free_all_spec;
  [eassumption|apply law_MD_CTX_free| |eassumption|eassumption|eassumption|eassumption|done|done|];
  [kind_kept|intros; split_and!; try done; naive_solver].

Lemma DSA_Sign_spec total H pri data st :
  (H → healthy st) → readable pri →
  wp total (DSA_Sign pri data) st (clean H (e_view st) (fun r =>
    ∀ t k, pri = pem_private t k →
      match r with Some sig => verifies sha256 k data sig = true | None => ¬ H end)).
Proof.
  intros Hh Hd. unfold DSA_Sign.
  eapply (read_key_spec total true pem_private PEM_read_bio_PrivateKey _ _ H None);
    [intros ???; apply law_read_private|done|done| |].
  { intros st1 Hh1 Hv1 Hn. split_and!; [done|done|]. intros t k Hk HH. by destruct (Hn HH _ _ Hk). }
  intros bio key t k rest st1 Hh1 Hbio Hkey Hv1 Huniq. apply wp_bind.
  eapply wp_new; [exact Hh1|exact Hv1|apply law_MD_CTX_new|..].
  2: { intros st2 Hh2 HH Hv2. apply wp_bind.
       eapply wp_freed; [exact Hh2|exact Hv2|apply law_MD_CTX_free|done|].
       intros st3 Hh3 Hv3. eapply release_key_spec;
         [exact Hh3|exact Hbio|exact Hkey|exact Hv3|done|done|by intros]. }
  intros ctx st2 Hh2 Hctx Hv2. cbv zeta.
  assert (key ≠ ctx) as Hne by (intros ->; by rewrite lookup_insert_eq in Hctx).
  advance (eapply law_SignInit; view_lookup) as st3 Hh3 Hv3 else bail_all. subst o'.
  advance (eapply law_SignUpdate; view_lookup) as st4 Hh4 Hv4 else bail_all. subst o'.
  advance (eapply law_SignFinal_size; view_lookup) as st5 Hh5 Hv5 else bail_all.
  destruct Hg as [-> ->].
  advance (eapply law_SignFinal; view_lookup) as st6 Hh6 Hv6 else bail_all.
  destruct Hg as [Hl Hg]. rewrite <- (zlen_zeroed (out_limit k)) in Hl by apply law_out_limit.
  apply wp_bind, wp_must; [by apply Z.leb_le|]. rewrite resize_store by done.
  eapply free_all_spec; [exact Hh6|apply law_MD_CTX_free| |exact Hbio|exact Hkey|exact Hctx|exact Hv6|done|done|].
  { kind_kept. }
  intros st7 Hh7 Hv7. split_and!; [done|done|].
  intros t' k' Hk'. by destruct (Huniq _ _ Hk') as [_ ->].
Qed.

Lemma DSA_Verify_spec total H pub data sig st :
  (H → healthy st) → readable pub →
  wp total (DSA_Verify pub data sig) st (clean H (e_view st) (fun r =>
    ∀ t k, pub = pem_public t k →
      (r = true → verifies sha256 k data sig = true)
      ∧ (r = false → H → verifies sha256 k data sig = false))).
Proof.
  intros Hh Hd. unfold DSA_Verify.
  eapply (read_key_spec total false pem_public PEM_read_bio_PUBKEY _ _ H false);
    [intros ???; apply law_read_public|done|done| |].
  { intros st1 Hh1 Hv1 Hn. split_and!; [done|done|]. intros t k Hk. split; [done|].
    intros _ HH. by destruct (Hn HH _ _ Hk). }
  intros bio key t k rest st1 Hh1 Hbio Hkey Hv1 Huniq. apply wp_bind.
  eapply wp_new; [exact Hh1|exact Hv1|apply law_MD_CTX_new|..].
  2: { intros st2 Hh2 HH Hv2. apply wp_bind.
       eapply wp_freed; [exact Hh2|exact Hv2|apply law_MD_CTX_free|done|].
       intros st3 Hh3 Hv3. eapply release_key_spec;
         [exact Hh3|exact Hbio|exact Hkey|exact Hv3|done|done|by intros]. }
  intros ctx st2 Hh2 Hctx Hv2. cbv zeta.
  assert (key ≠ ctx) as Hne by (intros ->; by rewrite lookup_insert_eq in Hctx).
  advance (eapply law_VerifyInit; view_lookup) as st3 Hh3 Hv3 else bail_all. subst o'.
  advance (eapply law_VerifyUpdate; view_lookup) as st4 Hh4 Hv4 else bail_all. subst o'.
  apply wp_bind.
  eapply wp_advanced; [exact Hh4|exact Hv4|eapply law_VerifyFinal; view_lookup|..].
  all: intros a1 st5 o1 o1' Hh5 Hc1 Hg1 Ho1 Hk1 Hv5; rewrite ?insert_insert_eq in Hv5;
    unfold id, not_positive in *.
  all: eapply free_all_spec;
    [exact Hh5|apply law_MD_CTX_free| |exact Hbio|exact Hkey|exact Hctx|exact Hv5|done|done|];
    [kind_kept|].
  all: intros st6 Hh6 Hv6; split_and!; [done|done|]; intros t' k' Hk';
    destruct (Huniq _ _ Hk') as [_ ->].
  - by rewrite Hc1.
  - destruct (Z.eqb_spec a1 1); [lia|done].
Qed.

(** *** Key generation *)

Lemma Read_BIO_spec total fuel p c buf H st :
  (H → healthy st) → e_view st !! p = Some (MemBio c) → (total → (length c < fuel)%nat) →
  wp total (Read_BIO fuel p buf) st (fun r st' =>
    r = buf ++ c ∧ (H → healthy st') ∧ ∃ c', e_view st' = <[p:=MemBio c']> (e_view st)).
Proof.
  revert c buf st. induction fuel as [|fuel IH]; intros c buf st Hh Hv Hf.
  - intros Ht. specialize (Hf Ht). lia.
  - cbn [Read_BIO]. apply wp_bind.
    eapply wp_served; [exact Hh|by apply law_BIO_read|].
    intros [r out] st' Hh' Hr. cbn beta iota in *. case_bool_decide as Hc.
    + destruct Hr as [Hr Hv']. rewrite (proj2 (Z.ltb_ge 0 r)) by done.
      apply wp_ret. split_and!; [by rewrite Hc, app_nil_r|done|].
      exists c. by rewrite Hv', insert_id.
    + destruct Hr as ([Hr0 Hr1] & -> & rest & -> & Hv'). rewrite (proj2 (Z.ltb_lt _ _)) by done.
      eapply wp_mono; [apply (IH rest)|].
      * done.
      * by rewrite Hv', lookup_insert_eq.
      * intros Ht. specialize (Hf Ht). rewrite length_app in Hf. unfold zlen in Hr0. lia.
      * intros a st'' (-> & Hh'' & c' & Hv''). split_and!; [|done|].
        -- unfold zlen. rewrite Nat2Z.id, firstn_all. by rewrite app_assoc.
        -- exists c'. by rewrite Hv'', Hv', insert_insert_eq.
Qed.

Definition delete_opt {A} (p : option ptr) (m : gmap ptr A) : gmap ptr A :=
  match p with Some q => delete q m | None => m end.

Definition is_bio (m : gmap ptr (Obj Key)) (p : option ptr) : Prop :=
  ∀ q, p = Some q → ∃ o, m !! q = Some o ∧ kind o = KBio.

Lemma is_bio_delete m p q o : is_bio m p → m !! q = Some o → kind o ≠ KBio → is_bio (delete q m) p.
Proof.
  intros Hp Hq Ho r ->. destruct (Hp r eq_refl) as (o' & Hr & Hk). exists o'.
  split; [|done]. rewrite lookup_delete_ne; [done|]. intros ->. congruence.
Qed.

Lemma release_keys_spec total m st pkey ctx ko co pub pri H {A} (a : A) (Q : A → e_state → Prop) :
  (H → healthy st) → e_view st = m →
  m !! pkey = Some ko → kind ko = KPKey → m !! ctx = Some co → kind co = KPKeyCtx →
  is_bio m pub → is_bio m pri → (∀ q, pub = Some q → pri ≠ Some q) →
  (∀ st', (H → healthy st') →
     e_view st' = delete_opt pri (delete_opt pub (delete ctx (delete pkey m))) → Q a st') →
  wp total (release_keys (Some pkey) (Some ctx) pub pri a) st Q.
Proof.
  intros Hh Hv Hp Hpk Hc Hck Hpub Hpri Hne HQ. unfold release_keys.
  apply wp_bind. eapply wp_freed; [exact Hh|exact Hv|apply law_PKEY_free|naive_solver|].
  intros st1 Hh1 Hv1. apply wp_bind.
  assert (delete pkey m !! ctx = Some co) as Hc' by (rewrite lookup_delete_ne; congruence).
  eapply wp_freed; [exact Hh1|exact Hv1|apply law_PKEY_CTX_free|naive_solver|].
  intros st2 Hh2 Hv2. apply wp_bind.
  assert (∀ p, is_bio m p → is_bio (delete ctx (delete pkey m)) p) as Hdel.
  { intros p Hbio. eapply is_bio_delete; [|exact Hc'|congruence].
    eapply is_bio_delete; [done|exact Hp|congruence]. }
  apply Hdel in Hpub, Hpri.
  eapply wp_freed; [exact Hh2|exact Hv2|apply law_BIO_free|exact Hpub|].
  intros st3 Hh3 Hv3. apply wp_bind.
  eapply wp_freed; [exact Hh3|exact Hv3|apply law_BIO_free| |].
  - intros q ->. destruct (Hpri q eq_refl) as (o & Ho & Hk). exists o. split; [|done].
    destruct pub as [q'|]; [|done]. rewrite lookup_delete_ne; [done|]. by intros ->; eapply Hne.
  - intros st4 Hh4 Hv4. by apply wp_ret, HQ.
Qed.

(** The objects that were created are gone again. *)
Ltac all_deleted :=
  apply map_eq; intros ?i; cbn [delete_opt];
  rewrite ?lookup_delete, ?lookup_insert; repeat case_decide; congruence.

(** Facts about the pointers of objects created one after the other. *)
Ltac fresh_facts :=
  repeat match goal with
  | Hn : <[_:=_]> _ !! _ = None |- _ => apply lookup_insert_None in Hn as [? ?]
  end.

Ltac bio_live :=
  first [by intros ? [=]|intros ? [= <-]; eexists; split; [view_lookup|first [done|kind_kept]]].
Ltac bail_keys :=
  eapply release_keys_spec;
  [eassumption|eassumption|view_lookup|done|view_lookup|done|bio_live|bio_live
  |intros; congruence|
   let st := fresh "st" in let Hh := fresh "Hh" in let Hv := fresh "Hv" in
   intros st Hh Hv; split_and!; [rewrite Hv; all_deleted|done|naive_solver..]].

Lemma write_KeyPair_spec total fuel pub pri ctx pkey co t k v H st :
  (H → healthy st) → v !! ctx = None → <[ctx:=co]> v !! pkey = None → kind co = KPKeyCtx →
  e_view st = <[pkey:=PKey t k true]> (<[ctx:=co]> v) → (total → (pem_limit < fuel)%nat) →
  wp total (write_KeyPair fuel pub pri ctx pkey) st (clean H v (fun '(ok, (p, q)) =>
    (ok = true → p = pem_public t k ∧ q = pem_private t k)
    ∧ (ok = false → p = pub ∧ q = pri ∧ ¬ H))).
Proof.
  intros Hh Hctx Hpkey Hco Hv Hf. unfold write_KeyPair. apply wp_bind.
  eapply wp_new; [exact Hh|exact Hv|apply law_BIO_new_mem|..].
  2: { intros st1 Hh1 HH Hv1. apply wp_bind.
       eapply wp_new; [exact Hh1|exact Hv1|apply law_BIO_new_mem|..].
       - intros b2 st2 Hh2 Hb2 Hv2. fresh_facts. bail_keys.
       - intros st2 Hh2 _ Hv2. fresh_facts. bail_keys. }
  intros b1 st1 Hh1 Hb1 Hv1. apply wp_bind.
  eapply wp_new; [exact Hh1|exact Hv1|apply law_BIO_new_mem|..].
  2: { intros st2 Hh2 HH Hv2. fresh_facts. bail_keys. }
  intros b2 st2 Hh2 Hb2 Hv2. fresh_facts. cbv zeta.
  advance (eapply law_write_public; view_lookup) as st3 Hh3 Hv3 else bail_keys. subst o'.
  advance (eapply law_write_private; view_lookup) as st4 Hh4 Hv4 else bail_keys. subst o'.
  apply wp_bind. eapply wp_mono; [apply (Read_BIO_spec _ _ _ (pem_public t k) _ H)|].
  - done.
  - view_lookup.
  - intros Ht. destruct (law_pem_public t k) as (_ & ? & _). specialize (Hf Ht). lia.
  - cbn beta. intros p st5 (-> & Hh5 & c1 & Hv5). rewrite Hv4 in Hv5. apply wp_bind.
    eapply wp_mono; [apply (Read_BIO_spec _ _ _ (pem_private t k) _ H)|].
    + done.
    + view_lookup.
    + intros Ht. destruct (law_pem_private t k) as (_ & ? & _). specialize (Hf Ht). lia.
    + cbn beta. intros q st6 (-> & Hh6 & c2 & Hv6). rewrite Hv5 in Hv6. bail_keys.
Qed.

Lemma Generate_KeyPair_spec total type set_bits why fuel pub pri H st :
  (∀ p b st, e_view st !! p = Some (PKeyCtx type None (Some (Generating b))) →
     advanced st p id not_positive (fun _ o => o = PKeyCtx type None (Some (Generating (Some 2048))))
       why (set_bits p 2048 st)) →
  (H → healthy st) → (total → (pem_limit < fuel)%nat) →
  wp total (Generate_KeyPair type set_bits fuel pub pri) st (clean H (e_view st) (fun '(ok, (p, q)) =>
    (ok = true → ∃ k, p = pem_public type k ∧ q = pem_private type k
                      ∧ (type = KeyRSA → key_limit k = 245))
    ∧ (ok = false → p = pub ∧ q = pri ∧ (H → why ∨ type ≠ KeyRSA)))).
Proof.
  intros Hbits Hh Hf. unfold Generate_KeyPair. apply wp_bind.
  eapply wp_new; [exact Hh|done|apply law_PKEY_CTX_new_id|..].
  2: { intros st1 Hh1 HH Hv1. split_and!; naive_solver. }
  intros ctx st1 Hh1 Hctx Hv1. cbv zeta.
  advance (eapply law_keygen_init; view_lookup) as st2 Hh2 Hv2 else (bail law_PKEY_CTX_free).
  subst o'.
  advance (eapply Hbits; view_lookup) as st3 Hh3 Hv3 else (bail law_PKEY_CTX_free).
  subst o'. apply wp_bind.
  eapply wp_served; [exact Hh3|eapply law_keygen; view_lookup|].
  intros [r new] st4 Hh4 [(-> & pkey & k & -> & Hp & Hv4 & Hl)|(Hr & Hv4 & Hw)];
    rewrite Hv3 in Hv4; cbn beta iota.
  - rewrite Hv3 in Hp. change (1 <=? 0) with false. cbn iota.
    eapply wp_mono; [eapply write_KeyPair_spec; [exact Hh4|exact Hctx|exact Hp|done|exact Hv4|done]|].
    intros [ok [p q]] st5 (Hv5 & Hh5 & Hok & Hnok). split_and!; [done|done|..].
    + intros Ht. destruct (Hok Ht) as [-> ->]. exists k. split_and!; [done|done|].
      intros Hrsa. by rewrite (Hl 2048).
    + intros Ht. destruct (Hnok Ht) as (-> & -> & ?). done.
  - rewrite (proj2 (Z.leb_le r 0)) by done.
    eapply wp_free_last; [exact Hh4|apply law_PKEY_CTX_free|exact Hctx|exact Hv4|done|].
    intros st5 Hh5 Hv5. split_and!; [done|done|done|]. intros _. split_and!; [done|done|]. auto.
Qed.

Lemma Generate_RSA_Key_spec total fuel pub pri H st :
  (H → healthy st) → (total → (pem_limit < fuel)%nat) →
  wp total (Generate_RSA_Key fuel pub pri) st (clean H (e_view st) (fun '(ok, (p, q)) =>
    (ok = true → ∃ k, p = pem_public KeyRSA k ∧ q = pem_private KeyRSA k ∧ key_limit k = 245)
    ∧ (ok = false → p = pub ∧ q = pri ∧ ¬ H))).
Proof.
  intros Hh Hf. eapply wp_mono; [apply (Generate_KeyPair_spec _ _ _ (2048 < 512) _ _ _ H)|].
  - intros p b st' Hv. by eapply law_rsa_bits.
  - done.
  - done.
  - intros [ok [p q]] st' (? & ? & Hok & Hnok). split_and!; [done|done|naive_solver|].
    intros Ht. destruct (Hnok Ht) as (-> & -> & Hw). split_and!; [done|done|].
    intros HH. destruct (Hw HH); [lia|done].
Qed.

Lemma Generate_DSA_Key_spec total fuel pub pri H st :
  (H → healthy st) → (total → (pem_limit < fuel)%nat) →
  wp total (Generate_DSA_Key fuel pub pri) st (clean H (e_view st) (fun '(ok, (p, q)) =>
    (ok = true → ∃ k, p = pem_public KeyDSA k ∧ q = pem_private KeyDSA k)
    ∧ (ok = false → p = pub ∧ q = pri))).
Proof.
  intros Hh Hf. eapply wp_mono; [apply (Generate_KeyPair_spec _ _ _ True _ _ _ H)|].
  - intros p b st' Hv. by eapply law_dsa_bits.
  - done.
  - done.
  - intros [ok [p q]] st' (? & ? & Hok & Hnok). split_and!; [done|done|naive_solver|].
    intros Ht. destruct (Hnok Ht) as (-> & -> & Hw). done.
Qed.

(** ** The properties *)

(** The sizes OpenSSL relies on and the code does not check. *)
Definition cipher_input (c : Cipher) (data key iv : bytes) : Prop :=
  key_length c <= zlen key ∧ iv_length c <= zlen iv ∧ 0 <= to_int (zlen data).

Definition admissible (op : Operation) : Prop :=
  match op with
  | OpAesEncrypt data key iv | OpAesDecrypt data key iv => cipher_input aes_256_cbc data key iv
  | OpDesEncrypt data key iv | OpDesDecrypt data key iv => cipher_input des_cbc data key iv
  | OpMd5 _ | OpSha256 _ | OpGenerateRsa | OpGenerateDsa => True
  | OpRsaEncrypt pem _ | OpRsaDecrypt pem _ | OpDsaSign pem _ | OpDsaVerify pem _ _ => readable pem
  end.

Definition is_rsa (op : Operation) : bool :=
  match op with OpRsaEncrypt _ _ | OpRsaDecrypt _ _ => true | _ => false end.

(** What an operation leaves behind. *)
Definition leaves (op : Operation) (r : option (list bytes)) v v' : Prop :=
  v' = v ∨ (is_rsa op = true ∧ r = None
            ∧ ∃ ctx o, v !! ctx = None ∧ kind o = KPKeyCtx ∧ v' = <[ctx:=o]> v).

Lemma perform_leaves fuel op st :
  admissible op → (pem_limit < fuel)%nat →
  wp True (perform fuel op) st (fun r st' => leaves op r (e_view st) (e_view st')).
Proof.
  intros Ha Hf. destruct op; cbn [admissible perform] in *; apply wp_bind;
    try destruct Ha as (? & ? & ?).
  1, 3: eapply wp_mono; [by eapply (Cipher_Encrypt_spec True False)|].
  3, 4: eapply wp_mono; [by eapply (Cipher_Decrypt_spec True False)|].
  5, 6: eapply wp_mono; [by eapply (Digest_Hash_spec True False)|].
  7: eapply wp_mono; [by eapply (Generate_RSA_Key_spec True _ _ _ False)|].
  8: eapply wp_mono; [by eapply (RSA_Encrypt_spec True False)|].
  9: eapply wp_mono; [by eapply (RSA_Decrypt_spec True False)|].
  10: eapply wp_mono; [by eapply (Generate_DSA_Key_spec True _ _ _ False)|].
  11: eapply wp_mono; [by eapply (DSA_Sign_spec True False)|].
  12: eapply wp_mono; [by eapply (DSA_Verify_spec True False)|].
  8, 9: intros r st' (_ & _ & [Hv|(-> & Hl)]); [by left|by right].
  all: intros r st' [Hv _]; repeat destruct r as [? r]; by left.
Qed.

(** Encrypt, then decrypt with the same key. *)
Definition cipher_there_and_back (c : Cipher) (p key iv : bytes) : prog e_state (bool * bytes) :=
  '(ok, ct) ← Cipher_Encrypt p [] key iv c;
  if ok : bool then Cipher_Decrypt ct [] key iv c else mret (false, []).

Lemma cipher_inverse c p key iv st :
  healthy st → key_length c <= zlen key → iv_length c <= zlen iv →
  zlen p + block_length c < 2 ^ 31 →
  wp True (cipher_there_and_back c p key iv) st (clean True (e_view st) (fun r => r = (true, p))).
Proof.
  intros Hh Hk Hi Hp. assert (0 < block_length c) by (by destruct c).
  apply wp_bind. eapply wp_mono; [apply (Cipher_Encrypt_spec True True)|]; try done.
  { rewrite to_int_small; unfold zlen in *; lia. }
  intros [[|] ct] st1 (Hv1 & Hh1 & Hok & Hnok); [|by destruct (Hnok eq_refl) as [_ []]].
  rewrite seen_whole in Hok by lia. specialize (Hok eq_refl) as ->.
  set (k := take _ key). set (v := take _ iv).
  pose proof (law_cipher_size c k v p). eapply wp_mono; [apply (Cipher_Decrypt_spec True True)|]; auto.
  { rewrite to_int_small; unfold zlen in *; lia. }
  fold k v. rewrite seen_whole by lia. rewrite law_cipher_inverse.
  intros [[|] q] st2 (Hv2 & Hh2 & Hok2 & Hnok2).
  - split_and!; [congruence|done|]. by injection (Hok2 eq_refl) as ->.
  - by destruct (Hnok2 eq_refl) as [_ Hn]; specialize (Hn I).
Qed.

(** Generate a key pair, encrypt with one half, decrypt with the other. *)
Definition rsa_there_and_back (fuel : nat) (p : bytes) : prog e_state (option bytes) :=
  '(ok, (pub, pri)) ← Generate_RSA_Key fuel [] [];
  if ok : bool then c ← RSA_Encrypt pub p; match c with Some c => RSA_Decrypt pri c | None => mret None end
  else mret None.

Lemma pem_readable t k : readable (pem_public t k) ∧ readable (pem_private t k).
Proof.
  destruct (law_pem_public t k) as (? & _ & ?), (law_pem_private t k) as (? & _ & ?). done.
Qed.

Lemma rsa_inverse fuel p st :
  healthy st → zlen p <= 245 → (pem_limit < fuel)%nat →
  wp True (rsa_there_and_back fuel p) st (clean True (e_view st) (fun r => r = Some p)).
Proof.
  intros Hh Hp Hf. apply wp_bind.
  eapply wp_mono; [apply (Generate_RSA_Key_spec True _ _ _ True); done|].
  intros [[|] [pub pri]] st1 (Hv1 & Hh1 & Hok & Hnok); [|by destruct (Hnok eq_refl) as (_ & _ & [])].
  destruct (Hok eq_refl) as (k & -> & -> & Hl). destruct (pem_readable KeyRSA k) as [Hpub Hpri].
  apply wp_bind. eapply wp_mono; [by apply (RSA_Encrypt_spec True True)|].
  intros r st2 (Hh2 & Hr & Hv2). specialize (Hr k eq_refl).
  destruct r as [c|]; [|specialize (Hr I); lia]. destruct Hv2 as [Hv2|[? _]]; [|done].
  eapply wp_mono; [by apply (RSA_Decrypt_spec True True)|].
  intros r st3 (Hh3 & Hr3 & Hv3). specialize (Hr3 k eq_refl).
  destruct r as [q|]; [|by destruct (Hr3 I p)]. destruct Hv3 as [Hv3|[? _]]; [|done].
  split_and!; [congruence|done|]. by rewrite (Hr3 p).
Qed.

(** Sign with a generated key, then verify. *)
Definition dsa_there_and_back (fuel : nat) (data : bytes) : prog e_state (option bool) :=
  '(ok, (pub, pri)) ← Generate_DSA_Key fuel [] [];
  if ok : bool then
    s ← DSA_Sign pri data;
    match s with Some s => r ← DSA_Verify pub data s; mret (Some r) | None => mret (Some false) end
  else mret None.

(** If a key can be generated at all. *)
Lemma dsa_verifies fuel data st :
  healthy st → (pem_limit < fuel)%nat →
  wp True (dsa_there_and_back fuel data) st (clean True (e_view st) (fun r =>
    r = None ∨ r = Some true)).
Proof.
  intros Hh Hf. apply wp_bind.
  eapply wp_mono; [apply (Generate_DSA_Key_spec True _ _ _ True); done|].
  intros [[|] [pub pri]] st1 (Hv1 & Hh1 & Hok & Hnok); [|by split_and!; auto].
  destruct (Hok eq_refl) as (k & -> & ->). destruct (pem_readable KeyDSA k) as [Hpub Hpri].
  apply wp_bind. eapply wp_mono; [by apply (DSA_Sign_spec True True)|].
  intros r st2 (Hv2 & Hh2 & Hr). specialize (Hr KeyDSA k eq_refl).
  destruct r as [s|]; [|by destruct Hr]. apply wp_bind.
  eapply wp_mono; [by apply (DSA_Verify_spec True True)|].
  intros r st3 (Hv3 & Hh3 & Hr3). specialize (Hr3 KeyDSA k eq_refl) as [Hok3 Hnok3].
  split_and!; [congruence|done|]. right. destruct r; [done|]. specialize (Hnok3 eq_refl I).
  congruence.
Qed.

(** A length that does not fit an [int] is reduced, and only the beginning of
    the input is encrypted, without an error. *)
Lemma long_input_truncated c p out key iv n st st' ct :
  key_length c <= zlen key → iv_length c <= zlen iv →
  zlen p = 2 ^ 32 + n → 0 <= n < 2 ^ 31 →
  Cipher_Encrypt p out key iv c st = Done ((true, ct), st') →
  ct = cipher_encrypt c (take (Z.to_nat (key_length c)) key)
         (take (Z.to_nat (iv_length c)) iv) (take (Z.to_nat n) p).
Proof.
  intros Hk Hi Hp Hn Hrun. assert (to_int (zlen p) = n) as Ht.
  { unfold to_int. rewrite Hp. replace (2 ^ 32 + n + 2 ^ 31) with ((n + 2 ^ 31) + 1 * 2 ^ 32) by lia.
    rewrite Z.mod_add, Z.mod_small by lia. lia. }
  assert (0 <= to_int (zlen p)) as H0 by lia.
  pose proof (Cipher_Encrypt_spec False False p out key iv c st (fun f => match f with end) Hk Hi H0)
    as Hwp.
  apply (wp_partial _ _ _ _ _ Hwp) in Hrun as (_ & _ & Hok & _).
  rewrite (Hok eq_refl). unfold seen. by rewrite Ht.
Qed.


(** AES and DES: with a key and an initialization vector long enough and an
    input whose ciphertext an [int] can measure, encryption succeeds,
    decryption of its result with the same key returns the input, and both
    free their contexts. *)
Theorem ciphers_roundtrip c p key iv st :
  healthy st → key_length c <= zlen key → iv_length c <= zlen iv →
  zlen p + block_length c < 2 ^ 31 →
  ∃ st', cipher_there_and_back c p key iv st = Done ((true, p), st') ∧ e_view st' = e_view st.
Proof.
  intros Hh Hk Hi Hp. destruct (wp_total _ _ _ (cipher_inverse c p key iv st Hh Hk Hi Hp))
    as (r & st' & Hrun & Hv & _ & ->). eauto.
Qed.

(** RSA: generating a key pair succeeds, what is encrypted with the public
    key it returns (up to the 245 bytes a 2048-bit key takes) is decrypted with
    the private key it returns, through their PEM encodings, and every object
    created on the way is freed. *)
Theorem rsa_roundtrip fuel p st :
  healthy st → zlen p <= 245 → (pem_limit < fuel)%nat →
  ∃ st', rsa_there_and_back fuel p st = Done (Some p, st') ∧ e_view st' = e_view st.
Proof.
  intros Hh Hp Hf. destruct (wp_total _ _ _ (rsa_inverse fuel p st Hh Hp Hf))
    as (r & st' & Hrun & Hv & _ & ->). eauto.
Qed.
End Proofs.

(** ** Runs *)

Lemma toy_buffers_available : buffers_available (E := toy_evp).
Proof.
  intros data n st new st'. cbn. destruct (_ || _); [done|]. case_bool_decide; [done|].
  intros [= <- _]. eauto.
Qed.

Definition demo_pub : bytes := toy_pem 80 KeyRSA 2048.
Definition demo_dsa_pub : bytes := toy_pem 80 KeyDSA 2048.
Definition demo_text : bytes := [72; 101; 108; 108; 111].
Definition demo_key : bytes := replicate 32 65.
Definition demo_iv : bytes := replicate 16 66.

(** Encrypting with a DSA key: the initialization fails and the context stays. *)
Example failed_init_leaks :
  perform 8 (OpRsaEncrypt demo_dsa_pub demo_text) toy_start
  = Done (None, mkToy {[ 3 := PKeyCtx KeyDSA (Some (2048, false)) None ]} None).
Proof. vm_compute. reflexivity. Qed.

(** A key shorter than the cipher's is read past its end. *)
Example short_key_undefined :
  perform 8 (OpAesEncrypt demo_text [65; 65] demo_iv) toy_start = Undefined.
Proof. reflexivity. Qed.


Lemma ciphers_roundtrip_witness :
  ∃ st', cipher_there_and_back aes_256_cbc demo_text demo_key demo_iv toy_start
         = Done ((true, demo_text), st') ∧ e_view st' = e_view toy_start.
Proof. by apply (ciphers_roundtrip (E := toy_evp) aes_256_cbc demo_text demo_key demo_iv toy_start). Defined.

Lemma rsa_roundtrip_witness :
  ∃ st', rsa_there_and_back 8 demo_text toy_start = Done (Some demo_text, st') ∧ e_view st' = e_view toy_start.
Proof.
  apply (rsa_roundtrip (E := toy_evp) toy_buffers_available 8 demo_text toy_start);
    [done|done|cbn; lia].
Defined.
