(* ===== verification/Text.v ===== *)
(** * Text: characters, decimal numbers and string streams

    What the legacy C++ code takes from the language for text: exceptions with
    a message, decimal numbers, and input from a [std::stringstream] with the
    state bits that decide what a failed extraction leaves behind.  A local
    [long] that is declared without a value is an [option Z]: extraction from
    an exhausted stream does not assign it. *)

From S2P Require Import Prelude.

(** [std::runtime_error] with its [what()], and the [std::length_error] of a
    string that is asked to be too long. *)
Inductive exception := runtime_error (what : bytes) | length_error.

Definition text : string → bytes := string_bytes.

(** ** Numbers *)

Definition is_digit (c : Z) : bool := (48 <=? c) && (c <=? 57).

Fixpoint span_digits (bs : bytes) : bytes * bytes :=
  match bs with
  | c :: bs' => if is_digit c then let '(d, r) := span_digits bs' in (c :: d, r) else ([], bs)
  | [] => ([], [])
  end.

Definition digits_value (bs : bytes) : Z := fold_left (fun v c => v * 10 + (c - 48)) bs 0.

Fixpoint dec_digits (fuel : nat) (n : Z) : bytes :=
  match fuel with
  | O => [48 + n]
  | S fuel' => if n <? 10 then [48 + n] else dec_digits fuel' (n / 10) ++ [48 + n mod 10]
  end.

(** What [<<] writes for an integer. *)
Definition dec (z : Z) : bytes :=
  if z <? 0 then 45 :: dec_digits (Z.to_nat (Z.log2 (- z))) (- z)
  else dec_digits (Z.to_nat (Z.log2 z)) z.

(** ** Input streams *)

Record stream := mkStream { ss_rest : bytes; ss_eof : bool; ss_fail : bool }.

Definition istream (contents : bytes) : stream := mkStream contents false false.

Definition good (ss : stream) : bool := negb (ss_eof ss) && negb (ss_fail ss).

Definition set_fail (ss : stream) : stream := mkStream (ss_rest ss) (ss_eof ss) true.

Fixpoint split_at (delim : Z) (bs : bytes) : bytes * option bytes :=
  match bs with
  | [] => ([], None)
  | c :: bs' => if c =? delim then ([], Some bs')
                else let '(line, rest) := split_at delim bs' in (c :: line, rest)
  end.

(** [std::getline(ss, str, delim)] *)
Definition getline (delim : Z) (str : bytes) (ss : stream) : bytes * stream :=
  if good ss
  then match split_at delim (ss_rest ss) with
       | (line, Some rest) => (line, mkStream rest false false)
       | (line, None) => (line, mkStream [] true (bool_decide (line = [])))
       end
  else (str, set_fail ss).

(** [ss.ignore(1)] *)
Definition ignore1 (ss : stream) : stream :=
  if good ss
  then match ss_rest ss with
       | _ :: rest => mkStream rest false false
       | [] => mkStream [] true false
       end
  else set_fail ss.

Definition is_space (c : Z) : bool := (c =? 32) || ((9 <=? c) && (c <=? 13)).

Fixpoint skip_space (bs : bytes) : bytes :=
  match bs with
  | c :: bs' => if is_space c then skip_space bs' else bs
  | [] => []
  end.

Definition LONG_MAX : Z := 2 ^ 63 - 1.
Definition LONG_MIN : Z := - 2 ^ 63.

Definition take_sign (bs : bytes) : bool * bytes :=
  match bs with
  | c :: bs' => if c =? 45 then (true, bs') else if c =? 43 then (false, bs') else (false, bs)
  | [] => (false, [])
  end.

(** The digits after the blanks: no digit gives 0, a value out of range the
    nearest limit, both with [failbit]. *)
Definition extract_long (bs : bytes) : Z * stream :=
  let '(negative, bs) := take_sign bs in
  let '(digits, rest) := span_digits bs in
  let eof := bool_decide (rest = []) in
  if bool_decide (digits = []) then (0, mkStream rest eof true) else
  let v := if negative then - digits_value digits else digits_value digits in
  if v <? LONG_MIN then (LONG_MIN, mkStream rest eof true)
  else if LONG_MAX <? v then (LONG_MAX, mkStream rest eof true)
  else (v, mkStream rest eof false).

(** [ss >> value] for a [long value] *)
Definition read_long (value : option Z) (ss : stream) : option Z * stream :=
  if good ss
  then match skip_space (ss_rest ss) with
       | [] => (value, mkStream [] true true)
       | bs => let '(v, ss) := extract_long bs in (Some v, ss)
       end
  else (value, set_fail ss).

(** ** Decimal numbers are read back *)

Lemma span_digits_spec bs d r :
  span_digits bs = (d, r) ↔
  bs = d ++ r ∧ Forall (fun c => is_digit c = true) d
  ∧ (∀ c r', r = c :: r' → is_digit c = false).
Proof.
  revert d r. induction bs as [|c bs IH]; intros d r; cbn.
  - split; [by intros [= <- <-]|]. intros (He & _). symmetry in He. by apply app_nil in He as [-> ->].
  - destruct (is_digit c) eqn:Ec.
    + destruct (span_digits bs) as [d' r'] eqn:E.
      destruct (proj1 (IH d' r') eq_refl) as (Hb & Hd & Hr). split.
      * intros [= <- <-]. rewrite Hb. split_and!; [done|by constructor|done].
      * intros (He & Hdig & Hfirst). destruct d as [|c' d].
        { cbn in He. subst r. by rewrite (Hfirst c bs eq_refl) in Ec. }
        injection He as -> He. inversion_clear Hdig.
        assert ((d', r') = (d, r)) as E2 by (by apply IH). congruence.
    + split.
      * intros [= <- <-]. split_and!; [done|done|]. by intros c' r' [= <- _].
      * intros (He & Hdig & _). destruct d as [|c' d]; [by rewrite He|].
        injection He as -> He. inversion_clear Hdig. congruence.
Qed.

Lemma digits_value_snoc bs c : digits_value (bs ++ [c]) = digits_value bs * 10 + (c - 48).
Proof. unfold digits_value. by rewrite fold_left_app. Qed.

Lemma digit_char n : 0 <= n < 10 → is_digit (48 + n) = true.
Proof. intros. unfold is_digit. apply andb_true_iff. rewrite !Z.leb_le. lia. Qed.

Lemma dec_digits_spec fuel n :
  0 <= n → Z.log2 n <= Z.of_nat fuel →
  dec_digits fuel n ≠ [] ∧ Forall (fun c => is_digit c = true) (dec_digits fuel n)
  ∧ digits_value (dec_digits fuel n) = n.
Proof.
  revert n. induction fuel as [|fuel IH]; intros n Hn Hl.
  { assert (n < 2) by (destruct (Z.le_gt_cases 2 n) as [H|]; [|lia];
      apply Z.log2_le_mono in H; change (Z.log2 2) with 1 in H; lia).
    cbn [dec_digits]. split_and!; [done| |unfold digits_value; cbn; lia].
    constructor; [apply digit_char; lia|done]. }
  cbn [dec_digits]. destruct (Z.ltb_spec n 10).
  { split_and!; [done| |unfold digits_value; cbn; lia]. constructor; [apply digit_char; lia|done]. }
  destruct (IH (n / 10)) as (_ & Hd & Hv).
  { apply Z.div_pos; lia. }
  { enough (Z.log2 (n / 10) < Z.log2 n) by lia.
    assert (n / 10 <= n / 2) by (apply Z.div_le_compat_l; lia).
    apply (Z.le_lt_trans _ (Z.log2 (n / 2))); [by apply Z.log2_le_mono|].
    rewrite <- Z.div2_div, Z.div2_spec, Z.log2_shiftr by lia.
    assert (1 <= Z.log2 n) by (change 1 with (Z.log2 2); apply Z.log2_le_mono; lia). lia. }
  split_and!.
  - by destruct (dec_digits fuel (n / 10)).
  - apply Forall_app. split; [done|]. constructor; [|done].
    apply digit_char. apply Z.mod_pos_bound. lia.
  - rewrite digits_value_snoc, Hv. pose proof (Z.div_mod n 10). lia.
Qed.

Lemma dec_natural n : 0 <= n →
  dec n ≠ [] ∧ Forall (fun c => is_digit c = true) (dec n) ∧ digits_value (dec n) = n.
Proof.
  intros Hn. unfold dec. destruct (Z.ltb_spec n 0); [lia|].
  apply dec_digits_spec; [done|]. pose proof (Z.log2_nonneg n). lia.
Qed.

(** [dec z] is a sign and the digits of its magnitude. *)
Lemma dec_sign z : dec z = (if z <? 0 then [45] else []) ++ dec (Z.abs z).
Proof.
  unfold dec. destruct (Z.ltb_spec z 0).
  - rewrite Z.abs_neq by lia. destruct (Z.ltb_spec (- z) 0); [lia|done].
  - rewrite Z.abs_eq by lia. destruct (Z.ltb_spec z 0); [lia|done].
Qed.

Lemma digit_not_sign ds rest :
  ds ≠ [] → Forall (fun c => is_digit c = true) ds → take_sign (ds ++ rest) = (false, ds ++ rest).
Proof.
  intros Hn Hd. destruct ds as [|c ds]; [done|]. apply Forall_cons in Hd as [Hc _].
  unfold is_digit in Hc. cbn. reflect_bools.
  destruct (Z.eqb_spec c 45); [lia|]. by destruct (Z.eqb_spec c 43); [lia|].
Qed.

Definition ends_number (rest : bytes) : Prop := ∀ c r, rest = c :: r → is_digit c = false.

Lemma extract_long_dec z rest :
  LONG_MIN <= z <= LONG_MAX → ends_number rest →
  extract_long (dec z ++ rest) = (z, mkStream rest (bool_decide (rest = [])) false).
Proof.
  intros Hz Hr. destruct (dec_natural (Z.abs z)) as (Hn & Hd & Hv); [lia|].
  assert (take_sign (dec z ++ rest) = (z <? 0, dec (Z.abs z) ++ rest)) as E.
  { rewrite (dec_sign z). destruct (Z.ltb_spec z 0); [done|].
    rewrite app_nil_l. by apply digit_not_sign. }
  unfold extract_long. rewrite E.
  rewrite (proj2 (span_digits_spec _ (dec (Z.abs z)) rest)) by done.
  rewrite (bool_decide_false (_ = [])) by done. rewrite Hv.
  assert ((if z <? 0 then - Z.abs z else Z.abs z) = z) as -> by (destruct (Z.ltb_spec z 0); lia).
  destruct (Z.ltb_spec z LONG_MIN); [lia|]. by destruct (Z.ltb_spec LONG_MAX z); [lia|].
Qed.

Lemma dec_head z : ∃ c bs, dec z = c :: bs ∧ is_space c = false.
Proof.
  rewrite dec_sign. destruct (z <? 0); [by eexists 45, _|].
  destruct (dec_natural (Z.abs z)) as (Hn & Hd & _); [lia|].
  destruct (dec (Z.abs z)) as [|c bs]; [done|]. exists c, bs. split; [done|].
  apply Forall_cons in Hd as [Hc _]. unfold is_digit in Hc. unfold is_space. reflect_bools.
  apply orb_false_iff. rewrite andb_false_iff, Z.eqb_neq, Z.leb_gt, Z.leb_gt. lia.
Qed.

(** Reading back a number that [<<] wrote. *)
Lemma read_long_dec value z rest :
  LONG_MIN <= z <= LONG_MAX → ends_number rest →
  read_long value (istream (dec z ++ rest))
  = (Some z, mkStream rest (bool_decide (rest = [])) false).
Proof.
  intros Hz Hr. unfold read_long. cbn [good istream ss_rest ss_eof ss_fail].
  destruct (dec_head z) as (c & bs & E & Hc).
  assert (skip_space (dec z ++ rest) = dec z ++ rest) as -> by (rewrite E; cbn; by rewrite Hc).
  assert (∃ b, dec z ++ rest = c :: b) as [b Eb] by (rewrite E; eauto).
  pose proof (extract_long_dec z rest Hz Hr) as Ex. rewrite Eb in *. by rewrite Ex.
Qed.

(** ** Fields *)

Lemma split_at_app delim line rest :
  delim ∉ line → split_at delim (line ++ delim :: rest) = (line, Some rest).
Proof.
  induction line as [|c line IH]; intros Hn; cbn; [by rewrite Z.eqb_refl|].
  destruct (Z.eqb_spec c delim); [set_solver|]. rewrite IH by set_solver. done.
Qed.

Lemma split_at_none delim line : delim ∉ line → split_at delim line = (line, None).
Proof.
  induction line as [|c line IH]; intros Hn; cbn; [done|].
  destruct (Z.eqb_spec c delim); [set_solver|]. rewrite IH by set_solver. done.
Qed.

Lemma split_at_spec delim bs :
  match split_at delim bs with
  | (line, Some rest) => bs = line ++ delim :: rest ∧ delim ∉ line
  | (line, None) => bs = line ∧ delim ∉ line
  end.
Proof.
  induction bs as [|c bs IH]; cbn; [set_solver|].
  destruct (Z.eqb_spec c delim) as [->|Hc]; [set_solver|].
  destruct (split_at delim bs) as [line [rest|]]; destruct IH as [-> Hn]; set_solver.
Qed.

(** The next field of a stream that still has a delimiter, and the last one. *)
Lemma getline_field delim str line rest :
  delim ∉ line → getline delim str (istream (line ++ delim :: rest)) = (line, istream rest).
Proof. intros Hn. unfold getline. cbn. by rewrite split_at_app. Qed.

Lemma getline_last delim str line :
  delim ∉ line →
  getline delim str (istream line) = (line, mkStream [] true (bool_decide (line = []))).
Proof. intros Hn. unfold getline. cbn. by rewrite split_at_none. Qed.

Lemma getline_spent delim str ss : good ss = false → getline delim str ss = (str, set_fail ss).
Proof. intros E. unfold getline. by rewrite E. Qed.

(** A [long] is left without a value exactly when the stream has nothing but
    blanks to offer. *)
Lemma read_long_unset ss :
  (read_long None ss).1 = None ↔ good ss = false ∨ skip_space (ss_rest ss) = [].
Proof.
  unfold read_long. destruct (good ss); [|naive_solver].
  destruct (skip_space (ss_rest ss)) as [|c bs]; [naive_solver|].
  destruct (extract_long (c :: bs)) as [v s]. cbn. naive_solver.
Qed.

(** Every extracted [long] is in range. *)
Lemma extract_long_range bs : LONG_MIN <= (extract_long bs).1 <= LONG_MAX.
Proof.
  unfold extract_long. destruct (take_sign bs) as [neg bs'].
  destruct (span_digits bs') as [ds rest]. case_bool_decide; [cbn; unfold LONG_MIN, LONG_MAX; lia|].
  set (v := if neg then _ else _).
  destruct (Z.ltb_spec v LONG_MIN); [cbn; unfold LONG_MIN, LONG_MAX; lia|].
  destruct (Z.ltb_spec LONG_MAX v); [cbn; unfold LONG_MIN, LONG_MAX; lia|]. done.
Qed.
