(* ===== verification/OrdMap.v ===== *)
(** * OrdMap: [std::map<std::string, V>]

    The legacy modules keep tables in ordered maps and walk them in key order:
    the node table of [src/ya_communicate/arch/p2p.cpp], the column lists of
    [src/ya_sql].  An [ordmap V] is the sequence of entries such a walk visits;
    [omap_sorted] is the invariant of the container, which every operation
    keeps.  Keys compare as [std::string] does, byte by byte. *)

From stdpp Require Import sorting.
From S2P Require Import Prelude.

Fixpoint key_lt (a b : bytes) : bool :=
  match a, b with
  | [], [] => false
  | [], _ :: _ => true
  | _ :: _, [] => false
  | x :: a', y :: b' => (x <? y) || ((x =? y) && key_lt a' b')
  end.

Abbreviation ordmap V := (list (bytes * V)).

Section Operations.
Context {V : Type}.
Implicit Types (m : ordmap V) (k : bytes) (v : V).

Fixpoint omap_lookup k m : option V :=
  match m with
  | [] => None
  | (k', v) :: m' => if bool_decide (k = k') then Some v else omap_lookup k m'
  end.

(** [m[k] = v] *)
Fixpoint omap_insert k v m : ordmap V :=
  match m with
  | [] => [(k, v)]
  | (k', v') :: m' =>
      if key_lt k k' then (k, v) :: m
      else if bool_decide (k = k') then (k, v) :: m'
      else (k', v') :: omap_insert k v m'
  end.

(** [m.erase(k)] *)
Fixpoint omap_erase k m : ordmap V :=
  match m with
  | [] => []
  | (k', v') :: m' => if bool_decide (k = k') then m' else (k', v') :: omap_erase k m'
  end.

(** A brace-enclosed list of pairs, or insertions one after the other. *)
Definition omap_of (entries : list (bytes * V)) : ordmap V :=
  foldl (fun m e => omap_insert e.1 e.2 m) [] entries.
End Operations.

Definition omap_sorted {V} (m : ordmap V) : Prop :=
  StronglySorted (fun a b => key_lt a b = true) m.*1.

(** ** The order of keys *)

Lemma key_lt_irrefl a : key_lt a a = false.
Proof. induction a as [|x a IH]; [done|]. cbn. by rewrite Z.ltb_irrefl, Z.eqb_refl, IH. Qed.

Lemma key_lt_cons x y a b :
  key_lt (x :: a) (y :: b) = true ↔ x < y ∨ (x = y ∧ key_lt a b = true).
Proof. cbn. rewrite orb_true_iff, andb_true_iff. rewrite Z.ltb_lt, Z.eqb_eq. done. Qed.

Lemma key_lt_trans a b c : key_lt a b = true → key_lt b c = true → key_lt a c = true.
Proof.
  revert b c. induction a as [|x a IH]; intros [|y b] [|z c]; try done.
  rewrite !key_lt_cons. intros [?|[-> ?]] [?|[-> ?]]; [left; lia|left; lia|left; lia|].
  right. eauto.
Qed.

Lemma key_lt_total a b : key_lt a b = false → a ≠ b → key_lt b a = true.
Proof.
  revert b. induction a as [|x a IH]; intros [|y b]; try done.
  intros Hf Hn. apply key_lt_cons. destruct (Z.lt_trichotomy x y) as [Hl|[->|Hl]]; [|right|by left].
  - enough (key_lt (x :: a) (y :: b) = true) by congruence. apply key_lt_cons. by left.
  - split; [done|]. apply IH; [|congruence].
    destruct (key_lt a b) eqn:E; [|done].
    enough (key_lt (y :: a) (y :: b) = true) by congruence. apply key_lt_cons. by right.
Qed.

Lemma key_lt_neq a b : key_lt a b = true → a ≠ b.
Proof. intros H ->. by rewrite key_lt_irrefl in H. Qed.

(** ** The container *)

Lemma filter_all {A} (P : A → Prop) `{∀ x, Decision (P x)} (l : list A) :
  (∀ x, x ∈ l → P x) → filter P l = l.
Proof.
  induction l as [|x l IH]; intros Hp; [done|].
  rewrite filter_cons_True by set_solver. rewrite IH; set_solver.
Qed.

Lemma filter_same {A} (P Q : A → Prop) `{∀ x, Decision (P x), ∀ x, Decision (Q x)} (l : list A) :
  (∀ x, x ∈ l → P x ↔ Q x) → filter P l = filter Q l.
Proof.
  induction l as [|x l IH]; intros Hp; [done|].
  rewrite !filter_cons, IH by set_solver. specialize (Hp x ltac:(set_solver)).
  destruct (decide (P x)), (decide (Q x)); naive_solver.
Qed.

Section Facts.
Context {V : Type}.
Implicit Types (m : ordmap V) (k : bytes) (v : V).

Lemma omap_sorted_cons k v m :
  omap_sorted ((k, v) :: m) ↔ Forall (fun k' => key_lt k k' = true) m.*1 ∧ omap_sorted m.
Proof.
  unfold omap_sorted. cbn. split; [|intros []; by constructor].
  intros H. inversion H; subst. done.
Qed.

Lemma omap_insert_keys k v m k' :
  k' ∈ (omap_insert k v m).*1 ↔ k' = k ∨ k' ∈ m.*1.
Proof.
  induction m as [|[k1 v1] m IH]; cbn; [set_solver|].
  destruct (key_lt k k1); [set_solver|]. case_bool_decide; set_solver.
Qed.

Lemma omap_insert_sorted k v m : omap_sorted m → omap_sorted (omap_insert k v m).
Proof.
  induction m as [|[k' v'] m IH]; intros Hs; [by repeat constructor|].
  apply omap_sorted_cons in Hs as [Hf Hs]. cbn.
  destruct (key_lt k k') eqn:El.
  { apply omap_sorted_cons. split; [|by apply omap_sorted_cons].
    cbn. constructor; [done|]. eapply Forall_impl; [done|]. eauto using key_lt_trans. }
  case_bool_decide as Ek; [subst; by apply omap_sorted_cons|].
  apply omap_sorted_cons. split; [|by apply IH].
  apply Forall_forall. intros k1 [->|Hin]%omap_insert_keys.
  - by apply key_lt_total.
  - rewrite Forall_forall in Hf. by apply Hf.
Qed.

Lemma omap_erase_sub k m e : e ∈ omap_erase k m → e ∈ m.
Proof. induction m as [|[k' v'] m IH]; [done|]. cbn. case_bool_decide; set_solver. Qed.

Lemma omap_erase_sorted k m : omap_sorted m → omap_sorted (omap_erase k m).
Proof.
  induction m as [|[k' v'] m IH]; [done|]. intros [Hf Hs]%omap_sorted_cons. cbn.
  case_bool_decide; [done|]. apply omap_sorted_cons. split; [|auto].
  rewrite Forall_forall in Hf |- *. intros x Hx. apply Hf.
  apply list_elem_of_fmap in Hx as (e & -> & He). apply list_elem_of_fmap. exists e. eauto using omap_erase_sub.
Qed.

Lemma omap_of_sorted (entries : list (bytes * V)) : omap_sorted (omap_of entries).
Proof.
  unfold omap_of. assert (omap_sorted (@nil (bytes * V))) as H by constructor.
  revert H. generalize (@nil (bytes * V)). induction entries as [|e es IH]; intros m Hm; [done|].
  cbn. apply IH. by apply omap_insert_sorted.
Qed.

Lemma omap_lookup_insert k v m : omap_lookup k (omap_insert k v m) = Some v.
Proof.
  induction m as [|[k' v'] m IH]; cbn; [by rewrite bool_decide_true|].
  destruct (key_lt k k'); [by cbn; rewrite bool_decide_true|].
  case_bool_decide; cbn; [by rewrite bool_decide_true|by rewrite bool_decide_false].
Qed.

Lemma omap_lookup_insert_ne k k1 v m :
  k ≠ k1 → omap_lookup k1 (omap_insert k v m) = omap_lookup k1 m.
Proof.
  intros Hn. induction m as [|[k' v'] m IH]; cbn; [by rewrite bool_decide_false|].
  destruct (key_lt k k'); cbn; [by rewrite bool_decide_false|].
  case_bool_decide; subst; cbn.
  - by rewrite !bool_decide_false.
  - by rewrite IH.
Qed.

Lemma omap_lookup_not_in k m : k ∉ m.*1 → omap_lookup k m = None.
Proof.
  induction m as [|[k' v'] m IH]; [done|]. cbn. intros Hn. rewrite bool_decide_false by set_solver.
  apply IH. set_solver.
Qed.

Lemma omap_lookup_elem k v m : omap_sorted m → omap_lookup k m = Some v ↔ (k, v) ∈ m.
Proof.
  induction m as [|[k' v'] m IH]; intros Hs; [set_solver|].
  apply omap_sorted_cons in Hs as [Hf Hs]. cbn. rewrite elem_of_cons.
  case_bool_decide as Ek; [subst|].
  - split; [intros [= ->]; by left|]. intros [[= ->]|Hin]; [done|].
    rewrite Forall_forall in Hf.
    specialize (Hf k' (proj2 (list_elem_of_fmap _ _ _) (ex_intro _ (k', v) (conj eq_refl Hin)))).
    by rewrite key_lt_irrefl in Hf.
  - rewrite IH by done. naive_solver.
Qed.

(** What a removal leaves, in order. *)
Lemma omap_erase_filter k m :
  omap_sorted m → omap_erase k m = filter (fun e => e.1 ≠ k) m.
Proof.
  induction m as [|[k' v'] m IH]; [done|]. intros [Hf Hs]%omap_sorted_cons. cbn [omap_erase].
  case_bool_decide as Ek.
  - subst. rewrite filter_cons_False by (cbn; naive_solver). symmetry. apply filter_all.
    intros e He. rewrite Forall_forall in Hf.
    specialize (Hf e.1 (proj2 (list_elem_of_fmap _ _ _) (ex_intro _ e (conj eq_refl He)))).
    intros E. rewrite E in Hf. by rewrite key_lt_irrefl in Hf.
  - rewrite filter_cons_True by (cbn; naive_solver). by rewrite IH.
Qed.

Lemma omap_insert_Forall (P : bytes * V → Prop) k v m :
  P (k, v) → Forall P m → Forall P (omap_insert k v m).
Proof.
  intros Hp. induction m as [|[k' v'] m IH]; intros Hf; cbn; [by constructor|].
  apply Forall_cons in Hf as [Hp' Hf].
  destruct (key_lt k k'); [by repeat constructor|]. case_bool_decide; constructor; auto.
Qed.
End Facts.

#[export] Hint Resolve omap_insert_sorted omap_erase_sorted omap_of_sorted omap_insert_Forall : width.
