(* ===== verification/Nng.v ===== *)
(** * Nng: the message sockets of the legacy communication modules

    [src/ya_communicate/module] is a layer over nng.  [Nng] is the interface it
    uses: each call takes the state behind nng and returns its value or an nng
    error; a call on a message the caller does not own is undefined.  [NngLaws]
    is what the code relies on: a ghost [NView] of the open sockets, the
    messages the program owns and the traffic of each socket.  [ToyNng] at the
    end of the file is a concrete instance. *)

From S2P Require Import Prelude Program.

Inductive Protocol := bus0 | pub0 | sub0 | push0 | pull0 | surveyor0 | respondent0.

#[global] Instance Protocol_eq_dec : EqDecision Protocol.
Proof. solve_decision. Defined.

(** [NNG_OPT_RECVTIMEO], [NNG_OPT_SURVEYOR_SURVEYTIME] *)
Inductive Option_ms := OptRecvTimeout | OptSurveyTime.

Definition NNG_ETIMEDOUT : Z := 5.

(** ** The calls *)

Class Nng := {
  n_state : Type;
  nng_strerror : Z → bytes;
  (* [nng_bus0_open] and so on: the id of the new socket *)
  nng_open : Protocol → n_state → result Z Z * n_state;
  nng_close : Z → n_state → n_state;
  nng_socket_set_ms : Z → Option_ms → Z → n_state → result Z () * n_state;
  (* [nng_socket_set_string] with [NNG_OPT_SUB_SUBSCRIBE] *)
  nng_subscribe : Z → bytes → n_state → result Z () * n_state;
  nng_listen : Z → bytes → n_state → result Z () * n_state;
  nng_dial : Z → bytes → n_state → result Z () * n_state;
  nng_msg_alloc : Z → n_state → result Z Z * n_state;
  (* [memcpy] to [nng_msg_body] *)
  nng_msg_store : Z → bytes → n_state → option (() * n_state);
  (* [nng_msg_body] and [nng_msg_len] *)
  nng_msg_load : Z → n_state → option (bytes * n_state);
  nng_msg_free : Z → n_state → option (() * n_state);
  nng_sendmsg : Z → Z → n_state → option (result Z () * n_state);
  nng_recvmsg : Z → n_state → result Z Z * n_state;
}.

(** ** What the code relies on *)

Record NView := mkNView {
  nv_sockets : gmap Z Protocol;
  (* messages the program owns, with their bodies *)
  nv_messages : gmap Z bytes;
  (* what has been handed over to a socket, and what can still be received *)
  nv_sent : gmap Z (list bytes);
  nv_incoming : gmap Z (list bytes);
}.

Definition sent_on (v : NView) (s : Z) : list bytes := default [] (nv_sent v !! s).
Definition incoming_on (v : NView) (s : Z) : list bytes := default [] (nv_incoming v !! s).

Definition with_sockets (f : gmap Z Protocol → gmap Z Protocol) (v : NView) : NView :=
  mkNView (f (nv_sockets v)) (nv_messages v) (nv_sent v) (nv_incoming v).
Definition with_messages (f : gmap Z bytes → gmap Z bytes) (v : NView) : NView :=
  mkNView (nv_sockets v) (f (nv_messages v)) (nv_sent v) (nv_incoming v).
Definition with_sent (s : Z) (m : bytes) (v : NView) : NView :=
  mkNView (nv_sockets v) (nv_messages v) (<[s := sent_on v s ++ [m]]> (nv_sent v)) (nv_incoming v).
Definition with_incoming (s : Z) (ms : list bytes) (v : NView) : NView :=
  mkNView (nv_sockets v) (nv_messages v) (nv_sent v) (<[s := ms]> (nv_incoming v)).

Class NngLaws (N : Nng) := {
  n_view : n_state → NView;
  (* a call that fails changes nothing *)
  answered {A} (st : n_state) (r : result Z A * n_state) (P : A → NView → NView → Prop) : Prop :=
    match r with
    | (Ok a, st') => P a (n_view st) (n_view st')
    | (Err e, st') => e ≠ 0 ∧ n_view st' = n_view st
    end;
  law_open p st : answered st (nng_open p st) (fun s v v' =>
    0 < s ∧ nv_sockets v !! s = None ∧ v' = with_sockets (<[s := p]>) v);
  law_nng_close s st : n_view (nng_close s st) = with_sockets (delete s) (n_view st);
  law_set_ms s o n st : answered st (nng_socket_set_ms s o n st) (fun _ v v' => v' = v);
  law_subscribe s t st : answered st (nng_subscribe s t st) (fun _ v v' => v' = v);
  law_nng_listen s a st : answered st (nng_listen s a st) (fun _ v v' => v' = v);
  law_dial s a st : answered st (nng_dial s a st) (fun _ v v' => v' = v);
  law_msg_alloc n st : 0 <= n → answered st (nng_msg_alloc n st) (fun m v v' =>
    nv_messages v !! m = None ∧ ∃ body, zlen body = n ∧ v' = with_messages (<[m := body]>) v);
  law_msg_store m bs body st : nv_messages (n_view st) !! m = Some body → zlen bs = zlen body →
    ∃ st', nng_msg_store m bs st = Some ((), st')
           ∧ n_view st' = with_messages (<[m := bs]>) (n_view st);
  law_msg_load m body st : nv_messages (n_view st) !! m = Some body →
    ∃ st', nng_msg_load m st = Some (body, st') ∧ n_view st' = n_view st;
  law_msg_free m body st : nv_messages (n_view st) !! m = Some body →
    ∃ st', nng_msg_free m st = Some ((), st')
           ∧ n_view st' = with_messages (delete m) (n_view st);
  (* on success nng owns the message *)
  law_sendmsg s m body st : nv_messages (n_view st) !! m = Some body →
    ∃ r, nng_sendmsg s m st = Some r
         ∧ answered st r (fun _ v v' => v' = with_sent s body (with_messages (delete m) v));
  (* on success the program owns the message *)
  law_recvmsg s st : answered st (nng_recvmsg s st) (fun m v v' =>
    nv_messages v !! m = None ∧ ∃ body rest, incoming_on v s = body :: rest
      ∧ v' = with_incoming s rest (with_messages (<[m := body]>) v));
}.

(** ** A concrete nng

    Messages and sockets in finite maps; it can be told at which call to run
    out of memory, and receiving from an empty socket times out. *)
Module ToyNng.

Record State := mkState { ts_view : NView; ts_until : option nat }.

Definition tick (st : State) : bool * State :=
  match ts_until st with
  | None => (false, st)
  | Some O => (true, mkState (ts_view st) None)
  | Some (S n) => (false, mkState (ts_view st) (Some n))
  end.

(** [NNG_ENOMEM] *)
Definition no_memory : Z := 2.

Definition next_key {A} (m : gmap Z A) : Z := 1 + map_fold (fun k _ n => Z.max k n) 0 m.

Definition answer {A} (f : NView → A * NView) (st : State) : result Z A * State :=
  match tick st with
  | (true, st) => (Err no_memory, st)
  | (false, st) => let '(a, v) := f (ts_view st) in (Ok a, mkState v (ts_until st))
  end.

Definition owning {A} (m : Z) (f : bytes → NView → option (A * NView)) (st : State)
  : option (A * State) :=
  body ← nv_messages (ts_view st) !! m;
  '(a, v) ← f body (ts_view st);
  Some (a, mkState v (ts_until st)).

#[global] Instance toy_nng : Nng := {|
  n_state := State;
  nng_strerror rv := string_bytes "error";
  nng_open p := answer (fun v => let s := next_key (nv_sockets v) in (s, with_sockets (<[s := p]>) v));
  nng_close s st := mkState (with_sockets (delete s) (ts_view st)) (ts_until st);
  nng_socket_set_ms s o n := answer (fun v => ((), v));
  nng_subscribe s t := answer (fun v => ((), v));
  nng_listen s a := answer (fun v => ((), v));
  nng_dial s a := answer (fun v => ((), v));
  nng_msg_alloc n := answer (fun v =>
    let m := next_key (nv_messages v) in (m, with_messages (<[m := zeroed n]>) v));
  nng_msg_store m bs := owning m (fun body v =>
    if zlen bs =? zlen body then Some ((), with_messages (<[m := bs]>) v) else None);
  nng_msg_load m := owning m (fun body v => Some (body, v));
  nng_msg_free m := owning m (fun _ v => Some ((), with_messages (delete m) v));
  nng_sendmsg s m st :=
    body ← nv_messages (ts_view st) !! m;
    Some (answer (fun v => ((), with_sent s body (with_messages (delete m) v))) st);
  nng_recvmsg s st :=
    match incoming_on (ts_view st) s with
    | [] => (Err NNG_ETIMEDOUT, st)
    | body :: rest => answer (fun v =>
        let m := next_key (nv_messages v) in
        (m, with_incoming s rest (with_messages (<[m := body]>) v))) st
    end;
|}.

Lemma next_key_fresh {A} (m : gmap Z A) : m !! next_key m = None ∧ 0 < next_key m.
Proof.
  assert (0 < next_key m ∧ ∀ k a, m !! k = Some a → k < next_key m) as [Hp H].
  { unfold next_key.
    apply (map_fold_weak_ind (fun n m => 0 < 1 + n ∧ ∀ k a, m !! k = Some a → k < 1 + n)
             (fun k (_ : A) n => Z.max k n)).
    - split; [lia|]. intros k a Hk. by rewrite lookup_empty in Hk.
    - intros k a m' n Hm [IHp IH]. split; [lia|]. intros q a' Hq.
      destruct (decide (k = q)) as [->|Hne]; [lia|].
      rewrite lookup_insert_ne in Hq by done. specialize (IH _ _ Hq). lia. }
  split; [|done]. destruct (m !! next_key m) eqn:E; [|done]. apply H in E. lia.
Qed.

(** The view after a call, whether it fails or not. *)
Lemma answer_spec {A} (f : NView → A * NView) st (P : A → NView → NView → Prop) :
  P (f (ts_view st)).1 (ts_view st) (f (ts_view st)).2 →
  match answer f st with
  | (Ok a, st') => P a (ts_view st) (ts_view st')
  | (Err e, st') => e ≠ 0 ∧ ts_view st' = ts_view st
  end.
Proof.
  intros HP. unfold answer, tick. destruct (ts_until st) as [[|n]|]; cbn; [done|..];
    by destruct (f (ts_view st)).
Qed.

Lemma owning_spec {A} m body (f : bytes → NView → option (A * NView)) st a v :
  nv_messages (ts_view st) !! m = Some body → f body (ts_view st) = Some (a, v) →
  ∃ st', owning m f st = Some (a, st') ∧ ts_view st' = v.
Proof.
  intros Hm Hf. unfold owning. rewrite Hm. cbn. rewrite Hf. cbn. eauto.
Qed.

#[global] Instance toy_nng_laws : NngLaws toy_nng.
Proof.
  apply (Build_NngLaws toy_nng ts_view).
  - intros p st. destruct (next_key_fresh (nv_sockets (ts_view st))).
    by refine (answer_spec _ st (fun s v v' => 0 < s ∧ nv_sockets v !! s = None
      ∧ v' = with_sockets (<[s := p]>) v) _).
  - done.
  - intros s o n st. exact (answer_spec (fun v => ((), v)) st (fun _ v v' => v' = v) eq_refl).
  - intros s t st. exact (answer_spec (fun v => ((), v)) st (fun _ v v' => v' = v) eq_refl).
  - intros s a st. exact (answer_spec (fun v => ((), v)) st (fun _ v v' => v' = v) eq_refl).
  - intros s a st. exact (answer_spec (fun v => ((), v)) st (fun _ v v' => v' = v) eq_refl).
  - intros n st Hn. destruct (next_key_fresh (nv_messages (ts_view st))).
    refine (answer_spec _ st (fun m v v' => nv_messages v !! m = None
      ∧ ∃ body, zlen body = n ∧ v' = with_messages (<[m := body]>) v) _).
    split; [done|]. exists (zeroed n). split; [by apply zlen_zeroed|done].
  - intros m bs body st Hm Hl. eapply owning_spec; [exact Hm|].
    cbn. by rewrite (proj2 (Z.eqb_eq _ _) Hl).
  - intros m body st Hm. by eapply owning_spec.
  - intros m body st Hm. by eapply owning_spec.
  - intros s m body st Hm. eexists. split; [cbn; by rewrite Hm|].
    exact (answer_spec (fun v => ((), with_sent s body (with_messages (delete m) v))) st
      (fun _ v v' => v' = with_sent s body (with_messages (delete m) v)) eq_refl).
  - intros s st. cbn. destruct (incoming_on (ts_view st) s) as [|body rest] eqn:Hi; [done|].
    destruct (next_key_fresh (nv_messages (ts_view st))).
    refine (answer_spec _ st (fun m v v' => nv_messages v !! m = None ∧ ∃ b r, body :: rest = b :: r
      ∧ v' = with_incoming s r (with_messages (<[m := b]>) v)) _). eauto.
Defined.
End ToyNng.
