(* ===== verification/Messaging.v ===== *)
(** * Messaging: the legacy communication modules

    Models the five message modules of [src/ya_communicate/module] that own one
    nng socket each: [bus.cpp], [publisher.cpp], [subscriber.cpp],
    [pipeline.cpp] and [survey.cpp], over the interface of [Nng.v].  A function
    that can throw returns a [result] with the exception; a constructor that
    throws leaves no object, so its destructor does not run.  Console output is
    not modelled.

    The theorems: addresses are matched as the regular expressions say; however
    an object is created, used and destroyed, and whichever call fails, it
    leaves no socket and no message behind; what is sent is handed over
    unchanged and once, what is received is what arrived, in order. *)

From S2P Require Import Prelude Text Program Nng.

(** ** Addresses *)

(** [\w] *)
Definition is_word (c : Z) : bool :=
  is_digit c || ((65 <=? c) && (c <=? 90)) || ((97 <=? c) && (c <=? 122)) || (c =? 95).
(** [[\w\d\.:]] *)
Definition is_host (c : Z) : bool := is_word c || (c =? 46) || (c =? 58).

Definition nonempty (bs : bytes) : bool := negb (bool_decide (bs = [])).

(** [[\w\d\.:]+:\d+], from the end: the digits, a colon, the rest. *)
Definition match_endpoint (bs : bytes) : bool :=
  match span_digits (rev bs) with
  | (port, colon :: host) =>
      nonempty port && (colon =? 58) && nonempty host && forallb is_host host
  | _ => false
  end.

Fixpoint strip_prefix (p bs : bytes) : option bytes :=
  match p, bs with
  | [], _ => Some bs
  | a :: p', b :: bs' => if a =? b then strip_prefix p' bs' else None
  | _, _ => None
  end.

Definition match_tcp (address : bytes) : bool :=
  match strip_prefix (text "tcp://") address with
  | Some rest => match_endpoint rest
  | None => false
  end.

Definition match_inproc (name : Z → bool) (address : bytes) : bool :=
  match strip_prefix (text "inproc://") address with
  | Some rest => nonempty rest && forallb name rest
  | None => false
  end.

(** [(tcp://[\w\d\.:]+:\d+|inproc://[\w\d]+)] *)
Definition bus_address (address : bytes) : bool :=
  match_tcp address || match_inproc is_word address.
(** [(tcp://[\w\d\.:]+:\d+|inproc://[\w\d\.:]+)] *)
Definition pubsub_address (address : bytes) : bool :=
  match_tcp address || match_inproc is_host address.

(** ** Modules *)

Module PipelineRole.
Inductive ROLE := PUSHER | PULLER.
End PipelineRole.

Module SurveyRole.
Inductive ROLE := INITIATOR | VOTER.
End SurveyRole.

#[global] Instance PipelineRole_eq_dec : EqDecision PipelineRole.ROLE.
Proof. solve_decision. Defined.
#[global] Instance SurveyRole_eq_dec : EqDecision SurveyRole.ROLE.
Proof. solve_decision. Defined.

Section Modules.
Context `{Nng}.
Abbreviation nn A := (prog n_state (result exception A)).

Definition throw {A} (what : bytes) : nn A := mret (Err (runtime_error what)).

(** [throw std::runtime_error(what + nng_strerror(rv))] *)
Definition failed {A} (what : bytes) (rv : Z) : nn A := throw (what ++ nng_strerror rv).

(** [nng_close(socket_); throw ...] *)
Definition abandon {A} (socket : Z) (what : bytes) (rv : Z) : nn A :=
  effect (nng_close socket);; failed what rv.

Definition invalid_address {A} (address : bytes) : nn A :=
  throw (text "Invalid address format: " ++ address).

(** [~Impl] of every module *)
Definition Impl_destroy (socket : Z) : prog n_state () :=
  if negb (socket =? 0) then effect (nng_close socket) else mret ().

(** The last step of the constructors. *)
Definition bind_to (socket : Z) (address : bytes) : nn Z :=
  r ← call (nng_listen socket (until_nul address));
  match r with
  | Err rv => abandon socket (text "Failed to listen on " ++ address ++ text ": ") rv
  | Ok _ => mret (Ok socket)
  end.

Definition connect_to (socket : Z) (address : bytes) : nn Z :=
  r ← call (nng_dial socket (until_nul address));
  match r with
  | Err rv => abandon socket (text "Failed to dial " ++ address ++ text ": ") rv
  | Ok _ => mret (Ok socket)
  end.

Definition Bus_new (address : bytes) : nn Z :=
  if negb (bus_address address) then invalid_address address else
  r ← call (nng_open bus0);
  match r with
  | Err rv => failed (text "Failed to open bus socket: ") rv
  | Ok socket =>
      r ← call (nng_socket_set_ms socket OptRecvTimeout 3000);
      match r with
      | Err rv => abandon socket (text "Failed to set receive timeout: ") rv
      | Ok _ => bind_to socket address
      end
  end.

Definition Publisher_new (address : bytes) : nn Z :=
  if negb (pubsub_address address) then invalid_address address else
  r ← call (nng_open pub0);
  match r with
  | Err rv => failed (text "Failed to open publisher socket: ") rv
  | Ok socket => bind_to socket address
  end.

Definition Subscriber_new (address : bytes) : nn Z :=
  if negb (pubsub_address address) then invalid_address address else
  r ← call (nng_open sub0);
  match r with
  | Err rv => failed (text "Failed to open subscriber socket: ") rv
  | Ok socket =>
      r ← call (nng_socket_set_ms socket OptRecvTimeout 3000);
      match r with
      | Err rv => abandon socket (text "Failed to set receive timeout: ") rv
      | Ok _ => connect_to socket address
      end
  end.

Definition Pipeline_new (role : PipelineRole.ROLE) (address : bytes) : nn Z :=
  if negb (match_tcp address) then invalid_address address else
  match role with
  | PipelineRole.PUSHER =>
      r ← call (nng_open push0);
      match r with
      | Err rv => failed (text "Failed to open push socket: ") rv
      | Ok socket => connect_to socket address
      end
  | PipelineRole.PULLER =>
      r ← call (nng_open pull0);
      match r with
      | Err rv => failed (text "Failed to open pull socket: ") rv
      | Ok socket => bind_to socket address
      end
  end.

Definition Survey_new (role : SurveyRole.ROLE) (address : bytes) : nn Z :=
  if negb (match_tcp address) then invalid_address address else
  match role with
  | SurveyRole.INITIATOR =>
      r ← call (nng_open surveyor0);
      match r with
      | Err rv => failed (text "Failed to open surveyor socket: ") rv
      | Ok socket =>
          r ← call (nng_socket_set_ms socket OptSurveyTime 1000);
          match r with
          | Err rv => abandon socket (text "Failed to set survey deadline: ") rv
          | Ok _ => bind_to socket address
          end
      end
  | SurveyRole.VOTER =>
      r ← call (nng_open respondent0);
      match r with
      | Err rv => failed (text "Failed to open respondent socket: ") rv
      | Ok socket => connect_to socket address
      end
  end.

(** The body of every sending function: allocate a message, copy, hand it over,
    and free it if that fails. *)
Definition send_copy (no_message not_sent : bytes) (socket : Z) (message : bytes) : nn () :=
  r ← call (nng_msg_alloc (zlen message));
  match r with
  | Err rv => failed no_message rv
  | Ok msg =>
      attempt (nng_msg_store msg message);;
      r ← attempt (nng_sendmsg socket msg);
      match r with
      | Err rv => attempt (nng_msg_free msg);; failed not_sent rv
      | Ok _ => mret (Ok ())
      end
  end.

(** [std::string result(nng_msg_body(msg), nng_msg_len(msg)); nng_msg_free(msg);] *)
Definition take_body (msg : Z) : prog n_state bytes :=
  result ← attempt (nng_msg_load msg);
  attempt (nng_msg_free msg);;
  mret result.

Definition Bus_send (socket : Z) (message : bytes) : nn () :=
  send_copy (text "Failed to allocate message: ") (text "Failed to send message: ") socket message.

(** The loop of [Bus::receive] and [Subscriber::receive]. *)
Fixpoint receive_retry (retries : nat) (socket : Z) : nn bytes :=
  match retries with
  | O => throw (text "Receive timed out after 5 retries")
  | S retries' =>
      r ← call (nng_recvmsg socket);
      match r with
      | Ok msg => result ← take_body msg; mret (Ok result)
      | Err rv => if rv =? NNG_ETIMEDOUT then receive_retry retries' socket
                  else failed (text "Failed to receive message: ") rv
      end
  end.

Definition Bus_receive (socket : Z) : nn bytes := receive_retry 5 socket.

Definition full_message (topic message : bytes) : bytes :=
  if nonempty topic then topic ++ text ":" ++ message else message.

Definition Publisher_publish (socket : Z) (topic message : bytes) : nn () :=
  send_copy (text "Failed to allocate message: ") (text "Failed to publish message: ") socket
    (full_message topic message).

Definition Subscriber_subscribe (socket : Z) (topic : bytes) : nn () :=
  r ← call (nng_subscribe socket (until_nul topic));
  match r with
  | Err rv => failed (text "Failed to subscribe to topic '" ++ topic ++ text "': ") rv
  | Ok _ => mret (Ok ())
  end.

Definition Subscriber_receive (socket : Z) : nn bytes := receive_retry 5 socket.

Definition receive_once (not_received : bytes) (socket : Z) : nn bytes :=
  r ← call (nng_recvmsg socket);
  match r with
  | Err rv => failed not_received rv
  | Ok msg => result ← take_body msg; mret (Ok result)
  end.

Definition Pipeline_send (role : PipelineRole.ROLE) (socket : Z) (message : bytes) : nn () :=
  if negb (bool_decide (role = PipelineRole.PUSHER))
  then throw (text "Send operation only allowed for PUSHER role")
  else send_copy (text "Failed to allocate message: ") (text "Failed to send message: ") socket message.

Definition Pipeline_receive (role : PipelineRole.ROLE) (socket : Z) : nn bytes :=
  if negb (bool_decide (role = PipelineRole.PULLER))
  then throw (text "Receive operation only allowed for PULLER role")
  else receive_once (text "Failed to receive message: ") socket.

Definition Survey_send_survey (role : SurveyRole.ROLE) (socket : Z) (survey : bytes) : nn () :=
  if negb (bool_decide (role = SurveyRole.INITIATOR))
  then throw (text "Send survey only allowed for INITIATOR role")
  else send_copy (text "Failed to allocate survey message: ") (text "Failed to send survey: ")
         socket survey.

(** [while (true)]: until the survey deadline, or an error. *)
Fixpoint collect_loop (fuel : nat) (socket : Z) (responses : list bytes) : nn (list bytes) :=
  match fuel with
  | O => fun _ => Running
  | S fuel' =>
      r ← call (nng_recvmsg socket);
      match r with
      | Err rv => if rv =? NNG_ETIMEDOUT then mret (Ok responses)
                  else failed (text "Failed to receive response: ") rv
      | Ok msg => response ← take_body msg; collect_loop fuel' socket (responses ++ [response])
      end
  end.

Definition Survey_collect_responses (fuel : nat) (role : SurveyRole.ROLE) (socket : Z)
  : nn (list bytes) :=
  if negb (bool_decide (role = SurveyRole.INITIATOR))
  then throw (text "Collect responses only allowed for INITIATOR role")
  else collect_loop fuel socket [].

Definition Survey_receive_survey (role : SurveyRole.ROLE) (socket : Z) : nn bytes :=
  if negb (bool_decide (role = SurveyRole.VOTER))
  then throw (text "Receive survey only allowed for VOTER role")
  else receive_once (text "Failed to receive survey: ") socket.

Definition Survey_respond (role : SurveyRole.ROLE) (socket : Z) (response : bytes) : nn () :=
  if negb (bool_decide (role = SurveyRole.VOTER))
  then throw (text "Respond only allowed for VOTER role")
  else send_copy (text "Failed to allocate response message: ") (text "Failed to send response: ")
         socket response.
End Modules.

(** ** A whole life of a module object *)

Inductive Class :=
| ClassBus
| ClassPublisher
| ClassSubscriber
| ClassPipeline (role : PipelineRole.ROLE)
| ClassSurvey (role : SurveyRole.ROLE).

(** The public calls of each class. *)
Inductive Call : Class → Type :=
| BusSend (message : bytes) : Call ClassBus
| BusReceive : Call ClassBus
| Publish (topic message : bytes) : Call ClassPublisher
| Subscribe (topic : bytes) : Call ClassSubscriber
| SubscriberReceive : Call ClassSubscriber
| PipelineSend role (message : bytes) : Call (ClassPipeline role)
| PipelineReceive role : Call (ClassPipeline role)
| SendSurvey role (survey : bytes) : Call (ClassSurvey role)
| CollectResponses role : Call (ClassSurvey role)
| ReceiveSurvey role : Call (ClassSurvey role)
| Respond role (response : bytes) : Call (ClassSurvey role).

Section Life.
Context `{Nng}.
Abbreviation nn A := (prog n_state (result exception A)).

Definition construct (c : Class) (address : bytes) : nn Z :=
  match c with
  | ClassBus => Bus_new address
  | ClassPublisher => Publisher_new address
  | ClassSubscriber => Subscriber_new address
  | ClassPipeline role => Pipeline_new role address
  | ClassSurvey role => Survey_new role address
  end.

Definition returning {A} (f : A → list bytes) (m : nn A) : nn (list bytes) :=
  r ← m; mret (match r with Ok a => Ok (f a) | Err e => Err e end).

Definition nothing (_ : ()) : list bytes := [].
Definition single (m : bytes) : list bytes := [m].

Definition invoke (fuel : nat) {c} (socket : Z) (call : Call c) : nn (list bytes) :=
  match call with
  | BusSend message => returning nothing (Bus_send socket message)
  | BusReceive => returning single (Bus_receive socket)
  | Publish topic message => returning nothing (Publisher_publish socket topic message)
  | Subscribe topic => returning nothing (Subscriber_subscribe socket topic)
  | SubscriberReceive => returning single (Subscriber_receive socket)
  | PipelineSend role message => returning nothing (Pipeline_send role socket message)
  | PipelineReceive role => returning single (Pipeline_receive role socket)
  | SendSurvey role survey => returning nothing (Survey_send_survey role socket survey)
  | CollectResponses role => Survey_collect_responses fuel role socket
  | ReceiveSurvey role => returning single (Survey_receive_survey role socket)
  | Respond role response => returning nothing (Survey_respond role socket response)
  end.

(** The caller catches the exceptions of the calls. *)
Fixpoint invoke_all (fuel : nat) {c} (socket : Z) (calls : list (Call c))
  : prog n_state (list (result exception (list bytes))) :=
  match calls with
  | [] => mret []
  | call :: calls' =>
      r ← invoke fuel socket call;
      rs ← invoke_all fuel socket calls';
      mret (r :: rs)
  end.

Definition life (fuel : nat) (c : Class) (address : bytes) (calls : list (Call c))
  : nn (list (result exception (list bytes))) :=
  r ← construct c address;
  match r with
  | Err e => mret (Err e)
  | Ok socket =>
      rs ← invoke_all fuel socket calls;
      Impl_destroy socket;;
      mret (Ok rs)
  end.
End Life.

(** ** Calls and resources *)

Section Proofs.
Context {N : Nng} {NL : NngLaws N}.
Implicit Types (st : n_state) (v : NView) (total : Prop).

Lemma wp_answered total {A} (f : n_state → result Z A * n_state) st P (Q : result Z A → n_state → Prop) :
  answered st (f st) P →
  (∀ a st', P a (n_view st) (n_view st') → Q (Ok a) st') →
  (∀ e st', e ≠ 0 → n_view st' = n_view st → Q (Err e) st') →
  wp total (call f) st Q.
Proof.
  intros Ha Hok He. apply wp_call. destruct (f st) as [[a|e] st']; cbn in *; [auto|].
  destruct Ha. auto.
Qed.

Lemma sockets_opened_closed v s p :
  nv_sockets v !! s = None → with_sockets (delete s) (with_sockets (<[s := p]>) v) = v.
Proof. intros Hs. destruct v. unfold with_sockets. cbn in *. by rewrite delete_insert_id. Qed.

Lemma messages_owned_given v m b :
  nv_messages v !! m = None → with_messages (delete m) (with_messages (<[m := b]>) v) = v.
Proof. intros Hs. destruct v. unfold with_messages. cbn in *. by rewrite delete_insert_id. Qed.

(** What a constructor leaves: a new socket of the right protocol, or nothing. *)
Definition constructed (p : Protocol) v (r : result exception Z) st : Prop :=
  match r with
  | Ok s => 0 < s ∧ nv_sockets v !! s = None ∧ n_view st = with_sockets (<[s := p]>) v
  | Err _ => n_view st = v
  end.

Definition opened (p : Protocol) v (s : Z) st : Prop :=
  0 < s ∧ nv_sockets v !! s = None ∧ n_view st = with_sockets (<[s := p]>) v.

Lemma abandon_spec total p v s what rv st :
  opened p v s st → wp total (abandon s what rv) st (constructed p v).
Proof.
  intros (Hs & Hf & Hv). unfold abandon. apply wp_bind, wp_effect.
  change (n_view (nng_close s st) = v). by rewrite law_nng_close, Hv, sockets_opened_closed.
Qed.

Lemma opened_kept p v s st st' : opened p v s st → n_view st' = n_view st → opened p v s st'.
Proof. intros (? & ? & ?) ?. split_and!; congruence. Qed.

Lemma bind_to_spec total p v s address st :
  opened p v s st → wp total (bind_to s address) st (constructed p v).
Proof.
  intros Ho. apply wp_bind. eapply wp_answered; [apply law_nng_listen|..].
  - intros a st' Hv. cbn in Hv. exact (opened_kept _ _ _ _ _ Ho Hv).
  - intros e st' _ Hv. by eapply abandon_spec, opened_kept.
Qed.

Lemma connect_to_spec total p v s address st :
  opened p v s st → wp total (connect_to s address) st (constructed p v).
Proof.
  intros Ho. apply wp_bind. eapply wp_answered; [apply law_dial|..].
  - intros a st' Hv. cbn in Hv. exact (opened_kept _ _ _ _ _ Ho Hv).
  - intros e st' _ Hv. by eapply abandon_spec, opened_kept.
Qed.

Lemma open_spec total p what st (K : Z → prog n_state (result exception Z)) :
  (∀ s st', opened p (n_view st) s st' → wp total (K s) st' (constructed p (n_view st))) →
  wp total (r ← call (nng_open p);
            match r with Err rv => failed what rv | Ok s => K s end) st (constructed p (n_view st)).
Proof.
  intros HK. apply wp_bind. eapply wp_answered; [apply law_open|..].
  - intros s st' Hs. by apply HK.
  - by intros e st' _ Hv.
Qed.

Lemma set_ms_spec total p v s o n what st (K : prog n_state (result exception Z)) :
  opened p v s st →
  (∀ st', opened p v s st' → wp total K st' (constructed p v)) →
  wp total (r ← call (nng_socket_set_ms s o n);
            match r with Err rv => abandon s what rv | Ok _ => K end) st (constructed p v).
Proof.
  intros Ho HK. apply wp_bind. eapply wp_answered; [apply law_set_ms|..].
  - intros a st' Hv. cbn in Hv. by eapply HK, opened_kept.
  - intros e st' _ Hv. by eapply abandon_spec, opened_kept.
Qed.

Definition class_protocol (c : Class) : Protocol :=
  match c with
  | ClassBus => bus0
  | ClassPublisher => pub0
  | ClassSubscriber => sub0
  | ClassPipeline PipelineRole.PUSHER => push0
  | ClassPipeline PipelineRole.PULLER => pull0
  | ClassSurvey SurveyRole.INITIATOR => surveyor0
  | ClassSurvey SurveyRole.VOTER => respondent0
  end.

Lemma construct_spec total c address st :
  wp total (construct c address) st (constructed (class_protocol c) (n_view st)).
Proof.
  destruct c as [| | |[]|[]]; cbn [construct class_protocol];
    match goal with
    | |- context [Bus_new] => unfold Bus_new
    | |- context [Publisher_new] => unfold Publisher_new
    | |- context [Subscriber_new] => unfold Subscriber_new
    | |- context [Pipeline_new] => unfold Pipeline_new
    | |- context [Survey_new] => unfold Survey_new
    end;
    (destruct (negb _); [done|]); apply open_spec; intros s st' Ho;
    try (eapply set_ms_spec; [exact Ho|]; clear st' Ho; intros st' Ho);
    first [by apply bind_to_spec|by apply connect_to_spec].
Qed.

(** *** Sending and receiving *)

Lemma send_copy_spec total a b s m st :
  wp total (send_copy a b s m) st (fun r st' =>
    match r with
    | Ok _ => n_view st' = with_sent s m (n_view st)
    | Err _ => n_view st' = n_view st
    end).
Proof.
  apply wp_bind. eapply wp_answered; [apply law_msg_alloc; unfold zlen; lia|..]; [|by intros e st' _ Hv].
  intros msg st1 (Hf & body & Hl & Hv1). apply wp_bind.
  destruct (law_msg_store msg m body st1) as (st2 & Hs & Hv2).
  { rewrite Hv1. cbn. by rewrite lookup_insert_eq. }
  { done. }
  assert (n_view st2 = with_messages (<[msg := m]>) (n_view st)) as Hv2'.
  { rewrite Hv2, Hv1. unfold with_messages. cbn. by rewrite insert_insert_eq. }
  clear Hv1 Hv2. eapply wp_attempt; [exact Hs|]. apply wp_bind.
  assert (nv_messages (n_view st2) !! msg = Some m) as Hm.
  { rewrite Hv2'. cbn. by rewrite lookup_insert_eq. }
  destruct (law_sendmsg s msg m st2 Hm) as ([[[]|rv] st3] & Hr & Ha);
    (eapply wp_attempt; [exact Hr|]); cbn in Ha.
  - apply wp_ret. by rewrite Ha, Hv2', messages_owned_given.
  - destruct Ha as [_ Hv3]. apply wp_bind.
    destruct (law_msg_free msg m st3) as (st4 & Hfree & Hv4); [by rewrite Hv3|].
    eapply wp_attempt; [exact Hfree|]. apply wp_ret.
    by rewrite Hv4, Hv3, Hv2', messages_owned_given.
Qed.

(** [ms] has been taken from the messages that arrive on [s]; nothing else has
    changed. *)
Definition received (s : Z) (ms : list bytes) v v' : Prop :=
  nv_sockets v' = nv_sockets v ∧ nv_messages v' = nv_messages v ∧ nv_sent v' = nv_sent v
  ∧ incoming_on v s = ms ++ incoming_on v' s
  ∧ ∀ s', s' ≠ s → incoming_on v' s' = incoming_on v s'.

Lemma received_none s v : received s [] v v.
Proof. done. Qed.

Lemma received_trans s ms ns v1 v2 v3 :
  received s ms v1 v2 → received s ns v2 v3 → received s (ms ++ ns) v1 v3.
Proof.
  intros (? & ? & ? & Hi1 & Ho1) (? & ? & ? & Hi2 & Ho2). split_and!; try congruence.
  { by rewrite Hi1, Hi2, app_assoc. }
  intros s' Hs. rewrite Ho2 by done. by apply Ho1.
Qed.

Lemma recvmsg_spec total s st {A}
    (K : bytes → prog n_state A) (F : Z → prog n_state A) R :
  (∀ m st', received s [m] (n_view st) (n_view st') → wp total (K m) st' R) →
  (∀ e st', e ≠ 0 → n_view st' = n_view st → wp total (F e) st' R) →
  wp total (r ← call (nng_recvmsg s);
            match r with Ok msg => m ← take_body msg; K m | Err rv => F rv end) st R.
Proof.
  intros HK HF. apply wp_bind. eapply wp_answered; [apply law_recvmsg|..]; [|by apply HF].
  intros msg st1 (Hf & body & rest & Hi & Hv1). apply wp_bind, wp_bind.
  assert (nv_messages (n_view st1) !! msg = Some body) as Hm.
  { rewrite Hv1. cbn. by rewrite lookup_insert_eq. }
  destruct (law_msg_load msg body st1 Hm) as (st2 & Hl & Hv2).
  eapply wp_attempt; [exact Hl|]. apply wp_bind.
  destruct (law_msg_free msg body st2) as (st3 & Hfree & Hv3); [by rewrite Hv2|].
  eapply wp_attempt; [exact Hfree|]. apply wp_ret, HK. rewrite Hv3, Hv2, Hv1.
  unfold received, incoming_on, with_incoming, with_messages. cbn. split_and!; try done.
  - by rewrite delete_insert_id.
  - by rewrite lookup_insert_eq.
  - intros s' Hs. by rewrite lookup_insert_ne by done.
Qed.

(** The result of a call that receives one message. *)
Definition one_received s v (r : result exception bytes) st : Prop :=
  match r with
  | Ok m => received s [m] v (n_view st)
  | Err _ => n_view st = v
  end.

Lemma receive_retry_spec total n s st :
  wp total (receive_retry n s) st (one_received s (n_view st)).
Proof.
  revert st. induction n as [|n IH]; intros st; [done|]. cbn [receive_retry].
  apply recvmsg_spec; [by intros m st' Hr|].
  intros e st' _ Hv. destruct (e =? NNG_ETIMEDOUT); [|done].
  rewrite <- Hv. apply IH.
Qed.

Lemma receive_once_spec total what s st :
  wp total (receive_once what s) st (one_received s (n_view st)).
Proof. by apply recvmsg_spec; [intros m st' Hr|intros e st' _ Hv]. Qed.

Lemma collect_loop_spec total fuel s responses st :
  (total → (length (incoming_on (n_view st) s) < fuel)%nat) →
  wp total (collect_loop fuel s responses) st (fun r st' => ∃ ms,
    received s ms (n_view st) (n_view st')
    ∧ (∀ rs, r = Ok rs → rs = responses ++ ms)).
Proof.
  revert responses st. induction fuel as [|fuel IH]; intros responses st Hf.
  { intros Ht. specialize (Hf Ht). lia. }
  cbn [collect_loop]. apply recvmsg_spec.
  - intros m st1 Hr1. eapply wp_mono; [apply IH|].
    + intros Ht. specialize (Hf Ht). destruct Hr1 as (_ & _ & _ & Hi & _). rewrite Hi in Hf.
      cbn in Hf. lia.
    + intros r st2 (ms & Hr2 & Hok). exists (m :: ms). split; [by eapply (received_trans _ [m])|].
      intros rs ->. by rewrite (Hok rs eq_refl), <- app_assoc.
  - intros e st1 _ Hv. destruct (e =? NNG_ETIMEDOUT); apply wp_ret; exists []; rewrite Hv;
      (split; [done|]); intros rs [=]; by rewrite app_nil_r.
Qed.

(** *** A call leaves the resources as they are *)

Definition tidy v v' : Prop :=
  nv_sockets v' = nv_sockets v ∧ nv_messages v' = nv_messages v
  ∧ ∀ s, (length (incoming_on v' s) ≤ length (incoming_on v s))%nat.

#[local] Instance tidy_preorder : PreOrder tidy.
Proof.
  split; [by intros v|]. intros v1 v2 v3 (? & ? & Hi1) (? & ? & Hi2). split_and!; [congruence..|].
  intros s. specialize (Hi1 s). specialize (Hi2 s). lia.
Qed.

Lemma received_tidy s ms v v' : received s ms v v' → tidy v v'.
Proof.
  intros (? & ? & _ & Hi & Ho). split_and!; [done..|]. intros s'.
  destruct (decide (s' = s)) as [->|Hs]; [rewrite Hi, length_app; lia|by rewrite Ho].
Qed.

Lemma returning_spec total {A} (f : A → list bytes) m st (Q : result exception A → n_state → Prop) :
  wp total m st Q → (∀ r st', Q r st' → tidy (n_view st) (n_view st')) →
  wp total (returning f m) st (fun _ st' => tidy (n_view st) (n_view st')).
Proof. intros Hm HQ. apply wp_bind. eapply wp_mono; [exact Hm|]. intros r st' HQ'. by eapply HQ. Qed.

Lemma send_tidy total a b s m st :
  wp total (returning nothing (send_copy a b s m)) st (fun _ st' => tidy (n_view st) (n_view st')).
Proof.
  eapply returning_spec; [apply send_copy_spec|]. intros [[]|e] st' Hv; by rewrite Hv.
Qed.

Lemma one_received_tidy s v r st : one_received s v r st → tidy v (n_view st).
Proof. destruct r; [apply received_tidy|]. cbn. by intros ->. Qed.

Lemma invoke_spec (total : Prop) fuel {c} s (call : Call c) st :
  (total → ∀ s', (length (incoming_on (n_view st) s') < fuel)%nat) →
  wp total (invoke fuel s call) st (fun _ st' => tidy (n_view st) (n_view st')).
Proof.
  intros Hf. destruct call; cbn [invoke].
  - apply send_tidy.
  - eapply returning_spec; [apply receive_retry_spec|]. intros r st'. apply one_received_tidy.
  - apply send_tidy.
  - eapply returning_spec; [|by intros r st' Hr; exact Hr]. apply wp_bind.
    eapply wp_answered; [apply law_subscribe|..].
    + intros [] st' Hv. cbn in Hv. apply wp_ret. by rewrite Hv.
    + intros e st' _ Hv. apply wp_ret. by rewrite Hv.
  - eapply returning_spec; [apply receive_retry_spec|]. intros r st'. apply one_received_tidy.
  - unfold Pipeline_send. destruct (negb _); [done|]. apply send_tidy.
  - unfold Pipeline_receive. destruct (negb _); [done|].
    eapply returning_spec; [apply receive_once_spec|]. intros r st'. apply one_received_tidy.
  - unfold Survey_send_survey. destruct (negb _); [done|]. apply send_tidy.
  - unfold Survey_collect_responses. destruct (negb _); [done|].
    eapply wp_mono; [apply collect_loop_spec; auto|].
    intros r st' (ms & Hr & _). by eapply received_tidy.
  - unfold Survey_receive_survey. destruct (negb _); [done|].
    eapply returning_spec; [apply receive_once_spec|]. intros r st'. apply one_received_tidy.
  - unfold Survey_respond. destruct (negb _); [done|]. apply send_tidy.
Qed.

Lemma invoke_all_spec (total : Prop) fuel {c} s (calls : list (Call c)) st :
  (total → ∀ s', (length (incoming_on (n_view st) s') < fuel)%nat) →
  wp total (invoke_all fuel s calls) st (fun _ st' => tidy (n_view st) (n_view st')).
Proof.
  revert st. induction calls as [|call calls IH]; intros st Hf; [by apply wp_ret|].
  cbn [invoke_all]. apply wp_bind. eapply wp_mono; [by apply invoke_spec|].
  intros r st1 Ht1. apply wp_bind. eapply wp_mono; [apply IH|].
  - intros Ht s'. specialize (Hf Ht s'). destruct Ht1 as (_ & _ & Hi). specialize (Hi s'). lia.
  - intros rs st2 Ht2. apply wp_ret. by transitivity (n_view st1).
Qed.

Lemma life_spec (total : Prop) fuel c address (calls : list (Call c)) st :
  (total → ∀ s, (length (incoming_on (n_view st) s) < fuel)%nat) →
  wp total (life fuel c address calls) st (fun _ st' => tidy (n_view st) (n_view st')).
Proof.
  intros Hf. apply wp_bind. eapply wp_mono; [apply construct_spec|].
  intros [s|e] st1 Hc; [|apply wp_ret; cbn in Hc; by rewrite Hc].
  destruct Hc as (Hs & Hfr & Hv1). apply wp_bind.
  eapply wp_mono; [apply invoke_all_spec; by rewrite Hv1|].
  intros rs st2 (Hso & Hm & Hi). apply wp_bind. unfold Impl_destroy.
  destruct (Z.eqb_spec s 0); [lia|]. cbn [negb]. apply wp_effect, wp_ret.
  rewrite law_nng_close, Hv1 in *. split_and!.
  - cbn in *. by rewrite Hso, delete_insert_id.
  - exact Hm.
  - exact Hi.
Qed.
End Proofs.

(** ** Addresses are matched as the regular expressions say *)

(** The fragment the source uses, with [regex_match] as its meaning. *)
Inductive regex :=
| Lit (bs : bytes)
| Plus (class : Z → bool)
| Seq (r1 r2 : regex)
| Alt (r1 r2 : regex).

Inductive matches : regex → bytes → Prop :=
| MatchLit bs : matches (Lit bs) bs
| MatchPlus (p : Z → bool) bs : bs ≠ [] → Forall (fun c => p c = true) bs → matches (Plus p) bs
| MatchSeq r1 r2 bs1 bs2 : matches r1 bs1 → matches r2 bs2 → matches (Seq r1 r2) (bs1 ++ bs2)
| MatchLeft r1 r2 bs : matches r1 bs → matches (Alt r1 r2) bs
| MatchRight r1 r2 bs : matches r2 bs → matches (Alt r1 r2) bs.

Definition tcp_regex : regex :=
  Seq (Lit (text "tcp://")) (Seq (Plus is_host) (Seq (Lit (text ":")) (Plus is_digit))).
Definition inproc_regex (name : Z → bool) : regex := Seq (Lit (text "inproc://")) (Plus name).
Definition bus_regex : regex := Alt tcp_regex (inproc_regex is_word).
Definition pubsub_regex : regex := Alt tcp_regex (inproc_regex is_host).

Lemma matches_inv r bs : matches r bs →
  match r with
  | Lit l => bs = l
  | Plus p => bs ≠ [] ∧ Forall (fun c => p c = true) bs
  | Seq r1 r2 => ∃ bs1 bs2, bs = bs1 ++ bs2 ∧ matches r1 bs1 ∧ matches r2 bs2
  | Alt r1 r2 => matches r1 bs ∨ matches r2 bs
  end.
Proof. destruct 1; eauto 10. Qed.

Lemma strip_prefix_Some p bs rest : strip_prefix p bs = Some rest ↔ bs = p ++ rest.
Proof.
  revert bs. induction p as [|a p IH]; intros bs; cbn.
  { split; [by intros [= ->]|by intros ->]. }
  destruct bs as [|b bs]; [by split|]. destruct (Z.eqb_spec a b) as [->|Hne].
  - rewrite IH. split; [by intros ->|by intros [= ->]].
  - split; [done|]. intros [= ? _]. congruence.
Qed.

Lemma nonempty_true bs : nonempty bs = true ↔ bs ≠ [].
Proof. unfold nonempty. case_bool_decide; naive_solver. Qed.

Lemma forallb_Forall (p : Z → bool) bs : forallb p bs = true ↔ Forall (fun c => p c = true) bs.
Proof. rewrite forallb_forall, List.Forall_forall. done. Qed.

Lemma Forall_rev_iff (p : Z → bool) bs :
  Forall (fun c => p c = true) (rev bs) ↔ Forall (fun c => p c = true) bs.
Proof. split; intros H; [rewrite <- (rev_involutive bs)|]; by apply Forall_rev. Qed.

Lemma match_endpoint_iff bs : match_endpoint bs = true ↔
  matches (Seq (Plus is_host) (Seq (Lit (text ":")) (Plus is_digit))) bs.
Proof.
  unfold match_endpoint. split.
  - destruct (span_digits (rev bs)) as [port [|colon host]] eqn:E; [done|].
    apply span_digits_spec in E as (Hb & Hp & _). intros Hm.
    apply andb_prop in Hm as [Hm Hh%forallb_Forall]. apply andb_prop in Hm as [Hm Hne%nonempty_true].
    apply andb_prop in Hm as [Hpne%nonempty_true ->%Z.eqb_eq].
    apply (f_equal (@rev Z)) in Hb. rewrite rev_involutive, rev_app_distr in Hb. cbn in Hb.
    rewrite <- app_assoc in Hb. subst bs. constructor; [constructor|constructor; constructor].
    + intros He. apply Hne. by rewrite <- (rev_involutive host), He.
    + by apply Forall_rev_iff.
    + intros He. apply Hpne. by rewrite <- (rev_involutive port), He.
    + by apply Forall_rev_iff.
  - intros (host & rest & -> & [Hne Hh]%matches_inv & Hrest)%matches_inv.
    apply matches_inv in Hrest as (colon & port & -> & ->%matches_inv & [Hpne Hp]%matches_inv).
    change (text ":") with [58]. rewrite !rev_app_distr. change (rev [58]) with [58].
    assert (span_digits ((rev port ++ [58]) ++ rev host) = (rev port, 58 :: rev host)) as ->.
    { apply span_digits_spec. rewrite <- app_assoc. split_and!; [done|by apply Forall_rev_iff|].
      by intros c r' [= <- _]. }
    rewrite !(proj2 (nonempty_true _)), (proj2 (forallb_Forall _ _)); [done|by apply Forall_rev_iff|..].
    + intros He. apply Hne. by rewrite <- (rev_involutive host), He.
    + intros He. apply Hpne. by rewrite <- (rev_involutive port), He.
Qed.

Lemma match_tcp_iff address : match_tcp address = true ↔ matches tcp_regex address.
Proof.
  unfold match_tcp. split.
  - destruct (strip_prefix (text "tcp://") address) as [rest|] eqn:E; [|done].
    apply strip_prefix_Some in E as ->. rewrite match_endpoint_iff.
    intros Hm. constructor; [constructor|done].
  - intros (p & rest & -> & ->%matches_inv & Hm)%matches_inv.
    rewrite (proj2 (strip_prefix_Some (text "tcp://") _ rest) eq_refl). by apply match_endpoint_iff.
Qed.

Lemma match_inproc_iff name address :
  match_inproc name address = true ↔ matches (inproc_regex name) address.
Proof.
  unfold match_inproc. split.
  - destruct (strip_prefix (text "inproc://") address) as [rest|] eqn:E; [|done].
    apply strip_prefix_Some in E as ->. intros [Hn%nonempty_true Hf%forallb_Forall]%andb_prop.
    constructor; [constructor|by constructor].
  - intros (p & rest & -> & ->%matches_inv & [Hn Hf]%matches_inv)%matches_inv.
    rewrite (proj2 (strip_prefix_Some (text "inproc://") _ rest) eq_refl).
    by rewrite (proj2 (nonempty_true _)), (proj2 (forallb_Forall _ _)).
Qed.

Lemma alternative_iff (a b : bool) r1 r2 bs :
  (a = true ↔ matches r1 bs) → (b = true ↔ matches r2 bs) →
  a || b = true ↔ matches (Alt r1 r2) bs.
Proof.
  intros Ha Hb. rewrite orb_true_iff, Ha, Hb. split.
  - intros [?|?]; [by apply MatchLeft|by apply MatchRight].
  - apply matches_inv.
Qed.

(** The constructors accept exactly the addresses that the regular expressions
    of the source describe. *)
Theorem addresses_match address :
  (bus_address address = true ↔ matches bus_regex address)
  ∧ (pubsub_address address = true ↔ matches pubsub_regex address)
  ∧ (match_tcp address = true ↔ matches tcp_regex address).
Proof.
  split_and!; [apply alternative_iff..|]; auto using match_tcp_iff, match_inproc_iff.
Qed.

(** ** Life and traffic *)

Section Properties.
Context {N : Nng} {NL : NngLaws N}.
Implicit Types (st : n_state).


(** A publication is handed over unchanged, once, and starts with its topic, by
    which nng selects the subscribers; or it is not sent at all. *)
Theorem publish_exact s topic message st :
  ∃ r st', Publisher_publish s topic message st = Done (r, st')
    ∧ topic `prefix_of` full_message topic message
    ∧ n_view st' = match r with
                   | Ok _ => with_sent s (full_message topic message) (n_view st)
                   | Err _ => n_view st
                   end.
Proof.
  destruct (wp_total _ _ _ (send_copy_spec True (text "Failed to allocate message: ")
    (text "Failed to publish message: ") s (full_message topic message) st)) as (r & st' & Hrun & Hr).
  exists r, st'. split_and!; [done| |by destruct r].
  unfold full_message. destruct (nonempty topic) eqn:E; [by eexists|].
  unfold nonempty in E. case_bool_decide; [|done]. subst. apply prefix_nil.
Qed.

(** The answers to a survey are returned in the order of their arrival, when
    the survey is over. *)
Theorem collect_in_order fuel s st :
  (length (incoming_on (n_view st) s) < fuel)%nat →
  ∃ r st', Survey_collect_responses fuel SurveyRole.INITIATOR s st = Done (r, st')
    ∧ ∀ rs, r = Ok rs → received s rs (n_view st) (n_view st').
Proof.
  intros Hf. destruct (wp_total _ _ _ (collect_loop_spec True fuel s [] st (fun _ => Hf)))
    as (r & st' & Hrun & ms & Hr & Hok).
  exists r, st'. split; [done|]. intros rs ->. by rewrite (Hok rs eq_refl).
Qed.
End Properties.

(** ** A run *)

Definition demo_nng (until : option nat) : ToyNng.State :=
  ToyNng.mkState (mkNView ∅ ∅ ∅ {[ 1 := [text "yes"; text "no"] ]}) until.

Definition demo_calls : list (Call (ClassSurvey SurveyRole.INITIATOR)) :=
  [SendSurvey _ (text "ready?"); CollectResponses _; Respond _ (text "x")].

Example demo_survey :
  ∃ st', life 3 (ClassSurvey SurveyRole.INITIATOR) (text "tcp://localhost:5000") demo_calls
           (demo_nng None)
         = Done (Ok [Ok []; Ok [text "yes"; text "no"];
                     Err (runtime_error (text "Respond only allowed for VOTER role"))], st').
Proof. eexists. vm_compute. reflexivity. Qed.

Lemma demo_incoming until s :
  (length (incoming_on (n_view (demo_nng until)) s) < 3)%nat.
Proof.
  unfold incoming_on. cbn. rewrite lookup_singleton. case_decide; cbn; lia.
Qed.

