(* ===== verification/NngPeer.v ===== *)
(** * NngPeer: the part of nng and of the system the peer-to-peer node uses

    [src/ya_communicate/arch/p2p.cpp] uses nng through byte buffers, listeners
    and dialers rather than through messages as the modules of [Messaging.v]
    do.  [PeerApi] is that interface, with the TLS configuration objects, the
    steady clock, sleeping, and the application's status callback.  Receiving
    can block for ever.  [PeerLaws] is what the code relies on: a ghost [PView]
    of the sockets, endpoints, buffers and TLS configurations that are live, of
    what was sent and of what was received.  [ToyPeer] is a concrete
    instance. *)

From S2P Require Import Prelude Text Program Nng.

(** [struct NodeStatus] *)
Record NodeStatus := mkStatus {
  ns_id : bytes;
  ns_address : bytes;
  ns_uptime : Z;
  ns_info : bytes;
}.

#[global] Instance NodeStatus_eq_dec : EqDecision NodeStatus.
Proof. solve_decision. Defined.

Inductive PeerProtocol := rep0 | peer_pub0 | peer_sub0 | req0.

#[global] Instance PeerProtocol_eq_dec : EqDecision PeerProtocol.
Proof. solve_decision. Defined.

(** ** The calls *)

Class PeerApi := {
  p_state : Type;
  p_strerror : Z → bytes;
  (* [nng_rep0_open] and so on *)
  p_open : PeerProtocol → p_state → result Z Z * p_state;
  p_close : Z → p_state → p_state;
  (* [nng_socket_set(socket, NNG_OPT_SUB_SUBSCRIBE, "", 0)] *)
  p_subscribe_all : Z → p_state → result Z () * p_state;
  p_listen : Z → bytes → p_state → result Z Z * p_state;
  p_dial : Z → bytes → p_state → result Z Z * p_state;
  p_listener_close : Z → p_state → p_state;
  p_dialer_close : Z → p_state → p_state;
  (* [nng_send] without [NNG_FLAG_ALLOC]: the bytes are copied *)
  p_send : Z → bytes → p_state → result Z () * p_state;
  (* [nng_recv] with [NNG_FLAG_ALLOC]: the id of a buffer the program owns;
     [Running] is a call that never returns *)
  p_recv : Z → p_state → exec (result Z Z * p_state);
  p_load : Z → p_state → option (bytes * p_state);
  p_free : Z → p_state → option (() * p_state);
  p_tls_alloc : p_state → result Z Z * p_state;
  p_tls_own_cert : Z → bytes → bytes → p_state → result Z () * p_state;
  p_tls_free : Z → p_state → p_state;
  (* [nng_socket_set_ptr(socket, NNG_OPT_TLS_CONFIG, config)] *)
  p_set_tls : Z → Z → p_state → result Z () * p_state;
  (* [std::chrono::steady_clock::now()] in nanoseconds *)
  p_now : p_state → Z;
  (* [std::this_thread::sleep_for], in seconds *)
  p_sleep : Z → p_state → p_state;
  Callback : Type;
  p_invoke : Callback → NodeStatus → p_state → p_state;
}.

(** ** What the code relies on *)

Record PView := mkPView {
  pv_sockets : gmap Z PeerProtocol;
  (* the socket and the URL of a listener or dialer *)
  pv_listeners : gmap Z (Z * bytes);
  pv_dialers : gmap Z (Z * bytes);
  pv_buffers : gmap Z bytes;
  pv_configs : gset Z;
  pv_sent : list (Z * bytes);
  pv_received : list (Z * bytes);
}.

Definition pv_open s p (v : PView) : PView :=
  mkPView (<[s := p]> (pv_sockets v)) (pv_listeners v) (pv_dialers v) (pv_buffers v)
    (pv_configs v) (pv_sent v) (pv_received v).
(** Closing a socket closes its listeners and dialers. *)
Definition pv_close s (v : PView) : PView :=
  mkPView (delete s (pv_sockets v)) (filter (fun e => e.2.1 ≠ s) (pv_listeners v))
    (filter (fun e => e.2.1 ≠ s) (pv_dialers v)) (pv_buffers v)
    (pv_configs v) (pv_sent v) (pv_received v).
Definition pv_listening f (v : PView) : PView :=
  mkPView (pv_sockets v) (f (pv_listeners v)) (pv_dialers v) (pv_buffers v)
    (pv_configs v) (pv_sent v) (pv_received v).
Definition pv_dialing f (v : PView) : PView :=
  mkPView (pv_sockets v) (pv_listeners v) (f (pv_dialers v)) (pv_buffers v)
    (pv_configs v) (pv_sent v) (pv_received v).
Definition pv_send s bs (v : PView) : PView :=
  mkPView (pv_sockets v) (pv_listeners v) (pv_dialers v) (pv_buffers v)
    (pv_configs v) (pv_sent v ++ [(s, bs)]) (pv_received v).
Definition pv_receive s b bs (v : PView) : PView :=
  mkPView (pv_sockets v) (pv_listeners v) (pv_dialers v) (<[b := bs]> (pv_buffers v))
    (pv_configs v) (pv_sent v) (pv_received v ++ [(s, bs)]).
Definition pv_release b (v : PView) : PView :=
  mkPView (pv_sockets v) (pv_listeners v) (pv_dialers v) (delete b (pv_buffers v))
    (pv_configs v) (pv_sent v) (pv_received v).
Definition pv_configure f (v : PView) : PView :=
  mkPView (pv_sockets v) (pv_listeners v) (pv_dialers v) (pv_buffers v)
    (f (pv_configs v)) (pv_sent v) (pv_received v).

Class PeerLaws (N : PeerApi) := {
  p_view : p_state → PView;
  (* a call that fails changes nothing *)
  replied {A} (st : p_state) (r : result Z A * p_state) (P : A → PView → PView → Prop) : Prop :=
    match r with
    | (Ok a, st') => P a (p_view st) (p_view st')
    | (Err e, st') => e ≠ 0 ∧ p_view st' = p_view st
    end;
  plaw_open p st : replied st (p_open p st) (fun s v v' =>
    pv_sockets v !! s = None ∧ v' = pv_open s p v);
  plaw_close s st : p_view (p_close s st) = pv_close s (p_view st);
  plaw_subscribe s st : replied st (p_subscribe_all s st) (fun _ v v' => v' = v);
  plaw_listen s url st : replied st (p_listen s url st) (fun l v v' =>
    pv_listeners v !! l = None ∧ v' = pv_listening (<[l := (s, url)]>) v);
  plaw_dial s url st : replied st (p_dial s url st) (fun d v v' =>
    pv_dialers v !! d = None ∧ v' = pv_dialing (<[d := (s, url)]>) v);
  plaw_listener_close l st : p_view (p_listener_close l st) = pv_listening (delete l) (p_view st);
  plaw_dialer_close d st : p_view (p_dialer_close d st) = pv_dialing (delete d) (p_view st);
  plaw_send s bs st : replied st (p_send s bs st) (fun _ v v' => v' = pv_send s bs v);
  plaw_recv s st :
    match p_recv s st with
    | Done r => replied st r (fun b v v' =>
        pv_buffers v !! b = None ∧ ∃ bs, v' = pv_receive s b bs v)
    | Running => True
    | Undefined => False
    end;
  plaw_load b bs st : pv_buffers (p_view st) !! b = Some bs →
    ∃ st', p_load b st = Some (bs, st') ∧ p_view st' = p_view st;
  plaw_free b bs st : pv_buffers (p_view st) !! b = Some bs →
    ∃ st', p_free b st = Some ((), st') ∧ p_view st' = pv_release b (p_view st);
  plaw_tls_alloc st : replied st (p_tls_alloc st) (fun c v v' =>
    (c ∉ pv_configs v) ∧ v' = pv_configure (union {[c]}) v);
  plaw_own_cert c cert key st : replied st (p_tls_own_cert c cert key st) (fun _ v v' => v' = v);
  plaw_tls_free c st : p_view (p_tls_free c st) = pv_configure (fun cs => cs ∖ {[c]}) (p_view st);
  plaw_set_tls s c st : replied st (p_set_tls s c st) (fun _ v v' => v' = v);
  plaw_sleep n st : p_view (p_sleep n st) = p_view st;
  plaw_invoke cb status st : p_view (p_invoke cb status st) = p_view st;
}.

(** ** A concrete network

    Dialing succeeds at the URLs of [pt_peers], which answer a request with a
    fixed reply; a listener can be refused, and one call can be told to fail.
    Other sockets receive what is in their inbox and block when it is empty. *)
Module ToyPeer.

Record State := mkState {
  pt_view : PView;
  pt_peers : gmap bytes bytes;
  pt_inbox : gmap Z (list bytes);
  pt_until : option nat;
  pt_clock : Z;
  pt_seen : list NodeStatus;
}.

Definition set_view v st :=
  mkState v (pt_peers st) (pt_inbox st) (pt_until st) (pt_clock st) (pt_seen st).

Definition tick (st : State) : bool * State :=
  match pt_until st with
  | None => (false, st)
  | Some n => (match n with O => true | _ => false end,
               mkState (pt_view st) (pt_peers st) (pt_inbox st)
                 (match n with O => None | S n => Some n end) (pt_clock st) (pt_seen st))
  end.

Definition answer {A} (f : PView → A * PView) (st : State) : result Z A * State :=
  match tick st with
  | (true, st) => (Err ToyNng.no_memory, st)
  | (false, st) => let '(a, v) := f (pt_view st) in (Ok a, set_view v st)
  end.

Definition deliver s bs (st : State) : result Z Z * State :=
  answer (fun v => let b := ToyNng.next_key (pv_buffers v) in (b, pv_receive s b bs v)) st.

(** The URL a socket has dialed. *)
Definition dialed s (v : PView) : option bytes :=
  match map_to_list (filter (fun e => e.2.1 = s) (pv_dialers v)) with
  | (_, (_, url)) :: _ => Some url
  | [] => None
  end.

Definition receive s (st : State) : exec (result Z Z * State) :=
  match pv_sockets (pt_view st) !! s with
  | Some req0 =>
      match dialed s (pt_view st) ≫= fun url => pt_peers st !! url with
      | Some reply => Done (deliver s reply st)
      | None => Running
      end
  | _ =>
      match default [] (pt_inbox st !! s) with
      | bs :: rest =>
          Done (deliver s bs (mkState (pt_view st) (pt_peers st) (<[s := rest]> (pt_inbox st))
                                (pt_until st) (pt_clock st) (pt_seen st)))
      | [] => Running
      end
  end.


#[global] Instance toy_peer : PeerApi := {|
  p_state := State;
  p_strerror rv := string_bytes "error";
  p_open p := answer (fun v => let s := ToyNng.next_key (pv_sockets v) in (s, pv_open s p v));
  p_close s st := set_view (pv_close s (pt_view st)) st;
  p_subscribe_all s := answer (fun v => ((), v));
  p_listen s url := answer (fun v =>
    let l := ToyNng.next_key (pv_listeners v) in (l, pv_listening (<[l := (s, url)]>) v));
  p_dial s url st :=
    match pv_sockets (pt_view st) !! s, pt_peers st !! url with
    | Some req0, None => (Err ToyNng.no_memory, st)
    | _, _ => answer (fun v =>
        let d := ToyNng.next_key (pv_dialers v) in (d, pv_dialing (<[d := (s, url)]>) v)) st
    end;
  p_listener_close l st := set_view (pv_listening (delete l) (pt_view st)) st;
  p_dialer_close d st := set_view (pv_dialing (delete d) (pt_view st)) st;
  p_send s bs := answer (fun v => ((), pv_send s bs v));
  p_recv := receive;
  p_load b st := (fun bs => (bs, st)) <$> (pv_buffers (pt_view st) !! b);
  p_free b st := (fun _ => ((), set_view (pv_release b (pt_view st)) st))
                   <$> (pv_buffers (pt_view st) !! b);
  p_tls_alloc := answer (fun v =>
    let c := unused (pv_configs v) in (c, pv_configure (union {[c]}) v));
  p_tls_own_cert c cert key := answer (fun v => ((), v));
  p_tls_free c st := set_view (pv_configure (fun cs => cs ∖ {[c]}) (pt_view st)) st;
  p_set_tls s c := answer (fun v => ((), v));
  p_now := pt_clock;
  p_sleep n st := mkState (pt_view st) (pt_peers st) (pt_inbox st) (pt_until st)
                    (pt_clock st + n * 10 ^ 9) (pt_seen st);
  Callback := ();
  p_invoke _ status st := mkState (pt_view st) (pt_peers st) (pt_inbox st) (pt_until st)
                            (pt_clock st) (pt_seen st ++ [status]);
|}.

Lemma toy_answer {A} (f : PView → A * PView) st (P : A → PView → PView → Prop) :
  P (f (pt_view st)).1 (pt_view st) (f (pt_view st)).2 →
  match answer f st with
  | (Ok a, st') => P a (pt_view st) (pt_view st')
  | (Err e, st') => e ≠ 0 ∧ pt_view st' = pt_view st
  end.
Proof.
  intros HP. unfold answer, tick. destruct (pt_until st) as [[|n]|]; cbn; [done|..];
    by destruct (f (pt_view st)).
Qed.

Lemma toy_deliver s bs st :
  match deliver s bs st with
  | (Ok b, st') => pv_buffers (pt_view st) !! b = None
                   ∧ ∃ bs, pt_view st' = pv_receive s b bs (pt_view st)
  | (Err e, st') => e ≠ 0 ∧ pt_view st' = pt_view st
  end.
Proof.
  refine (toy_answer _ st (fun b v v' => pv_buffers v !! b = None ∧ ∃ bs, v' = pv_receive s b bs v) _).
  cbn. destruct (ToyNng.next_key_fresh (pv_buffers (pt_view st))). eauto.
Qed.

#[global] Instance toy_peer_laws : PeerLaws toy_peer.
Proof.
  apply (Build_PeerLaws toy_peer pt_view); try done.
  - intros p st. destruct (ToyNng.next_key_fresh (pv_sockets (pt_view st))).
    by refine (toy_answer _ st (fun s v v' => pv_sockets v !! s = None ∧ v' = pv_open s p v) _).
  - intros s st. exact (toy_answer (fun v => ((), v)) st (fun _ v v' => v' = v) eq_refl).
  - intros s url st. destruct (ToyNng.next_key_fresh (pv_listeners (pt_view st))).
    by refine (toy_answer _ st (fun l v v' => pv_listeners v !! l = None
      ∧ v' = pv_listening (<[l := (s, url)]>) v) _).
  - intros s url st. destruct (ToyNng.next_key_fresh (pv_dialers (pt_view st))).
    cbn. destruct (pv_sockets (pt_view st) !! s) as [[| | |]|], (pt_peers st !! url);
      try done; by refine (toy_answer _ st (fun d v v' => pv_dialers v !! d = None
        ∧ v' = pv_dialing (<[d := (s, url)]>) v) _).
  - intros s bs st.
    exact (toy_answer (fun v => ((), pv_send s bs v)) st (fun _ v v' => v' = pv_send s bs v) eq_refl).
  - intros s st. change (p_recv s st) with (receive s st). unfold receive.
    destruct (dialed s (pt_view st) ≫= _) as [reply|], (default [] (pt_inbox st !! s)) as [|bs rest],
      (pv_sockets (pt_view st) !! s) as [[| | |]|]; try done;
      match goal with |- context [deliver ?s ?bs ?t] => exact (toy_deliver s bs t) end.
  - intros b bs st Hb. cbn. rewrite Hb. eauto.
  - intros b bs st Hb. cbn. rewrite Hb. eauto.
  - intros st. pose proof (proj1 (unused_fresh (pv_configs (pt_view st)))).
    by refine (toy_answer _ st (fun c v v' => (c ∉ pv_configs v)
      ∧ v' = pv_configure (union {[c]}) v) _).
  - intros c cert key st. exact (toy_answer (fun v => ((), v)) st (fun _ v v' => v' = v) eq_refl).
  - intros s c st. exact (toy_answer (fun v => ((), v)) st (fun _ v v' => v' = v) eq_refl).
Defined.
End ToyPeer.
