(* ===== verification/P2P.v ===== *)
(** * P2P: the peer-to-peer node

    Models [src/ya_communicate/arch/p2p.cpp] over the interface of
    [NngPeer.v]: the constructor and destructor of [P2P::Impl], [start] and
    [stop], the public queries, and the bodies of the four threads
    ([run_server], [run_broadcaster], [run_subscriber], [run_node_manager]).

    The object is a record [Impl] beside the state of the world.  A listener or
    dialer that [start] has not yet created is [None], and using it is
    undefined; the member [m_rv] only carries an error code from a call to the
    message built from it, and is a local value here.  An exception that leaves
    a thread's function ends the process; it is the [Err] of an iteration.
    Messages on the error stream are not modelled.

    The theorems: a status report is read back by the peer that asked for it;
    when the reader takes an indeterminate value; what a pass of the node
    manager removes and a query returns in a network that answers; sockets,
    endpoints and buffers are balanced; the node table stays well formed under
    every interleaving of the threads' iterations; what a node learns from its
    own announcements; when [stop] cannot return. *)

From S2P Require Import Prelude Text OrdMap Program Nng NngPeer.

Inductive Thread := ServerThread | BroadcastThread | SubscriberThread | NodeManagerThread.

#[global] Instance Thread_eq_dec : EqDecision Thread.
Proof. solve_decision. Defined.

(** ** Reports *)

Module report.
Definition bar : Z := 124.
Definition newline : Z := 10.

(** [ss << status.id << "|" << status.address << "|" << status.uptime << "|" << status.info] *)
Definition print_status (status : NodeStatus) : bytes :=
  ns_id status ++ bar :: ns_address status ++ bar :: dec (ns_uptime status) ++ bar :: ns_info status.

(** [ss << "NODE|" << status.id << "|" << status.address] *)
Definition print_node (status : NodeStatus) : bytes :=
  text "NODE|" ++ ns_id status ++ bar :: ns_address status.

(** The fields after id and address: [ss >> uptime; ss.ignore(1); getline(ss, info)]. *)
Definition parse_tail (ss : stream) : option Z * bytes :=
  let '(uptime, ss) := read_long None ss in
  let ss := ignore1 ss in
  let '(info, _) := getline newline [] ss in
  (uptime, info).

(** [NodeStatus{id, address, uptime, info}]: reads [uptime]. *)
Definition make_status (id address : bytes) (tail : option Z * bytes) : exec NodeStatus :=
  match tail with
  | (Some uptime, info) => Done (mkStatus id address uptime info)
  | (None, _) => Undefined
  end.

Definition parse_reply (reply : bytes) : exec NodeStatus :=
  let ss := istream reply in
  let '(id, ss) := getline bar [] ss in
  let '(address, ss) := getline bar [] ss in
  make_status id address (parse_tail ss).

(** [std::string(buf, sz - 1)]: the length wraps around when [sz] is 0. *)
Definition without_nul (buf : bytes) : result exception bytes :=
  if zlen buf =? 0 then Err length_error else Ok (take (length buf - 1) buf).
End report.
Import report.

Section Node.
Context `{PeerApi}.

Record Impl := mkImpl {
  m_id : bytes;
  m_listen_url : bytes;
  m_broadcast_url : bytes;
  m_server_socket : Z;
  m_server_listener : option Z;
  m_pub_socket : Z;
  m_pub_listener : option Z;
  m_sub_socket : Z;
  m_sub_dialer : option Z;
  (* the [std::thread] members that are joinable *)
  m_threads : list Thread;
  m_nodes : ordmap NodeStatus;
  m_status_callback : option Callback;
  m_running : bool;
  m_start_time : Z;
}.

Record Node := mkNode { world : p_state; impl : Impl }.

Definition set_nodes (nodes : ordmap NodeStatus) (i : Impl) : Impl :=
  mkImpl (m_id i) (m_listen_url i) (m_broadcast_url i) (m_server_socket i) (m_server_listener i)
    (m_pub_socket i) (m_pub_listener i) (m_sub_socket i) (m_sub_dialer i) (m_threads i) nodes
    (m_status_callback i) (m_running i) (m_start_time i).
Definition set_callback (callback : option Callback) (i : Impl) : Impl :=
  mkImpl (m_id i) (m_listen_url i) (m_broadcast_url i) (m_server_socket i) (m_server_listener i)
    (m_pub_socket i) (m_pub_listener i) (m_sub_socket i) (m_sub_dialer i) (m_threads i) (m_nodes i)
    callback (m_running i) (m_start_time i).
Definition set_running (running : bool) (i : Impl) : Impl :=
  mkImpl (m_id i) (m_listen_url i) (m_broadcast_url i) (m_server_socket i) (m_server_listener i)
    (m_pub_socket i) (m_pub_listener i) (m_sub_socket i) (m_sub_dialer i) (m_threads i) (m_nodes i)
    (m_status_callback i) running (m_start_time i).
Definition set_threads (threads : list Thread) (i : Impl) : Impl :=
  mkImpl (m_id i) (m_listen_url i) (m_broadcast_url i) (m_server_socket i) (m_server_listener i)
    (m_pub_socket i) (m_pub_listener i) (m_sub_socket i) (m_sub_dialer i) threads (m_nodes i)
    (m_status_callback i) (m_running i) (m_start_time i).
Definition set_endpoints (server pub sub : option Z) (i : Impl) : Impl :=
  mkImpl (m_id i) (m_listen_url i) (m_broadcast_url i) (m_server_socket i) server
    (m_pub_socket i) pub (m_sub_socket i) sub (m_threads i) (m_nodes i)
    (m_status_callback i) (m_running i) (m_start_time i).

(** Steps of the world and of the object. *)
Definition outside {A} (m : prog p_state A) : prog Node A := fun s =>
  match m (world s) with
  | Done (a, w) => Done (a, mkNode w (impl s))
  | Undefined => Undefined
  | Running => Running
  end.
Definition modify (f : Impl → Impl) : prog Node () :=
  effect (fun s => mkNode (world s) (f (impl s))).
Definition member {A} (f : Impl → A) : prog Node A := observe (fun s => f (impl s)).

Definition receive (socket : Z) : prog p_state (result Z Z) := fun st => p_recv socket st.

(** A handle that must have been assigned. *)
Definition handle (h : option Z) : prog Node Z :=
  attempt (fun s => (fun x => (x, s)) <$> h).

(** [throw CommException(what + nng_strerror(m_rv))] *)
Definition comm_failed {S A} (what : bytes) (rv : Z) : prog S (result exception A) :=
  mret (Err (runtime_error (what ++ p_strerror rv))).

(** ** Construction *)

Fixpoint set_tls_all (config : Z) (sockets : list Z) : prog p_state (result Z ()) :=
  match sockets with
  | [] => mret (Ok ())
  | socket :: rest =>
      r ← call (p_set_tls socket config);
      match r with
      | Err rv => mret (Err rv)
      | Ok _ => set_tls_all config rest
      end
  end.

Definition configure_tls (sockets : list Z) (cert_file key_file : bytes)
  : prog p_state (result exception ()) :=
  r ← call p_tls_alloc;
  match r with
  | Err rv => comm_failed (text "Failed to allocate TLS config: ") rv
  | Ok config =>
      r ← call (p_tls_own_cert config (until_nul cert_file) (until_nul key_file));
      match r with
      | Err rv => effect (p_tls_free config);; comm_failed (text "Failed to load TLS cert: ") rv
      | Ok _ =>
          r ← set_tls_all config sockets;
          match r with
          | Err rv => effect (p_tls_free config);; comm_failed (text "Failed to set TLS config: ") rv
          | Ok _ => mret (Ok ())
          end
      end
  end.

Definition new_impl (id listen_url broadcast_url : bytes) (server pub sub start_time : Z) : Impl :=
  mkImpl id listen_url broadcast_url server None pub None sub None [] [] None false start_time.

(** [Impl::Impl] and [P2P::P2P] *)
Definition Impl_new (id listen_url broadcast_url cert_file key_file : bytes)
  : prog p_state (result exception Impl) :=
  start_time ← observe p_now;
  r ← call (p_open rep0);
  match r with
  | Err rv => comm_failed (text "Failed to open server socket: ") rv
  | Ok server =>
  r ← call (p_open peer_pub0);
  match r with
  | Err rv => comm_failed (text "Failed to open publisher socket: ") rv
  | Ok pub =>
  r ← call (p_open peer_sub0);
  match r with
  | Err rv => comm_failed (text "Failed to open subscriber socket: ") rv
  | Ok sub =>
  r ← call (p_subscribe_all sub);
  match r with
  | Err rv => comm_failed (text "Failed to set subscribe option: ") rv
  | Ok _ =>
  let made := new_impl id listen_url broadcast_url server pub sub start_time in
  if negb (bool_decide (cert_file = [])) && negb (bool_decide (key_file = []))
  then r ← configure_tls [server; pub; sub] cert_file key_file;
       match r with
       | Err e => mret (Err e)
       | Ok _ => mret (Ok made)
       end
  else mret (Ok made)
  end end end end.

(** ** Starting and stopping *)

Definition listener_close (l : option Z) : prog Node () :=
  l ← handle l; outside (effect (p_listener_close l)).
Definition dialer_close (d : option Z) : prog Node () :=
  d ← handle d; outside (effect (p_dialer_close d)).

(** Assigning to a [std::thread] that is joinable ends the process. *)
Definition launch (t : Thread) : prog Node () :=
  threads ← member m_threads;
  must (bool_decide (t ∉ threads));;
  modify (set_threads (threads ++ [t])).

Definition start : prog Node (result exception ()) :=
  i ← member (fun i => i);
  if m_running i then mret (Ok ()) else
  modify (set_running true);;
  r ← outside (call (p_listen (m_server_socket i) (until_nul (m_listen_url i))));
  match r with
  | Err rv =>
      modify (set_running false);;
      comm_failed (text "Failed to listen on " ++ m_listen_url i ++ text ": ") rv
  | Ok server_listener =>
  modify (set_endpoints (Some server_listener) (m_pub_listener i) (m_sub_dialer i));;
  r ← outside (call (p_listen (m_pub_socket i) (until_nul (m_broadcast_url i))));
  match r with
  | Err rv =>
      modify (set_running false);;
      listener_close (Some server_listener);;
      comm_failed (text "Failed to listen on broadcast " ++ m_broadcast_url i ++ text ": ") rv
  | Ok pub_listener =>
  modify (set_endpoints (Some server_listener) (Some pub_listener) (m_sub_dialer i));;
  r ← outside (call (p_dial (m_sub_socket i) (until_nul (m_broadcast_url i))));
  match r with
  | Err rv =>
      modify (set_running false);;
      listener_close (Some server_listener);;
      listener_close (Some pub_listener);;
      comm_failed (text "Failed to dial broadcast " ++ m_broadcast_url i ++ text ": ") rv
  | Ok sub_dialer =>
  modify (set_endpoints (Some server_listener) (Some pub_listener) (Some sub_dialer));;
  launch ServerThread;;
  launch BroadcastThread;;
  launch SubscriberThread;;
  launch NodeManagerThread;;
  mret (Ok ())
  end end end.

Definition wait (ended : bool) : prog Node () := fun s =>
  if ended then Done ((), s) else Running.

(** [if (thread.joinable()) thread.join();] where [ends] says which threads'
    functions return. *)
Definition join (ends : Thread → bool) (t : Thread) : prog Node () :=
  threads ← member m_threads;
  if bool_decide (t ∈ threads)
  then wait (ends t);; modify (set_threads (filter (fun u => u ≠ t) threads))
  else mret ().

Definition stop (ends : Thread → bool) : prog Node () :=
  i ← member (fun i => i);
  if negb (m_running i) then mret () else
  modify (set_running false);;
  listener_close (m_server_listener i);;
  listener_close (m_pub_listener i);;
  dialer_close (m_sub_dialer i);;
  join ends ServerThread;;
  join ends BroadcastThread;;
  join ends SubscriberThread;;
  join ends NodeManagerThread.

(** [Impl::~Impl] *)
Definition Impl_destroy (ends : Thread → bool) : prog Node () :=
  stop ends;;
  i ← member (fun i => i);
  outside (effect (p_close (m_server_socket i)));;
  outside (effect (p_close (m_pub_socket i)));;
  outside (effect (p_close (m_sub_socket i))).

(** ** Queries *)

(** [duration_cast<seconds>] rounds towards zero. *)
Definition local_status (i : Impl) (now : Z) : NodeStatus :=
  mkStatus (m_id i) (m_listen_url i) (Z.quot (now - m_start_time i) (10 ^ 9)) (text "healthy").

Definition get_local_status : prog Node NodeStatus :=
  observe (fun s => local_status (impl s) (p_now (world s))).

Definition STATUS_request : bytes := text "STATUS" ++ [0].

(** Asking a node, which [query_all_status] and [run_node_manager] both do: open
    a socket, dial, send the request, receive.  On [Answered] the socket and
    the buffer are the caller's. *)
Inductive Asked := NoSocket | Unreachable | Answered (socket buf : Z).

Definition request_status (url : bytes) : prog p_state Asked :=
  r ← call (p_open req0);
  match r with
  | Err _ => mret NoSocket
  | Ok client_socket =>
  r ← call (p_dial client_socket (until_nul url));
  match r with
  | Err _ => effect (p_close client_socket);; mret Unreachable
  | Ok _ =>
  r ← call (p_send client_socket STATUS_request);
  match r with
  | Err _ => effect (p_close client_socket);; mret Unreachable
  | Ok _ =>
  r ← receive client_socket;
  match r with
  | Err _ => effect (p_close client_socket);; mret Unreachable
  | Ok buf => mret (Answered client_socket buf)
  end end end end.

(** One turn of the loop of [query_all_status]; an exception is caught, which
    skips the node. *)
Definition query_node (url : bytes) : prog p_state (option NodeStatus) :=
  asked ← request_status url;
  match asked with
  | NoSocket | Unreachable => mret None
  | Answered client_socket buf =>
      bs ← attempt (p_load buf);
      match without_nul bs with
      | Err _ => mret None
      | Ok reply =>
          attempt (p_free buf);;
          effect (p_close client_socket);;
          status ← produce (parse_reply reply);
          mret (Some status)
      end
  end.

Fixpoint query_nodes (nodes : ordmap NodeStatus) : prog p_state (list NodeStatus) :=
  match nodes with
  | [] => mret []
  | (url, _) :: rest =>
      status ← query_node url;
      statuses ← query_nodes rest;
      mret (option_list status ++ statuses)
  end.

Definition query_all_status : prog Node (list NodeStatus) :=
  local ← get_local_status;
  nodes ← member m_nodes;
  statuses ← outside (query_nodes nodes);
  mret (local :: statuses).

Definition subscribe_status (callback : option Callback) : prog Node () :=
  modify (set_callback callback).

Definition get_known_nodes : prog Node (list bytes) :=
  nodes ← member m_nodes;
  mret (nodes.*1).

(** ** Threads *)

(** One iteration of [run_server]. *)
Definition server_iteration : prog Node (result exception ()) :=
  i ← member (fun i => i);
  r ← outside (receive (m_server_socket i));
  match r with
  | Err _ => mret (Ok ())
  | Ok buf =>
      bs ← outside (attempt (p_load buf));
      match without_nul bs with
      | Err e => mret (Err e)
      | Ok req =>
          outside (attempt (p_free buf));;
          if bool_decide (req = text "STATUS")
          then status ← get_local_status;
               _ ← outside (call (p_send (m_server_socket i) (print_status status ++ [0])));
               mret (Ok ())
          else mret (Ok ())
      end
  end.

Definition broadcaster_iteration : prog Node (result exception ()) :=
  i ← member (fun i => i);
  status ← get_local_status;
  _ ← outside (call (p_send (m_pub_socket i) (print_node status ++ [0])));
  outside (effect (p_sleep 5));;
  mret (Ok ()).

(** [m_nodes[status.address] = status] *)
Definition record_node (status : NodeStatus) : prog Node () :=
  nodes ← member m_nodes;
  modify (set_nodes (omap_insert (ns_address status) status nodes)).

(** What [run_subscriber] does with a message. *)
Definition subscriber_message (msg : bytes) : prog Node () :=
  let ss := istream msg in
  let '(type, ss) := getline bar [] ss in
  let '(id, ss) := getline bar [] ss in
  let '(address, ss) := getline bar [] ss in
  i ← member (fun i => i);
  if bool_decide (type = text "NODE")
  then if negb (bool_decide (id = m_id i)) && negb (bool_decide (address = m_listen_url i))
       then record_node (mkStatus id address 0 (text "discovered"))
       else mret ()
  else if bool_decide (type = text "STATUS")
  then status ← produce (make_status id address (parse_tail ss));
       record_node status;;
       match m_status_callback i with
       | Some callback => outside (effect (p_invoke callback status))
       | None => mret ()
       end
  else mret ().

Definition subscriber_iteration : prog Node (result exception ()) :=
  i ← member (fun i => i);
  r ← outside (receive (m_sub_socket i));
  match r with
  | Err _ => mret (Ok ())
  | Ok buf =>
      bs ← outside (attempt (p_load buf));
      match without_nul bs with
      | Err e => mret (Err e)
      | Ok msg => outside (attempt (p_free buf));; subscriber_message msg;; mret (Ok ())
      end
  end.

Definition erase_node (url : bytes) : prog Node () :=
  nodes ← member m_nodes;
  modify (set_nodes (omap_erase url nodes)).

(** One turn of the loop of [run_node_manager]. *)
Definition check_node (url : bytes) : prog Node () :=
  asked ← outside (request_status url);
  match asked with
  | NoSocket => mret ()
  | Unreachable => erase_node url
  | Answered client_socket buf =>
      outside (attempt (p_free buf));;
      outside (effect (p_close client_socket))
  end.

Fixpoint check_nodes (nodes_copy : ordmap NodeStatus) : prog Node () :=
  match nodes_copy with
  | [] => mret ()
  | (url, _) :: rest => check_node url;; check_nodes rest
  end.

Definition manager_iteration : prog Node (result exception ()) :=
  nodes_copy ← member m_nodes;
  check_nodes nodes_copy;;
  outside (effect (p_sleep 10));;
  mret (Ok ()).

(** [while (m_running) { ... }] *)
Fixpoint while_running (fuel : nat) (body : prog Node (result exception ()))
  : prog Node (result exception ()) :=
  match fuel with
  | O => fun _ => Running
  | S fuel' =>
      running ← member m_running;
      if (running : bool)
      then r ← body;
           match r with
           | Err e => mret (Err e)
           | Ok _ => while_running fuel' body
           end
      else mret (Ok ())
  end.

Definition run_server fuel := while_running fuel server_iteration.
Definition run_broadcaster fuel := while_running fuel broadcaster_iteration.
Definition run_subscriber fuel := while_running fuel subscriber_iteration.
Definition run_node_manager fuel := while_running fuel manager_iteration.
End Node.

(** ** Reports are read back *)

Definition report_ok (status : NodeStatus) : Prop :=
  (bar ∉ ns_id status) ∧ (bar ∉ ns_address status) ∧ (newline ∉ ns_info status)
  ∧ LONG_MIN <= ns_uptime status <= LONG_MAX.

Lemma bar_ends_number rest : ends_number (bar :: rest).
Proof. by intros c r [= <- _]. Qed.

Lemma parse_tail_printed u info :
  LONG_MIN <= u <= LONG_MAX → newline ∉ info →
  parse_tail (istream (dec u ++ bar :: info)) = (Some u, info).
Proof.
  intros Hu Hn. unfold parse_tail. rewrite read_long_dec by auto using bar_ends_number.
  change (ignore1 _) with (istream info). by rewrite getline_last.
Qed.

Lemma report_read_back status : report_ok status → parse_reply (print_status status) = Done status.
Proof.
  intros (Hi & Ha & Hn & Hu). unfold parse_reply, print_status.
  rewrite getline_field by done. rewrite getline_field by done.
  rewrite parse_tail_printed by done. by destruct status.
Qed.

(** A status report is read back by the peer that asked for it: parsing
    what the node prints gives the same id, address, uptime and info, for every
    report whose id and address are free of ['|'], whose info is one line and
    whose uptime is a [long]. *)
Theorem report_round_trip status :
  report_ok status → parse_reply (print_status status) = Done status.
Proof. apply report_read_back. Qed.

Lemma report_round_trip_witness :
  parse_reply (print_status (mkStatus (text "node-a") (text "tcp://10.0.0.7:5555") (-42) (text "load 0.3|x")))
  = Done (mkStatus (text "node-a") (text "tcp://10.0.0.7:5555") (-42) (text "load 0.3|x")).
Proof.
  apply report_round_trip. unfold report_ok, LONG_MIN, LONG_MAX. cbn [ns_id ns_address ns_uptime ns_info].
  split_and!; try lia; apply (bool_decide_eq_true_1 _); vm_compute; reflexivity.
Defined.

Lemma parse_reply_fields id addr tail :
  bar ∉ id → bar ∉ addr →
  parse_reply (id ++ bar :: addr ++ bar :: tail) = make_status id addr (parse_tail (istream tail)).
Proof. intros Hi Ha. unfold parse_reply. by rewrite !getline_field. Qed.

Lemma make_status_unset id addr ss :
  make_status id addr (parse_tail ss) = Undefined ↔ good ss = false ∨ skip_space (ss_rest ss) = [].
Proof.
  rewrite <- read_long_unset. unfold parse_tail.
  destruct (read_long None ss) as [[u|] ss1]; destruct (getline newline [] (ignore1 ss1)); cbn; naive_solver.
Qed.

(** The reader of a report takes an indeterminate value exactly on the
    replies that end before the uptime: those with fewer than two ['|'], or
    with nothing but blanks after the second.  Every other reply, however
    malformed, gives a status. *)
Theorem parse_reply_undefined reply :
  parse_reply reply = Undefined ↔
  ∀ id addr tail, reply = id ++ bar :: addr ++ bar :: tail → bar ∉ id → bar ∉ addr →
                  skip_space tail = [].
Proof.
  split.
  { intros Hu id addr tail -> Hi Ha. rewrite parse_reply_fields in Hu by done.
    apply make_status_unset in Hu as [Hu|Hu]; done. }
  intros Hall. unfold parse_reply.
  pose proof (split_at_spec bar reply) as Hs. unfold getline at 1. cbn [good istream ss_eof ss_fail ss_rest].
  destruct (split_at bar reply) as [id [rest|]]; destruct Hs as [-> Hi]; cbn [negb andb].
  - pose proof (split_at_spec bar rest) as Hs. unfold getline.
    cbn [good istream ss_eof ss_fail ss_rest negb andb].
    destruct (split_at bar rest) as [addr [tail|]]; destruct Hs as [-> Ha]; apply make_status_unset.
    + right. by apply (Hall id addr tail).
    + by left.
  - done.
Qed.

(** ** Resources *)

Section NodeFacts.
Context {N : PeerApi} {L : PeerLaws N}.
Implicit Types (st : p_state) (s : Node) (total : Prop).

Lemma wp_outside total {A} (m : prog p_state A) s (Q : A → Node → Prop) :
  wp total m (world s) (fun a w => Q a (mkNode w (impl s))) → wp total (outside m) s Q.
Proof. unfold wp, outside. by destruct (m (world s)) as [[a w]| |]. Qed.

Lemma wp_produce total {S A} (a : A) (s : S) (Q : A → S → Prop) :
  Q a s → wp total (produce (Done a)) s Q.
Proof. done. Qed.

(** What is live in the world: sockets, endpoints, buffers, configurations. *)
Definition live st :=
  let v := p_view st in
  (pv_sockets v, pv_listeners v, pv_dialers v, pv_buffers v, pv_configs v).

(** Endpoints belong to open sockets. *)
Definition attached st : Prop :=
  let v := p_view st in
  map_Forall (fun _ e => is_Some (pv_sockets v !! e.1)) (pv_listeners v)
  ∧ map_Forall (fun _ e => is_Some (pv_sockets v !! e.1)) (pv_dialers v).

Lemma attached_live st st' : live st' = live st → attached st → attached st'.
Proof. unfold live, attached. by intros [= -> -> -> _ _]. Qed.

Lemma unattached_filter (sockets : gmap Z PeerProtocol) (m : gmap Z (Z * bytes)) sock :
  map_Forall (fun _ e => is_Some (sockets !! e.1)) m → sockets !! sock = None →
  filter (fun e => e.2.1 ≠ sock) m = m.
Proof.
  intros Hm Hs. apply map_filter_id. intros k e He. cbn. intros <-.
  destruct (Hm k e He) as [p Hp]. congruence.
Qed.

(** A socket that was opened, perhaps dialed, and closed leaves no trace. *)
Lemma close_opened (v : PView) sock p :
  map_Forall (fun _ e => is_Some (pv_sockets v !! e.1)) (pv_listeners v) →
  map_Forall (fun _ e => is_Some (pv_sockets v !! e.1)) (pv_dialers v) →
  pv_sockets v !! sock = None → pv_close sock (pv_open sock p v) = v.
Proof.
  intros Hl Hd Hs. unfold pv_close, pv_open. cbn.
  rewrite delete_insert_id by done.
  by erewrite !unattached_filter by done; destruct v.
Qed.

Lemma close_dialed (v : PView) sock url d :
  pv_dialers v !! d = None →
  pv_close sock (pv_dialing (<[d := (sock, url)]>) v) = pv_close sock v.
Proof.
  intros Hd. unfold pv_close, pv_dialing. cbn. f_equal.
  rewrite map_filter_insert_False by (cbn; naive_solver). by rewrite delete_id.
Qed.

(** Ghost traffic does not matter for what is live. *)
Definition view_live (v : PView) :=
  (pv_sockets v, pv_listeners v, pv_dialers v, pv_buffers v, pv_configs v).

Lemma view_live_close sock v v' : view_live v = view_live v' →
  view_live (pv_close sock v) = view_live (pv_close sock v').
Proof. unfold view_live, pv_close. cbn. by intros [= -> -> -> -> ->]. Qed.

(** Asking a node leaves nothing behind unless it answers, and then exactly the
    socket and the reply. *)
Lemma wp_request_status url st Q :
  attached st →
  (∀ asked st', match asked with
     | NoSocket | Unreachable => live st' = live st
     | Answered sock buf => ∃ bs, pv_buffers (p_view st') !! buf = Some bs
         ∧ view_live (pv_close sock (pv_release buf (p_view st'))) = live st
     end → Q asked st') →
  wp False (request_status url) st Q.
Proof.
  intros [Hl Hd] HQ. unfold request_status. apply wp_bind, wp_call.
  pose proof (plaw_open req0 st) as H1. destruct (p_open req0 st) as [[sock|] st1]; cbn in *;
    [destruct H1 as [Hf H1]|destruct H1 as [_ H1]; apply HQ; unfold live; by rewrite H1].
  assert (pv_close sock (p_view st1) = p_view st) as Hc1 by (rewrite H1; by apply close_opened).
  apply wp_bind, wp_call.
  pose proof (plaw_dial sock (until_nul url) st1) as H2.
  destruct (p_dial sock _ st1) as [[d|] st2]; cbn in *;
    [destruct H2 as [Hfd H2]|
     destruct H2 as [_ H2]; apply HQ; unfold live; by rewrite plaw_close, H2, Hc1].
  assert (pv_close sock (p_view st2) = p_view st) as Hc2 by (rewrite H2; by rewrite close_dialed).
  apply wp_bind, wp_call.
  pose proof (plaw_send sock STATUS_request st2) as H3.
  destruct (p_send sock _ st2) as [[[]|] st3]; cbn in *;
    [|destruct H3 as [_ H3]; apply HQ; unfold live; by rewrite plaw_close, H3, Hc2].
  assert (view_live (pv_close sock (p_view st3)) = live st) as Hc3
    by (rewrite H3; unfold live; by rewrite <- Hc2).
  apply wp_bind. unfold receive, wp at 1. pose proof (plaw_recv sock st3) as H4.
  destruct (p_recv sock st3) as [[[buf|] st4]| |] eqn:Er; cbn in *; [| |done|tauto].
  - destruct H4 as (Hfb & bs & H4). apply HQ. exists bs. rewrite H4. cbn.
    split; [apply lookup_insert_eq|]. rewrite <- Hc3. apply view_live_close.
    unfold view_live. cbn. by rewrite delete_insert_id.
  - destruct H4 as [_ H4]. apply HQ. unfold live. rewrite plaw_close, H4. done.
Qed.

(** ** The node manager *)

Lemma set_nodes_id i : set_nodes (m_nodes i) i = i.
Proof. by destruct i. Qed.

Lemma wp_check_node url s Q :
  attached (world s) →
  (∀ w' nodes', live w' = live (world s) →
     nodes' = m_nodes (impl s) ∨ nodes' = omap_erase url (m_nodes (impl s)) →
     Q () (mkNode w' (set_nodes nodes' (impl s)))) →
  wp False (check_node url) s Q.
Proof.
  intros Ha HQ. unfold check_node. apply wp_bind, wp_outside, wp_request_status; [done|].
  assert (∀ w', live w' = live (world s) → Q () (mkNode w' (impl s))) as HQ'.
  { intros w' Hw. rewrite <- (set_nodes_id (impl s)). auto. }
  intros [| |sock buf] w' Hw; cbn in Hw.
  - apply wp_ret. auto.
  - unfold erase_node. apply wp_bind, wp_observe, wp_effect. auto.
  - destruct Hw as (bs & Hb & Hw). destruct (plaw_free buf bs w' Hb) as (w2 & Ef & Hv).
    apply wp_bind, wp_outside. eapply wp_attempt; [exact Ef|].
    apply wp_outside, wp_effect. cbn. apply HQ'. unfold live. by rewrite plaw_close, Hv.
Qed.

Lemma wp_check_nodes copy s Q :
  attached (world s) → omap_sorted (m_nodes (impl s)) →
  (∀ w' lost, live w' = live (world s) → lost ⊆ copy.*1 →
     Q () (mkNode w' (set_nodes (filter (fun e => e.1 ∉ lost) (m_nodes (impl s))) (impl s)))) →
  wp False (check_nodes copy) s Q.
Proof.
  revert s Q. induction copy as [|[url status] copy IH]; intros s Q Ha Hs HQ; cbn [check_nodes].
  { apply wp_ret. specialize (HQ (world s) []).
    rewrite filter_all in HQ by set_solver. rewrite set_nodes_id in HQ. destruct s. by apply HQ. }
  apply wp_bind, wp_check_node; [done|]. intros w1 nodes' Hw Hn.
  assert (omap_sorted nodes') by (destruct Hn as [->| ->]; auto using omap_erase_sorted).
  apply IH; cbn; [eauto using attached_live|done|]. intros w2 lost Hw2 Hl.
  destruct Hn as [->| ->]; [|rewrite omap_erase_filter, list_filter_filter by done].
  - apply HQ; [congruence|set_solver].
  - specialize (HQ w2 (url :: lost)).
    rewrite (list_filter_iff _ (fun e : bytes * NodeStatus => e.1 ∉ url :: lost)) by set_solver.
    apply HQ; [congruence|set_solver].
Qed.

(** A pass of the node manager, in any network and whichever calls fail,
    closes every socket and frees every buffer it acquired and changes the node
    only by removing entries of the node table; those that stay are unchanged
    and in order. *)
Theorem manager_balanced s r s' :
  attached (world s) → omap_sorted (m_nodes (impl s)) →
  manager_iteration s = Done (r, s') →
  r = Ok () ∧ live (world s') = live (world s)
  ∧ ∃ lost, lost ⊆ (m_nodes (impl s)).*1
    ∧ impl s' = set_nodes (filter (fun e => e.1 ∉ lost) (m_nodes (impl s))) (impl s).
Proof.
  intros Ha Hs.
  apply (wp_partial manager_iteration s (fun r s' => r = Ok () ∧ live (world s') = live (world s)
    ∧ ∃ lost, lost ⊆ (m_nodes (impl s)).*1
      ∧ impl s' = set_nodes (filter (fun e => e.1 ∉ lost) (m_nodes (impl s))) (impl s))).
  unfold manager_iteration. apply wp_bind, wp_observe, wp_bind, wp_check_nodes; [done..|].
  intros w' lost Hw Hl. apply wp_bind, wp_outside, wp_effect, wp_ret. cbn.
  split_and!; [done|unfold live; rewrite plaw_sleep; apply Hw|eauto].
Qed.

(** ** The other threads *)

(** Taking a message out of its buffer. *)
Lemma wp_take_message {A} socket (rest : bytes → prog Node (result exception A)) s Q no_message :
  (∀ w', p_view w' = p_view (world s) → wp False no_message (mkNode w' (impl s)) Q) →
  (∀ w' b, live w' = (pv_sockets (p_view (world s)), pv_listeners (p_view (world s)),
      pv_dialers (p_view (world s)), <[b := []]> (pv_buffers (p_view (world s))),
      pv_configs (p_view (world s))) → Q (Err length_error) (mkNode w' (impl s))) →
  (∀ w' msg c, live w' = live (world s) → pv_received (p_view w')
       = pv_received (p_view (world s)) ++ [(socket, msg ++ [c])] →
     pv_sent (p_view w') = pv_sent (p_view (world s)) →
     wp False (rest msg) (mkNode w' (impl s)) Q) →
  wp False (r ← outside (receive socket);
            match r with
            | Err _ => no_message
            | Ok buf =>
                bs ← outside (attempt (p_load buf));
                match without_nul bs with
                | Err e => mret (Err e)
                | Ok msg => outside (attempt (p_free buf));; rest msg
                end
            end) s Q.
Proof.
  intros H0 H1 H2. apply wp_bind, wp_outside. unfold receive, wp at 1.
  pose proof (plaw_recv socket (world s)) as Hr.
  destruct (p_recv socket (world s)) as [[[buf|e] w1]| |]; cbn in Hr; [|destruct Hr|done|tauto].
  2: { by apply H0. }
  destruct Hr as (Hf & bs & Hv).
  assert (pv_buffers (p_view w1) !! buf = Some bs) as Hb by (rewrite Hv; apply lookup_insert_eq).
  destruct (plaw_load buf bs w1 Hb) as (w2 & El & Hv2).
  apply wp_bind, wp_outside. eapply wp_attempt; [exact El|]. cbn. unfold without_nul.
  destruct (Z.eqb_spec (zlen bs) 0) as [Hz|Hz].
  { apply zlen_zero in Hz as ->. apply wp_ret. apply H1 with buf. unfold live. by rewrite Hv2, Hv. }
  rewrite <- Hv2 in Hb. destruct (plaw_free buf bs w2 Hb) as (w3 & Ef & Hv3).
  apply wp_bind, wp_outside. eapply wp_attempt; [exact Ef|]. cbn.
  destruct (@exists_last _ bs) as (msg & c & ->); [by intros ->|].
  rewrite length_app. cbn. rewrite Nat.add_sub, take_app_length.
  apply H2 with c; rewrite ?Hv3, ?Hv2, ?Hv; [|done..].
  unfold live. rewrite Hv3, Hv2, Hv. cbn. by rewrite delete_insert_id.
Qed.

(** What the world has sent and received beyond an earlier state. *)
Definition answers_status (i : Impl) st st' : Prop :=
  ∃ c now, pv_received (p_view st') = pv_received (p_view st) ++ [(m_server_socket i, text "STATUS" ++ [c])]
  ∧ pv_sent (p_view st') = pv_sent (p_view st)
      ++ [(m_server_socket i, print_status (local_status i now) ++ [0])].

(** One iteration of the server thread: it leaves no buffer behind and the
    node unchanged, and it sends nothing, or it has received [STATUS] and sends
    the printed local status with its terminator on the same socket.  The one
    exception is an empty message: then the thread ends with
    [std::length_error] and the buffer of that message is never freed. *)
Theorem server_iteration_behaviour s r s' :
  server_iteration s = Done (r, s') →
  impl s' = impl s ∧
  match r with
  | Ok _ => live (world s') = live (world s)
      ∧ (pv_sent (p_view (world s')) = pv_sent (p_view (world s))
         ∨ answers_status (impl s) (world s) (world s'))
  | Err e => e = length_error
      ∧ ∃ b, pv_buffers (p_view (world s')) = <[b := []]> (pv_buffers (p_view (world s)))
  end.
Proof.
  apply (wp_partial server_iteration s (fun r s' => impl s' = impl s ∧ match r with
    | Ok _ => live (world s') = live (world s)
        ∧ (pv_sent (p_view (world s')) = pv_sent (p_view (world s))
           ∨ answers_status (impl s) (world s) (world s'))
    | Err e => e = length_error
        ∧ ∃ b, pv_buffers (p_view (world s')) = <[b := []]> (pv_buffers (p_view (world s)))
    end)).
  unfold server_iteration. apply wp_bind, wp_observe, wp_take_message; cbn beta.
  - intros w' Hv. apply wp_ret. unfold live. cbn. rewrite Hv. auto.
  - intros w' b [= _ _ _ Hb _]. cbn. eauto.
  - intros w' msg c Hl Hr Hs. case_bool_decide as Hm; [subst msg|by apply wp_ret; auto].
    apply wp_bind, wp_observe, wp_bind, wp_outside, wp_call, wp_ret.
    cbn [world impl]. split; [done|].
    match goal with |- context [p_send ?k ?b ?w] =>
      pose proof (plaw_send k b w) as Hp; destruct (p_send k b w) as [[[]|e] w2] end;
      cbn in Hp |- *.
    + split; [by rewrite <- Hl; unfold live; rewrite Hp|]. right. eexists c, _.
      rewrite Hp. cbn. rewrite Hr, Hs. done.
    + destruct Hp as [_ Hp]. split; [by rewrite <- Hl; unfold live; rewrite Hp|]. left. congruence.
Qed.

(** ** Starting and stopping *)

Definition all_threads : list Thread :=
  [ServerThread; BroadcastThread; SubscriberThread; NodeManagerThread].

(** Between the calls of [start] and [stop]. *)
Definition life_ok (i : Impl) : Prop :=
  if m_running i
  then m_threads i = all_threads ∧ is_Some (m_server_listener i) ∧ is_Some (m_pub_listener i)
       ∧ is_Some (m_sub_dialer i)
  else m_threads i = [].

Definition endpoints st := (pv_listeners (p_view st), pv_dialers (p_view st)).
Definition holdings st := (pv_sockets (p_view st), pv_buffers (p_view st), pv_configs (p_view st)).
Definition sockets_of (i : Impl) := (m_server_socket i, m_pub_socket i, m_sub_socket i).

(** What the running node has open: its two listeners and its dialer. *)
Definition serving (i : Impl) st st' : Prop :=
  ∃ ls lp d, m_server_listener i = Some ls ∧ m_pub_listener i = Some lp ∧ m_sub_dialer i = Some d
  ∧ pv_listeners (p_view st) !! ls = None ∧ pv_listeners (p_view st) !! lp = None ∧ ls ≠ lp
  ∧ pv_dialers (p_view st) !! d = None
  ∧ endpoints st' = (<[lp := (m_pub_socket i, until_nul (m_broadcast_url i))]>
                       (<[ls := (m_server_socket i, until_nul (m_listen_url i))]>
                         (pv_listeners (p_view st))),
                     <[d := (m_sub_socket i, until_nul (m_broadcast_url i))]>
                       (pv_dialers (p_view st))).

Lemma wp_start s Q :
  m_running (impl s) = false → m_threads (impl s) = [] →
  (∀ e s', endpoints (world s') = endpoints (world s) → m_running (impl s') = false →
     m_threads (impl s') = [] → holdings (world s') = holdings (world s) →
     sockets_of (impl s') = sockets_of (impl s) → Q (Err e) s') →
  (∀ s', serving (impl s') (world s) (world s') → m_running (impl s') = true →
     m_threads (impl s') = all_threads → holdings (world s') = holdings (world s) →
     sockets_of (impl s') = sockets_of (impl s) → Q (Ok ()) s') →
  wp True start s Q.
Proof.
  intros Hr Ht HE HO. unfold start. apply wp_bind, wp_observe. rewrite Hr.
  apply wp_bind, wp_effect, wp_bind, wp_outside, wp_call.
  match goal with |- context [p_listen ?k ?u ?w] =>
    pose proof (plaw_listen k u w) as H1; destruct (p_listen k u w) as [[ls|] w1] end; cbn in H1.
  2: { apply wp_bind, wp_effect, wp_ret, HE; try done; unfold endpoints, holdings; cbn;
       destruct H1; congruence. }
  destruct H1 as [Hf1 H1]. apply wp_bind, wp_effect, wp_bind, wp_outside, wp_call.
  match goal with |- context [p_listen ?k ?u ?w] =>
    pose proof (plaw_listen k u w) as H2; destruct (p_listen k u w) as [[lp|] w2] end; cbn in H2.
  2: { apply wp_bind, wp_effect, wp_bind. apply wp_bind, (wp_attempt _ _ _ _ _ _ eq_refl).
       apply wp_outside, wp_effect, wp_ret, HE; try done; destruct H2 as [_ H2];
       unfold endpoints, holdings; cbn; rewrite plaw_listener_close, H2, H1; cbn; [|done].
       by rewrite delete_insert_id. }
  destruct H2 as [Hf2 H2]. apply wp_bind, wp_effect, wp_bind, wp_outside, wp_call.
  rewrite H1 in Hf2. cbn in Hf2. apply lookup_insert_None in Hf2 as [Hf2 Hne].
  match goal with |- context [p_dial ?k ?u ?w] =>
    pose proof (plaw_dial k u w) as H3; destruct (p_dial k u w) as [[d|] w3] end; cbn in H3.
  2: { apply wp_bind, wp_effect, wp_bind. apply wp_bind, (wp_attempt _ _ _ _ _ _ eq_refl).
       apply wp_outside, wp_effect, wp_bind, wp_bind, (wp_attempt _ _ _ _ _ _ eq_refl).
       apply wp_outside, wp_effect, wp_ret, HE; try done; destruct H3 as [_ H3];
       unfold endpoints, holdings; cbn; rewrite !plaw_listener_close, H3, H2, H1; cbn; [|done].
       rewrite delete_insert_ne by done. by rewrite delete_insert_id; rewrite delete_insert_id. }
  destruct H3 as [Hf3 H3]. apply wp_bind, wp_effect.
  assert (pv_dialers (p_view (world s)) !! d = None) as Hfd by (by rewrite H2, H1 in Hf3).
  do 4 (apply wp_bind; unfold launch; apply wp_bind, wp_observe, wp_bind, wp_must;
        [cbn; rewrite Ht; reflexivity|]; apply wp_effect).
  apply wp_ret, HO; cbn; [|done|by rewrite Ht|unfold holdings; by rewrite H3, H2, H1|done].
  exists ls, lp, d. split_and!; try done. unfold endpoints. by rewrite H3, H2, H1.
Qed.

Lemma wp_join total ends t s Q :
  (total → ∀ t, ends t = true) →
  Q () (mkNode (world s) (set_threads (filter (fun u => u ≠ t) (m_threads (impl s))) (impl s))) →
  wp total (join ends t) s Q.
Proof.
  intros He HQ. unfold join. apply wp_bind, wp_observe. case_bool_decide as Ht.
  - apply wp_bind. unfold wait, wp at 1. destruct (ends t) eqn:Et; [by apply wp_effect|].
    intros Htot. by rewrite He in Et.
  - apply wp_ret. rewrite filter_all in HQ by (intros u Hu; cbn; intros ->; done).
    destruct s as [w []]. done.
Qed.

Lemma wp_stop total ends s ls lp d Q :
  (total → ∀ t, ends t = true) →
  m_running (impl s) = true → m_threads (impl s) = all_threads →
  m_server_listener (impl s) = Some ls → m_pub_listener (impl s) = Some lp →
  m_sub_dialer (impl s) = Some d →
  (∀ w', p_view w' = pv_dialing (delete d) (pv_listening (delete lp)
           (pv_listening (delete ls) (p_view (world s)))) →
     Q () (mkNode w' (set_threads [] (set_running false (impl s))))) →
  wp total (stop ends) s Q.
Proof.
  intros He Hr Ht Hls Hlp Hd HQ. unfold stop. apply wp_bind, wp_observe. rewrite Hr, Hls, Hlp, Hd.
  apply wp_bind, wp_effect.
  do 3 (apply wp_bind, wp_bind, (wp_attempt _ _ _ _ _ _ eq_refl), wp_outside, wp_effect).
  do 3 (apply wp_bind, wp_join; [done|]). apply wp_join; [done|].
  cbn [world impl m_threads set_threads set_running]. rewrite Ht. apply HQ. cbn [world].
  by rewrite plaw_dialer_close, !plaw_listener_close.
Qed.

(** Starting a node that is at rest gives a node that listens on its two
    URLs, dials its broadcast URL and runs its four threads; or it fails, and
    then no listener or dialer is left and the node is at rest again.
    Stopping afterwards, once the threads end, gives back the endpoints that
    existed before, whichever it was. *)
Theorem start_stop_balanced s :
  m_running (impl s) = false → m_threads (impl s) = [] →
  ∃ r s1 s2, start s = Done (r, s1) ∧ stop (fun _ => true) s1 = Done ((), s2)
  ∧ (if is_ok r
     then serving (impl s1) (world s) (world s1) ∧ m_running (impl s1) = true
          ∧ m_threads (impl s1) = all_threads
     else endpoints (world s1) = endpoints (world s) ∧ m_running (impl s1) = false)
  ∧ endpoints (world s2) = endpoints (world s)
  ∧ m_running (impl s2) = false ∧ m_threads (impl s2) = [].
Proof.
  intros Hr Ht.
  assert (wp True start s (fun r s1 => wp True (stop (fun _ => true)) s1 (fun _ s2 =>
    (if is_ok r then serving (impl s1) (world s) (world s1) ∧ m_running (impl s1) = true
          ∧ m_threads (impl s1) = all_threads
     else endpoints (world s1) = endpoints (world s) ∧ m_running (impl s1) = false)
    ∧ endpoints (world s2) = endpoints (world s)
    ∧ m_running (impl s2) = false ∧ m_threads (impl s2) = []))) as Hw.
  { apply wp_start; [done..| |].
    - intros e s1 He Hr1 Ht1 _ _. unfold stop. apply wp_bind, wp_observe. rewrite Hr1. by apply wp_ret.
    - intros s1 Hs Hr1 Ht1 _ _. pose proof Hs as (ls & lp & d & Hls & Hlp & Hd & Hf1 & Hf2 & Hne & Hf3 & He).
      eapply wp_stop; [done..|]. intros w' Hw. cbn. split_and!; try done.
      unfold endpoints in *. injection He as Hel Hed. rewrite Hw. cbn. rewrite Hel, Hed.
      rewrite delete_insert_id by done. rewrite delete_insert_ne by done.
      by rewrite delete_insert_id; rewrite delete_insert_id. }
  apply wp_total in Hw as (r & s1 & E1 & Hw). apply wp_total in Hw as ([] & s2 & E2 & Hw).
  eauto 10.
Qed.

(** ** Construction *)

(** [new] sockets were opened between two states, and nothing else. *)
Definition opened (new : list (Z * PeerProtocol)) st st' : Prop :=
  NoDup new.*1 ∧ Forall (fun e => pv_sockets (p_view st) !! e.1 = None) new
  ∧ pv_sockets (p_view st') = foldl (fun m e => <[e.1 := e.2]> m) (pv_sockets (p_view st)) new
  ∧ endpoints st' = endpoints st ∧ pv_buffers (p_view st') = pv_buffers (p_view st).

Lemma opened_view new st st1 st2 :
  opened new st st1 → pv_sockets (p_view st2) = pv_sockets (p_view st1) →
  endpoints st2 = endpoints st1 → pv_buffers (p_view st2) = pv_buffers (p_view st1) →
  opened new st st2.
Proof. intros (? & ? & ? & ? & ?) ???. split_and!; (done || congruence). Qed.

Lemma foldl_insert_None (new : list (Z * PeerProtocol)) (m : gmap Z PeerProtocol) k :
  foldl (fun m e => <[e.1 := e.2]> m) m new !! k = None → m !! k = None ∧ k ∉ new.*1.
Proof.
  revert m. induction new as [|[k' p] new IH]; intros m; cbn; [set_solver|].
  intros [Hk Hn]%IH. apply lookup_insert_None in Hk as [Hk Hne]. set_solver.
Qed.

Lemma opened_snoc new st st1 st2 sock p :
  opened new st st1 → pv_sockets (p_view st1) !! sock = None →
  p_view st2 = pv_open sock p (p_view st1) → opened (new ++ [(sock, p)]) st st2.
Proof.
  intros (Hn & Hf & Hs & He & Hb) Hk Hv. rewrite Hs in Hk. apply foldl_insert_None in Hk as [Hk Hin].
  unfold opened, endpoints in *. rewrite Hv, fmap_app, foldl_app, Forall_app. cbn. rewrite Hs.
  split_and!; [|done|by constructor|done..].
  apply NoDup_app. split_and!; [done|set_solver|apply NoDup_singleton].
Qed.

Definition node_protocols : list PeerProtocol := [rep0; peer_pub0; peer_sub0].

(** The TLS part adds one configuration or none. *)
Lemma wp_configure_tls sockets cert key st Q :
  (∀ e st', p_view st' = p_view st → Q (Err e) st') →
  (∀ c st', c ∉ pv_configs (p_view st) → p_view st' = pv_configure (union {[c]}) (p_view st) →
     Q (Ok ()) st') →
  wp True (configure_tls sockets cert key) st Q.
Proof.
  intros HE HO. unfold configure_tls. apply wp_bind, wp_call.
  pose proof (plaw_tls_alloc st) as H1. destruct (p_tls_alloc st) as [[c|] st1]; cbn in H1 |- *;
    [destruct H1 as [Hf H1]|exact (HE _ _ (proj2 H1))].
  assert (∀ st2, p_view st2 = p_view st1 → p_view (p_tls_free c st2) = p_view st) as Hfree.
  { intros st2 Hv. rewrite plaw_tls_free, Hv, H1. unfold pv_configure. cbn.
    replace (({[c]} ∪ pv_configs (p_view st)) ∖ {[c]}) with (pv_configs (p_view st)) by set_solver.
    by destruct (p_view st). }
  apply wp_bind, wp_call. pose proof (plaw_own_cert c (until_nul cert) (until_nul key) st1) as H2.
  destruct (p_tls_own_cert c _ _ st1) as [[[]|] st2]; cbn in H2 |- *.
  2: { exact (HE _ _ (Hfree _ (proj2 H2))). }
  rewrite <- H2 in *. clear st1 H2. apply wp_bind. revert st2 H1 Hfree.
  induction sockets as [|sock sockets IH]; intros st2 H1 Hfree; cbn [set_tls_all].
  { exact (HO c st2 Hf H1). }
  apply wp_bind, wp_call. pose proof (plaw_set_tls sock c st2) as H2.
  destruct (p_set_tls sock c st2) as [[[]|] st3]; cbn in H2 |- *.
  - apply IH; [by rewrite H2|]. intros st4. rewrite H2. apply Hfree.
  - exact (HE _ _ (Hfree _ (proj2 H2))).
Qed.

Definition with_tls (cert_file key_file : bytes) : bool :=
  negb (bool_decide (cert_file = [])) && negb (bool_decide (key_file = [])).

(** The configurations after the constructor. *)
Definition configs_after (tls : bool) st st' : Prop :=
  if tls then ∃ c, (c ∉ pv_configs (p_view st)) ∧ pv_configs (p_view st') = {[c]} ∪ pv_configs (p_view st)
  else pv_configs (p_view st') = pv_configs (p_view st).

Lemma wp_Impl_new id url broadcast cert key st Q :
  (∀ e st' new, opened new st st' → new.*2 `prefix_of` node_protocols →
     pv_configs (p_view st') = pv_configs (p_view st) → Q (Err e) st') →
  (∀ server pub sub t st',
     opened [(server, rep0); (pub, peer_pub0); (sub, peer_sub0)] st st' →
     configs_after (with_tls cert key) st st' →
     Q (Ok (new_impl id url broadcast server pub sub t)) st') →
  wp True (Impl_new id url broadcast cert key) st Q.
Proof.
  intros HE HO. unfold Impl_new.
  assert (opened [] st st) as O0 by (split_and!; try done; constructor).
  apply wp_bind, wp_observe, wp_bind, wp_call.
  pose proof (plaw_open rep0 st) as H1. destruct (p_open rep0 st) as [[server|] st1]; cbn in H1; cbn [fst snd].
  2: { destruct H1 as [_ H1]. apply wp_ret, (HE _ _ []); [|by apply prefix_nil|by rewrite H1].
       eapply opened_view; [exact O0|unfold endpoints; by rewrite H1..]. }
  destruct H1 as [Hf1 H1]. pose proof (opened_snoc _ _ _ _ _ _ O0 Hf1 H1) as O1.
  assert (pv_configs (p_view st1) = pv_configs (p_view st)) as C1 by (by rewrite H1).
  apply wp_bind, wp_call. clear O0 Hf1 H1.
  pose proof (plaw_open peer_pub0 st1) as H1. destruct (p_open _ st1) as [[pub|] st2]; cbn in H1; cbn [fst snd].
  2: { destruct H1 as [_ H1]. eapply wp_ret, HE;
         [eapply opened_view; [exact O1|unfold endpoints; by rewrite H1..]|by eexists|by rewrite H1]. }
  destruct H1 as [Hf1 H1]. pose proof (opened_snoc _ _ _ _ _ _ O1 Hf1 H1) as O2.
  assert (pv_configs (p_view st2) = pv_configs (p_view st)) as C2 by (by rewrite H1).
  apply wp_bind, wp_call. clear O1 Hf1 H1 C1.
  pose proof (plaw_open peer_sub0 st2) as H1. destruct (p_open _ st2) as [[sub|] st3]; cbn in H1; cbn [fst snd].
  2: { destruct H1 as [_ H1]. eapply wp_ret, HE;
         [eapply opened_view; [exact O2|unfold endpoints; by rewrite H1..]|by eexists|by rewrite H1]. }
  destruct H1 as [Hf1 H1]. pose proof (opened_snoc _ _ _ _ _ _ O2 Hf1 H1) as O3.
  assert (pv_configs (p_view st3) = pv_configs (p_view st)) as C3 by (by rewrite H1).
  apply wp_bind, wp_call. clear O2 Hf1 H1 C2. cbn [app] in O3.
  pose proof (plaw_subscribe sub st3) as H1. destruct (p_subscribe_all sub st3) as [[[]|] st4]; cbn in H1; cbn [fst snd].
  2: { destruct H1 as [_ H1]. eapply wp_ret, HE;
         [eapply opened_view; [exact O3|unfold endpoints; by rewrite H1..]|by eexists []|by rewrite H1]. }
  cbv zeta. fold (with_tls cert key). destruct (with_tls cert key) eqn:Et.
  - apply wp_bind, wp_configure_tls.
    + intros e st' Hv. eapply wp_ret, HE; 
        [eapply opened_view; [exact O3|unfold endpoints; by rewrite Hv, H1..]
        |by eexists []|by rewrite Hv, H1].
    + intros c st' Hc Hv. apply wp_ret, HO.
      * eapply opened_view; [exact O3|unfold endpoints; by rewrite Hv, H1..].
      * exists c. rewrite H1, C3 in Hc. split; [done|]. rewrite Hv. cbn. by rewrite H1, C3.
  - apply wp_ret, HO; [|unfold configs_after; by rewrite H1].
    eapply opened_view; [exact O3|unfold endpoints; by rewrite H1..].
Qed.

(** Closing the sockets of the node. *)
Lemma close_all server pub sub st st1 w :
  attached st → opened [(server, rep0); (pub, peer_pub0); (sub, peer_sub0)] st st1 →
  endpoints w = endpoints st → holdings w = holdings st1 →
  let w' := p_close sub (p_close pub (p_close server w)) in
  endpoints w' = endpoints st
  ∧ holdings w' = (pv_sockets (p_view st), pv_buffers (p_view st), pv_configs (p_view st1)).
Proof.
  intros [Hl Hd] (Hn & Hf & Hs & _ & Hb) He Hh w'. subst w'.
  unfold endpoints, holdings in *. injection He as E1 E2. injection Hh as E3 E4 E5.
  rewrite !plaw_close. cbn. rewrite E1, E2, E3, E4, E5, Hs, Hb. cbn in Hn, Hf |- *.
  apply Forall_cons in Hf as [F1 Hf]. apply Forall_cons in Hf as [F2 Hf].
  apply Forall_cons in Hf as [F3 _]. cbn in F1, F2, F3.
  apply NoDup_cons in Hn as [N1 Hn]. apply NoDup_cons in Hn as [N2 _].
  assert (server ≠ pub) by set_solver. assert (server ≠ sub) by set_solver.
  assert (pub ≠ sub) by set_solver. clear N1 N2.
  split.
  { pose proof (unattached_filter _ _ server Hl F1) as ->.
    pose proof (unattached_filter _ _ pub Hl F2) as ->.
    pose proof (unattached_filter _ _ sub Hl F3) as ->.
    pose proof (unattached_filter _ _ server Hd F1) as ->.
    pose proof (unattached_filter _ _ pub Hd F2) as ->.
    by pose proof (unattached_filter _ _ sub Hd F3) as ->. }
  do 2 f_equal. apply map_eq. intros k. destruct (decide (k = sub)) as [->|K1]; [by rewrite lookup_delete_eq|].
  rewrite lookup_delete_ne by done.
  destruct (decide (k = pub)) as [->|K2]; [by rewrite lookup_delete_eq|].
  rewrite lookup_delete_ne by done.
  destruct (decide (k = server)) as [->|K3]; [by rewrite lookup_delete_eq|].
  rewrite lookup_delete_ne by done. by rewrite !lookup_insert_ne.
Qed.

Lemma wp_Impl_destroy s Q :
  m_running (impl s) = false →
  Q () (mkNode (p_close (m_sub_socket (impl s)) (p_close (m_pub_socket (impl s))
         (p_close (m_server_socket (impl s)) (world s)))) (impl s)) →
  wp True (Impl_destroy (fun _ => true)) s Q.
Proof.
  intros Hr HQ. unfold Impl_destroy. apply wp_bind. unfold stop. apply wp_bind, wp_observe.
  rewrite Hr. apply wp_ret, wp_bind, wp_observe. exact HQ.
Qed.

(** What the life of a node leaves behind. *)
Definition after_life (tls : bool) st st' : Prop :=
  endpoints st' = endpoints st ∧ pv_sockets (p_view st') = pv_sockets (p_view st)
  ∧ pv_buffers (p_view st') = pv_buffers (p_view st) ∧ configs_after tls st st'.

Lemma wp_life st st1 i server pub sub tls Q :
  attached st → opened [(server, rep0); (pub, peer_pub0); (sub, peer_sub0)] st st1 →
  configs_after tls st st1 → m_running i = false → m_threads i = [] →
  sockets_of i = (server, pub, sub) →
  (∀ s', after_life tls st (world s') → Q () s') →
  wp True (_ ← start; Impl_destroy (fun _ => true)) (mkNode st1 i) Q.
Proof.
  intros Ha Ho Hc Hr Ht Hk HQ. pose proof Ho as (_ & _ & _ & He0 & _).
  assert (∀ w', endpoints w' = endpoints st1 → holdings w' = holdings st1 →
    after_life tls st (p_close sub (p_close pub (p_close server w')))) as Hend.
  { intros w' He Hh. destruct (close_all server pub sub st st1 w') as [E1 E2];
      [done|done|congruence|done|]. injection E2 as E2 E3 E4.
    unfold after_life, configs_after in *. rewrite E1, E2, E3, E4. done. }
  apply wp_bind, wp_start; [done..| |].
  - intros e s' He Hr' _ Hh Hs'. cbn [impl] in Hs'; rewrite Hk in Hs'. injection Hs' as S1 S2 S3.
    apply wp_Impl_destroy; [done|]. rewrite S1, S2, S3. apply HQ, Hend; done.
  - intros s' Hs Hr' Ht' Hh Hs'. cbn [impl] in Hs'; rewrite Hk in Hs'. injection Hs' as S1 S2 S3.
    destruct Hs as (ls & lp & d & Hls & Hlp & Hd & Hf1 & Hf2 & Hne & Hf3 & Hend').
    unfold Impl_destroy. apply wp_bind. eapply wp_stop; [done..|]. intros w' Hw.
    apply wp_bind, wp_observe. cbn [impl world m_server_socket m_pub_socket m_sub_socket
      set_threads set_running]. rewrite S1, S2, S3.
    refine (HQ (mkNode (p_close sub (p_close pub (p_close server w'))) _) _).
    apply Hend; unfold endpoints, holdings in *; rewrite Hw; cbn; [|done].
    injection Hend' as -> ->. rewrite delete_insert_id by done. rewrite delete_insert_ne by done.
    by rewrite delete_insert_id; rewrite delete_insert_id.
Qed.

End NodeFacts.

(** ** Concrete nodes *)

Module demo.
Import ToyPeer.

Definition nothing : PView := mkPView ∅ ∅ ∅ ∅ ∅ [] [].

(** One node answers, no message waits, no call fails. *)
Definition outskirts : State :=
  mkState nothing (<[text "tcp://b" := text "b|tcp://b|7|healthy" ++ [0]]> ∅) ∅ None 0 [].

Definition node_a : Impl :=
  new_impl (text "a") (text "tcp://a") (text "tcp://all") 1 2 3 0.

Definition node_at_rest : Node := mkNode outskirts node_a.

Definition knowing (urls : list bytes) : Node :=
  mkNode outskirts
    (set_nodes (omap_of ((fun url => (url, mkStatus url url 0 (text "discovered"))) <$> urls)) node_a).

(** A request waits on the server socket. *)
Definition asked (request : bytes) : Node :=
  mkNode (mkState nothing ∅ (<[1 := [request]]> ∅) None (90 * 10 ^ 9) []) node_a.
End demo.

Lemma manager_balanced_witness :
  ∃ r s', manager_iteration (demo.knowing [text "tcp://x"; text "tcp://b"]) = Done (r, s')
  ∧ live (world s') = live demo.outskirts ∧ (m_nodes (impl s')).*1 = [text "tcp://b"].
Proof.
  destruct (outcome_run (fun '(_, s') => (m_nodes (impl s')).*1)
    (manager_iteration (demo.knowing [text "tcp://x"; text "tcp://b"])) [text "tcp://b"])
    as ([r s'] & E & Hn); [vm_compute; reflexivity|].
  exists r, s'. split; [exact E|].
  destruct (manager_balanced (demo.knowing [text "tcp://x"; text "tcp://b"]) r s') as (_ & Hl & _).
  - split; apply map_Forall_empty.
  - apply omap_of_sorted.
  - exact E.
  - split; [exact Hl|exact Hn].
Defined.

Lemma server_iteration_behaviour_witness :
  ∃ s', server_iteration (demo.asked STATUS_request) = Done (Ok (), s')
  ∧ impl s' = demo.node_a
  ∧ pv_sent (p_view (world s')) = [(1, text "a|tcp://a|90|healthy" ++ [0])].
Proof.
  destruct (outcome_run (fun '(r, s') => (r, pv_sent (p_view (world s'))))
    (server_iteration (demo.asked STATUS_request))
    (Ok (), [(1, text "a|tcp://a|90|healthy" ++ [0])])) as ([r s'] & E & Hn);
    [vm_compute; reflexivity|].
  injection Hn as -> Hn. exists s'. split; [exact E|].
  destruct (server_iteration_behaviour (demo.asked STATUS_request) (Ok ()) s' E) as (Hi & _).
  split; [exact Hi|exact Hn].
Defined.

(** An empty message ends the server thread, and its buffer stays. *)
Example empty_message_ends_server :
  outcome (fun '(r, s') => (r, map_to_list (pv_buffers (p_view (world s')))))
    (server_iteration (demo.asked [])) = Some (Err length_error, [(1, [])]).
Proof. vm_compute. reflexivity. Qed.

Lemma start_stop_balanced_witness :
  ∃ s1 s2, start demo.node_at_rest = Done (Ok (), s1)
  ∧ size (pv_listeners (p_view (world s1))) = 2%nat
  ∧ stop (fun _ => true) s1 = Done ((), s2) ∧ endpoints (world s2) = (∅, ∅).
Proof.
  destruct (start_stop_balanced demo.node_at_rest eq_refl eq_refl)
    as (r & s1 & s2 & E1 & E2 & _ & He & _).
  destruct (outcome_run (fun '(r, s') => (r, size (pv_listeners (p_view (world s')))))
    (start demo.node_at_rest) (Ok (), 2%nat)) as ([r' s'] & E & Hn);
    [vm_compute; reflexivity|].
  rewrite E in E1. injection E1 as <- <-. injection Hn as -> Hn.
  exists s', s2. split_and!; [exact E|exact Hn|exact E2|exact He].
Defined.


(** A constructor that fails at the publisher socket leaves the server socket. *)
Example failed_constructor_leaks :
  outcome (fun '(r, st') => (is_ok r, map_to_list (pv_sockets (p_view st'))))
    (Impl_new (text "a") (text "tcp://a") (text "tcp://all") [] []
       (ToyPeer.mkState demo.nothing ∅ ∅ (Some 1%nat) 0 [])) = Some (false, [(1, rep0)]).
Proof. vm_compute. reflexivity. Qed.
