(* ===== verification/P2PNetwork.v ===== *)
(** * P2PNetwork: nodes in a network

    The node of [P2P.v] among others.  [Network] says what nng does in a
    network whose nodes answer a request or cannot be dialed; there the node
    manager keeps exactly the nodes that answer and a query returns exactly
    their reports.  [node_step] interleaves the iterations of the four threads
    with the public calls and with everything that happens outside; the node
    table keeps its shape under it.  The last two parts are about two
    behaviours of the design: what a node hears on its own broadcast URL, and
    whether [stop] returns. *)

From S2P Require Import Prelude Text OrdMap Program Nng NngPeer P2P.
Import report.

(** ** A network that answers *)

(** [net] maps a URL to what the node there replies.  [steady] are the states
    between exchanges, [idle] those in which a socket has just been opened. *)
Class Network (N : PeerApi) (net : gmap bytes bytes) := {
  steady : p_state → Prop;
  idle : Z → p_state → Prop;
  net_open st : steady st → ∃ sock st', p_open req0 st = (Ok sock, st') ∧ idle sock st';
  net_refused sock url st : idle sock st → net !! url = None →
    ∃ e st', p_dial sock url st = (Err e, st') ∧ steady (p_close sock st');
  net_exchange sock url reply st : idle sock st → net !! url = Some reply →
    ∃ d st1 st2 b st3, p_dial sock url st = (Ok d, st1)
    ∧ p_send sock STATUS_request st1 = (Ok (), st2) ∧ p_recv sock st2 = Done (Ok b, st3)
    ∧ p_load b st3 = Some (reply, st3)
    ∧ ∃ st4, p_free b st3 = Some ((), st4) ∧ steady (p_close sock st4);
  net_sleep n st : steady st → steady (p_sleep n st);
}.

Section Answering.
Context {N : PeerApi} {net : gmap bytes bytes} {W : Network N net}.
Implicit Types (st : p_state) (s : Node).

Definition answering (e : bytes * NodeStatus) : Prop := is_Some (net !! until_nul e.1).
#[local] Instance answering_dec e : Decision (answering e).
Proof. unfold answering. apply _. Defined.

Lemma wp_ask url st Q :
  steady st →
  (net !! until_nul url = None → ∀ st', steady st' → Q Unreachable st') →
  (∀ reply sock b st3 st4, net !! until_nul url = Some reply →
     p_load b st3 = Some (reply, st3) → p_free b st3 = Some ((), st4) →
     steady (p_close sock st4) → Q (Answered sock b) st3) →
  wp True (request_status url) st Q.
Proof.
  intros Hst HU HA. unfold request_status. destruct (net_open st Hst) as (sock & st1 & E1 & Hi).
  apply wp_bind, wp_call. rewrite E1. cbn [fst snd].
  apply wp_bind, wp_call. destruct (net !! until_nul url) as [reply|] eqn:En.
  - destruct (net_exchange sock _ reply st1 Hi En)
      as (d & st2 & st3 & b & st4 & E2 & E3 & E4 & E5 & st5 & E6 & Hs).
    rewrite E2. cbn [fst snd]. apply wp_bind, wp_call. rewrite E3. cbn [fst snd].
    apply wp_bind. unfold receive, wp at 1. rewrite E4. apply wp_ret. by eapply HA.
  - destruct (net_refused sock _ st1 Hi En) as (e & st2 & E2 & Hs). rewrite E2. cbn [fst snd].
    apply wp_bind, wp_effect, wp_ret. by apply HU.
Qed.

Lemma wp_check_all copy s Q :
  steady (world s) → omap_sorted (m_nodes (impl s)) →
  (∀ w', steady w' →
     Q () (mkNode w' (set_nodes (filter (fun e => e.1 ∈ copy.*1 → answering e)
                                   (m_nodes (impl s))) (impl s)))) →
  wp True (check_nodes copy) s Q.
Proof.
  revert s Q. induction copy as [|[url status] copy IH]; intros s Q Hst Hs HQ; cbn [check_nodes].
  { apply wp_ret. specialize (HQ (world s) Hst).
    rewrite filter_all in HQ by set_solver. rewrite set_nodes_id in HQ. by destruct s. }
  apply wp_bind. unfold check_node. apply wp_bind, wp_outside, wp_ask; [done|..].
  - intros Hn w' Hw. unfold erase_node. apply wp_bind, wp_observe, wp_effect. apply IH; cbn.
    + done.
    + by apply omap_erase_sorted.
    + intros w2 Hw2. rewrite omap_erase_filter, list_filter_filter by done.
      rewrite (list_filter_iff _ (fun e => e.1 ∈ url :: copy.*1 → answering e)); [by apply HQ|].
      intros [k v]. unfold answering. cbn. rewrite elem_of_cons. split.
      * intros [H1 H2] [->|?]; [|by apply H1]. done.
      * intros H1. split; [auto|]. intros ->. rewrite Hn in H1. destruct H1 as [? [=]]. by left.
  - intros reply sock b st3 st4 Hr _ Hf Hw. apply wp_bind, wp_outside.
    eapply wp_attempt; [exact Hf|]. apply wp_outside, wp_effect. cbn. apply IH; [done..|].
    intros w2 Hw2. rewrite (list_filter_iff _ (fun e => e.1 ∈ url :: copy.*1 → answering e));
      [by apply HQ|].
    intros [k v]. unfold answering. cbn. rewrite elem_of_cons. split; [|auto].
    intros H1 [->|?]; [by rewrite Hr|auto].
Qed.

(** In a network that answers, a pass of the node manager ends and keeps
    exactly the nodes that answer, in order, and changes nothing else of the
    node. *)
Theorem manager_keeps_answering s :
  steady (world s) → omap_sorted (m_nodes (impl s)) →
  ∃ s', manager_iteration s = Done (Ok (), s') ∧ steady (world s')
  ∧ impl s' = set_nodes (filter answering (m_nodes (impl s))) (impl s).
Proof.
  intros Hst Hs.
  destruct (wp_total manager_iteration s (fun r s' => r = Ok () ∧ steady (world s')
    ∧ impl s' = set_nodes (filter answering (m_nodes (impl s))) (impl s)))
    as (r & s' & E & -> & Hr); [|eauto].
  unfold manager_iteration. apply wp_bind, wp_observe, wp_bind, wp_check_all; [done..|].
  intros w' Hw. apply wp_bind, wp_outside, wp_effect, wp_ret. cbn.
  split_and!; [done|by apply net_sleep|]. f_equal.
  apply filter_same. intros e He. split; [|auto]. intros H. apply H.
  apply list_elem_of_fmap. eauto.
Qed.
End Answering.

(** ** A network of nodes *)

(** What the node with a status replies: its printed status with the
    terminator, as [run_server] sends it. *)
Definition replies (peers : gmap bytes NodeStatus) : gmap bytes bytes :=
  (fun status => print_status status ++ [0]) <$> peers.

Lemma without_nul_sent bs : without_nul (bs ++ [0]) = Ok bs.
Proof.
  unfold without_nul. rewrite zlen_app. change (zlen [0]) with 1.
  destruct (Z.eqb_spec (zlen bs + 1) 0) as [E|_]; [pose proof (zlen_nonneg bs); lia|].
  rewrite length_app. cbn. by rewrite Nat.add_sub, take_app_length.
Qed.

Section Querying.
Context {N : PeerApi} {peers : gmap bytes NodeStatus} {W : Network N (replies peers)}.
Implicit Types (st : p_state) (s : Node).

Lemma wp_query_nodes nodes st Q :
  map_Forall (fun _ status => report_ok status) peers → steady st →
  (∀ st', steady st' → Q (base.omap (fun e => peers !! until_nul e.1) nodes) st') →
  wp True (query_nodes nodes) st Q.
Proof.
  intros Hp. revert st Q. induction nodes as [|[url known] nodes IH]; intros st Q Hst HQ; cbn [query_nodes].
  { apply wp_ret. by apply HQ. }
  apply wp_bind. unfold query_node. apply wp_bind, wp_ask; [done|..].
  - intros Hn st' Hst'. apply wp_ret, wp_bind, IH; [done|]. intros st2 H2. apply wp_ret.
    unfold replies in Hn. rewrite lookup_fmap in Hn. destruct (peers !! until_nul url) eqn:E; [done|].
    specialize (HQ st2 H2). cbn in HQ. rewrite E in HQ. done.
  - intros reply sock b st3 st4 Hr Hl Hf Hc.
    unfold replies in Hr. rewrite lookup_fmap in Hr.
    destruct (peers !! until_nul url) as [status|] eqn:E; [|done]. injection Hr as <-.
    apply wp_bind. eapply wp_attempt; [exact Hl|]. rewrite without_nul_sent.
    apply wp_bind. eapply wp_attempt; [exact Hf|]. apply wp_bind, wp_effect.
    rewrite (report_read_back status) by (by eapply Hp).
    apply wp_bind, wp_produce, wp_ret, wp_bind, IH; [done|]. intros st5 H5. apply wp_ret.
    specialize (HQ st5 H5). cbn in HQ. rewrite E in HQ. done.
Qed.

(** C34. A query ends and returns the local status followed by the status of
    every known node that can be dialed, in the order of their URLs, each
    exactly as that node's server thread prints it; the node is unchanged. *)
Theorem query_returns_statuses s :
  map_Forall (fun _ status => report_ok status) peers → steady (world s) →
  ∃ s', query_all_status s
        = Done (local_status (impl s) (p_now (world s))
                  :: base.omap (fun e => peers !! until_nul e.1) (m_nodes (impl s)), s')
  ∧ impl s' = impl s ∧ steady (world s').
Proof.
  intros Hp Hst.
  destruct (wp_total query_all_status s (fun r s' => r = local_status (impl s) (p_now (world s))
    :: base.omap (fun e => peers !! until_nul e.1) (m_nodes (impl s))
    ∧ impl s' = impl s ∧ steady (world s'))) as (r & s' & E & -> & Hr); [|eauto].
  unfold query_all_status. apply wp_bind, wp_observe, wp_bind, wp_observe, wp_bind, wp_outside.
  apply wp_query_nodes; [done..|]. intros st' Hst'. by apply wp_ret.
Qed.
End Querying.

(** ** The concrete network *)

Module ToyNetwork.
Import ToyPeer.

Definition settled (net : gmap bytes bytes) (st : State) : Prop :=
  pt_peers st = net ∧ pt_until st = None.

Definition dialers_of (sockets : gmap Z PeerProtocol) (v : PView) : Prop :=
  map_Forall (fun _ e => is_Some (sockets !! e.1)) (pv_dialers v).

Definition toy_steady net (st : State) : Prop :=
  settled net st ∧ dialers_of (pv_sockets (pt_view st)) (pt_view st).

(** A fresh request socket, of which no dialer exists. *)
Definition toy_idle net (sock : Z) (st : State) : Prop :=
  settled net st ∧ pv_sockets (pt_view st) !! sock = Some req0
  ∧ dialers_of (delete sock (pv_sockets (pt_view st))) (pt_view st).

Lemma dialers_closed sock v dialers :
  map_Forall (fun _ e => is_Some (delete sock (pv_sockets v) !! e.1)) dialers →
  dialers_of (delete sock (pv_sockets v)) (pv_close sock (pv_dialing (fun _ => dialers) v)).
Proof. intros Hd d e He. apply map_lookup_filter_Some in He as [He _]. by apply (Hd d). Qed.

Lemma answer_ok {A} (f : PView → A * PView) st :
  pt_until st = None → answer f st = (Ok (f (pt_view st)).1, set_view (f (pt_view st)).2 st).
Proof. intros E. unfold answer, tick. rewrite E. by destruct (f (pt_view st)). Qed.

Lemma dialed_fresh sock url d v :
  dialers_of (delete sock (pv_sockets v)) v → pv_dialers v !! d = None →
  dialed sock (pv_dialing (<[d := (sock, url)]>) v) = Some url.
Proof.
  intros Hd Hf. unfold dialed, pv_dialing. cbn. rewrite map_filter_insert_True by done.
  assert (filter (fun e => e.2.1 = sock) (pv_dialers v) = ∅) as ->.
  { apply map_empty. intros k. apply map_lookup_filter_None. right. intros e He <-.
    destruct (Hd k e He) as [p Hp]. by rewrite lookup_delete_eq in Hp. }
  rewrite insert_empty. by rewrite map_to_list_singleton.
Qed.

Lemma toy_exchange net sock url reply st :
  toy_idle net sock st → net !! url = Some reply →
  ∃ d st1 st2 b st3, p_dial sock url st = (Ok d, st1)
  ∧ p_send sock STATUS_request st1 = (Ok (), st2) ∧ p_recv sock st2 = Done (Ok b, st3)
  ∧ p_load b st3 = Some (reply, st3)
  ∧ ∃ st4, p_free b st3 = Some ((), st4) ∧ toy_steady net (p_close sock st4).
Proof.
  intros ([Hp Hu] & Hs & Hd) Hn. destruct (ToyNng.next_key_fresh (pv_dialers (pt_view st))) as [Hf _].
  set (d := ToyNng.next_key (pv_dialers (pt_view st))) in *.
  set (v1 := pv_dialing (<[d := (sock, url)]>) (pt_view st)).
  set (v2 := pv_send sock STATUS_request v1).
  set (b := ToyNng.next_key (pv_buffers v2)).
  exists d, (set_view v1 st), (set_view v2 st), b, (set_view (pv_receive sock b reply v2) st).
  split_and!.
  - cbn [p_dial toy_peer]. rewrite Hs, Hp, Hn. by rewrite answer_ok.
  - cbn [p_send toy_peer]. by rewrite answer_ok.
  - cbn [p_recv toy_peer]. unfold receive. cbn [pt_view set_view].
    change (pv_sockets v2) with (pv_sockets (pt_view st)). rewrite Hs.
    change (dialed sock v2) with (dialed sock v1). unfold v1. rewrite dialed_fresh by done. cbn.
    rewrite Hp, Hn. unfold deliver. by rewrite answer_ok.
  - cbn. by rewrite lookup_insert_eq.
  - eexists. cbn [p_free toy_peer pt_view set_view pv_receive pv_buffers].
    rewrite lookup_insert_eq. split; [done|]. split; [done|]. cbn.
    intros k e He. apply map_lookup_filter_Some in He as [He Hne]. cbn in He, Hne.
    apply lookup_insert_Some in He as [[_ <-]|[_ He]]; [done|]. by apply (Hd k).
Qed.

#[global] Instance toy_network net : Network toy_peer net.
Proof.
  refine (Build_Network toy_peer net (toy_steady net) (toy_idle net) _ _ (toy_exchange net) _).
  - intros st [[Hp Hu] Hd]. destruct (ToyNng.next_key_fresh (pv_sockets (pt_view st))) as [Hf _].
    eexists _, _. split; [by apply answer_ok|]. split_and!; [done|apply lookup_insert_eq|].
    cbn. by rewrite delete_insert_id.
  - intros sock url st ([Hp Hu] & Hs & Hd) Hn. eexists _, st. split.
    + cbn. by rewrite Hs, Hp, Hn.
    + split; [done|]. exact (dialers_closed sock (pt_view st) (pv_dialers (pt_view st)) Hd).
  - done.
Defined.

(** Two nodes that answer and one known node that does not. *)
Definition peers : gmap bytes NodeStatus :=
  <[text "tcp://b" := mkStatus (text "b") (text "tcp://b") 7 (text "healthy")]>
    (<[text "tcp://c" := mkStatus (text "c") (text "tcp://c") 12 (text "healthy")]> ∅).

Definition known : ordmap NodeStatus :=
  omap_of ((fun url => (url, mkStatus url url 0 (text "discovered")))
             <$> [text "tcp://c"; text "tcp://gone"; text "tcp://b"]).

Definition quiet : State := mkState (mkPView ∅ ∅ ∅ ∅ ∅ [] []) (replies peers) ∅ None 0 [].

Definition start_node : Node :=
  mkNode quiet (set_nodes known (new_impl (text "a") (text "tcp://a") (text "tcp://all") 1 2 3 0)).

Lemma peers_ok : map_Forall (fun _ status => report_ok status) peers.
Proof.
  apply map_Forall_insert_2; [|apply map_Forall_insert_2; [|apply map_Forall_empty]];
    unfold report_ok, LONG_MIN, LONG_MAX; cbn [ns_id ns_address ns_uptime ns_info];
    split_and!; try lia; apply (bool_decide_eq_true_1 _); vm_compute; reflexivity.
Qed.

Lemma quiet_steady : toy_steady (replies peers) quiet.
Proof. split; [done|]. apply map_Forall_empty. Qed.
End ToyNetwork.

Lemma manager_keeps_answering_witness :
  ∃ s', manager_iteration ToyNetwork.start_node = Done (Ok (), s')
  ∧ (m_nodes (impl s')).*1 = [text "tcp://b"; text "tcp://c"].
Proof.
  destruct (manager_keeps_answering (net := replies ToyNetwork.peers) ToyNetwork.start_node)
    as (s' & E & _ & Hi).
  - exact ToyNetwork.quiet_steady.
  - apply omap_of_sorted.
  - exists s'. split; [exact E|]. rewrite Hi. vm_compute. reflexivity.
Defined.

Lemma query_returns_statuses_witness :
  ∃ s', query_all_status ToyNetwork.start_node
        = Done ([mkStatus (text "a") (text "tcp://a") 0 (text "healthy");
                 mkStatus (text "b") (text "tcp://b") 7 (text "healthy");
                 mkStatus (text "c") (text "tcp://c") 12 (text "healthy")], s').
Proof.
  destruct (query_returns_statuses (peers := ToyNetwork.peers) ToyNetwork.start_node)
    as (s' & E & _).
  - exact ToyNetwork.peers_ok.
  - exact ToyNetwork.quiet_steady.
  - exists s'. rewrite E. vm_compute. reflexivity.
Defined.

(** ** Interleavings *)

Section Steps.
Context {N : PeerApi}.
Implicit Types (s : Node).

Inductive thread_body : prog Node (result exception ()) → Prop :=
| body_server : thread_body server_iteration
| body_broadcaster : thread_body broadcaster_iteration
| body_subscriber : thread_body subscriber_iteration
| body_manager : thread_body manager_iteration.

(** A turn of a thread while the node runs, a public call, or something outside
    the node.  An exception that leaves a thread ends the process, so that a
    turn continues only without one. *)
Inductive node_step : Node → Node → Prop :=
| step_start s r s' : start s = Done (r, s') → node_step s s'
| step_stop ends s s' : stop ends s = Done ((), s') → node_step s s'
| step_thread body s s' : thread_body body → m_running (impl s) = true →
    body s = Done (Ok (), s') → node_step s s'
| step_query s r s' : query_all_status s = Done (r, s') → node_step s s'
| step_subscribe callback s s' : subscribe_status callback s = Done ((), s') → node_step s s'
| step_outside s w : node_step s (mkNode w (impl s)).

(** Programs that keep a property of the object whenever they end. *)
Definition keeps (P : Impl → Prop) {A} (m : prog Node A) : Prop :=
  ∀ s a s', m s = Done (a, s') → P (impl s) → P (impl s').

Lemma keeps_ret P {A} (a : A) : keeps P (mret a).
Proof. by intros s b s' [= _ <-]. Qed.
Lemma keeps_bind P {A B} (m : prog Node A) (f : A → prog Node B) :
  keeps P m → (∀ a, keeps P (f a)) → keeps P (m ≫= f).
Proof.
  intros Hm Hf s b s'. unfold mbind, prog_mbind. destruct (m s) as [[a s1]| |] eqn:E; [|done..].
  intros E2 Hp. eapply Hf, Hm; done.
Qed.
Lemma keeps_outside P {A} (m : prog p_state A) : keeps P (outside m).
Proof.
  intros s a s'. unfold outside. destruct (m (world s)) as [[? w]| |]; [|done..]. by intros [= _ <-].
Qed.
Lemma keeps_observe P {A} (f : Node → A) : keeps P (observe f).
Proof. by intros s b s' [= _ <-]. Qed.
Lemma keeps_produce P {A} (e : exec A) : keeps P (produce e).
Proof. intros s a s'. unfold produce. destruct e; [|done..]. by intros [= _ <-]. Qed.

Lemma keeps_modify P (f : Impl → Impl) : (∀ i, P i → P (f i)) → keeps P (modify f).
Proof. intros Hp s a s' [= _ <-]. apply Hp. Qed.
Lemma keeps_handle P h : keeps P (handle h).
Proof. intros s a s'. unfold handle, attempt. destruct h; [|done]. by intros [= _ <-]. Qed.
Lemma keeps_wait P b : keeps P (wait b).
Proof. intros s a s'. unfold wait. destruct b; [|done]. by intros [= _ <-]. Qed.
Lemma keeps_must P b : keeps P (must b).
Proof. intros s a s'. unfold must. destruct b; [|done]. by intros [= _ <-]. Qed.

Lemma keeps_record P status :
  (∀ i, P i → P (set_nodes (omap_insert (ns_address status) status (m_nodes i)) i)) →
  keeps P (record_node status).
Proof. intros Hp s a s' [= _ <-]. apply Hp. Qed.
Lemma keeps_erase P url :
  (∀ i, P i → P (set_nodes (omap_erase url (m_nodes i)) i)) → keeps P (erase_node url).
Proof. intros Hp s a s' [= _ <-]. apply Hp. Qed.
End Steps.

(** The steps of a proof that a program keeps a property. *)
Ltac keep :=
  intros; repeat match goal with
    | |- keeps _ (record_node _) => apply keeps_record
    | |- keeps _ (erase_node _) => apply keeps_erase
    | |- keeps _ (_ ≫= _) => apply keeps_bind; [|intro]
    | |- keeps _ (mret _) => apply keeps_ret
    | |- keeps _ (outside _) => apply keeps_outside
    | |- keeps _ (member _) => apply keeps_observe
    | |- keeps _ (observe _) => apply keeps_observe
    | |- keeps _ (modify _) => apply keeps_modify
    | |- keeps _ (handle _) => apply keeps_handle
    | |- keeps _ (wait _) => apply keeps_wait
    | |- keeps _ (must _) => apply keeps_must
    | |- keeps _ (produce _) => apply keeps_produce
    | |- keeps _ _ => split_match
    end.

Section Invariant.
Context {N : PeerApi} {L : PeerLaws N}.
Implicit Types (s : Node) (i : Impl).

(** Every entry of the node table is filed under its own address, once. *)
Definition table_ok i : Prop :=
  omap_sorted (m_nodes i) ∧ Forall (fun e => ns_address e.2 = e.1) (m_nodes i).

Definition identity i := (m_id i, m_listen_url i, m_broadcast_url i, sockets_of i).

Definition node_ok (me : bytes * bytes * bytes * (Z * Z * Z)) i : Prop :=
  table_ok i ∧ life_ok i ∧ identity i = me.

Lemma node_ok_insert me status i :
  node_ok me i → node_ok me (set_nodes (omap_insert (ns_address status) status (m_nodes i)) i).
Proof.
  intros ([Hs Hf] & Hl & Hi). split_and!; [split|done..]; cbn; auto with width.
Qed.

Lemma node_ok_erase me url i :
  node_ok me i → node_ok me (set_nodes (omap_erase url (m_nodes i)) i).
Proof.
  intros ([Hs Hf] & Hl & Hi). split_and!; [split|done..]; cbn; [auto with width|].
  rewrite Forall_forall in Hf |- *. eauto using omap_erase_sub.
Qed.

Lemma check_nodes_keeps P copy :
  (∀ url i, P i → P (set_nodes (omap_erase url (m_nodes i)) i)) → keeps P (check_nodes copy).
Proof.
  intros Hp. induction copy as [|[url status] copy IH]; cbn [check_nodes]; [apply keeps_ret|].
  unfold check_node. keep; auto.
Qed.

Lemma subscriber_message_keeps P msg :
  (∀ status i, P i → P (set_nodes (omap_insert (ns_address status) status (m_nodes i)) i)) →
  keeps P (subscriber_message msg).
Proof.
  intros Hp. unfold subscriber_message. keep; auto.
Qed.

Lemma server_keeps P : keeps P server_iteration.
Proof. unfold server_iteration, get_local_status. keep. Qed.

Lemma broadcaster_keeps P : keeps P broadcaster_iteration.
Proof. unfold broadcaster_iteration, get_local_status. keep. Qed.

Lemma manager_keeps P :
  (∀ url i, P i → P (set_nodes (omap_erase url (m_nodes i)) i)) → keeps P manager_iteration.
Proof. unfold manager_iteration. keep. by apply check_nodes_keeps. Qed.

Lemma thread_keeps me body : thread_body body → keeps (node_ok me) body.
Proof.
  intros []; [apply server_keeps|apply broadcaster_keeps| |apply manager_keeps, node_ok_erase].
  unfold subscriber_iteration. keep. apply subscriber_message_keeps. eauto using node_ok_insert.
Qed.

(** What [start] and [stop] do not touch. *)
Definition static i := (m_nodes i, identity i).

Lemma start_keeps c : keeps (fun i => static i = c) start.
Proof. unfold start, listener_close, launch, comm_failed. keep; done. Qed.

Lemma stop_keeps c ends : keeps (fun i => static i = c) (stop ends).
Proof. unfold stop, listener_close, dialer_close, join. keep; done. Qed.

Lemma node_ok_static me i i' : static i' = static i → life_ok i' → node_ok me i → node_ok me i'.
Proof.
  intros Hs Hl ([Ho Hf] & _ & Hi). injection Hs as Hn E1 E2 E3 E4 E5 E6.
  split_and!; [split; by rewrite Hn|done|]. rewrite <- Hi. unfold identity, sockets_of. congruence.
Qed.

Lemma start_running s : m_running (impl s) = true → start s = Done (Ok (), s).
Proof. intros Er. unfold start, mbind, prog_mbind at 1, member, observe. by rewrite Er. Qed.

Lemma stop_stopped ends s : m_running (impl s) = false → stop ends s = Done ((), s).
Proof. intros Er. unfold stop, mbind, prog_mbind at 1, member, observe. by rewrite Er. Qed.

Lemma start_life s r s' : start s = Done (r, s') → life_ok (impl s) → life_ok (impl s').
Proof.
  intros E Hl. unfold life_ok in Hl. destruct (m_running (impl s)) eqn:Er.
  { rewrite start_running in E by done. injection E as _ <-. unfold life_ok. by rewrite Er. }
  assert (wp True start s (fun _ s' => life_ok (impl s'))) as Hw.
  { apply wp_start; [done..| |]; unfold life_ok.
    - intros e s1 _ -> -> _ _. done.
    - intros s1 (ls & lp & d & -> & -> & -> & _) -> -> _ _. eauto. }
  unfold wp in Hw. by rewrite E in Hw.
Qed.

Lemma stop_life ends s s' : stop ends s = Done ((), s') → life_ok (impl s) → life_ok (impl s').
Proof.
  intros E Hl. unfold life_ok in Hl. destruct (m_running (impl s)) eqn:Er.
  2: { rewrite stop_stopped in E by done. injection E as <-. unfold life_ok. by rewrite Er. }
  destruct Hl as (Ht & [ls Hls] & [lp Hlp] & [d Hd]).
  assert (wp False (stop ends) s (fun _ s' => life_ok (impl s'))) as Hw.
  { eapply wp_stop; [tauto|done..]. }
  unfold wp in Hw. by rewrite E in Hw.
Qed.

Lemma query_keeps P : keeps P query_all_status.
Proof. unfold query_all_status, get_local_status. keep. Qed.

Lemma node_step_ok me s s' : node_step s s' → node_ok me (impl s) → node_ok me (impl s').
Proof.
  intros Hstep Hok. pose proof Hok as (_ & Hl & _). destruct Hstep as [s r s' E|ends s s' E|body s s' Hb _ E|s r s' E|cb s s' E|s w].
  - eapply node_ok_static, Hok; [by eapply start_keeps|by eapply start_life].
  - eapply node_ok_static, Hok; [by eapply stop_keeps|by eapply stop_life].
  - by eapply thread_keeps.
  - by eapply query_keeps.
  - injection E as <-. done.
  - done.
Qed.

End Invariant.

(** ** A node on its own broadcast URL

    [start] listens on the broadcast URL with the publisher and dials the same
    URL with the subscriber.  A URL has one listener, so that what a started
    node hears was published by itself. *)

Section Alone.
Context {N : PeerApi}.
Implicit Types (s : Node) (i : Impl).

(** What arrives on the subscriber socket are announcements of this node. *)
Definition hears_itself (id url : bytes) (sub : Z) : Prop :=
  ∀ st b st1 bs st2, p_recv sub st = Done (Ok b, st1) → p_load b st1 = Some (bs, st2) →
  ∃ u info, bs = print_node (mkStatus id url u info) ++ [0].

Lemma own_announcement u info s :
  bar ∉ m_id (impl s) →
  subscriber_message (print_node (mkStatus (m_id (impl s)) (m_listen_url (impl s)) u info)) s
  = Done ((), s).
Proof.
  intros Hi. unfold subscriber_message, print_node. cbn [ns_id ns_address].
  change (text "NODE|") with (text "NODE" ++ [bar]). rewrite <- app_assoc. cbn [app].
  rewrite getline_field by (apply (bool_decide_eq_true_1 _); vm_compute; reflexivity).
  rewrite getline_field by done. destruct (getline bar [] _) as [address ss].
  unfold mbind, prog_mbind, member, observe. rewrite bool_decide_true by done.
  by rewrite (bool_decide_true (m_id (impl s) = _)).
Qed.

Definition knows_nobody (id url : bytes) (sub : Z) i : Prop :=
  m_nodes i = [] ∧ m_id i = id ∧ m_listen_url i = url ∧ m_sub_socket i = sub.

Lemma subscriber_alone id url sub :
  bar ∉ id → hears_itself id url sub → keeps (knows_nobody id url sub) subscriber_iteration.
Proof.
  intros Hb Hh s a s' E Hk. pose proof Hk as (Hn & Hi & Hu & Hs). revert E.
  unfold subscriber_iteration, receive. unfold mbind, prog_mbind, member, observe, outside.
  rewrite Hs. destruct (p_recv sub (world s)) as [[[b|e] w1]| |] eqn:Er; [|by intros [= _ <-]|done..].
  unfold attempt. cbn [world impl].
  destruct (p_load b w1) as [[bs w2]|] eqn:El; [|done].
  destruct (Hh _ _ _ _ _ Er El) as (u & info & ->). rewrite without_nul_sent. cbn [world impl].
  destruct (p_free b w2) as [[[] w3]|]; [|done].
  subst id url. cbn [world impl].
  match goal with |- context [subscriber_message _ ?s1] => pose proof (own_announcement u info s1 Hb) as Ea end.
  cbn [impl] in Ea. rewrite Ea. by intros [= _ <-].
Qed.

Lemma alone_step id url sub s s' :
  bar ∉ id → hears_itself id url sub → node_step s s' →
  knows_nobody id url sub (impl s) → knows_nobody id url sub (impl s').
Proof.
  intros Hb Hh Hstep Hk. destruct Hstep as [s r s' E|ends s s' E|body s s' Ht _ E|s r s' E|cb s s' E|s w].
  - pose proof (start_keeps (static (impl s)) s r s' E eq_refl) as [= E1 E2 E3 E4 E5 E6 E7].
    unfold knows_nobody in *. congruence.
  - pose proof (stop_keeps (static (impl s)) ends s () s' E eq_refl) as [= E1 E2 E3 E4 E5 E6 E7].
    unfold knows_nobody in *. congruence.
  - destruct Ht; [by eapply server_keeps|by eapply broadcaster_keeps|by eapply subscriber_alone|].
    eapply (manager_keeps (knows_nobody id url sub)); [|done..].
    intros url' i (Hn & Hr). unfold knows_nobody. cbn. by rewrite Hn.
  - by eapply query_keeps.
  - injection E as <-. done.
  - done.
Qed.

(** A node that hears nothing but its own announcements never learns of
    another node: however its threads and the public calls interleave, its node
    table stays empty. *)
Theorem alone_knows_nobody id url sub s s' :
  bar ∉ id → hears_itself id url sub → knows_nobody id url sub (impl s) →
  rtc node_step s s' → get_known_nodes s' = Done ([], s').
Proof.
  intros Hb Hh Hk Hr. assert (knows_nobody id url sub (impl s')) as (Hn & _).
  { induction Hr as [|s1 s2 s3 Hs Hr IH]; [done|]. by eapply IH, alone_step. }
  unfold get_known_nodes, mbind, prog_mbind, member, observe. by rewrite Hn.
Qed.
End Alone.

(** ** Whether [stop] returns

    [stop] clears [m_running], closes the listeners and the dialer and joins the
    four threads in turn.  A thread looks at [m_running] only between two calls
    of [nng_recv], which the endpoints being closed does not end: the sockets
    stay open until the destructor. *)
Module shutdown.

(** At the test of the loop, in its body, after the loop. *)
Inductive Pc := AtTest | InBody | Finished.

Inductive Stopper := NotCalled | Joining (left : list Thread) | Returned.

Record Sys := mkSys {
  sys_running : bool;
  sys_open : bool;
  sys_pc : Thread → Pc;
  (* messages that wait on the server and the subscriber socket *)
  sys_inbox : Thread → nat;
  sys_stopper : Stopper;
}.

(** The threads whose body begins with [nng_recv]. *)
Definition receives (t : Thread) : bool :=
  match t with ServerThread | SubscriberThread => true | _ => false end.

Definition move (t : Thread) (pc : Pc) (s : Sys) : Sys :=
  mkSys (sys_running s) (sys_open s) (fun u => if decide (u = t) then pc else sys_pc s u)
    (sys_inbox s) (sys_stopper s).
Definition mail (t : Thread) (f : nat → nat) (s : Sys) : Sys :=
  mkSys (sys_running s) (sys_open s) (sys_pc s)
    (fun u => if decide (u = t) then f (sys_inbox s u) else sys_inbox s u) (sys_stopper s).
Definition set_stopper (x : Stopper) (s : Sys) : Sys :=
  mkSys (sys_running s) (sys_open s) (sys_pc s) (sys_inbox s) x.

Inductive sys_step : Sys → Sys → Prop :=
| sys_arrive t s : sys_open s = true → sys_step s (mail t S s)
| sys_test t s : sys_pc s t = AtTest →
    sys_step s (move t (if sys_running s then InBody else Finished) s)
| sys_receive t n s : sys_pc s t = InBody → receives t = true → sys_inbox s t = S n →
    sys_step s (move t AtTest (mail t pred s))
| sys_work t s : sys_pc s t = InBody → receives t = false → sys_step s (move t AtTest s)
| sys_stop s : sys_stopper s = NotCalled → sys_running s = true →
    sys_step s (mkSys false false (sys_pc s) (sys_inbox s) (Joining all_threads))
| sys_join t left s : sys_stopper s = Joining (t :: left) → sys_pc s t = Finished →
    sys_step s (set_stopper (Joining left) s)
| sys_return s : sys_stopper s = Joining [] → sys_step s (set_stopper Returned s).

(** A thread that [stop] has still to join waits for a message that cannot
    come any more. *)
Definition stuck (t : Thread) (s : Sys) : Prop :=
  receives t = true ∧ sys_pc s t = InBody ∧ sys_inbox s t = O ∧ sys_open s = false
  ∧ ∃ left, sys_stopper s = Joining left ∧ t ∈ left.

Lemma stuck_step t s s' : sys_step s s' → stuck t s → stuck t s'.
Proof.
  intros Hs (Hr & Hp & Hi & Ho & left & Hj & Hin).
  destruct Hs as [u s|u s Hu|u n s Hu Hru Hn|u s Hu Hru|s Hst Hrun|u l s Hst Hu|s Hst];
    unfold stuck, move, mail, set_stopper; cbn; try congruence.
  - case_decide; [congruence|]. eauto 10.
  - repeat case_decide; try congruence. eauto 10.
  - case_decide; [congruence|]. eauto 10.
  - rewrite Hst in Hj. injection Hj as <-. apply elem_of_cons in Hin as [->|Hin]; [congruence|].
    eauto 10.
  - rewrite Hst in Hj. injection Hj as <-. by apply elem_of_nil in Hin.
Qed.

(** If [stop] is called while the server thread (or the subscriber
    thread) waits in [nng_recv] and no message is pending for it, [stop] never
    returns: no interleaving of the threads and of [stop] leads to its
    return. *)
Theorem stop_never_returns t s s' :
  receives t = true → sys_pc s t = InBody → sys_inbox s t = O →
  sys_running s = true → sys_stopper s = NotCalled →
  rtc sys_step (mkSys false false (sys_pc s) (sys_inbox s) (Joining all_threads)) s' →
  sys_stopper s' ≠ Returned.
Proof.
  intros Hr Hp Hi _ _ Hrtc.
  assert (stuck t (mkSys false false (sys_pc s) (sys_inbox s) (Joining all_threads))) as H0.
  { split_and!; try done. exists all_threads. split; [done|]. unfold all_threads.
    destruct t; set_solver. }
  assert (stuck t s') as (_ & _ & _ & _ & left & -> & _); [|done].
  remember (mkSys _ _ _ _ _) as s0 eqn:E0 in Hrtc, H0. clear E0.
  induction Hrtc as [|s1 s2 s3 Hs Hrtc IH]; [done|]. by eapply IH, stuck_step.
Qed.

(** The steps that are left: two for a thread in its body, one at the test, one
    for each join and one for the return. *)
Definition pc_left (pc : Pc) : nat :=
  match pc with InBody => 2 | AtTest => 1 | Finished => 0 end.
Definition stopper_left (x : Stopper) : nat :=
  match x with NotCalled => 0 | Joining rest => S (length rest) | Returned => 0 end.
Definition steps_left (s : Sys) : nat :=
  (sum_list_with (fun t => pc_left (sys_pc s t)) all_threads + stopper_left (sys_stopper s))%nat.

(** [stop] has been called, and nobody waits for a message that will not come. *)
Definition stopping_ok (s : Sys) : Prop :=
  sys_running s = false ∧ sys_open s = false ∧ sys_stopper s ≠ NotCalled
  ∧ ∀ t, receives t = true → sys_pc s t = InBody → sys_inbox s t ≠ O.

Lemma pc_left_bound pc : (pc_left pc <= 2)%nat.
Proof. destruct pc; cbn; lia. Qed.

Lemma steps_left_move t pc s :
  (steps_left (move t pc s) + pc_left (sys_pc s t) = steps_left s + pc_left pc)%nat.
Proof.
  unfold steps_left, all_threads. cbn.
  destruct t; repeat case_decide; simplify_eq; lia.
Qed.

Lemma stopping_step s s' :
  stopping_ok s → sys_step s s' → stopping_ok s' ∧ (steps_left s = S (steps_left s'))%nat.
Proof.
  intros (Hr & Ho & Hst & Hin) Hs.
  destruct Hs as [u s|u s Hu|u n s Hu Hru Hn|u s Hu Hru|s Hc Hrun|u l s Hc Hu|s Hc]; try congruence.
  - rewrite Hr. pose proof (steps_left_move u Finished s) as Hl. rewrite Hu in Hl. cbn [pc_left] in Hl.
    split; [|lia]. split_and!; [done|done|done|]. cbn. intros t. case_decide; [done|auto].
  - pose proof (steps_left_move u AtTest (mail u pred s)) as Hl.
    change (sys_pc (mail u pred s) u) with (sys_pc s u) in Hl. rewrite Hu in Hl.
    change (steps_left (mail u pred s)) with (steps_left s) in Hl. cbn [pc_left] in Hl.
    split; [|lia]. split_and!; [done|done|done|]. cbn. intros t. case_decide; [done|auto].
  - pose proof (steps_left_move u AtTest s) as Hl. rewrite Hu in Hl. cbn [pc_left] in Hl.
    split; [|lia]. split_and!; [done|done|done|]. cbn. intros t. case_decide; [done|auto].
  - split; [by split_and!|]. unfold steps_left. cbn. rewrite Hc. cbn. lia.
  - split; [by split_and!|]. unfold steps_left. cbn. rewrite Hc. cbn. lia.
Qed.

(** As long as [stop] has not returned, some step is possible. *)
Lemma stopping_progress s : stopping_ok s → sys_stopper s ≠ Returned → ∃ s', sys_step s s'.
Proof.
  intros (Hr & Ho & Hst & Hin) Hne. destruct (sys_stopper s) as [|[|t rest]|] eqn:Ej; [done| | |done].
  - eexists. by apply sys_return.
  - destruct (sys_pc s t) eqn:Hp.
    + eexists. by apply (sys_test t).
    + destruct (receives t) eqn:Ert; [|eexists; by apply (sys_work t)].
      destruct (sys_inbox s t) as [|n] eqn:Ei; [by destruct (Hin t)|]. eexists. by eapply (sys_receive t n).
    + eexists. by eapply sys_join.
Qed.

Lemma stopping_run n s s' :
  stopping_ok s → nsteps sys_step n s s' → stopping_ok s' ∧ (n + steps_left s' = steps_left s)%nat.
Proof.
  intros Hs H. induction H as [s|n s1 s2 s3 Hstep H IH]; [done|].
  destruct (stopping_step s1 s2 Hs Hstep) as [Hs2 Hl]. destruct (IH Hs2) as [Hs3 Hn]. split; [done|lia].
Qed.

(** If [stop] is called while every thread that waits in [nng_recv] has a
    message pending, and the other two bodies end, then [stop] returns, however
    the threads are scheduled: every run has at most thirteen steps more, and one
    that cannot go on has returned.  Otherwise it never returns
    ([stop_never_returns]). *)
Theorem stop_returns s n s' :
  (∀ t, receives t = true → sys_pc s t = InBody → sys_inbox s t ≠ O) →
  nsteps sys_step n (mkSys false false (sys_pc s) (sys_inbox s) (Joining all_threads)) s' →
  (n <= 13)%nat ∧ (sys_stopper s' = Returned ∨ ∃ s'', sys_step s' s'').
Proof.
  intros Hin Hrun.
  destruct (stopping_run n (mkSys false false (sys_pc s) (sys_inbox s) (Joining all_threads)) s')
    as [Hok Hn]; [by split_and!|done|]. split.
  - enough (steps_left (mkSys false false (sys_pc s) (sys_inbox s) (Joining all_threads)) <= 13)%nat by lia.
    pose proof (fun t => pc_left_bound (sys_pc s t)) as Hb. unfold steps_left, all_threads. cbn.
    pose proof (Hb ServerThread). pose proof (Hb BroadcastThread).
    pose proof (Hb SubscriberThread). pose proof (Hb NodeManagerThread). lia.
  - destruct (sys_stopper s') eqn:E; [right..|by left];
      apply stopping_progress; rewrite ?E; done.
Qed.

(** A node that has been started and whose threads have entered their loops. *)
Definition started : Sys := mkSys true true (fun _ => InBody) (fun _ => O) NotCalled.

Lemma stop_never_returns_witness :
  let stopping := mkSys false false (sys_pc started) (sys_inbox started) (Joining all_threads) in
  sys_step started stopping ∧ sys_stopper (move BroadcastThread AtTest stopping) ≠ Returned.
Proof.
  split; [by apply sys_stop|].
  apply (stop_never_returns ServerThread started); try reflexivity.
  apply rtc_once. by apply sys_work.
Defined.

(** The same node with a message for each of the two receivers. *)
Definition supplied : Sys := mkSys true true (fun _ => InBody) (fun _ => 1%nat) NotCalled.

Lemma stop_returns_witness :
  let stopping := mkSys false false (sys_pc supplied) (sys_inbox supplied) (Joining all_threads) in
  sys_step supplied stopping ∧ ∃ s, sys_step (move BroadcastThread AtTest stopping) s.
Proof.
  split; [by apply sys_stop|].
  destruct (stop_returns supplied 1
    (move BroadcastThread AtTest
       (mkSys false false (sys_pc supplied) (sys_inbox supplied) (Joining all_threads)))) as [_ [H|H]];
    try reflexivity; [done| |discriminate H|exact H].
  eapply nsteps_l; [by apply (sys_work BroadcastThread)|apply nsteps_O].
Defined.
End shutdown.

(** ** Runs *)

Module runs.
Import ToyPeer.

(** The node of [demo] after construction, [start], an announcement it hears on
    its subscriber socket, and [stop]. *)
Definition seen (announcement : bytes) : State :=
  mkState demo.nothing ∅ (<[3 := [announcement ++ [0]]]> ∅) None 0 [].

(** A network in which the subscriber socket hears what this node announces. *)
Definition echo (id url : bytes) : PeerApi := {|
  p_state := State;
  p_strerror := @p_strerror toy_peer;
  p_open := @p_open toy_peer;
  p_close := @p_close toy_peer;
  p_subscribe_all := @p_subscribe_all toy_peer;
  p_listen := @p_listen toy_peer;
  p_dial := @p_dial toy_peer;
  p_listener_close := @p_listener_close toy_peer;
  p_dialer_close := @p_dialer_close toy_peer;
  p_send := @p_send toy_peer;
  p_recv sock st :=
    let b := ToyNng.next_key (pv_buffers (pt_view st)) in
    Done (Ok b, set_view (pv_receive sock b (print_node (mkStatus id url 0 []) ++ [0]) (pt_view st)) st);
  p_load := @p_load toy_peer;
  p_free := @p_free toy_peer;
  p_tls_alloc := @p_tls_alloc toy_peer;
  p_tls_own_cert := @p_tls_own_cert toy_peer;
  p_tls_free := @p_tls_free toy_peer;
  p_set_tls := @p_set_tls toy_peer;
  p_now := @p_now toy_peer;
  p_sleep := @p_sleep toy_peer;
  Callback := ();
  p_invoke := @p_invoke toy_peer;
|}.

Lemma echo_hears_itself id url sub : @hears_itself (echo id url) id url sub.
Proof.
  intros st b st1 bs st2 [= <- <-]. cbn. rewrite lookup_insert_eq. cbn. intros [= <- _]. eauto.
Qed.
End runs.

(** What a whole run shows: the node runs after [start], and whom it knows
    after one turn of its subscriber thread. *)
Definition demo_run : option (bool * list bytes) :=
  match Impl_new (text "a") (text "tcp://a") (text "tcp://all") [] []
          (runs.seen (text "NODE|b|tcp://b")) with
  | Done (Ok i, st1) =>
      match start (mkNode st1 i) with
      | Done (Ok _, s1) =>
          match subscriber_iteration s1 with
          | Done (Ok _, s2) => Some (m_running (impl s1), (m_nodes (impl s2)).*1)
          | _ => None
          end
      | _ => None
      end
  | _ => None
  end.


Lemma alone_knows_nobody_witness :
  let api := runs.echo (text "a") (text "tcp://a") in
  let s := @mkNode api (runs.seen [])
             (set_running true (@new_impl api (text "a") (text "tcp://a") (text "tcp://all") 1 2 3 0)) in
  ∃ s1, subscriber_iteration s = Done (Ok (), s1) ∧ get_known_nodes s1 = Done ([], s1).
Proof.
  intros api s.
  destruct (outcome_run (fun '(r, _) => is_ok r) (subscriber_iteration s) true)
    as ([[[]|e] s1] & E & Ho); [vm_compute; reflexivity| |discriminate].
  exists s1. split; [exact E|].
  apply (alone_knows_nobody (text "a") (text "tcp://a") 3 s s1).
  - apply (bool_decide_eq_true_1 _). vm_compute. reflexivity.
  - apply runs.echo_hears_itself.
  - split_and!; reflexivity.
  - apply rtc_once. eapply step_thread; [apply body_subscriber|reflexivity|exact E].
Defined.
