(* ===== verification/ReqRep.v ===== *)
(** * ReqRep: the requester and responder modules

    Models [src/ya_communicate/module/requester.cpp] and [responder.cpp] over the
    interface of [NngPeer.v].  A message is copied into an array of [new char[]]
    with [strcpy] and handed to [nng_send] with [NNG_FLAG_ALLOC], which makes nng
    release it with its own allocator; [compatible] says whether that is the
    allocator of [new[]], and handing it over is undefined otherwise.  [junk] is
    what the array held before.

    The theorems: a message without null characters arrives unchanged; every
    call releases what it was given, except the buffer of an empty message;
    destroying an object closes its socket and endpoint. *)

From S2P Require Import Prelude Text Program Nng NngPeer P2P.
Import report.

Module reqrep.
Section Modules.
Context `{PeerApi} (compatible : bool) (junk : bytes).
Abbreviation pp A := (prog p_state (result exception A)).

(** [m_socket] and [m_dialer] or [m_listener] *)
Record Endpoint := mkEndpoint { m_socket : Z; m_endpoint : Z }.

Definition Requester_new (url : bytes) : pp Endpoint :=
  r ← call (p_open req0);
  match r with
  | Err rv => comm_failed (text "Failed to open client socket: ") rv
  | Ok s =>
      r ← call (p_dial s (until_nul url));
      match r with
      | Err rv => effect (p_close s);; comm_failed (text "Failed to dial " ++ url ++ text ": ") rv
      | Ok d => mret (Ok (mkEndpoint s d))
      end
  end.

Definition Reponder_new (url : bytes) : pp Endpoint :=
  r ← call (p_open rep0);
  match r with
  | Err rv => comm_failed (text "Failed to open server socket: ") rv
  | Ok s =>
      r ← call (p_listen s (until_nul url));
      match r with
      | Err rv => effect (p_close s);; comm_failed (text "Failed to listen on " ++ url ++ text ": ") rv
      | Ok l => mret (Ok (mkEndpoint s l))
      end
  end.

Definition Requester_destroy (e : Endpoint) : prog p_state () :=
  effect (p_dialer_close (m_endpoint e));; effect (p_close (m_socket e)).

Definition Reponder_destroy (e : Endpoint) : prog p_state () :=
  effect (p_listener_close (m_endpoint e));; effect (p_close (m_socket e)).

(** [new char[msg.size() + 1]] after [strcpy(buf, msg.c_str())] *)
Definition c_buffer (msg : bytes) : bytes :=
  let copied := until_nul msg ++ [0] in
  copied ++ take (length msg + 1 - length copied) (drop (length copied) junk).

(** [nng_send(socket, buf, msg.size() + 1, NNG_FLAG_ALLOC)] *)
Definition send_buffer (what : bytes) (e : Endpoint) (msg : bytes) : pp () :=
  r ← call (p_send (m_socket e) (c_buffer msg));
  match r with
  | Err rv => comm_failed what rv
  | Ok _ => must compatible;; mret (Ok ())
  end.

Definition receive_buffer (what : bytes) (e : Endpoint) : pp bytes :=
  r ← receive (m_socket e);
  match r with
  | Err rv => comm_failed what rv
  | Ok buf =>
      bs ← attempt (p_load buf);
      match without_nul bs with
      | Err ex => mret (Err ex)
      | Ok msg => attempt (p_free buf);; mret (Ok msg)
      end
  end.

Definition Reponder_receive (e : Endpoint) : pp bytes :=
  receive_buffer (text "Failed to receive: ") e.

Definition Reponder_send (e : Endpoint) (msg : bytes) : pp () :=
  send_buffer (text "Failed to send: ") e msg.

Definition Requester_request (e : Endpoint) (msg : bytes) : pp bytes :=
  r ← send_buffer (text "Failed to send request: ") e msg;
  match r with
  | Err ex => mret (Err ex)
  | Ok _ => receive_buffer (text "Failed to receive reply: ") e
  end.
End Modules.
End reqrep.
Import reqrep.

Lemma until_nul_all bs : 0 ∉ bs → until_nul bs = bs.
Proof.
  induction bs as [|b bs IH]; intros Hn; [done|]. cbn. destruct (Z.eqb_spec b 0); [set_solver|].
  rewrite IH by set_solver. done.
Qed.

Lemma c_buffer_plain junk msg : 0 ∉ msg → c_buffer junk msg = msg ++ [0].
Proof.
  intros Hm. unfold c_buffer. rewrite until_nul_all by done. rewrite length_app. cbn [length].
  by rewrite Nat.sub_diag, app_nil_r.
Qed.

Section Facts.
Context {N : PeerApi} {L : PeerLaws N} (junk : bytes).
Implicit Types (st : p_state).

Lemma wp_send_buffer total what e msg st Q :
  (∀ r st', live st' = live st → pv_received (p_view st') = pv_received (p_view st) →
     (r = Ok () → pv_sent (p_view st') = pv_sent (p_view st) ++ [(m_socket e, c_buffer junk msg)]) →
     Q r st') →
  wp total (send_buffer true junk what e msg) st Q.
Proof.
  intros HQ. unfold send_buffer. apply wp_bind, wp_call.
  pose proof (plaw_send (m_socket e) (c_buffer junk msg) st) as Hp.
  destruct (p_send _ _ st) as [[[]|rv] st1]; cbn in Hp; cbn [fst snd].
  - apply wp_bind, wp_must; [done|]. apply wp_ret, HQ; [|by rewrite Hp..].
    unfold live. by rewrite Hp.
  - destruct Hp as [_ Hp]. apply wp_ret, HQ; [unfold live; by rewrite Hp|by rewrite Hp|done].
Qed.

(** What receiving leaves: nothing, or the buffer of an empty message. *)
Definition received e (r : result exception bytes) st st' : Prop :=
  match r with
  | Ok msg => live st' = live st
      ∧ ∃ c, pv_received (p_view st') = pv_received (p_view st) ++ [(m_socket e, msg ++ [c])]
  | Err length_error => ∃ b, pv_buffers (p_view st') = <[b := []]> (pv_buffers (p_view st))
  | Err _ => live st' = live st
  end.

Lemma wp_receive_buffer what e st Q :
  (∀ r st', received e r st st' → pv_sent (p_view st') = pv_sent (p_view st) → Q r st') →
  wp False (receive_buffer what e) st Q.
Proof.
  intros HQ. unfold receive_buffer. apply wp_bind. unfold receive, wp at 1.
  pose proof (plaw_recv (m_socket e) st) as Hr.
  destruct (p_recv (m_socket e) st) as [[[buf|rv] st1]| |]; cbn in Hr; [| |done|tauto].
  2: { destruct Hr as [_ Hr]. apply wp_ret, HQ; [|by rewrite Hr]. cbn. unfold live. by rewrite Hr. }
  destruct Hr as (Hf & bs & Hv).
  assert (pv_buffers (p_view st1) !! buf = Some bs) as Hb by (rewrite Hv; apply lookup_insert_eq).
  destruct (plaw_load buf bs st1 Hb) as (st2 & El & Hv2).
  apply wp_bind. eapply wp_attempt; [exact El|]. unfold without_nul.
  destruct (Z.eqb_spec (zlen bs) 0) as [Hz|Hz].
  { apply zlen_zero in Hz as ->. apply wp_ret, HQ; [|by rewrite Hv2, Hv].
    exists buf. by rewrite Hv2, Hv. }
  rewrite <- Hv2 in Hb. destruct (plaw_free buf bs st2 Hb) as (st3 & Ef & Hv3).
  apply wp_bind. eapply wp_attempt; [exact Ef|].
  destruct (@exists_last _ bs) as (msg & c & ->); [by intros ->|].
  rewrite length_app. cbn [length]. rewrite Nat.add_sub, take_app_length.
  apply wp_ret, HQ; [|by rewrite Hv3, Hv2, Hv]. split; [|exists c; by rewrite Hv3, Hv2, Hv].
  unfold live. rewrite Hv3, Hv2, Hv. cbn. by rewrite delete_insert_id.
Qed.

(** A request that returns has sent exactly one message, which is the text
    with its terminator when it has no null character, and returns the next
    message that arrived without its last byte; it leaves no buffer behind.  The
    responder's receive takes such a message apart the same way, so that the
    text arrives unchanged. *)
Theorem request_round_trip e msg reply st st' responder r st1 st2 :
  0 ∉ msg →
  Requester_request true junk e msg st = Done (Ok reply, st') →
  Reponder_receive responder st1 = Done (Ok r, st2) →
  pv_received (p_view st2) = pv_received (p_view st1) ++ [(m_socket responder, c_buffer junk msg)] →
  pv_sent (p_view st') = pv_sent (p_view st) ++ [(m_socket e, msg ++ [0])]
  ∧ (∃ c, pv_received (p_view st') = pv_received (p_view st) ++ [(m_socket e, reply ++ [c])])
  ∧ live st' = live st ∧ r = msg.
Proof.
  intros Hm E1 E2 Harrived.
  assert (wp False (Requester_request true junk e msg) st (fun r st' => ∀ reply, r = Ok reply →
    pv_sent (p_view st') = pv_sent (p_view st) ++ [(m_socket e, msg ++ [0])]
    ∧ (∃ c, pv_received (p_view st') = pv_received (p_view st) ++ [(m_socket e, reply ++ [c])])
    ∧ live st' = live st)) as H1.
  { unfold Requester_request. apply wp_bind, wp_send_buffer. intros [[]|ex] st3 Hl Hr Hs; [|by apply wp_ret].
    specialize (Hs eq_refl). rewrite c_buffer_plain in Hs by done.
    apply wp_receive_buffer. intros x st4 Hx Hsent reply' ->. destruct Hx as [Hl2 (c & Hc)].
    split_and!; [congruence|exists c; congruence|congruence]. }
  destruct (wp_partial _ _ _ _ _ H1 E1 reply eq_refl) as (Hs & Hr & Hl). split_and!; [done..|].
  assert (wp False (Reponder_receive responder) st1 (fun r st' => received responder r st1 st')) as H2.
  { apply wp_receive_buffer. auto. }
  destruct (wp_partial _ _ _ _ _ H2 E2) as (_ & c & Hc). rewrite Hc in Harrived.
  apply app_inj_2 in Harrived as [_ [= E]]; [|done]. rewrite c_buffer_plain in E by done.
  by apply app_inj_2 in E as [-> _].
Qed.

(** Creating a requester and destroying it leaves nothing, and so does creating
    one that fails; the same for a responder. *)
Lemma requester_life url st :
  attached st →
  wp True (Requester_new url) st (fun r st1 => match r with
    | Err _ => live st1 = live st
    | Ok e => wp True (Requester_destroy e) st1 (fun _ st2 => live st2 = live st)
    end).
Proof.
  intros [Hl Hd]. unfold Requester_new. apply wp_bind, wp_call. pose proof (plaw_open req0 st) as H1.
  destruct (p_open req0 st) as [[s|] st1]; cbn in H1; cbn [fst snd].
  2: { apply wp_ret. unfold live. by rewrite (proj2 H1). }
  destruct H1 as [Hf H1]. apply wp_bind, wp_call. pose proof (plaw_dial s (until_nul url) st1) as H2.
  destruct (p_dial s _ st1) as [[d|] st2]; cbn in H2; cbn [fst snd].
  - destruct H2 as [Hfd H2]. apply wp_ret. unfold Requester_destroy. cbn [m_endpoint m_socket].
    apply wp_bind, wp_effect, wp_effect. unfold live. rewrite plaw_close, plaw_dialer_close, H2, H1.
    rewrite H1 in Hfd. change (pv_dialing (delete d) (pv_dialing (<[d := (s, until_nul url)]>)
      (pv_open s req0 (p_view st)))) with
      (pv_dialing (fun m => delete d (<[d := (s, until_nul url)]> m)) (pv_open s req0 (p_view st))).
    unfold pv_dialing. rewrite delete_insert_id by done.
    change (mkPView _ _ _ _ _ _ _) with (pv_open s req0 (p_view st)). by rewrite close_opened.
  - destruct H2 as [_ H2]. apply wp_bind, wp_effect, wp_ret. unfold live.
    rewrite plaw_close, H2, H1. by rewrite close_opened.
Qed.

Lemma responder_life url st :
  attached st →
  wp True (Reponder_new url) st (fun r st1 => match r with
    | Err _ => live st1 = live st
    | Ok e => wp True (Reponder_destroy e) st1 (fun _ st2 => live st2 = live st)
    end).
Proof.
  intros [Hl Hd]. unfold Reponder_new. apply wp_bind, wp_call. pose proof (plaw_open rep0 st) as H1.
  destruct (p_open rep0 st) as [[s|] st1]; cbn in H1; cbn [fst snd].
  2: { apply wp_ret. unfold live. by rewrite (proj2 H1). }
  destruct H1 as [Hf H1]. apply wp_bind, wp_call. pose proof (plaw_listen s (until_nul url) st1) as H2.
  destruct (p_listen s _ st1) as [[d|] st2]; cbn in H2; cbn [fst snd].
  - destruct H2 as [Hfd H2]. apply wp_ret. unfold Reponder_destroy. cbn [m_endpoint m_socket].
    apply wp_bind, wp_effect, wp_effect. unfold live. rewrite plaw_close, plaw_listener_close, H2, H1.
    rewrite H1 in Hfd. unfold pv_listening. cbn [pv_sockets pv_listeners pv_dialers pv_buffers
      pv_configs pv_sent pv_received]. rewrite delete_insert_id by done.
    change (mkPView _ _ _ _ _ _ _) with (pv_open s rep0 (p_view st)). by rewrite close_opened.
  - destruct H2 as [_ H2]. apply wp_bind, wp_effect, wp_ret. unfold live.
    rewrite plaw_close, H2, H1. by rewrite close_opened.
Qed.
End Facts.

(** ** A concrete exchange *)

Module exchange.
Import ToyPeer.
Definition client : State :=
  mkState (mkPView {[1 := req0]} ∅ {[1 := (1, text "tcp://b")]} ∅ ∅ [] [])
    {[text "tcp://b" := text "pong" ++ [0]]} ∅ None 0 [].
Definition server : State :=
  mkState (mkPView {[1 := rep0]} ∅ ∅ ∅ ∅ [] []) ∅ {[1 := [text "ping" ++ [0]]]} None 0 [].
End exchange.

Lemma request_round_trip_witness :
  ∃ st' st2, Requester_request true [] (mkEndpoint 1 1) (text "ping") exchange.client
             = Done (Ok (text "pong"), st')
  ∧ Reponder_receive (mkEndpoint 1 1) exchange.server = Done (Ok (text "ping"), st2)
  ∧ live st' = live exchange.client
  ∧ pv_sent (p_view st') = [(1, text "ping" ++ [0])].
Proof.
  destruct (outcome_run fst (Requester_request (H := ToyPeer.toy_peer) true [] (mkEndpoint 1 1)
    (text "ping") exchange.client) (Ok (text "pong"))) as ([r st'] & E1 & Hr); [vm_compute; reflexivity|].
  destruct (outcome_run (fun x => (x.1, pv_received (p_view x.2)))
    (Reponder_receive (H := ToyPeer.toy_peer) (mkEndpoint 1 1) exchange.server)
    (Ok (text "ping"), [(1, text "ping" ++ [0])])) as ([r2 st2] & E2 & Hr2); [vm_compute; reflexivity|].
  cbn [fst snd] in Hr. subst r. injection Hr2 as Hr2 Hrec. subst r2.
  exists st', st2. split; [exact E1|]. split; [exact E2|].
  destruct (request_round_trip (N := ToyPeer.toy_peer) [] (mkEndpoint 1 1) (text "ping") (text "pong")
    exchange.client st' (mkEndpoint 1 1) (text "ping") exchange.server st2) as (Hs & _ & Hl & _).
  - apply (bool_decide_eq_true_1 _). vm_compute. reflexivity.
  - exact E1.
  - exact E2.
  - exact Hrec.
  - split; [exact Hl|exact Hs].
Defined.

(** A text with a null character is cut, and what the array held before is
    sent behind it. *)
Example null_sends_junk :
  c_buffer (text "SECRETS") [65; 0; 66; 67] = [65; 0; 67; 82; 69].
Proof. vm_compute. reflexivity. Qed.
