(* ===== verification/Http.v ===== *)
(** * Http: the status server of the legacy node

    Models [src/ya_communicate/module/http.cpp] over the HTTP part of nng
    ([HttpApi]).  [HttpLaws] is what nng documents of the objects: a server is
    held and released, a handler that was added belongs to the server and must
    not be freed by the program any more, and freeing it is undefined.
    [ToyHttp] is a concrete instance.

    The theorems: a start that succeeds leaves one more hold on a running server
    with its two handlers and nothing else; a start that fails before a handler
    was added leaves nothing; [stop] has no effect in any run; and the bodies of
    the two answers. *)

From S2P Require Import Prelude Text Program.

Class HttpApi := {
  h_state : Type;
  h_url_parse : bytes → h_state → result Z Z * h_state;
  h_url_free : Z → h_state → option (() * h_state);
  h_server_hold : Z → h_state → result Z Z * h_state;
  h_server_release : Z → h_state → h_state;
  h_tls_alloc : h_state → result Z Z * h_state;
  h_tls_own_cert : Z → bytes → bytes → h_state → result Z () * h_state;
  h_tls_free : Z → h_state → h_state;
  h_server_set_tls : Z → Z → h_state → result Z () * h_state;
  h_handler_alloc : bytes → h_state → result Z Z * h_state;
  h_handler_set : Z → bytes → h_state → h_state;
  h_server_add : Z → Z → h_state → result Z () * h_state;
  h_handler_free : Z → h_state → option (() * h_state);
  h_server_start : Z → h_state → result Z () * h_state;
  h_server_stop : Z → h_state → h_state;
}.

Record HView := mkHView {
  hv_urls : gset Z;
  (* how often the program holds a server *)
  hv_held : list Z;
  hv_running : gset Z;
  (* handlers of the program, and of a server *)
  hv_handlers : gset Z;
  hv_added : gmap Z Z;
  hv_configs : gset Z;
}.

Definition hv_url f (v : HView) :=
  mkHView (f (hv_urls v)) (hv_held v) (hv_running v) (hv_handlers v) (hv_added v) (hv_configs v).
Definition hv_hold f (v : HView) :=
  mkHView (hv_urls v) (f (hv_held v)) (hv_running v) (hv_handlers v) (hv_added v) (hv_configs v).
Definition hv_run f (v : HView) :=
  mkHView (hv_urls v) (hv_held v) (f (hv_running v)) (hv_handlers v) (hv_added v) (hv_configs v).
Definition hv_handle f g (v : HView) :=
  mkHView (hv_urls v) (hv_held v) (hv_running v) (f (hv_handlers v)) (g (hv_added v)) (hv_configs v).
Definition hv_config f (v : HView) :=
  mkHView (hv_urls v) (hv_held v) (hv_running v) (hv_handlers v) (hv_added v) (f (hv_configs v)).

Fixpoint drop_one (s : Z) (l : list Z) : list Z :=
  match l with
  | [] => []
  | t :: l' => if t =? s then l' else t :: drop_one s l'
  end.

Class HttpLaws (H : HttpApi) := {
  h_view : h_state → HView;
  granted {A} (st : h_state) (r : result Z A * h_state) (P : A → HView → HView → Prop) : Prop :=
    match r with
    | (Ok a, st') => P a (h_view st) (h_view st')
    | (Err e, st') => h_view st' = h_view st
    end;
  hlaw_parse a st : granted st (h_url_parse a st) (fun u v v' =>
    (u ∉ hv_urls v) ∧ v' = hv_url (union {[u]}) v);
  hlaw_url_free u st : u ∈ hv_urls (h_view st) →
    ∃ st', h_url_free u st = Some ((), st') ∧ h_view st' = hv_url (fun us => us ∖ {[u]}) (h_view st);
  hlaw_hold u st : granted st (h_server_hold u st) (fun s v v' => v' = hv_hold (cons s) v);
  hlaw_release s st : h_view (h_server_release s st) = hv_hold (drop_one s) (h_view st);
  hlaw_tls_alloc st : granted st (h_tls_alloc st) (fun c v v' =>
    (c ∉ hv_configs v) ∧ v' = hv_config (union {[c]}) v);
  hlaw_own_cert c a b st : granted st (h_tls_own_cert c a b st) (fun _ v v' => v' = v);
  hlaw_tls_free c st : h_view (h_tls_free c st) = hv_config (fun cs => cs ∖ {[c]}) (h_view st);
  hlaw_set_tls s c st : granted st (h_server_set_tls s c st) (fun _ v v' => v' = v);
  hlaw_alloc p st : granted st (h_handler_alloc p st) (fun h v v' =>
    (h ∉ hv_handlers v) ∧ hv_added v !! h = None
    ∧ v' = hv_handle (union {[h]}) (fun m => m) v);
  hlaw_set h x st : h_view (h_handler_set h x st) = h_view st;
  (* the server becomes the owner *)
  hlaw_add s h st : granted st (h_server_add s h st) (fun _ v v' =>
    v' = hv_handle (fun hs => hs ∖ {[h]}) (<[h := s]>) v);
  hlaw_free h st :
    (h ∈ hv_handlers (h_view st) → ∃ st', h_handler_free h st = Some ((), st')
       ∧ h_view st' = hv_handle (fun hs => hs ∖ {[h]}) (fun m => m) (h_view st))
    ∧ (is_Some (hv_added (h_view st) !! h) → h_handler_free h st = None);
  hlaw_start s st : granted st (h_server_start s st) (fun _ v v' => v' = hv_run (union {[s]}) v);
  hlaw_stop s st : h_view (h_server_stop s st) = hv_run (fun rs => rs ∖ {[s]}) (h_view st);
}.

Module http.
Section Server.
Context `{HttpApi}.

(** [Http::Impl]; the pointers are 0 when null. *)
Record Impl := mkImpl {
  m_http_server : Z;
  m_http_handler_status : Z;
  m_http_handler_nodes : Z;
  m_http_running : bool;
  m_cert_file : bytes;
  m_key_file : bytes;
}.

(** The value-initialized atomic is false, the files are empty. *)
Definition Impl_new : Impl := mkImpl 0 0 0 false [] [].

(** A member function that can throw: its outcome and the object after it,
    whose pointers may be stale when it throws. *)
Abbreviation ht := (prog h_state (result exception () * Impl)).

Definition set_server (s : Z) (i : Impl) : Impl :=
  mkImpl s (m_http_handler_status i) (m_http_handler_nodes i) (m_http_running i)
    (m_cert_file i) (m_key_file i).
Definition set_status (h : Z) (i : Impl) : Impl :=
  mkImpl (m_http_server i) h (m_http_handler_nodes i) (m_http_running i)
    (m_cert_file i) (m_key_file i).
Definition set_nodes (h : Z) (i : Impl) : Impl :=
  mkImpl (m_http_server i) (m_http_handler_status i) h (m_http_running i)
    (m_cert_file i) (m_key_file i).

Definition throw (i : Impl) (what : bytes) : ht := mret (Err (runtime_error what), i).

(** [nng_http_server_release(m_http_server); nng_url_free(url); throw ...] *)
Definition withdraw (i : Impl) (url : Z) (what : bytes) : ht :=
  effect (h_server_release (m_http_server i));; attempt (h_url_free url);; throw i what.

Definition configure (handler : Z) : prog h_state () :=
  effect (h_handler_set handler (text "GET"));; effect (h_handler_set handler []).

(** The handlers and the start, once the server is held. *)
Definition serve (i : Impl) (url : Z) : ht :=
  r ← call (h_handler_alloc (text "/status"));
  match r with
  | Err _ => withdraw i url (text "Failed to create HTTP status handler")
  | Ok status =>
  let i := set_status status i in
  configure status;;
  r ← call (h_server_add (m_http_server i) status);
  match r with
  | Err _ => attempt (h_handler_free status);;
             withdraw i url (text "Failed to add HTTP status handler")
  | Ok _ =>
  r ← call (h_handler_alloc (text "/nodes"));
  match r with
  | Err _ => attempt (h_handler_free status);;
             withdraw i url (text "Failed to create HTTP nodes handler")
  | Ok nodes =>
  let i := set_nodes nodes i in
  configure nodes;;
  r ← call (h_server_add (m_http_server i) nodes);
  match r with
  | Err _ => attempt (h_handler_free status);; attempt (h_handler_free nodes);;
             withdraw i url (text "Failed to add HTTP nodes handler")
  | Ok _ =>
  r ← call (h_server_start (m_http_server i));
  match r with
  | Err _ => attempt (h_handler_free status);; attempt (h_handler_free nodes);;
             withdraw i url (text "Failed to start HTTP server")
  | Ok _ => attempt (h_url_free url);; mret (Ok (), i)
  end end end end end.

(** The server with TLS, before the handlers. *)
Definition secure (i : Impl) (url : Z) : ht :=
  r ← call h_tls_alloc;
  match r with
  | Err _ => withdraw i url (text "Failed to allocate TLS config for HTTP")
  | Ok config =>
  r ← call (h_tls_own_cert config (until_nul (m_cert_file i)) (until_nul (m_key_file i)));
  match r with
  | Err _ => effect (h_tls_free config);;
             withdraw i url (text "Failed to load TLS cert for HTTP")
  | Ok _ =>
  r ← call (h_server_set_tls (m_http_server i) config);
  match r with
  | Err _ => effect (h_tls_free config);;
             withdraw i url (text "Failed to set TLS config for HTTP")
  | Ok _ => serve i url
  end end end.

Definition start (i : Impl) (port : Z) : ht :=
  if m_http_running i then throw i (text "HTTP server is already running") else
  let addr := text "http://0.0.0.0:" ++ dec port in
  r ← call (h_url_parse addr);
  match r with
  | Err _ => throw i (text "Failed to parse HTTP URL: " ++ addr)
  | Ok url =>
  r ← call (h_server_hold url);
  match r with
  | Err _ => attempt (h_url_free url);; throw i (text "Failed to create HTTP server")
  | Ok server =>
  let i := set_server server i in
  if negb (bool_decide (m_cert_file i = [])) && negb (bool_decide (m_key_file i = []))
  then secure i url else serve i url
  end end.

Definition stop (i : Impl) : prog h_state Impl :=
  if negb (m_http_running i) then mret i else
  (if negb (m_http_server i =? 0)
   then effect (h_server_stop (m_http_server i));; effect (h_server_release (m_http_server i))
   else mret ());;
  (if negb (m_http_handler_status i =? 0)
   then attempt (h_handler_free (m_http_handler_status i)) else mret ());;
  (if negb (m_http_handler_nodes i =? 0)
   then attempt (h_handler_free (m_http_handler_nodes i)) else mret ());;
  mret (mkImpl 0 0 0 false (m_cert_file i) (m_key_file i)).
End Server.

(** *** Requests *)

(** What a handler gives the server: a response, or an error. *)
Record Response := mkResponse { status : Z; content_type : bytes; body : bytes }.

Definition NNG_ENOMEM : Z := 2.
Definition NNG_HTTP_STATUS_OK : Z := 200.

Definition respond (allocated : bool) (contents : bytes) : result Z Response :=
  if negb allocated then Err NNG_ENOMEM
  else Ok (mkResponse NNG_HTTP_STATUS_OK (text "application/json") contents).

Definition handle_nodes_request (allocated : bool) : result Z Response :=
  respond allocated (text "{}").

(** The body has quotes, ASCII 34. *)
Definition handle_status_request (allocated : bool) : result Z Response :=
  respond allocated (123 :: 34 :: text "status" ++ 34 :: text ": " ++ 34 :: text "ok" ++ [34; 125]).
End http.
Import http.

Section Facts.
Context {A : HttpApi} {L : HttpLaws A}.
Implicit Types (st : h_state) (i : Impl).

Lemma drop_one_cons s l : drop_one s (s :: l) = l.
Proof. cbn. by rewrite Z.eqb_refl. Qed.

(** Runs that may meet undefined behaviour: what holds when they end. *)
Definition ends_with {B} (m : prog h_state B) st (Q : B → h_state → Prop) : Prop :=
  ∀ b st', m st = Done (b, st') → Q b st'.

Lemma ends_bind {B C} (m : prog h_state B) (f : B → prog h_state C) st Q :
  ends_with m st (fun b st' => ends_with (f b) st' Q) → ends_with (m ≫= f) st Q.
Proof.
  intros H c st' E. unfold mbind, prog_mbind in E. destruct (m st) as [[b s]| |] eqn:Em; [|done..].
  exact (H b s Em c st' E).
Qed.

Lemma ends_ret {B} (b : B) st (Q : B → h_state → Prop) : Q b st → ends_with (mret b) st Q.
Proof. by intros HQ ?? [= <- <-]. Qed.

Lemma ends_call {B} (f : h_state → B * h_state) st Q : Q (f st).1 (f st).2 → ends_with (call f) st Q.
Proof. intros HQ b st' E. unfold call in E. destruct (f st). by injection E as <- <-. Qed.

Lemma ends_effect f st (Q : () → h_state → Prop) : Q () (f st) → ends_with (effect f) st Q.
Proof. by intros HQ ?? [= <- <-]. Qed.

Lemma ends_free_added h st (Q : () → h_state → Prop) :
  is_Some (hv_added (h_view st) !! h) → ends_with (attempt (h_handler_free h)) st Q.
Proof.
  intros Ha b st' E. unfold attempt in E. destruct (hlaw_free h st) as [_ Hf].
  by rewrite (Hf Ha) in E.
Qed.

Lemma ends_free h st (Q : () → h_state → Prop) :
  h ∈ hv_handlers (h_view st) →
  (∀ st', h_view st' = hv_handle (fun hs => hs ∖ {[h]}) (fun m => m) (h_view st) → Q () st') →
  ends_with (attempt (h_handler_free h)) st Q.
Proof.
  intros Hh HQ b st' E. unfold attempt in E. destruct (hlaw_free h st) as [Hf _].
  destruct (Hf Hh) as (st1 & E1 & Hv). rewrite E1 in E. injection E as <- <-. auto.
Qed.

Lemma ends_url_free u st (Q : () → h_state → Prop) :
  u ∈ hv_urls (h_view st) →
  (∀ st', h_view st' = hv_url (fun us => us ∖ {[u]}) (h_view st) → Q () st') →
  ends_with (attempt (h_url_free u)) st Q.
Proof.
  intros Hu HQ b st' E. unfold attempt in E. destruct (hlaw_url_free u st Hu) as (st1 & E1 & Hv).
  rewrite E1 in E. injection E as <- <-. auto.
Qed.

(** The view while a start is under way: a URL and a hold on a server. *)
Definition underway (server url : Z) (v : HView) : HView :=
  hv_hold (cons server) (hv_url (union {[url]}) v).

Lemma ends_withdraw i url what v st (Q : result exception () * Impl → h_state → Prop) :
  url ∉ hv_urls v → h_view st = underway (m_http_server i) url v →
  (∀ e st', h_view st' = v → Q (Err e, i) st') → ends_with (withdraw i url what) st Q.
Proof.
  intros Hu Hv HQ. unfold withdraw. apply ends_bind, ends_effect, ends_bind, ends_url_free.
  { rewrite hlaw_release, Hv. cbn. set_solver. }
  intros st' Hv'. apply ends_ret, HQ. rewrite Hv', hlaw_release, Hv.
  unfold underway, hv_hold, hv_url. cbn [hv_urls hv_held hv_running hv_handlers hv_added hv_configs].
  rewrite drop_one_cons. replace (({[url]} ∪ hv_urls v) ∖ {[url]}) with (hv_urls v) by set_solver.
  by destruct v.
Qed.

(** A running server that owns two handlers. *)
Definition serving (i : Impl) (v : HView) : HView :=
  hv_run (union {[m_http_server i]})
    (hv_handle (fun hs => hs) (fun m => <[m_http_handler_nodes i := m_http_server i]>
                                 (<[m_http_handler_status i := m_http_server i]> m))
       (hv_hold (cons (m_http_server i)) v)).

Lemma handle_fresh h s v :
  h ∉ hv_handlers v →
  hv_handle (fun hs => hs ∖ {[h]}) (<[h := s]>) (hv_handle (union {[h]}) (fun m => m) v)
  = hv_handle (fun hs => hs) (<[h := s]>) v.
Proof. intros Hh. unfold hv_handle. cbn. f_equal. set_solver. Qed.

Lemma handle_back h v :
  h ∉ hv_handlers v →
  hv_handle (fun hs => hs ∖ {[h]}) (fun m => m) (hv_handle (union {[h]}) (fun m => m) v) = v.
Proof.
  intros Hh. unfold hv_handle. cbn.
  replace (({[h]} ∪ hv_handlers v) ∖ {[h]}) with (hv_handlers v) by set_solver. by destruct v.
Qed.

Lemma ends_configure handler st (Q : () → h_state → Prop) :
  (∀ st', h_view st' = h_view st → Q () st') → ends_with (configure handler) st Q.
Proof. intros HQ. unfold configure. apply ends_bind, ends_effect, ends_effect, HQ. by rewrite !hlaw_set. Qed.

Lemma ends_serve i url v st (Q : result exception () * Impl → h_state → Prop) :
  url ∉ hv_urls v → h_view st = underway (m_http_server i) url v →
  (∀ e i' st', h_view st' = v → m_http_running i' = m_http_running i → Q (Err e, i') st') →
  (∀ i' st', h_view st' = serving i' v → m_http_running i' = m_http_running i →
     m_http_server i' = m_http_server i → Q (Ok (), i') st') →
  ends_with (serve i url) st Q.
Proof.
  intros Hu Hv HE HO. unfold serve. apply ends_bind, ends_call.
  pose proof (hlaw_alloc (text "/status") st) as H1.
  destruct (h_handler_alloc _ st) as [[status|] st1]; cbn in H1; cbn [fst snd].
  2: { eapply ends_withdraw; [done|by rewrite H1|]. intros e st' Hv'. by apply HE. }
  destruct H1 as (Hf1 & Hn1 & H1). cbv zeta.
  apply ends_bind, ends_configure. intros st1' E1. rewrite H1 in E1. apply ends_bind, ends_call.
  match goal with |- context [h_server_add ?s ?h ?w] =>
    pose proof (hlaw_add s h w) as H2; destruct (h_server_add s h w) as [[[]|] st2] end;
    cbn in H2; cbn [fst snd].
  2: { apply ends_bind, ends_free.
       { rewrite H2, E1. cbn. set_solver. }
       intros st3 H3. eapply ends_withdraw; [done| |].
       { rewrite H3, H2, E1. rewrite handle_back by done. rewrite Hv. done. }
       intros e st' Hv'. by apply HE. }
  rewrite E1, handle_fresh in H2 by done. apply ends_bind, ends_call.
  match goal with |- context [h_handler_alloc ?p st2] =>
    pose proof (hlaw_alloc p st2) as H3; destruct (h_handler_alloc p st2) as [[nodes|] st3] end;
    cbn in H3; cbn [fst snd].
  2: { apply ends_bind, ends_free_added. rewrite H3, H2. cbn. rewrite lookup_insert_eq. eauto. }
  destruct H3 as (Hf3 & Hn3 & H3). apply ends_bind, ends_configure. intros st3' E3.
  rewrite H3 in E3. apply ends_bind, ends_call.
  assert (nodes ≠ status) as Hne by (intros ->; rewrite H2 in Hn3; cbn in Hn3; by rewrite lookup_insert_eq in Hn3).
  match goal with |- context [h_server_add ?s ?h ?w] =>
    pose proof (hlaw_add s h w) as H4; destruct (h_server_add s h w) as [[[]|] st4] end;
    cbn in H4; cbn [fst snd].
  2: { apply ends_bind, ends_free_added. rewrite H4, E3, H2. cbn. rewrite lookup_insert_eq. eauto. }
  rewrite E3, handle_fresh in H4 by done. apply ends_bind, ends_call.
  match goal with |- context [h_server_start ?s ?w] =>
    pose proof (hlaw_start s w) as H5; destruct (h_server_start s w) as [[[]|] st5] end;
    cbn in H5; cbn [fst snd].
  2: { apply ends_bind, ends_free_added. rewrite H5, H4, H2. cbn.
       rewrite lookup_insert_ne, lookup_insert_eq by done. eauto. }
  apply ends_bind, ends_url_free.
  { rewrite H5, H4, H2, Hv. cbn. set_solver. }
  intros st6 H6. apply ends_ret, HO; [|done..]. rewrite H6, H5, H4, H2, Hv.
  unfold serving, underway, hv_run, hv_handle, hv_hold, hv_url. cbn. f_equal. set_solver.
Qed.

(** A start of the status server that ends normally has either succeeded,
    and then the program holds one more reference to a running server that owns
    the two handlers and no other object is left; or it has thrown, and then
    every object it acquired is released.  (A failure after the first handler
    was added does not end normally: the handler is freed by the program
    although it belongs to the server.) *)
Theorem start_outcome i port st r i' st' :
  m_http_running i = false → m_cert_file i = [] →
  start i port st = Done ((r, i'), st') →
  match r with
  | Ok _ => h_view st' = serving i' (h_view st)
  | Err _ => h_view st' = h_view st
  end ∧ m_http_running i' = false.
Proof.
  intros Hr Hc. revert r i'.
  cut (ends_with (start i port) st (fun ri st' => match ri.1 with
    | Ok _ => h_view st' = serving ri.2 (h_view st) | Err _ => h_view st' = h_view st end
    ∧ m_http_running ri.2 = false)).
  { intros H r i' E. exact (H (r, i') st' E). }
  unfold start. rewrite Hr. apply ends_bind, ends_call.
  match goal with |- context [h_url_parse ?a st] =>
    pose proof (hlaw_parse a st) as H1; destruct (h_url_parse a st) as [[url|] st1] end;
    cbn in H1; cbn [fst snd]; [|by apply ends_ret].
  destruct H1 as [Hu H1]. apply ends_bind, ends_call.
  pose proof (hlaw_hold url st1) as H2. destruct (h_server_hold url st1) as [[server|] st2];
    cbn in H2; cbn [fst snd].
  2: { apply ends_bind, ends_url_free; [rewrite H2, H1; cbn; set_solver|]. intros st3 H3.
       apply ends_ret. split; [|done]. cbn. rewrite H3, H2, H1. unfold hv_url. cbn.
       replace (({[url]} ∪ hv_urls (h_view st)) ∖ {[url]}) with (hv_urls (h_view st)) by set_solver.
       by destruct (h_view st). }
  cbv zeta. cbn [set_server m_cert_file]. rewrite Hc. rewrite bool_decide_true by done. cbn [negb andb].
  eapply ends_serve; [done|by rewrite H2, H1|..]; cbn.
  - intros e i' st3 Hv Hr'. by rewrite Hr'.
  - intros i' st3 Hv Hr' _. by rewrite Hr'.
Qed.

(** *** Calls in sequence *)

Definition flags i := (m_http_running i, m_cert_file i, m_key_file i).

Lemma ends_attempt {B} (f : h_state → option (B * h_state)) st (Q : B → h_state → Prop) :
  (∀ b st', Q b st') → ends_with (attempt f) st Q.
Proof. intros HQ b st' E. unfold attempt in E. destruct (f st) as [[]|]; [|done]. apply HQ. Qed.

Lemma withdraw_flags i url what st c :
  flags i = c → ends_with (withdraw i url what) st (fun ri _ => flags ri.2 = c).
Proof.
  intros Hc. unfold withdraw, throw. apply ends_bind, ends_effect, ends_bind, ends_attempt. intros.
  by apply ends_ret.
Qed.

(** The flags are the same wherever a member function ends. *)
Ltac same_flags known :=
  repeat first
    [ known
    | by apply withdraw_flags
    | by apply ends_ret
    | apply ends_bind
    | apply ends_call
    | apply ends_effect
    | apply ends_attempt; intros
    | match goal with |- ends_with (match (?r).1 with Ok _ => _ | Err _ => _ end) _ _ =>
        destruct r as [[?|?] ?]; cbn [fst snd] end ].

Lemma serve_flags i url st c :
  flags i = c → ends_with (serve i url) st (fun ri _ => flags ri.2 = c).
Proof. intros Hc. unfold serve, configure. cbv zeta. same_flags fail. Qed.

Lemma secure_flags i url st c :
  flags i = c → ends_with (secure i url) st (fun ri _ => flags ri.2 = c).
Proof. intros Hc. unfold secure. same_flags ltac:(by apply serve_flags). Qed.

Lemma start_flags i port st c :
  flags i = c → ends_with (start i port) st (fun ri _ => flags ri.2 = c).
Proof.
  intros Hc. unfold start, throw. destruct (m_http_running i); [by apply ends_ret|]. cbv zeta.
  apply ends_bind, ends_call. destruct (h_url_parse _ st) as [[url|] st1]; cbn [fst snd]; [|by apply ends_ret].
  apply ends_bind, ends_call. destruct (h_server_hold url st1) as [[server|] st2]; cbn [fst snd].
  - destruct (negb _ && negb _); [by apply secure_flags|by apply serve_flags].
  - apply ends_bind, ends_attempt. intros b st'. by apply ends_ret.
Qed.

(** The public calls of one object. *)
Inductive http_step : Impl * h_state → Impl * h_state → Prop :=
| http_start i port st r i' st' :
    start i port st = Done ((r, i'), st') → http_step (i, st) (i', st')
| http_stop i st i' st' : stop i st = Done (i', st') → http_step (i, st) (i', st').

Lemma stop_idle i st : m_http_running i = false → stop i st = Done (i, st).
Proof. intros Hr. unfold stop. by rewrite Hr. Qed.

(** [stop] never does anything: whatever sequence of [start] and [stop]
    calls an object has gone through, the running flag is still false, so that
    [stop] returns at once and leaves every server that was started running. *)
Theorem stop_never_effective st0 i st :
  rtc http_step (Impl_new, st0) (i, st) → stop i st = Done (i, st).
Proof.
  intros Hr. apply stop_idle. enough (flags i = (false, [], [])) as [= -> _ _] by done.
  remember (Impl_new, st0) as s eqn:Es. remember (i, st) as s' eqn:Es'.
  assert (flags s.1 = (false, [], [])) as H0 by (by subst). clear Es. revert i st Es' H0.
  induction Hr as [s|s1 s2 s3 Hstep Hr IH]; intros i st Es' H0; [by subst|].
  eapply IH; [done|]. destruct Hstep as [i1 port st1 r i2 st2 E|i1 st1 i2 st2 E]; cbn in *.
  - exact (start_flags i1 port st1 _ H0 (r, i2) st2 E).
  - injection H0 as Hf Hc Hk. rewrite stop_idle in E by done. injection E as <- _. by unfold flags; rewrite Hf, Hc, Hk.
Qed.
End Facts.

(** ** A concrete nng

    It can be told at which call to run out of memory. *)
Module ToyHttp.

Record State := mkState { th_view : HView; th_until : option nat }.

Definition answer {B} (f : HView → B * HView) (st : State) : result Z B * State :=
  match th_until st with
  | Some O => (Err NNG_ENOMEM, mkState (th_view st) None)
  | u => let '(b, v) := f (th_view st) in
         (Ok b, mkState v (match u with Some (S n) => Some n | _ => None end))
  end.

Definition update f (st : State) : State := mkState (f (th_view st)) (th_until st).

Definition handlers (v : HView) : gset Z := hv_handlers v ∪ dom (hv_added v).

#[global] Instance toy_http : HttpApi := {|
  h_state := State;
  h_url_parse a := answer (fun v => let u := unused (hv_urls v) in (u, hv_url (union {[u]}) v));
  h_url_free u st := if decide (u ∈ hv_urls (th_view st))
                     then Some ((), update (hv_url (fun us => us ∖ {[u]})) st) else None;
  h_server_hold u := answer (fun v => (7, hv_hold (cons 7) v));
  h_server_release s := update (hv_hold (drop_one s));
  h_tls_alloc := answer (fun v => let c := unused (hv_configs v) in (c, hv_config (union {[c]}) v));
  h_tls_own_cert c a b := answer (fun v => ((), v));
  h_tls_free c := update (hv_config (fun cs => cs ∖ {[c]}));
  h_server_set_tls s c := answer (fun v => ((), v));
  h_handler_alloc p := answer (fun v =>
    let h := unused (handlers v) in (h, hv_handle (union {[h]}) (fun m => m) v));
  h_handler_set h x st := st;
  h_server_add s h := answer (fun v => ((), hv_handle (fun hs => hs ∖ {[h]}) (<[h := s]>) v));
  h_handler_free h st :=
    if decide (h ∈ hv_handlers (th_view st) ∧ hv_added (th_view st) !! h = None)
    then Some ((), update (hv_handle (fun hs => hs ∖ {[h]}) (fun m => m)) st) else None;
  h_server_start s := answer (fun v => ((), hv_run (union {[s]}) v));
  h_server_stop s := update (hv_run (fun rs => rs ∖ {[s]}));
|}.

(** A handler is the program's or a server's. *)
Definition view (st : State) : HView :=
  let v := th_view st in
  mkHView (hv_urls v) (hv_held v) (hv_running v) (hv_handlers v ∖ dom (hv_added v))
    (hv_added v) (hv_configs v).

Lemma http_answer {B} (f : HView → B * HView) st (P : B → HView → HView → Prop) :
  P (f (th_view st)).1 (view st) (view (mkState (f (th_view st)).2 None)) →
  match answer f st with
  | (Ok b, st') => P b (view st) (view st')
  | (Err e, st') => view st' = view st
  end.
Proof.
  intros HP. unfold answer. destruct (th_until st) as [[|n]|]; [done|..];
    by destruct (f (th_view st)).
Qed.

Ltac toy_call P := refine (http_answer _ _ P _); unfold view; cbn.

#[global] Instance toy_http_laws : HttpLaws toy_http.
Proof.
  apply (Build_HttpLaws toy_http view); try done.
  - intros a st. toy_call (fun (u : Z) v v' => (u ∉ hv_urls v) ∧ v' = hv_url (union {[u]}) v).
    split; [apply (proj1 (unused_fresh _))|done].
  - intros u st Hu. cbn. rewrite decide_True by exact Hu. eexists. split; [done|]. done.
  - intros u st. by toy_call (fun (s : Z) v v' => v' = hv_hold (cons s) v).
  - intros st. toy_call (fun (c : Z) v v' => (c ∉ hv_configs v) ∧ v' = hv_config (union {[c]}) v).
    split; [apply (proj1 (unused_fresh _))|done].
  - intros c a b st. by toy_call (fun (_ : ()) (v v' : HView) => v' = v).
  - intros s c st. by toy_call (fun (_ : ()) (v v' : HView) => v' = v).
  - intros p st. toy_call (fun (h : Z) v v' => (h ∉ hv_handlers v) ∧ hv_added v !! h = None
      ∧ v' = hv_handle (union {[h]}) (fun m => m) v).
    pose proof (proj1 (unused_fresh (handlers (th_view st)))) as Hf. unfold handlers in Hf at 2.
    apply not_elem_of_union in Hf as [H1 H2]. split_and!.
    + set_solver.
    + by apply not_elem_of_dom.
    + unfold hv_handle. cbn. f_equal. set_solver.
  - intros s h st. toy_call (fun (_ : ()) v v' => v' = hv_handle (fun hs => hs ∖ {[h]}) (<[h := s]>) v).
    unfold hv_handle. cbn. f_equal. rewrite dom_insert_L. set_solver.
  - intros h st. cbn. split.
    + intros Hh. apply elem_of_difference in Hh as [H1 H2].
      rewrite decide_True by (split; [done|by apply not_elem_of_dom]). eexists. split; [done|].
      unfold view, hv_handle. cbn. f_equal. set_solver.
    + intros [s Hs]. rewrite decide_False; [done|]. intros [_ Hn]. unfold view in Hs. cbn in Hs. congruence.
  - intros s st. by toy_call (fun (_ : ()) v v' => v' = hv_run (union {[s]}) v).
Defined.

Definition idle (u : option nat) : State := mkState (mkHView ∅ [] ∅ ∅ ∅ ∅) u.
End ToyHttp.

Lemma start_outcome_witness :
  ∃ i' st', start Impl_new 8080 (ToyHttp.idle None) = Done ((Ok (), i'), st')
  ∧ h_view st' = serving i' (h_view (ToyHttp.idle None)) ∧ m_http_running i' = false.
Proof.
  destruct (outcome_run (fun x => is_ok x.1.1) (start (H := ToyHttp.toy_http) Impl_new 8080 (ToyHttp.idle None)) true)
    as ([[[[]|e] i'] st'] & E & Ho); [vm_compute; reflexivity| |discriminate].
  exists i', st'. split; [exact E|].
  exact (start_outcome (A := ToyHttp.toy_http) Impl_new 8080 (ToyHttp.idle None) (Ok ()) i' st' eq_refl eq_refl E).
Defined.

(** Running out of memory for the second handler frees the first one, which the
    server owns. *)
Example second_handler_undefined :
  start (H := ToyHttp.toy_http) Impl_new 8080 (ToyHttp.idle (Some 4%nat)) = Undefined.
Proof. vm_compute. reflexivity. Qed.

Lemma stop_never_effective_witness :
  ∃ i st, start Impl_new 8080 (ToyHttp.idle None) = Done ((Ok (), i), st)
  ∧ elements (hv_running (ToyHttp.th_view st)) = [7] ∧ stop i st = Done (i, st).
Proof.
  destruct (outcome_run (fun x => (is_ok x.1.1, elements (hv_running (ToyHttp.th_view x.2))))
    (start (H := ToyHttp.toy_http) Impl_new 8080 (ToyHttp.idle None)) (true, [7]))
    as ([[[[]|e] i] st] & E & Ho); [vm_compute; reflexivity| |discriminate].
  injection Ho as Ho. exists i, st. split; [exact E|]. split; [exact Ho|].
  apply (stop_never_effective (A := ToyHttp.toy_http) (ToyHttp.idle None) i st).
  apply rtc_once. exact (http_start _ _ _ _ _ _ E).
Defined.
