(* ===== verification/YaJson.v ===== *)
(** * YaJson: the JSON document wrapper

    Models [src/ya_json/yajson.cpp].  The documents are those of the nlohmann
    library, whose interface is [JsonApi]; [JsonLaws] is what its documentation
    says of the calls, in terms of the kind of a value ([j_view]).  [ToyJson] is
    a concrete instance.

    A [YaJson] owns its document through a [std::unique_ptr]; it is [None] after
    a move, and then every call is undefined.  The wrapper promises
    [std::runtime_error]; an exception of the library that gets through is
    [Escaped].

    The theorems: what is set is read back and other keys are untouched; what
    each getter returns on every kind of document; which calls let an exception
    of the library through; a text that is JSON is never taken for a file
    name. *)

From stdpp Require Import countable.
From S2P Require Import Prelude Text Program.

(** ** The library *)

Inductive json_exception :=
| parse_error (what : bytes)
| type_error (what : bytes)
| out_of_range (what : bytes)
| other_error (what : bytes).

Definition json_what (e : json_exception) : bytes :=
  match e with parse_error w | type_error w | out_of_range w | other_error w => w end.

(** One layer of a value: its kind and its parts. *)
Inductive jvalue (J D : Type) :=
| VNull
| VBool (b : bool)
| VInt (z : Z)
| VFloat (d : D)
| VString (s : bytes)
| VArray (l : list J)
| VObject (m : gmap bytes J).
Arguments VNull {J D}.
Arguments VBool {J D} b.
Arguments VInt {J D} z.
Arguments VFloat {J D} d.
Arguments VString {J D} s.
Arguments VArray {J D} l.
Arguments VObject {J D} m.

Class JsonApi := {
  json : Type;
  double : Type;
  (* [json::object()], [json::parse], [ifs >> document], [dump] *)
  json_object : json;
  json_parse : bytes → result json_exception json;
  json_read : bytes → json → result json_exception () * json;
  json_dump : json → result json_exception bytes;
  (* [document.at(key)], [document[key] = value] *)
  json_at : json → bytes → result json_exception json;
  json_put : json → bytes → json → result json_exception json;
  json_is_object : json → bool;
  json_is_integer : json → bool;
  (* what a range-for visits *)
  json_items : json → list json;
  json_get_string : json → result json_exception bytes;
  json_get_int : json → result json_exception Z;
  json_get_bool : json → result json_exception bool;
  json_get_double : json → result json_exception double;
  json_of_string : bytes → json;
  json_of_int : Z → json;
  json_of_bool : bool → json;
  json_of_double : double → json;
  json_of_ints : list Z → json;
}.

Definition int64 (z : Z) : Prop := - 2 ^ 63 <= z < 2 ^ 63.

Definition rejects {A} (r : result json_exception A) : Prop := ∃ w, r = Err (type_error w).

Class JsonLaws (J : JsonApi) := {
  j_view : json → jvalue json double;
  jlaw_object : j_view json_object = VObject ∅;
  jlaw_at j k : match j_view j with
    | VObject m => match m !! k with
                   | Some v => json_at j k = Ok v
                   | None => ∃ w, json_at j k = Err (out_of_range w)
                   end
    | _ => rejects (json_at j k)
    end;
  jlaw_put j k v : match j_view j with
    | VObject m => ∃ j', json_put j k v = Ok j' ∧ j_view j' = VObject (<[k := v]> m)
    | VNull => ∃ j', json_put j k v = Ok j' ∧ j_view j' = VObject {[k := v]}
    | _ => rejects (json_put j k v)
    end;
  jlaw_is_object j : json_is_object j = match j_view j with VObject _ => true | _ => false end;
  jlaw_is_integer j : json_is_integer j = match j_view j with VInt _ => true | _ => false end;
  jlaw_items j : match j_view j with
    | VArray l => json_items j = l
    | VObject m => json_items j ≡ₚ (map_to_list m).*2
    | VNull => json_items j = []
    | _ => json_items j = [j]
    end;
  jlaw_get_string j : match j_view j with
    | VString s => json_get_string j = Ok s
    | _ => rejects (json_get_string j)
    end;
  jlaw_get_bool j : match j_view j with
    | VBool b => json_get_bool j = Ok b
    | _ => rejects (json_get_bool j)
    end;
  (* a number of the other kind is converted *)
  jlaw_get_int j : match j_view j with
    | VInt z => int64 z → json_get_int j = Ok z
    | VFloat _ => is_ok (json_get_int j) = true
    | _ => rejects (json_get_int j)
    end;
  jlaw_get_int_any j z : j_view j = VInt z → is_ok (json_get_int j) = true;
  jlaw_get_double j : match j_view j with
    | VFloat d => json_get_double j = Ok d
    | VInt _ => is_ok (json_get_double j) = true
    | _ => rejects (json_get_double j)
    end;
  jlaw_of_string s : j_view (json_of_string s) = VString s;
  jlaw_of_int z : int64 z → j_view (json_of_int z) = VInt z;
  jlaw_of_bool b : j_view (json_of_bool b) = VBool b;
  jlaw_of_double d : j_view (json_of_double d) = VFloat d;
  jlaw_of_ints l : Forall int64 l → j_view (json_of_ints l) = VArray (json_of_int <$> l);
  (* what is written can be read, as an object again if it was one *)
  jlaw_dump j s : json_dump j = Ok s →
    ∃ j', json_parse s = Ok j' ∧ json_is_object j' = json_is_object j;
  (* no JSON text ends in the letter n *)
  jlaw_last s j : json_parse s = Ok j → last s ≠ Some 110;
}.

(** ** The wrapper *)

Module yajson.
Section Impl.
Context `{JsonApi}.

Inductive thrown := Thrown (e : exception) | Escaped (e : json_exception).

(** What a method of [Impl] gives: a value or an exception. *)
Abbreviation attempt A := (result thrown A).

Definition raise {A} (what : bytes) : attempt A := Err (Thrown (runtime_error what)).

(** The library's exceptions inside a [try]. *)
Definition lib {A} (r : result json_exception A) : attempt A :=
  match r with Ok a => Ok a | Err e => Err (Escaped e) end.

(** [catch (const nlohmann::json::out_of_range& e)] *)
Definition catch_range {A} (key : bytes) (r : attempt A) : attempt A :=
  match r with
  | Err (Escaped (out_of_range _)) => raise (text "Key not found: " ++ key)
  | _ => r
  end.

(** [catch (const nlohmann::json::type_error& e)] *)
Definition catch_type {A} (key expected : bytes) (r : attempt A) : attempt A :=
  match r with
  | Err (Escaped (type_error _)) => raise (text "Type mismatch for key " ++ key ++ expected)
  | _ => r
  end.

(** [catch (const nlohmann::json::exception& e)] *)
Definition catch_all {A} (what : bytes) (r : attempt A) : attempt A :=
  match r with
  | Err (Escaped e) => raise (what ++ json_what e)
  | _ => r
  end.

Definition Impl_new : json := json_object.

Definition loadFromString (doc : json) (str : bytes) : attempt () * json :=
  match catch_all (text "JSON parse error: ") (lib (json_parse str)) with
  | Ok j => (Ok (), j)
  | Err e => (Err e, doc)
  end.

(** [disk] gives the contents of the files that can be opened. *)
Definition loadFromFile (disk : bytes → option bytes) (doc : json) (file : bytes)
  : attempt () * json :=
  match disk (until_nul file) with
  | None => (raise (text "Failed to open file: " ++ file), doc)
  | Some contents =>
      let '(r, doc) := json_read contents doc in
      (catch_all (text "JSON parse error in file " ++ file ++ text ": ") (lib r), doc)
  end.

Definition getString (doc : json) (key : bytes) : attempt bytes :=
  catch_type key (text ": expected string") (catch_range key (
    v ← lib (json_at doc key); lib (json_get_string v))).

Definition getInt (doc : json) (key : bytes) : attempt Z :=
  catch_type key (text ": expected integer") (catch_range key (
    v ← lib (json_at doc key); lib (json_get_int v))).

Definition getBool (doc : json) (key : bytes) : attempt bool :=
  catch_type key (text ": expected boolean") (catch_range key (
    v ← lib (json_at doc key); lib (json_get_bool v))).

Definition getDouble (doc : json) (key : bytes) : attempt double :=
  catch_type key (text ": expected double") (catch_range key (
    v ← lib (json_at doc key); lib (json_get_double v))).

Fixpoint collect_ints (key : bytes) (items : list json) : attempt (list Z) :=
  match items with
  | [] => Ok []
  | item :: items' =>
      if negb (json_is_integer item)
      then raise (text "Array element for key " ++ key ++ text " is not an integer")
      else z ← lib (json_get_int item); zs ← collect_ints key items'; Ok (z :: zs)
  end.

Definition getArray (doc : json) (key : bytes) : attempt (list Z) :=
  catch_type key (text ": expected array") (catch_range key (
    v ← lib (json_at doc key); collect_ints key (json_items v))).

Definition getObject (doc : json) (key : bytes) : attempt json :=
  catch_range key (
    v ← lib (json_at doc key);
    if negb (json_is_object v)
    then raise (text "Value for key " ++ key ++ text " is not an object")
    else lib (json_at doc key)).

Fixpoint collect_objects (key : bytes) (items : list json) : attempt (list json) :=
  match items with
  | [] => Ok []
  | elem :: items' =>
      if negb (json_is_object elem)
      then raise (text "Array element for key " ++ key ++ text " is not an object")
      else rest ← collect_objects key items'; Ok (elem :: rest)
  end.

Definition getArrayObject (doc : json) (key : bytes) : attempt (list json) :=
  catch_type key (text ": expected array of objects") (catch_range key (
    v ← lib (json_at doc key); collect_objects key (json_items v))).

(** [m_document[key] = value] *)
Definition assign (doc : json) (key : bytes) (value : json) : attempt () * json :=
  match json_put doc key value with
  | Ok doc => (Ok (), doc)
  | Err e => (Err (Escaped e), doc)
  end.

Definition setString doc key (value : bytes) := assign doc key (json_of_string value).
Definition setInt doc key (value : Z) := assign doc key (json_of_int value).
Definition setBool doc key (value : bool) := assign doc key (json_of_bool value).
Definition setDouble doc key (value : double) := assign doc key (json_of_double value).
Definition setArray doc key (value : list Z) := assign doc key (json_of_ints value).

Definition toString (doc : json) : attempt bytes :=
  catch_all (text "Failed to serialize JSON: ") (lib (json_dump doc)).

Definition setObject (doc : json) (key : bytes) (value : json) : attempt () * json :=
  let failure := text "Failed to set object for key " ++ key ++ text ": " in
  match toString value with
  | Err e => (Err e, doc)
  | Ok s =>
      match lib (json_parse s) with
      | Err e => (catch_all failure (Err e), doc)
      | Ok v => let '(r, doc) := assign doc key v in (catch_all failure r, doc)
      end
  end.
End Impl.

(** *** The owner of the document *)

Section Owner.
Context `{JsonApi}.

(** [std::unique_ptr<Impl>] *)
Definition YaJson := option json.

(** A call through [m_impl]. *)
Definition through {A} (self : YaJson) (f : json → A) : exec A :=
  match self with Some doc => Done (f doc) | None => Undefined end.

(** A call that may change the document. *)
Definition through_set (self : YaJson) (f : json → result thrown () * json)
  : exec (result thrown () * YaJson) :=
  match self with
  | Some doc => let '(r, doc) := f doc in Done (r, Some doc)
  | None => Undefined
  end.

(** [json.size() > 5 && json.substr(json.size() - 5) == ".json"] *)
Definition names_file (str : bytes) : bool :=
  (5 <? zlen str) && bool_decide (drop (length str - 5) str = text ".json").

(** [YaJson(const std::string&)]: an exception leaves no object. *)
Definition YaJson_new (disk : bytes → option bytes) (str : bytes) : result thrown YaJson :=
  let '(r, doc) := if names_file str then loadFromFile disk Impl_new str
                   else loadFromString Impl_new str in
  match r with Ok _ => Ok (Some doc) | Err e => Err e end.

Definition YaJson_default : YaJson := Some Impl_new.

(** [YaJson(YaJson&&)]: the new object and what is left of the other. *)
Definition YaJson_move (other : YaJson) : YaJson * YaJson := (other, None).

(** [operator=(YaJson&&)]; [same] is [this == &other]. *)
Definition YaJson_move_assign (same : bool) (self other : YaJson) : YaJson * YaJson :=
  if same then (self, other) else (other, None).

Definition YaJson_getObject (self : YaJson) (key : bytes) : exec (result thrown YaJson) :=
  through self (fun doc => match getObject doc key with Ok v => Ok (Some v) | Err e => Err e end).

Definition YaJson_getArrayObject (self : YaJson) (key : bytes)
  : exec (result thrown (list YaJson)) :=
  through self (fun doc =>
    match getArrayObject doc key with Ok vs => Ok (map Some vs) | Err e => Err e end).

(** The assignment operators of [YaJsonProxy], by the type of the value. *)
Inductive Assigned :=
| AString (value : bytes)
| ACString (value : bytes)
| AInt (value : Z)
| AInt64 (value : Z)
| ABool (value : bool)
| ADouble (value : double)
| AInts (value : list Z)
| AObject (value : YaJson).

Definition Proxy_assign (parent : YaJson) (key : bytes) (value : Assigned)
  : exec (result thrown () * YaJson) :=
  match value with
  | AString v => through_set parent (fun doc => setString doc key v)
  | ACString v => through_set parent (fun doc => setString doc key (until_nul v))
  | AInt v => through_set parent (fun doc => setInt doc key v)
  | AInt64 v => through_set parent (fun doc => setInt doc key v)
  | ABool v => through_set parent (fun doc => setBool doc key v)
  | ADouble v => through_set parent (fun doc => setDouble doc key v)
  | AInts v => through_set parent (fun doc => setArray doc key v)
  | AObject (Some v) => through_set parent (fun doc => setObject doc key v)
  | AObject None => Undefined
  end.
End Owner.
End yajson.
Import yajson.

(** ** What the wrapper does *)

Section Facts.
Context {J : JsonApi} {L : JsonLaws J}.
Implicit Types (doc v : json) (key : bytes).

(** The members of a document that is or becomes an object. *)
Definition members doc : option (gmap bytes json) :=
  match j_view doc with VObject m => Some m | VNull => Some ∅ | _ => None end.

Lemma put_members doc key v m :
  members doc = Some m → ∃ doc', json_put doc key v = Ok doc' ∧ j_view doc' = VObject (<[key := v]> m).
Proof.
  unfold members. pose proof (jlaw_put doc key v) as Hp.
  destruct (j_view doc); intros [= <-]; [by rewrite insert_empty|done].
Qed.

Lemma at_member doc key m v : j_view doc = VObject m → m !! key = Some v → json_at doc key = Ok v.
Proof. intros Hd Hv. pose proof (jlaw_at doc key) as Ha. rewrite Hd, Hv in Ha. done. Qed.

(** Values the assignment operators are meant for. *)
Definition assignable (value : Assigned) : Prop :=
  match value with
  | AInt z | AInt64 z => int64 z
  | AInts l => Forall int64 l
  | AObject (Some child) => json_is_object child = true ∧ is_ok (json_dump child) = true
  | AObject None => False
  | _ => True
  end.

(** The getter of the same type returns the value. *)
Definition reads_back doc key (value : Assigned) : Prop :=
  match value with
  | AString s => getString doc key = Ok s
  | ACString s => getString doc key = Ok (until_nul s)
  | AInt z | AInt64 z => getInt doc key = Ok z
  | ABool b => getBool doc key = Ok b
  | ADouble d => getDouble doc key = Ok d
  | AInts l => getArray doc key = Ok l
  | AObject (Some child) => ∃ s copy,
      json_dump child = Ok s ∧ json_parse s = Ok copy ∧ getObject doc key = Ok copy
  | AObject None => False
  end.

Lemma collect_of_ints key l : Forall int64 l → collect_ints key (json_of_int <$> l) = Ok l.
Proof.
  induction 1 as [|z l Hz Hl IH]; [done|]. cbn [fmap list_fmap collect_ints].
  rewrite jlaw_is_integer, jlaw_of_int by done. cbn [negb].
  pose proof (jlaw_get_int (json_of_int z)) as Hg. rewrite jlaw_of_int in Hg by done.
  rewrite Hg by done. cbn. change (collect_ints key (map json_of_int l)) with
    (collect_ints key (json_of_int <$> l)). by rewrite IH.
Qed.

(** The value that ends up in the document. *)
Lemma assign_member doc key m v :
  members doc = Some m →
  ∃ doc', assign doc key v = (Ok (), doc') ∧ j_view doc' = VObject (<[key := v]> m)
  ∧ json_at doc' key = Ok v.
Proof.
  intros Hm. destruct (put_members doc key v m Hm) as (doc' & E & Hv). unfold assign. rewrite E.
  exists doc'. split_and!; [done..|]. eapply at_member; [done|apply lookup_insert_eq].
Qed.

Lemma set_object_member doc key m child :
  members doc = Some m → json_is_object child = true → is_ok (json_dump child) = true →
  ∃ s copy doc', json_dump child = Ok s ∧ json_parse s = Ok copy ∧ json_is_object copy = true
  ∧ setObject doc key child = (Ok (), doc') ∧ j_view doc' = VObject (<[key := copy]> m)
  ∧ json_at doc' key = Ok copy.
Proof.
  intros Hm Hc Hs. destruct (json_dump child) as [s|] eqn:Es; [|done].
  destruct (jlaw_dump child s Es) as (copy & Ep & Ho). rewrite Hc in Ho.
  destruct (assign_member doc key m copy Hm) as (doc' & Ea & Hv & Hat).
  exists s, copy, doc'. unfold setObject, toString. rewrite Es. cbn. rewrite Ep. cbn. rewrite Ea. done.
Qed.

Ltac stored Hset x law_get law_of :=
  let doc' := fresh "doc'" in let E := fresh "E" in let Ha := fresh "Ha" in
  let Hd := fresh "Hd" in let Hg := fresh "Hg" in
  destruct (Hset x) as (doc' & E & Ha & Hd);
  exists doc', x; split_and!; [exact E| |exact Hd];
  pose proof (law_get x) as Hg; rewrite law_of in Hg by done;
  cbn [reads_back]; unfold getString, getInt, getBool, getDouble, getArray; rewrite Ha; cbn;
  rewrite Hg by done; try done.

(** C38. What is assigned through [json[key] = value] is read back by the
    getter of the same type, for strings, integers, booleans, doubles, integer
    arrays and objects (as the copy made by writing and parsing), and every
    other member of the document stays as it was. *)
Theorem assignment_read_back doc key value m :
  members doc = Some m → assignable value →
  ∃ doc' x, Proxy_assign (Some doc) key value = Done (Ok (), Some doc')
  ∧ reads_back doc' key value ∧ j_view doc' = VObject (<[key := x]> m).
Proof.
  intros Hm Hv.
  assert (∀ x, ∃ doc', through_set (Some doc) (fun doc => assign doc key x) = Done (Ok (), Some doc')
    ∧ json_at doc' key = Ok x ∧ j_view doc' = VObject (<[key := x]> m)) as Hset.
  { intros x. destruct (assign_member doc key m x Hm) as (doc' & E & Hd & Ha). exists doc'.
    cbn. by rewrite E. }
  destruct value as [s|s|z|z|b|d|l|[child|]]; cbn [assignable] in Hv; [..|done].
  - stored Hset (json_of_string s) jlaw_get_string jlaw_of_string.
  - stored Hset (json_of_string (until_nul s)) jlaw_get_string jlaw_of_string.
  - stored Hset (json_of_int z) jlaw_get_int jlaw_of_int.
  - stored Hset (json_of_int z) jlaw_get_int jlaw_of_int.
  - stored Hset (json_of_bool b) jlaw_get_bool jlaw_of_bool.
  - stored Hset (json_of_double d) jlaw_get_double jlaw_of_double.
  - stored Hset (json_of_ints l) jlaw_items jlaw_of_ints. by rewrite collect_of_ints.
  - destruct Hv as [Ho Hs].
    destruct (set_object_member doc key m child Hm Ho Hs) as (s & copy & doc' & Es & Ep & Hc & E & Hd & Ha).
    exists doc', copy. cbn. rewrite E. split_and!; [done| |done]. exists s, copy.
    split_and!; [done..|]. unfold getObject. rewrite Ha. cbn. by rewrite Hc.
Qed.

(** *** Getters *)

(** What a scalar getter is meant to do: look the key up in an object, and take
    the value if it has the right kind. *)
Definition reference {A} (decode : jvalue json double → option A) (expected : bytes) doc key
  : result thrown A :=
  let mismatch := raise (text "Type mismatch for key " ++ key ++ expected) in
  match j_view doc with
  | VObject m =>
      match m !! key with
      | None => raise (text "Key not found: " ++ key)
      | Some v => match decode (j_view v) with Some a => Ok a | None => mismatch end
      end
  | _ => mismatch
  end.

Lemma reference_getter {A} (get : json → result json_exception A) decode expected doc key :
  (∀ v, match decode (j_view v) with Some a => get v = Ok a | None => rejects (get v) end) →
  catch_type key expected (catch_range key (v ← lib (json_at doc key); lib (get v)))
  = reference decode expected doc key.
Proof.
  intros Hg. unfold reference. pose proof (jlaw_at doc key) as Ha.
  destruct (j_view doc) as [| | | | | |m]; try (destruct Ha as [w ->]; done).
  destruct (m !! key) as [v|]; [|destruct Ha as [w ->]; done].
  rewrite Ha. cbn. specialize (Hg v). destruct (decode (j_view v)); [by rewrite Hg|].
  destruct Hg as [w ->]. done.
Qed.

(** On every document, object or not, [getString] and [getBool] do what
    they are meant to: the value of the key if it is there with the right kind,
    otherwise a [std::runtime_error] that says which of the two was wrong. *)
Theorem getters_meet_reference doc key :
  getString doc key
  = reference (fun x => match x with VString s => Some s | _ => None end) (text ": expected string") doc key
  ∧ getBool doc key
    = reference (fun x => match x with VBool b => Some b | _ => None end) (text ": expected boolean") doc key.
Proof.
  split; apply reference_getter; intros v.
  - pose proof (jlaw_get_string v) as Hg. by destruct (j_view v).
  - pose proof (jlaw_get_bool v) as Hg. by destruct (j_view v).
Qed.

(** *** Exceptions *)

(** A method keeps the promise of the wrapper. *)
Definition contained {A} (r : result thrown A) : Prop := ∀ e, r ≠ Err (Escaped e).

Lemma contained_catch {A} key expected (get : json → result thrown A) doc :
  (∀ v e, get v = Err (Escaped e) → ∃ w, e = type_error w) →
  contained (catch_type key expected (catch_range key (v ← lib (json_at doc key); get v))).
Proof.
  intros Hg e. pose proof (jlaw_at doc key) as Ha. destruct (json_at doc key) as [v|ex] eqn:Ed; cbn.
  - destruct (get v) as [a|[t|e']] eqn:Eg; [done..|]. destruct (Hg v e' Eg) as [w ->]. done.
  - destruct (j_view doc) as [| | | | | |m]; try (destruct Ha as [w [= ->]]; done).
    destruct (m !! key); [done|]. destruct Ha as [w [= ->]]. done.
Qed.

Lemma lib_type {A} (r : result json_exception A) e :
  is_ok r = true ∨ rejects r → lib r = Err (Escaped e) → ∃ w, e = type_error w.
Proof. intros [Hr|[w ->]]; [by destruct r|]. intros [= <-]. eauto. Qed.

Lemma collect_ints_type key items e :
  collect_ints key items = Err (Escaped e) → ∃ w, e = type_error w.
Proof.
  induction items as [|item items IH]; [done|]. cbn [collect_ints].
  rewrite jlaw_is_integer. destruct (j_view item) as [| |z| | | |] eqn:Ev; try done. cbn [negb].
  pose proof (jlaw_get_int_any item z Ev) as Hg. destruct (json_get_int item); [|done]. cbn.
  by destruct (collect_ints key items) as [|[|]].
Qed.

Lemma collect_objects_contained key items : contained (collect_objects key items).
Proof.
  intros e. induction items as [|item items IH]; [done|]. cbn.
  destruct (negb (json_is_object item)); [done|]. by destruct (collect_objects key items) as [|[|]].
Qed.

(** Which calls let an exception of the JSON library through: none of the
    value and array getters and not the serializer; [getObject] exactly when
    the document is not an object, and the setters exactly when it is neither an
    object nor null. *)
Theorem escapes_exactly doc key :
  (contained (getString doc key) ∧ contained (getInt doc key) ∧ contained (getBool doc key)
   ∧ contained (getDouble doc key) ∧ contained (getArray doc key)
   ∧ contained (getArrayObject doc key) ∧ contained (toString doc))
  ∧ (contained (getObject doc key) ↔ json_is_object doc = true)
  ∧ (∀ v, contained (assign doc key v).1 ↔ is_Some (members doc)).
Proof.
  split_and!.
  - apply contained_catch. intros v e. apply lib_type. pose proof (jlaw_get_string v) as Hg.
    destruct (j_view v); auto. left. by rewrite Hg.
  - apply contained_catch. intros v e. apply lib_type. pose proof (jlaw_get_int v) as Hg.
    destruct (j_view v) eqn:Ev; auto. left. by eapply jlaw_get_int_any.
  - apply contained_catch. intros v e. apply lib_type. pose proof (jlaw_get_bool v) as Hg.
    destruct (j_view v); auto. left. by rewrite Hg.
  - apply contained_catch. intros v e. apply lib_type. pose proof (jlaw_get_double v) as Hg.
    destruct (j_view v); auto. left. by rewrite Hg.
  - apply contained_catch. intros v e. apply collect_ints_type.
  - apply contained_catch. intros v e He. by apply collect_objects_contained in He.
  - unfold toString. intros e. by destruct (json_dump doc).
  - rewrite jlaw_is_object. pose proof (jlaw_at doc key) as Ha. unfold getObject, contained.
    destruct (j_view doc) as [| | | | | |m];
      try (destruct Ha as [w ->]; split; [intros H; by destruct (H (type_error w))|done]).
    split; [done|]. intros _ e. destruct (m !! key) as [v|]; [|destruct Ha as [w ->]; done].
    rewrite Ha. cbn. by destruct (json_is_object v).
  - intros v. pose proof (jlaw_put doc key v) as Hp. unfold assign, contained, members.
    destruct (j_view doc) as [| | | | | |m];
      try (destruct Hp as [w ->]; split; [intros H; by destruct (H (type_error w))|by intros []]);
      destruct Hp as (doc' & -> & _); split; [eauto|done|eauto|done].
Qed.

(** *** Construction *)

Lemma drop_last5 (s : bytes) : drop (length s - 5) s = text ".json" → last s = Some 110.
Proof.
  intros E. rewrite <- (take_drop (length s - 5) s), E, last_app. done.
Qed.

(** A text that is JSON is parsed: the constructor never takes it for the
    name of a file, whatever files there are. *)
Theorem constructor_parses_json disk str doc :
  json_parse str = Ok doc → YaJson_new disk str = Ok (Some doc).
Proof.
  intros Hp. unfold YaJson_new.
  assert (names_file str = false) as ->.
  { unfold names_file. apply andb_false_iff. right. apply bool_decide_eq_false.
    intros E%drop_last5. by apply jlaw_last in Hp. }
  unfold loadFromString. by rewrite Hp.
Qed.
End Facts.

(** ** A concrete JSON library

    Values are trees; a document is written as one character between braces. *)
Module ToyJson.

Definition leaf : Type := (() + bool) + ((Z + Z) + bytes).
Definition tree : Type := gen_tree leaf.

Definition of_null : tree := GenLeaf (inl (inl ())).
Definition of_bool (b : bool) : tree := GenLeaf (inl (inr b)).
Definition of_int (z : Z) : tree := GenLeaf (inr (inl (inl z))).
Definition of_float (d : Z) : tree := GenLeaf (inr (inl (inr d))).
Definition of_string (s : bytes) : tree := GenLeaf (inr (inr s)).

Fixpoint pairs (l : list tree) : list (bytes * tree) :=
  match l with
  | GenLeaf (inr (inr k)) :: v :: l' => (k, v) :: pairs l'
  | _ => []
  end.

Definition flatten (l : list (bytes * tree)) : list tree :=
  l ≫= fun e => [of_string e.1; e.2].

Definition of_object (m : gmap bytes tree) : tree := GenNode 1 (flatten (map_to_list m)).

Definition view (j : tree) : jvalue tree Z :=
  match j with
  | GenLeaf (inl (inl _)) => VNull
  | GenLeaf (inl (inr b)) => VBool b
  | GenLeaf (inr (inl (inl z))) => VInt z
  | GenLeaf (inr (inl (inr d))) => VFloat d
  | GenLeaf (inr (inr s)) => VString s
  | GenNode O l => VArray l
  | GenNode _ l => VObject (list_to_map (pairs l))
  end.

Lemma pairs_flatten l : pairs (flatten l) = l.
Proof. induction l as [|[k v] l IH]; [done|]. cbn. by f_equal. Qed.

Lemma view_object m : view (of_object m) = VObject m.
Proof. cbn. by rewrite pairs_flatten, list_to_map_to_list. Qed.

Definition wrong {A} : result json_exception A := Err (type_error (text "type")).

Definition put (j : tree) (k : bytes) (v : tree) : result json_exception tree :=
  match view j with
  | VObject m => Ok (of_object (<[k := v]> m))
  | VNull => Ok (of_object {[k := v]})
  | _ => wrong
  end.

Definition dump (j : tree) : bytes := [123; Zpos (encode j); 125].

Definition syntax_error : result json_exception tree := Err (parse_error (text "syntax")).

Definition parse (s : bytes) : result json_exception tree :=
  if bool_decide (last s = Some 125)
  then match s with
       | [_; _] => Ok (of_object ∅)
       | [_; Zpos p; _] => match decode p with Some j => Ok j | None => syntax_error end
       | _ => syntax_error
       end
  else syntax_error.

#[global] Instance toy_json : JsonApi := {|
  json := tree;
  double := Z;
  json_object := of_object ∅;
  json_parse := parse;
  json_read s j := match parse s with Ok j => (Ok (), j) | Err e => (Err e, of_null) end;
  json_dump j := Ok (dump j);
  json_at j k :=
    match view j with
    | VObject m => match m !! k with Some v => Ok v | None => Err (out_of_range (text "key")) end
    | _ => wrong
    end;
  json_put := put;
  json_is_object j := match view j with VObject _ => true | _ => false end;
  json_is_integer j := match view j with VInt _ => true | _ => false end;
  json_items j :=
    match view j with
    | VArray l => l | VObject m => (map_to_list m).*2 | VNull => [] | _ => [j]
    end;
  json_get_string j := match view j with VString s => Ok s | _ => wrong end;
  json_get_int j := match view j with VInt z => Ok z | VFloat d => Ok d | _ => wrong end;
  json_get_bool j := match view j with VBool b => Ok b | _ => wrong end;
  json_get_double j := match view j with VFloat d => Ok d | VInt z => Ok z | _ => wrong end;
  json_of_string := of_string;
  json_of_int := of_int;
  json_of_bool := of_bool;
  json_of_double := of_float;
  json_of_ints l := GenNode O (of_int <$> l);
|}.

Lemma parse_dump j : parse (dump j) = Ok j.
Proof. unfold parse. rewrite bool_decide_true by done. cbn. by rewrite decode_encode. Qed.

Lemma parse_last s j : parse s = Ok j → last s ≠ Some 110.
Proof.
  unfold parse. case_bool_decide as Hl; [|done]. intros _. rewrite Hl. done.
Qed.

#[global] Instance toy_json_laws : JsonLaws toy_json.
Proof.
  apply (Build_JsonLaws toy_json view); try done.
  - intros j k. cbn. unfold rejects, wrong. destruct (view j); eauto. case_match; eauto.
  - intros j k v. cbn. unfold put, rejects, wrong. destruct (view j); eauto;
      eexists; (split; [done|apply view_object]).
  - intros j. cbn. by destruct (view j).
  - intros j. cbn. unfold rejects, wrong. destruct (view j); eauto.
  - intros j. cbn. unfold rejects, wrong. destruct (view j); eauto.
  - intros j. cbn. unfold rejects, wrong. destruct (view j); eauto.
  - intros j z Hv. cbn. by rewrite Hv.
  - intros j. cbn. unfold rejects, wrong. destruct (view j); eauto.
  - intros j s [= <-]. exists j. split; [apply parse_dump|done].
  - exact parse_last.
Defined.
End ToyJson.

Lemma assignment_read_back_witness :
  ∃ doc' x, Proxy_assign YaJson_default (text "numbers") (AInts [10; 20; 30])
            = Done (Ok (), Some doc')
  ∧ getArray doc' (text "numbers") = Ok [10; 20; 30]
  ∧ ToyJson.view doc' = VObject (<[text "numbers" := x]> ∅).
Proof.
  destruct (assignment_read_back (J := ToyJson.toy_json) Impl_new (text "numbers")
    (AInts [10; 20; 30]) ∅) as (doc' & x & E & Hr & Hv).
  - reflexivity.
  - unfold assignable, int64. repeat constructor; lia.
  - exists doc', x. split; [exact E|]. split; [exact Hr|exact Hv].
Defined.

(** A list as document: an exception of the library gets through. *)
Example get_object_escapes :
  getObject (H := ToyJson.toy_json) (GenNode O []) (text "user") = Err (Escaped (type_error (text "type"))).
Proof. vm_compute. reflexivity. Qed.

Lemma constructor_parses_json_witness :
  YaJson_new (fun _ => None) (text "{}") = Ok (Some (ToyJson.of_object ∅)).
Proof.
  refine (constructor_parses_json (J := ToyJson.toy_json) (fun _ => None) (text "{}")
    (ToyJson.of_object ∅) _). vm_compute. reflexivity.
Defined.
