(* ===== verification/YaConfig.v ===== *)
(** * YaConfig: the legacy configuration store

    Models [src/ya_config/yaconfig.cpp] over the part of toml++ it uses
    ([TomlTree], with [TomlTreeLaws] for what the library documents: a table
    entry is inserted under the literal key, while a path is split at its dots).
    [ToyToml] is a concrete instance.  Console output is not modelled; the
    templates are instantiated, as in the source, at [int], [double],
    [std::string] and [bool], here the [Scalar] types.

    The theorems: a value set under a plain key is read back; a value set under
    a dotted key is not; values that are missing or of another type give the
    default; arrays keep their order; loading that fails changes nothing; what
    saving reports. *)

From stdpp Require Import countable.
From S2P Require Import Prelude Text Program YaJson.

(** ** The library *)

Inductive tvalue (N D : Type) :=
| TInt (z : Z)
| TFloat (d : D)
| TString (s : bytes)
| TBool (b : bool)
| TArray (l : list N)
| TTable (m : gmap bytes N)
| TDate.
Arguments TInt {N D} z.
Arguments TFloat {N D} d.
Arguments TString {N D} s.
Arguments TBool {N D} b.
Arguments TArray {N D} l.
Arguments TTable {N D} m.
Arguments TDate {N D}.

Class TomlTree := {
  tnode : Type;
  tdouble : Type;
  toml_empty : tnode;
  (* [config.at_path(key)] *)
  toml_at_path : tnode → bytes → option tnode;
  (* [node.value<T>()] *)
  toml_int : tnode → option Z;
  toml_double : tnode → option tdouble;
  toml_string : tnode → option bytes;
  toml_bool : tnode → option bool;
  toml_as_array : tnode → option (list tnode);
  toml_is_integer : tnode → bool;
  toml_is_float : tnode → bool;
  toml_is_string : tnode → bool;
  toml_is_boolean : tnode → bool;
  (* [config.insert_or_assign(key, value)] *)
  toml_insert : tnode → bytes → tnode → tnode;
  toml_of_int : Z → tnode;
  toml_of_double : tdouble → tnode;
  toml_of_string : bytes → tnode;
  toml_of_bool : bool → tnode;
  toml_of_array : list tnode → tnode;
  (* [toml::parse_file] on the contents of the file, [os << config] *)
  toml_parse : bytes → option tnode;
  toml_print : tnode → bytes;
  toml_json : tnode → bytes;
  toml_yaml : tnode → bytes;
}.

Definition int32 (z : Z) : Prop := - 2 ^ 31 <= z < 2 ^ 31.
#[global] Instance int32_dec z : Decision (int32 z).
Proof. unfold int32. apply _. Defined.

(** A key that is one component of a path. *)
Definition dot : Z := 46.
Definition bracket : Z := 91.
Definition plain (key : bytes) : Prop := key ≠ [] ∧ (dot ∉ key) ∧ (bracket ∉ key).

Class TomlTreeLaws (T : TomlTree) := {
  t_view : tnode → tvalue tnode tdouble;
  tlaw_empty : t_view toml_empty = TTable ∅;
  tlaw_plain t m key : t_view t = TTable m → plain key → toml_at_path t key = m !! key;
  tlaw_path t m first rest : t_view t = TTable m → plain first → plain rest →
    toml_at_path t (first ++ dot :: rest)
    = match m !! first with
      | Some sub => match t_view sub with TTable m' => m' !! rest | _ => None end
      | None => None
      end;
  tlaw_insert t m key v : t_view t = TTable m → t_view (toml_insert t key v) = TTable (<[key := v]> m);
  (* conversions: a number of the other kind may be converted, a string never *)
  tlaw_int n : match t_view n with
    | TInt z => toml_int n = if decide (int32 z) then Some z else None
    | TString _ | TArray _ | TTable _ | TDate => toml_int n = None
    | _ => True
    end;
  tlaw_double n : match t_view n with
    | TFloat d => toml_double n = Some d
    | TString _ | TArray _ | TTable _ | TDate => toml_double n = None
    | _ => True
    end;
  tlaw_string n : toml_string n = match t_view n with TString s => Some s | _ => None end;
  tlaw_bool n : match t_view n with
    | TBool b => toml_bool n = Some b
    | TString _ | TArray _ | TTable _ | TDate => toml_bool n = None
    | _ => True
    end;
  tlaw_as_array n : toml_as_array n = match t_view n with TArray l => Some l | _ => None end;
  tlaw_is_integer n : toml_is_integer n = match t_view n with TInt _ => true | _ => false end;
  tlaw_is_float n : toml_is_float n = match t_view n with TFloat _ => true | _ => false end;
  tlaw_is_string n : toml_is_string n = match t_view n with TString _ => true | _ => false end;
  tlaw_is_boolean n : toml_is_boolean n = match t_view n with TBool _ => true | _ => false end;
  tlaw_of_int z : t_view (toml_of_int z) = TInt z;
  tlaw_of_double d : t_view (toml_of_double d) = TFloat d;
  tlaw_of_string s : t_view (toml_of_string s) = TString s;
  tlaw_of_bool b : t_view (toml_of_bool b) = TBool b;
  tlaw_of_array l : t_view (toml_of_array l) = TArray l;
  tlaw_print t m : t_view t = TTable m → toml_parse (toml_print t) = Some t;
  tlaw_parse s t : toml_parse s = Some t → ∃ m, t_view t = TTable m;
}.

(** ** The store *)

Module yaconfig.
Section Store.
Context `{TomlTree}.

(** The types the templates are instantiated at, and their values. *)
Inductive Scalar := SInt | SDouble | SString | SBool.

Definition scalar (T : Scalar) : Type :=
  match T with SInt => Z | SDouble => tdouble | SString => bytes | SBool => bool end.

(** [node.value<T>()] *)
Definition value (T : Scalar) : tnode → option (scalar T) :=
  match T with
  | SInt => toml_int | SDouble => toml_double | SString => toml_string | SBool => toml_bool
  end.

(** The node a value converts to. *)
Definition to_node (T : Scalar) : scalar T → tnode :=
  match T with
  | SInt => toml_of_int | SDouble => toml_of_double | SString => toml_of_string
  | SBool => toml_of_bool
  end.

(** [using YaVariant = std::variant<int, double, std::string, bool>] *)
Inductive YaVariant :=
| VarInt (z : Z)
| VarDouble (d : tdouble)
| VarString (s : bytes)
| VarBool (b : bool).

Definition loadConfig (disk : gmap bytes bytes) (path : bytes) (config : tnode) : bool * tnode :=
  match disk !! path ≫= toml_parse with
  | Some t => (true, t)
  | None => (false, config)
  end.

(** [opens] says whether the path can be opened for writing, [kept] what the
    file system keeps of the bytes that are written. *)
Definition saveConfig (opens : bool) (kept : bytes → bytes) (disk : gmap bytes bytes)
    (path : bytes) (config : tnode) : bool * gmap bytes bytes :=
  if negb opens then (false, disk)
  else (true, <[path := kept (toml_print config)]> disk).

(** One element of [getArrayVariant]. *)
Definition variant (item : tnode) : option YaVariant :=
  if toml_is_integer item then VarInt <$> toml_int item
  else if toml_is_float item then VarDouble <$> toml_double item
  else if toml_is_string item then VarString <$> toml_string item
  else if toml_is_boolean item then VarBool <$> toml_bool item
  else None.

Definition getArrayVariant (config : tnode) (key : bytes) : list YaVariant :=
  match toml_at_path config key ≫= toml_as_array with
  | Some arr => omap variant arr
  | None => []
  end.

Definition toJson (config : tnode) : bytes := toml_json config.
Definition toYaml (config : tnode) : bytes := toml_yaml config.

Definition get (T : Scalar) (config : tnode) (key : bytes) (defaultValue : scalar T) : scalar T :=
  match toml_at_path config key ≫= value T with
  | Some val => val
  | None => defaultValue
  end.

Definition getArray (T : Scalar) (config : tnode) (key : bytes) : list (scalar T) :=
  match toml_at_path config key ≫= toml_as_array with
  | Some arr => omap (value T) arr
  | None => []
  end.

Definition set (T : Scalar) (config : tnode) (key : bytes) (v : scalar T) : tnode :=
  toml_insert config key (to_node T v).

Definition setArray (T : Scalar) (config : tnode) (key : bytes) (values : list (scalar T)) : tnode :=
  toml_insert config key (toml_of_array (to_node T <$> values)).
End Store.
End yaconfig.
Import yaconfig.

(** ** What the store does *)

Section Facts.
Context {T : TomlTree} {L : TomlTreeLaws T}.
Implicit Types (config : tnode) (key : bytes).

(** Values of the C++ type. *)
Definition representable (S : Scalar) : scalar S → Prop :=
  match S with SInt => int32 | _ => fun _ => True end.

Lemma value_to_node S (v : scalar S) : representable S v → value S (to_node S v) = Some v.
Proof.
  destruct S; cbn; intros Hv.
  - pose proof (tlaw_int (toml_of_int v)) as H. rewrite tlaw_of_int in H. by rewrite decide_True in H.
  - pose proof (tlaw_double (toml_of_double v)) as H. by rewrite tlaw_of_double in H.
  - by rewrite tlaw_string, tlaw_of_string.
  - pose proof (tlaw_bool (toml_of_bool v)) as H. by rewrite tlaw_of_bool in H.
Qed.

Lemma values_to_nodes S (vs : list (scalar S)) :
  Forall (representable S) vs → omap (value S) (to_node S <$> vs) = vs.
Proof.
  induction 1 as [|v vs Hv Hvs IH]; [done|]. cbn. rewrite value_to_node by done. by f_equal.
Qed.

(** A value or array set under a plain key is read back, for each of the
    four types, whatever the default is; every other plain key reads as
    before. *)
Theorem set_read_back S config m key (v d : scalar S) vs other :
  t_view config = TTable m → plain key → plain other → other ≠ key →
  representable S v → Forall (representable S) vs →
  get S (set S config key v) key d = v
  ∧ getArray S (setArray S config key vs) key = vs
  ∧ get S (set S config key v) other d = get S config other d.
Proof.
  intros Hm Hk Ho Hne Hv Hvs. unfold get, getArray, set, setArray. split_and!.
  - rewrite (tlaw_plain _ (<[key := to_node S v]> m)) by auto using tlaw_insert.
    rewrite lookup_insert_eq. cbn. by rewrite value_to_node.
  - rewrite (tlaw_plain _ (<[key := toml_of_array (to_node S <$> vs)]> m)) by auto using tlaw_insert.
    rewrite lookup_insert_eq. cbn. rewrite tlaw_as_array, tlaw_of_array. by apply values_to_nodes.
  - rewrite (tlaw_plain _ (<[key := to_node S v]> m)), (tlaw_plain _ m other Hm)
      by auto using tlaw_insert.
    by rewrite lookup_insert_ne.
Qed.

Lemma dotted_not_plain first rest : first ++ dot :: rest ≠ first.
Proof. intros E. apply (f_equal length) in E. rewrite length_app in E. cbn in E. lia. Qed.

(** A value set under a dotted key is not read back: setting [a.b] adds an
    entry with that literal name, while reading looks for [b] in the table [a];
    a read of the same key gives what it gave before. *)
Theorem dotted_set_lost S config m first rest (v d : scalar S) :
  t_view config = TTable m → plain first → plain rest →
  get S (set S config (first ++ dot :: rest) v) (first ++ dot :: rest) d
  = get S config (first ++ dot :: rest) d.
Proof.
  intros Hm Hf Hr. unfold get, set.
  rewrite (tlaw_path _ (<[first ++ dot :: rest := to_node S v]> m)) by auto using tlaw_insert.
  rewrite (tlaw_path _ m) by done. rewrite lookup_insert_ne by apply dotted_not_plain. done.
Qed.

(** *** Arrays of mixed values *)

(** What an element is in an array of variants. *)
Definition variant_of (n : tnode) : option YaVariant :=
  match t_view n with
  | TInt z => if decide (int32 z) then Some (VarInt z) else None
  | TFloat d => Some (VarDouble d)
  | TString s => Some (VarString s)
  | TBool b => Some (VarBool b)
  | _ => None
  end.

Lemma variant_meaning n : variant n = variant_of n.
Proof.
  unfold variant, variant_of. rewrite tlaw_is_integer, tlaw_is_float, tlaw_is_string, tlaw_is_boolean.
  pose proof (tlaw_int n) as H1. pose proof (tlaw_double n) as H2. pose proof (tlaw_bool n) as H3.
  pose proof (tlaw_string n) as H4.
  destruct (t_view n); cbn; [rewrite H1; by case_decide|by rewrite H2|by rewrite H4|by rewrite H3|done..].
Qed.

(** [getArrayVariant] returns the elements of the array in order, each with
    the alternative of its own type; it leaves out exactly the integers that do
    not fit an [int], dates, arrays and tables, and gives nothing for a key that
    is missing or not an array. *)
Theorem array_variant_elements config m key :
  t_view config = TTable m → plain key →
  getArrayVariant config key
  = match m !! key with
    | Some n => match t_view n with TArray l => omap variant_of l | _ => [] end
    | None => []
    end.
Proof.
  intros Hm Hk. unfold getArrayVariant. rewrite (tlaw_plain _ m) by done.
  destruct (m !! key) as [n|]; [|done]. cbn. rewrite tlaw_as_array.
  destruct (t_view n); try done. apply list_omap_ext, Forall_Forall2_diag, Forall_forall.
  intros x _. apply variant_meaning.
Qed.

(** *** Files *)

(** A configuration that was saved to a path that can be opened is loaded
    back unchanged if the file system kept what was written; loading a missing
    or malformed file reports failure and keeps the current configuration. *)
Theorem save_load disk path config other m :
  t_view config = TTable m →
  (let '(saved, disk') := saveConfig true (fun bs => bs) disk path config in
   saved = true ∧ loadConfig disk' path other = (true, config))
  ∧ (disk !! path ≫= toml_parse = None → loadConfig disk path other = (false, other)).
Proof.
  intros Hm. split.
  - cbn. split; [done|]. unfold loadConfig. rewrite lookup_insert_eq. cbn.
    by rewrite (tlaw_print _ m).
  - intros E. unfold loadConfig. by rewrite E.
Qed.
End Facts.

(** ** A concrete library

    The trees of [ToyJson], whose null value stands for a date; paths have one or
    two components. *)
Module ToyToml.
Import ToyJson.

Definition tview (j : tree) : tvalue tree Z :=
  match view j with
  | VNull => TDate
  | VBool b => TBool b
  | VInt z => TInt z
  | VFloat d => TFloat d
  | VString s => TString s
  | VArray l => TArray l
  | VObject m => TTable m
  end.

Definition entry (j : tree) (key : bytes) : option tree :=
  match tview j with TTable m => m !! key | _ => None end.

Definition at_path (j : tree) (key : bytes) : option tree :=
  match split_at dot key with
  | (first, None) => entry j first
  | (first, Some rest) => entry j first ≫= fun sub => entry sub rest
  end.

Definition as_int (j : tree) : option Z :=
  match tview j with TInt z => if decide (int32 z) then Some z else None | _ => None end.

Definition insert (j : tree) (key : bytes) (v : tree) : tree :=
  match tview j with TTable m => of_object (<[key := v]> m) | _ => j end.

Definition parse (s : bytes) : option tree :=
  match s with
  | [_; Zpos p; _] =>
      t ← decode p; match tview t with TTable _ => Some t | _ => None end
  | _ => None
  end.

#[global] Instance toy_toml : TomlTree := {|
  tnode := tree;
  tdouble := Z;
  toml_empty := of_object ∅;
  toml_at_path := at_path;
  toml_int := as_int;
  toml_double j := match tview j with TFloat d => Some d | _ => None end;
  toml_string j := match tview j with TString s => Some s | _ => None end;
  toml_bool j := match tview j with TBool b => Some b | _ => None end;
  toml_as_array j := match tview j with TArray l => Some l | _ => None end;
  toml_is_integer j := match tview j with TInt _ => true | _ => false end;
  toml_is_float j := match tview j with TFloat _ => true | _ => false end;
  toml_is_string j := match tview j with TString _ => true | _ => false end;
  toml_is_boolean j := match tview j with TBool _ => true | _ => false end;
  toml_insert := insert;
  toml_of_int := of_int;
  toml_of_double := of_float;
  toml_of_string := of_string;
  toml_of_bool := of_bool;
  toml_of_array l := GenNode O l;
  toml_parse := parse;
  toml_print := dump;
  toml_json := dump;
  toml_yaml := dump;
|}.

Lemma tview_object m : tview (of_object m) = TTable m.
Proof. unfold tview. by rewrite view_object. Qed.

#[global] Instance toy_toml_laws : TomlTreeLaws toy_toml.
Proof.
  apply (Build_TomlTreeLaws toy_toml tview); try done.
  - intros t m key Hm (_ & Hd & _). cbn. unfold at_path, entry. rewrite split_at_none by done.
    by rewrite Hm.
  - intros t m first rest Hm (_ & Hd & _) (_ & Hr & _). cbn. unfold at_path, entry.
    rewrite split_at_app by done. rewrite Hm. by destruct (m !! first).
  - intros t m key v Hm. cbn. unfold insert. rewrite Hm. apply tview_object.
  - intros n. cbn. unfold as_int. by destruct (tview n).
  - intros n. cbn. by destruct (tview n).
  - intros n. cbn. by destruct (tview n).
  - intros t m Hm. cbn. unfold dump, parse. rewrite decode_encode. cbn. by rewrite Hm.
  - intros s t. cbn. unfold parse. intros E.
    destruct s as [|? [|[|p|] [|? [|]]]]; try done. cbn in E.
    destruct (decode p) as [t'|]; [|done]. cbn in E.
    destruct (tview t') as [| | | | |m|] eqn:Em; try done. injection E as <-. by exists m.
Defined.

Definition entries : gmap bytes tree :=
  <[text "port" := of_int 80]>
    (<[text "mixed" := GenNode O [of_int 1; of_float 25; of_string (text "three"); of_null;
                                  of_int (2 ^ 40); of_bool true]]>
      {[text "test" := of_object {[text "flag" := of_bool true]}]}).

Definition sample : tnode := of_object entries.

Lemma sample_view : t_view sample = TTable entries.
Proof. apply tview_object. Qed.
End ToyToml.

Ltac plain_key :=
  split_and!; [done| |]; apply (bool_decide_eq_true_1 _); vm_compute; reflexivity.

Lemma set_read_back_witness :
  get SInt (set SInt ToyToml.sample (text "port") 8080) (text "port") 0 = 8080
  ∧ getArray SInt (setArray SInt ToyToml.sample (text "port") [40; 50; 60]) (text "port") = [40; 50; 60]
  ∧ get SInt (set SInt ToyToml.sample (text "port") 8080) (text "host") 0
    = get SInt ToyToml.sample (text "host") 0.
Proof.
  apply (set_read_back SInt ToyToml.sample ToyToml.entries (text "port") 8080 0 [40; 50; 60] (text "host")
    ToyToml.sample_view).
  - plain_key.
  - plain_key.
  - by vm_compute.
  - cbn. unfold int32. lia.
  - cbn. unfold int32. repeat constructor; lia.
Defined.

Lemma dotted_set_lost_witness :
  get SInt (set SInt ToyToml.sample (text "test.new_integer") 100) (text "test.new_integer") 0 = 0.
Proof.
  change (text "test.new_integer") with (text "test" ++ dot :: text "new_integer").
  rewrite (dotted_set_lost SInt ToyToml.sample ToyToml.entries (text "test") (text "new_integer") 100 0
    ToyToml.sample_view); [vm_compute; reflexivity|plain_key|plain_key].
Defined.

Lemma array_variant_elements_witness :
  getArrayVariant ToyToml.sample (text "mixed")
  = [VarInt 1; VarDouble 25; VarString (text "three"); VarBool true].
Proof.
  rewrite (array_variant_elements ToyToml.sample ToyToml.entries (text "mixed") ToyToml.sample_view);
    [reflexivity|plain_key].
Defined.

Lemma save_load_witness :
  loadConfig (saveConfig true (fun bs => bs) ∅ (text "a.toml") ToyToml.sample).2 (text "a.toml")
    toml_empty = (true, ToyToml.sample).
Proof.
  destruct (save_load ∅ (text "a.toml") ToyToml.sample toml_empty _
    ToyToml.sample_view) as [[_ H] _]. exact H.
Defined.

(** A write that is cut short is reported as a success. *)
Example short_write_reported :
  saveConfig true (take 1) ∅ (text "a.toml") ToyToml.sample
  = (true, <[text "a.toml" := take 1 (toml_print ToyToml.sample)]> ∅).
Proof. reflexivity. Qed.
