(* ===== verification/YaSql.v ===== *)
(** * YaSql: the legacy database drivers

    Models [src/ya_sql]: the facade [yasql.cpp], the SQLite driver, the MySQL
    driver and the two drivers that do nothing.  SQLite and the MySQL X DevAPI
    are the interface [DbApi]; [DbLaws] is what their documentation says of the
    objects they hand out, over a ghost [DView] of connections, error messages,
    statements and sessions, of the statements executed, and of what the
    databases answer.  [ToyDb] is a concrete instance.

    The theorems: the SQL text names the columns and values of the map in order,
    and denotes the given values exactly when none contains a quote; every
    operation releases the messages and statements it was given; a query returns
    the rows of the answer in order; connections are not leaked, except MySQL
    sessions that are connected twice. *)

From S2P Require Import Prelude Text OrdMap Program.

Definition SQLITE_OK : Z := 0.
Definition SQLITE_ROW : Z := 100.

Abbreviation row := (list (option bytes)).

Class DbApi := {
  db_state : Type;
  (* a code and a handle, 0 for null *)
  sqlite3_open : bytes → db_state → (Z * Z) * db_state;
  sqlite3_close : Z → db_state → db_state;
  (* a code and an error message, 0 for null *)
  sqlite3_exec : Z → bytes → db_state → (Z * Z) * db_state;
  sqlite3_free : Z → db_state → db_state;
  (* a code and a statement, 0 for null *)
  sqlite3_prepare_v2 : Z → bytes → db_state → (Z * Z) * db_state;
  sqlite3_column_count : Z → db_state → Z;
  sqlite3_column_name : Z → Z → db_state → option bytes;
  sqlite3_step : Z → db_state → Z * db_state;
  sqlite3_column_text : Z → Z → db_state → option bytes;
  sqlite3_finalize : Z → db_state → db_state;
  (* [new mysqlx::Session(uri)], [close], [delete] *)
  mysqlx_session : bytes → db_state → result bytes Z * db_state;
  mysqlx_close : Z → db_state → db_state;
  mysqlx_delete : Z → db_state → db_state;
  (* [tbl.insert(columns).values(values).execute()] and so on *)
  mysqlx_insert : Z → bytes → list bytes → list bytes → db_state → result bytes () * db_state;
  mysqlx_update : Z → bytes → list (bytes * bytes) → bytes → db_state → result bytes () * db_state;
  mysqlx_remove : Z → bytes → bytes → db_state → result bytes () * db_state;
  (* the column labels, the rows, of which a value that is not a string is
     [None], and the error that ended the rows, if one did *)
  mysqlx_sql : Z → bytes → db_state
    → result bytes (list bytes * list row * option bytes) * db_state;
}.

(** ** What the drivers rely on *)

Record Statement := mkStatement {
  s_columns : list bytes;
  s_rows : list row;
  s_current : row;
}.

Record DView := mkDView {
  dv_connections : gset Z;
  dv_messages : gset Z;
  dv_statements : gmap Z Statement;
  dv_sessions : gset Z;
  dv_executed : list (Z * bytes);
  (* what the database of a connection answers to a statement *)
  dv_answer : Z → bytes → option (list bytes * list row);
}.

Definition dv_resources (v : DView) :=
  (dv_connections v, dv_messages v, dv_statements v, dv_sessions v).

Definition set_statements f (v : DView) : DView :=
  mkDView (dv_connections v) (dv_messages v) (f (dv_statements v)) (dv_sessions v)
    (dv_executed v) (dv_answer v).
Definition set_connections f (v : DView) : DView :=
  mkDView (f (dv_connections v)) (dv_messages v) (dv_statements v) (dv_sessions v)
    (dv_executed v) (dv_answer v).
Definition set_messages f (v : DView) : DView :=
  mkDView (dv_connections v) (f (dv_messages v)) (dv_statements v) (dv_sessions v)
    (dv_executed v) (dv_answer v).
Definition set_sessions f (v : DView) : DView :=
  mkDView (dv_connections v) (dv_messages v) (dv_statements v) (f (dv_sessions v))
    (dv_executed v) (dv_answer v).

(** A handle that a call may give out. *)
Definition fresh_or_null (h : Z) (old new : gset Z) : Prop :=
  (h = 0 ∧ new = old) ∨ (h ≠ 0 ∧ (h ∉ old) ∧ new = {[h]} ∪ old).

Class DbLaws (D : DbApi) := {
  d_view : db_state → DView;
  (* null is never a live object *)
  dlaw_null st : (0 ∉ dv_connections (d_view st)) ∧ (0 ∉ dv_messages (d_view st))
                 ∧ dv_statements (d_view st) !! 0 = None ∧ (0 ∉ dv_sessions (d_view st));
  (* a handle may be given out although the call fails *)
  dlaw_open uri st : match sqlite3_open uri st with ((rc, h), st') =>
    fresh_or_null h (dv_connections (d_view st)) (dv_connections (d_view st'))
    ∧ (rc = SQLITE_OK → h ≠ 0)
    ∧ d_view st' = set_connections (fun _ => dv_connections (d_view st')) (d_view st) end;
  dlaw_close h st : d_view (sqlite3_close h st) = set_connections (fun cs => cs ∖ {[h]}) (d_view st);
  (* an error message may be given out when the call fails *)
  dlaw_exec h sql st : match sqlite3_exec h sql st with ((rc, m), st') =>
    fresh_or_null m (dv_messages (d_view st)) (dv_messages (d_view st'))
    ∧ (rc = SQLITE_OK → m = 0)
    ∧ dv_executed (d_view st') = dv_executed (d_view st) ++ [(h, sql)]
    ∧ dv_connections (d_view st') = dv_connections (d_view st)
    ∧ dv_statements (d_view st') = dv_statements (d_view st)
    ∧ dv_sessions (d_view st') = dv_sessions (d_view st) end;
  dlaw_free m st : d_view (sqlite3_free m st) = set_messages (fun ms => ms ∖ {[m]}) (d_view st);
  (* null for a text without a statement, and on failure *)
  dlaw_prepare h sql st : match sqlite3_prepare_v2 h sql st with ((rc, s), st') =>
    (s = 0 ∧ d_view st' = d_view st)
    ∨ (rc = SQLITE_OK ∧ s ≠ 0 ∧ dv_statements (d_view st) !! s = None
       ∧ ∃ columns rows, dv_answer (d_view st) h sql = Some (columns, rows)
         ∧ Forall (fun r => length r = length columns) rows
         ∧ d_view st' = set_statements (<[s := mkStatement columns rows []]>) (d_view st)) end;
  dlaw_column_count s st : sqlite3_column_count s st
    = match dv_statements (d_view st) !! s with Some x => zlen (s_columns x) | None => 0 end;
  dlaw_column_name s x i st : dv_statements (d_view st) !! s = Some x →
    sqlite3_column_name s (Z.of_nat i) st = s_columns x !! i;
  (* a row while there are rows, unless the step fails *)
  dlaw_step s st : match sqlite3_step s st, dv_statements (d_view st) !! s with
    | (rc, st'), Some x =>
        (rc = SQLITE_ROW ∧ ∃ r rows, s_rows x = r :: rows
           ∧ d_view st' = set_statements (<[s := mkStatement (s_columns x) rows r]>) (d_view st))
        ∨ (rc ≠ SQLITE_ROW ∧ d_view st' = d_view st)
    | (rc, st'), None => rc ≠ SQLITE_ROW ∧ d_view st' = d_view st
    end;
  dlaw_column_text s x i st : dv_statements (d_view st) !! s = Some x →
    sqlite3_column_text s (Z.of_nat i) st = mjoin (s_current x !! i);
  dlaw_finalize s st : d_view (sqlite3_finalize s st) = set_statements (delete s) (d_view st);
  dlaw_session uri st : match mysqlx_session uri st with
    | (Ok s, st') => s ≠ 0 ∧ (s ∉ dv_sessions (d_view st))
                     ∧ d_view st' = set_sessions (union {[s]}) (d_view st)
    | (Err _, st') => d_view st' = d_view st end;
  dlaw_session_close s st : d_view (mysqlx_close s st) = d_view st;
  dlaw_session_delete s st :
    d_view (mysqlx_delete s st) = set_sessions (fun ss => ss ∖ {[s]}) (d_view st);
  dlaw_mysql_insert s t cs vs st :
    dv_resources (d_view (mysqlx_insert s t cs vs st).2) = dv_resources (d_view st);
  dlaw_mysql_update s t cs w st :
    dv_resources (d_view (mysqlx_update s t cs w st).2) = dv_resources (d_view st);
  dlaw_mysql_remove s t w st :
    dv_resources (d_view (mysqlx_remove s t w st).2) = dv_resources (d_view st);
  dlaw_mysql_sql s q st :
    dv_resources (d_view (mysqlx_sql s q st).2) = dv_resources (d_view st);
}.

(** ** The SQLite driver *)

Module sqlite.
Section Driver.
Context `{DbApi}.
Abbreviation io A := (prog db_state A).

(** [SQLiteDriver::~SQLiteDriver] *)
Definition destroy (db : Z) : io () :=
  if negb (db =? 0) then effect (sqlite3_close db) else mret ().

(** The driver after [connect] holds the second component. *)
Definition connect (db : Z) (uri : bytes) : io (bool * Z) :=
  destroy db;;
  '(rc, temp_db) ← call (sqlite3_open (until_nul uri));
  if negb (rc =? SQLITE_OK)
  then effect (sqlite3_close temp_db);; mret (false, 0)
  else mret (true, temp_db).

Definition comma : Z := 44.
Definition quote : Z := 39.

(** [columns << pair.first << ","] and [values << "'" << pair.second << "',"] *)
Definition columns_stream (data : ordmap bytes) : bytes :=
  data ≫= fun e => e.1 ++ [comma].
Definition values_stream (data : ordmap bytes) : bytes :=
  data ≫= fun e => quote :: e.2 ++ [quote; comma].
(** [set_clause << pair.first << "='" << pair.second << "',"] *)
Definition set_stream (data : ordmap bytes) : bytes :=
  data ≫= fun e => e.1 ++ text "='" ++ e.2 ++ [quote; comma].

(** [pop_back] *)
Definition pop_back (s : bytes) : bytes := removelast s.

Definition insert_sql (table : bytes) (data : ordmap bytes) : bytes :=
  text "INSERT INTO " ++ table ++ text " (" ++ pop_back (columns_stream data)
    ++ text ") VALUES (" ++ pop_back (values_stream data) ++ text ")".

Definition where_clause (condition : bytes) : bytes :=
  if bool_decide (condition = []) then [] else text " WHERE " ++ condition.

Definition update_sql (table : bytes) (data : ordmap bytes) (condition : bytes) : bytes :=
  text "UPDATE " ++ table ++ text " SET " ++ pop_back (set_stream data) ++ where_clause condition.

Definition remove_sql (table condition : bytes) : bytes :=
  text "DELETE FROM " ++ table ++ where_clause condition.

(** The end of [insert], [update] and [remove]. *)
Definition execute (db : Z) (sql : bytes) : io bool :=
  '(rc, err_msg) ← call (sqlite3_exec db (until_nul sql));
  if negb (rc =? SQLITE_OK)
  then (if negb (err_msg =? 0) then effect (sqlite3_free err_msg) else mret ());; mret false
  else mret true.

Definition insert (db : Z) (table : bytes) (data : ordmap bytes) : io bool :=
  if (db =? 0) || bool_decide (data = []) then mret false
  else execute db (insert_sql table data).

Definition update (db : Z) (table : bytes) (data : ordmap bytes) (condition : bytes) : io bool :=
  if (db =? 0) || bool_decide (data = []) then mret false
  else execute db (update_sql table data condition).

Definition remove (db : Z) (table condition : bytes) : io bool :=
  if db =? 0 then mret false else execute db (remove_sql table condition).

(** [std::string = sqlite3_column_name(stmt, i)]: a null pointer is undefined. *)
Fixpoint column_names (stmt : Z) (i : nat) (n : nat) : io (list bytes) :=
  match n with
  | O => mret []
  | S n' =>
      name ← attempt (fun st => (fun name => (until_nul name, st))
                                  <$> sqlite3_column_name stmt (Z.of_nat i) st);
      names ← column_names stmt (S i) n';
      mret (name :: names)
  end.

(** [row[col_names[i]] = value ? value : ""] for each column. *)
Fixpoint read_row (stmt : Z) (i : nat) (names : list bytes) (acc : ordmap bytes)
  : io (ordmap bytes) :=
  match names with
  | [] => mret acc
  | name :: names' =>
      value ← observe (sqlite3_column_text stmt (Z.of_nat i));
      read_row stmt (S i) names' (omap_insert name (until_nul (default [] value)) acc)
  end.

Fixpoint read_rows (fuel : nat) (stmt : Z) (names : list bytes) : io (list (ordmap bytes)) :=
  match fuel with
  | O => fun _ => Running
  | S fuel' =>
      rc ← call (sqlite3_step stmt);
      if rc =? SQLITE_ROW
      then r ← read_row stmt 0 names [];
           rs ← read_rows fuel' stmt names;
           mret (r :: rs)
      else mret []
  end.

Definition query (fuel : nat) (db : Z) (sql : bytes) : io (list (ordmap bytes)) :=
  if db =? 0 then mret [] else
  '(rc, stmt) ← call (sqlite3_prepare_v2 db (until_nul sql));
  if negb (rc =? SQLITE_OK) then mret [] else
  col_count ← observe (sqlite3_column_count stmt);
  names ← column_names stmt 0 (Z.to_nat col_count);
  results ← read_rows fuel stmt names;
  effect (sqlite3_finalize stmt);;
  mret results.
End Driver.
End sqlite.

(** ** The MySQL driver *)

Module mysql.
Section Driver.
Context `{DbApi}.
Abbreviation io A := (prog db_state A).

Record Impl := mkImpl { session : Z; last_error : bytes }.

Definition Impl_new : Impl := mkImpl 0 [].

Definition destroy (i : Impl) : io () :=
  if negb (session i =? 0)
  then effect (mysqlx_close (session i));; effect (mysqlx_delete (session i))
  else mret ().

Definition failed (i : Impl) (what : bytes) : Impl := mkImpl (session i) what.

Definition connect (i : Impl) (uri : bytes) : io (bool * Impl) :=
  r ← call (mysqlx_session uri);
  match r with
  | Ok s => mret (true, mkImpl s (last_error i))
  | Err what => mret (false, failed i what)
  end.

(** The [try] around a statement. *)
Definition guarded (i : Impl) (f : db_state → result bytes () * db_state) : io (bool * Impl) :=
  r ← call f;
  match r with
  | Ok _ => mret (true, i)
  | Err what => mret (false, failed i what)
  end.

Definition insert (i : Impl) (table : bytes) (data : ordmap bytes) : io (bool * Impl) :=
  if (session i =? 0) || bool_decide (data = []) then mret (false, i)
  else guarded i (mysqlx_insert (session i) table data.*1 data.*2).

Definition update (i : Impl) (table : bytes) (data : ordmap bytes) (condition : bytes)
  : io (bool * Impl) :=
  if (session i =? 0) || bool_decide (data = []) then mret (false, i)
  else guarded i (mysqlx_update (session i) table data condition).

Definition remove (i : Impl) (table condition : bytes) : io (bool * Impl) :=
  if session i =? 0 then mret (false, i)
  else guarded i (mysqlx_remove (session i) table condition).

(** [row_data[columns[i]] = value] *)
Definition row_data (columns : list bytes) (r : row) : ordmap bytes :=
  foldl (fun m e => omap_insert e.1 (default [] e.2) m) [] (zip columns r).

Definition query (i : Impl) (sql : bytes) : io (list (ordmap bytes) * Impl) :=
  if session i =? 0 then mret ([], i) else
  r ← call (mysqlx_sql (session i) sql);
  match r with
  | Ok (columns, rows, None) => mret (row_data columns <$> rows, i)
  | Ok (columns, rows, Some what) => mret (row_data columns <$> rows, failed i what)
  | Err what => mret ([], failed i what)
  end.
End Driver.
End mysql.

(** ** The facade *)

Module yasql.
Section Facade.
Context `{DbApi}.
Abbreviation io A := (prog db_state A).

(** The driver behind [std::unique_ptr<ISqlDriver>]. *)
Inductive Driver := SQLiteDriver (d : Z) | MysqlDriver (i : mysql.Impl) | MongodbDriver | PostgresqlDriver.

Definition YaSql := option Driver.

Definition destroy (m_driver : YaSql) : io () :=
  match m_driver with
  | Some (SQLiteDriver d) => sqlite.destroy d
  | Some (MysqlDriver i) => mysql.destroy i
  | _ => mret ()
  end.

Definition new_driver (dbType : bytes) : option Driver :=
  if bool_decide (dbType = text "sqlite") then Some (SQLiteDriver 0)
  else if bool_decide (dbType = text "mysql") then Some (MysqlDriver mysql.Impl_new)
  else if bool_decide (dbType = text "mongodb") then Some MongodbDriver
  else if bool_decide (dbType = text "postgresql") then Some PostgresqlDriver
  else None.

(** Replacing the driver destroys the one before. *)
Definition loadDriver (m_driver : YaSql) (dbType : bytes) : io (bool * YaSql) :=
  match new_driver dbType with
  | Some d => destroy m_driver;; mret (true, Some d)
  | None => mret (false, m_driver)
  end.

(** A virtual call that may change the driver. *)
Definition on_sqlite {A} (f : Z → io (A * Z)) (d : Z) : io (A * YaSql) :=
  '(a, d) ← f d; mret (a, Some (SQLiteDriver d)).
Definition on_mysql {A} (f : mysql.Impl → io (A * mysql.Impl)) (i : mysql.Impl) : io (A * YaSql) :=
  '(a, i) ← f i; mret (a, Some (MysqlDriver i)).
Definition unchanged {A} (d : Z) (m : io A) : io (A * Z) := a ← m; mret (a, d).

Definition connect (m_driver : YaSql) (uri : bytes) : io (bool * YaSql) :=
  match m_driver with
  | None => mret (false, None)
  | Some (SQLiteDriver d) => on_sqlite (fun d => sqlite.connect d uri) d
  | Some (MysqlDriver i) => on_mysql (fun i => mysql.connect i uri) i
  | Some other => mret (true, Some other)
  end.

Definition insert (m_driver : YaSql) (table : bytes) (data : ordmap bytes) : io (bool * YaSql) :=
  match m_driver with
  | None => mret (false, None)
  | Some (SQLiteDriver d) => on_sqlite (fun d => unchanged d (sqlite.insert d table data)) d
  | Some (MysqlDriver i) => on_mysql (fun i => mysql.insert i table data) i
  | Some other => mret (true, Some other)
  end.

Definition update (m_driver : YaSql) (table : bytes) (data : ordmap bytes) (condition : bytes)
  : io (bool * YaSql) :=
  match m_driver with
  | None => mret (false, None)
  | Some (SQLiteDriver d) => on_sqlite (fun d => unchanged d (sqlite.update d table data condition)) d
  | Some (MysqlDriver i) => on_mysql (fun i => mysql.update i table data condition) i
  | Some other => mret (true, Some other)
  end.

Definition remove (m_driver : YaSql) (table condition : bytes) : io (bool * YaSql) :=
  match m_driver with
  | None => mret (false, None)
  | Some (SQLiteDriver d) => on_sqlite (fun d => unchanged d (sqlite.remove d table condition)) d
  | Some (MysqlDriver i) => on_mysql (fun i => mysql.remove i table condition) i
  | Some other => mret (true, Some other)
  end.

Definition query (fuel : nat) (m_driver : YaSql) (sql : bytes)
  : io (list (ordmap bytes) * YaSql) :=
  match m_driver with
  | None => mret ([], None)
  | Some (SQLiteDriver d) => on_sqlite (fun d => unchanged d (sqlite.query fuel d sql)) d
  | Some (MysqlDriver i) => on_mysql (fun i => mysql.query i sql) i
  | Some other => mret ([], Some other)
  end.
End Facade.
End yasql.

(** ** SQL text *)

Section Text.
Import sqlite.

(** How SQL reads string literals: a quote inside one is doubled. *)
Fixpoint read_body (s : bytes) : option (bytes * bytes) :=
  match s with
  | [] => None
  | c :: s' =>
      if c =? quote
      then match s' with
           | d :: s'' => if d =? quote
                         then '(v, rest) ← read_body s''; Some (quote :: v, rest)
                         else Some ([], s')
           | [] => Some ([], [])
           end
      else '(v, rest) ← read_body s'; Some (c :: v, rest)
  end.

(** A list of literals with commas between them. *)
Fixpoint read_literals (fuel : nat) (s : bytes) : option (list bytes) :=
  match fuel, s with
  | S fuel', c :: s' =>
      if c =? quote
      then '(v, rest) ← read_body s';
           match rest with
           | [] => Some [v]
           | d :: rest' => if d =? comma
                           then vs ← read_literals fuel' rest'; Some (v :: vs)
                           else None
           end
      else None
  | _, _ => None
  end.

Definition escape (v : bytes) : bytes := v ≫= fun c => if c =? quote then [quote; quote] else [c].

Definition joined (f : bytes → bytes) (vs : list bytes) : bytes :=
  match vs with
  | [] => []
  | v :: vs => f v ++ (vs ≫= fun w => comma :: f w)
  end.

Definition raw_literal (v : bytes) : bytes := quote :: v ++ [quote].
Definition literal (v : bytes) : bytes := quote :: escape v ++ [quote].

Lemma removelast_commas (f : bytes → bytes) (vs : list bytes) :
  removelast (vs ≫= fun v => f v ++ [comma]) = joined f vs.
Proof.
  destruct vs as [|v vs]; [done|]. revert v. induction vs as [|w vs IH]; intros v; cbn.
  - by rewrite !app_nil_r, removelast_last.
  - rewrite removelast_app by (intros E; apply app_eq_nil in E as [E _]; by destruct (f w)).
    specialize (IH w). cbn in IH. rewrite IH. by rewrite <- app_assoc.
Qed.

Lemma values_joined (data : ordmap bytes) :
  pop_back (values_stream data) = joined raw_literal data.*2.
Proof.
  rewrite <- removelast_commas. unfold pop_back, values_stream. f_equal.
  induction data as [|[k v] data IH]; [done|]. cbn. rewrite IH. by rewrite <- !app_assoc.
Qed.

Lemma columns_joined (data : ordmap bytes) :
  pop_back (columns_stream data) = joined (fun c => c) data.*1.
Proof.
  rewrite <- removelast_commas. unfold pop_back, columns_stream. f_equal.
  induction data as [|[k v] data IH]; [done|]. cbn. by rewrite IH.
Qed.

Lemma read_body_escaped s v rest : read_body s = Some (v, rest) → s = escape v ++ quote :: rest.
Proof.
  remember (length s) as n eqn:Hn. revert s v rest Hn.
  induction (lt_wf n) as [n _ IH]. intros [|c s] v rest Hn; cbn; [done|].
  destruct (Z.eqb_spec c quote) as [->|Hc].
  - destruct s as [|d s]; [by intros [= <- <-]|].
    destruct (Z.eqb_spec d quote) as [->|Hd]; [|by intros [= <- <-]].
    destruct (read_body s) as [[v' r']|] eqn:E; [|done]. cbn. intros [= <- <-].
    cbn in Hn. by rewrite (IH (length s) ltac:(lia) s v' r' eq_refl E).
  - destruct (read_body s) as [[v' r']|] eqn:E; [|done]. cbn. intros [= <- <-].
    cbn in Hn. rewrite (IH (length s) ltac:(lia) s v' r' eq_refl E). cbn.
    by rewrite (proj2 (Z.eqb_neq c quote) Hc).
Qed.

Lemma read_body_plain v rest :
  quote ∉ v → (∀ r, rest ≠ quote :: r) → read_body (v ++ quote :: rest) = Some (v, rest).
Proof.
  intros Hv Hr. induction v as [|c v IH]; cbn.
  - destruct rest as [|d rest]; [done|]. destruct (Z.eqb_spec d quote) as [->|]; [|done].
    by destruct (Hr rest).
  - destruct (Z.eqb_spec c quote) as [->|]; [set_solver|]. by rewrite IH by set_solver.
Qed.

Lemma read_literals_escaped fuel s vs :
  read_literals fuel s = Some vs → vs ≠ [] ∧ s = joined literal vs.
Proof.
  revert s vs. induction fuel as [|fuel IH]; intros s vs; [by destruct s|].
  destruct s as [|c s]; [done|]. cbn. destruct (Z.eqb_spec c quote) as [->|]; [|done].
  destruct (read_body s) as [[v rest]|] eqn:Eb; [|done]. cbn.
  apply read_body_escaped in Eb as ->. destruct rest as [|d rest].
  - intros [= <-]. cbn. by rewrite app_nil_r.
  - destruct (Z.eqb_spec d comma) as [->|]; [|done].
    destruct (read_literals fuel rest) as [ws|] eqn:Er; [|done]. cbn. intros [= <-].
    apply IH in Er as [Hw ->]. split; [done|]. destruct ws as [|w ws]; [done|]. cbn.
    by rewrite <- !app_assoc.
Qed.

Lemma read_literals_raw fuel vs :
  vs ≠ [] → Forall (fun v => quote ∉ v) vs → (length vs <= fuel)%nat →
  read_literals fuel (joined raw_literal vs) = Some vs.
Proof.
  revert fuel. induction vs as [|v vs IH]; intros fuel Hn Hf Hl; [done|].
  destruct fuel as [|fuel]; [cbn in Hl; lia|]. apply Forall_cons in Hf as [Hv Hf].
  cbn. rewrite <- app_assoc. cbn.
  destruct vs as [|w vs]; cbn.
  - by rewrite read_body_plain.
  - rewrite read_body_plain by done. cbn.
    specialize (IH fuel ltac:(done) Hf ltac:(cbn in *; lia)). cbn in IH. by rewrite IH.
Qed.

Lemma escape_longer v : (length v <= length (escape v))%nat
  ∧ (length (escape v) = length v → quote ∉ v).
Proof.
  induction v as [|c v [IH1 IH2]]; [set_solver|].
  change (escape (c :: v)) with ((if c =? quote then [quote; quote] else [c]) ++ escape v).
  rewrite length_app. destruct (Z.eqb_spec c quote) as [->|Hc]; cbn [length]; [lia|]. split; [lia|].
  intros E. assert (quote ∉ v) by (apply IH2; lia). set_solver.
Qed.

Lemma joined_length vs : (length (joined raw_literal vs) <= length (joined literal vs))%nat
  ∧ (length (joined literal vs) = length (joined raw_literal vs) → Forall (fun v => quote ∉ v) vs).
Proof.
  destruct vs as [|v vs]; [done|]. cbn [joined].
  assert (∀ ws, (length (ws ≫= fun w => comma :: raw_literal w) <= length (ws ≫= fun w => comma :: literal w))%nat
    ∧ (length (ws ≫= fun w => comma :: literal w) = length (ws ≫= fun w => comma :: raw_literal w)
       → Forall (fun v => quote ∉ v) ws)) as Htail.
  { induction ws as [|w ws [IH1 IH2]]; [done|]. destruct (escape_longer w) as [E1 E2].
    cbn. rewrite !length_app. cbn. split; [lia|]. intros E. constructor; [apply E2|apply IH2]; lia. }
  destruct (Htail vs) as [T1 T2]. destruct (escape_longer v) as [E1 E2].
  unfold literal at 1 3, raw_literal at 1 3. cbn. rewrite !length_app. cbn.
  split; [lia|]. intros E. constructor; [apply E2|apply T2]; lia.
Qed.

(** The [VALUES] list that [insert] writes, read as SQL reads string
    literals, denotes the values of the map in the order of their columns
    exactly when none of them contains a quote. *)
Theorem insert_values_exact (data : ordmap bytes) :
  data ≠ [] →
  read_literals (length data) (pop_back (values_stream data)) = Some data.*2
  ↔ Forall (fun v => quote ∉ v) data.*2.
Proof.
  intros Hd. rewrite values_joined. split.
  - intros [_ E]%read_literals_escaped. apply joined_length. by rewrite <- E.
  - intros Hf. apply read_literals_raw; [by destruct data|done|by rewrite length_fmap].
Qed.
End Text.

(** ** Resources *)

Section SqliteFacts.
Context {D : DbApi} {L : DbLaws D}.
Import sqlite.
Implicit Types (st : db_state).

Definition held st := dv_resources (d_view st).

Lemma wp_execute total db sql st Q :
  (∀ r st', held st' = held st →
     dv_executed (d_view st') = dv_executed (d_view st) ++ [(db, until_nul sql)] → Q r st') →
  wp total (execute db sql) st Q.
Proof.
  intros HQ. unfold execute. apply wp_bind, wp_call.
  pose proof (dlaw_exec db (until_nul sql) st) as Hx.
  destruct (sqlite3_exec db (until_nul sql) st) as [[rc m] st1].
  destruct Hx as (Hm & Hok & He & Hc & Hs & Hx). cbn [fst snd].
  assert (m = 0 → held st1 = held st) as Hsame.
  { intros ->. unfold held, dv_resources. destruct Hm as [[_ Hm]|[Hm _]]; [|done]. by rewrite Hm, Hc, Hs, Hx. }
  destruct (Z.eqb_spec rc SQLITE_OK) as [Hrc|Hrc]; cbn [negb].
  { apply wp_ret, HQ; [auto|done]. }
  apply wp_bind. destruct (Z.eqb_spec m 0) as [Hz|Hz]; cbn [negb].
  { apply wp_ret, wp_ret, HQ; auto. }
  apply wp_effect, wp_ret, HQ.
  - unfold held, dv_resources. rewrite dlaw_free. cbn. rewrite Hc, Hs, Hx.
    destruct Hm as [[? _]|(_ & Hf & ->)]; [done|]. do 3 f_equal. set_solver.
  - rewrite dlaw_free. done.
Qed.

(** The statements that change data. *)
Inductive Change :=
| Insert (table : bytes) (data : ordmap bytes)
| Update (table : bytes) (data : ordmap bytes) (condition : bytes)
| Remove (table condition : bytes).

Definition change (db : Z) (c : Change) : prog db_state bool :=
  match c with
  | Insert table data => insert db table data
  | Update table data condition => update db table data condition
  | Remove table condition => remove db table condition
  end.

Definition change_sql (c : Change) : bytes :=
  match c with
  | Insert table data => insert_sql table data
  | Update table data condition => update_sql table data condition
  | Remove table condition => remove_sql table condition
  end.

(** Without a connection or without data nothing is sent. *)
Definition refused (db : Z) (c : Change) : bool :=
  (db =? 0) || match c with Insert _ data | Update _ data _ => bool_decide (data = []) | _ => false end.

(** [insert], [update] and [remove] of the SQLite driver send exactly
    one statement, the text built from their arguments, to the driver's
    connection, and free the error message of one that fails; without a
    connection, or without data for the first two, they send nothing and return
    false. *)
Theorem sqlite_change db c st :
  if refused db c then change db c st = Done (false, st)
  else ∃ r st', change db c st = Done (r, st') ∧ held st' = held st
       ∧ dv_executed (d_view st') = dv_executed (d_view st) ++ [(db, until_nul (change_sql c))].
Proof.
  assert (∀ sql, ∃ r st', execute db sql st = Done (r, st') ∧ held st' = held st
    ∧ dv_executed (d_view st') = dv_executed (d_view st) ++ [(db, until_nul sql)]) as Hx.
  { intros sql. apply (wp_total (execute db sql) st (fun _ st' => held st' = held st
      ∧ dv_executed (d_view st') = dv_executed (d_view st) ++ [(db, until_nul sql)])).
    apply wp_execute. auto. }
  destruct c as [t d|t d w|t w]; unfold refused; cbn [change change_sql];
    unfold insert, update, remove.
  - destruct ((db =? 0) || bool_decide (d = [])); [done|apply Hx].
  - destruct ((db =? 0) || bool_decide (d = [])); [done|apply Hx].
  - rewrite orb_false_r. destruct (db =? 0); [done|apply Hx].
Qed.

(** *** Queries *)

(** One row as a map: later columns of the same name win, null is empty. *)
Definition row_map (names : list bytes) (r : row) : ordmap bytes :=
  foldl (fun m e => omap_insert e.1 (until_nul (default [] e.2)) m) [] (zip names r).

Lemma wp_column_names total stmt x i n st Q :
  dv_statements (d_view st) !! stmt = Some x → (i + n = length (s_columns x))%nat →
  Q (until_nul <$> drop i (s_columns x)) st → wp total (column_names stmt i n) st Q.
Proof.
  intros Hx. revert i Q. induction n as [|n IH]; intros i Q Hn HQ; cbn [column_names].
  { apply wp_ret. by rewrite drop_ge in HQ by lia. }
  destruct (lookup_lt_is_Some_2 (s_columns x) i) as [name Hi]; [lia|].
  apply wp_bind. eapply wp_attempt; [by rewrite (dlaw_column_name _ x), Hi|].
  apply wp_bind, IH; [lia|]. apply wp_ret. by rewrite (drop_S _ _ _ Hi) in HQ.
Qed.

Lemma wp_read_row total stmt x names st Q : ∀ i acc,
  dv_statements (d_view st) !! stmt = Some x → (i + length names = length (s_current x))%nat →
  Q (foldl (fun m e => omap_insert e.1 (until_nul (default [] e.2)) m) acc
       (zip names (drop i (s_current x)))) st →
  wp total (read_row stmt i names acc) st Q.
Proof.
  induction names as [|name names IH]; intros i acc Hx Hn HQ; cbn [read_row]; [apply wp_ret, HQ|].
  cbn in Hn. destruct (lookup_lt_is_Some_2 (s_current x) i) as [v Hi]; [lia|].
  apply wp_bind, wp_observe. pose proof (dlaw_column_text stmt x i st Hx) as ->. rewrite Hi.
  rewrite (drop_S _ _ _ Hi) in HQ. eapply IH; [done|lia|exact HQ].
Qed.

(** The rows a statement still has, from its current state. *)
Lemma wp_read_rows (total : Prop) stmt names st v0 : ∀ fuel x Q,
  (total → (length (s_rows x) < fuel)%nat) → d_view st = set_statements (<[stmt := x]>) v0 →
  length names = length (s_columns x) →
  Forall (fun r => length r = length (s_columns x)) (s_rows x) →
  (∀ k st' x', d_view st' = set_statements (<[stmt := x']>) v0 →
     Q (row_map names <$> take k (s_rows x)) st') →
  wp total (read_rows fuel stmt names) st Q.
Proof.
  intros fuel. revert st. induction fuel as [|fuel IH]; intros st x Q Hf Hv Hn Hr HQ;
    [unfold wp; cbn; intros Ht; specialize (Hf Ht); lia|].
  cbn [read_rows]. apply wp_bind, wp_call. pose proof (dlaw_step stmt st) as Hs.
  assert (dv_statements (d_view st) !! stmt = Some x) as Hx by (rewrite Hv; apply lookup_insert_eq).
  rewrite Hx in Hs. destruct (sqlite3_step stmt st) as [rc st1]. cbn [fst snd].
  destruct Hs as [(-> & r & rows & Er & Hv1)|(Hrc & Hv1)].
  2: { rewrite (proj2 (Z.eqb_neq rc SQLITE_ROW)) by done. apply wp_ret.
       apply (HQ O st1 x). congruence. }
  change (SQLITE_ROW =? SQLITE_ROW) with true. cbn iota.
  set (x1 := mkStatement (s_columns x) rows r).
  assert (d_view st1 = set_statements (<[stmt := x1]>) v0) as Hv1'.
  { rewrite Hv1, Hv. unfold set_statements. cbn. by rewrite insert_insert_eq. }
  rewrite Er in Hr, Hf. apply Forall_cons in Hr as [Hlr Hr].
  apply wp_bind, (wp_read_row total stmt x1 names st1 _ O []).
  { rewrite Hv1'. apply lookup_insert_eq. }
  { cbn. by rewrite Hlr. }
  apply wp_bind, (IH st1 x1); [intros Ht; specialize (Hf Ht); cbn in *; lia|done..|].
  intros k st' x' Hv'. apply wp_ret. specialize (HQ (S k) st' x' Hv'). rewrite Er in HQ. exact HQ.
Qed.

(** What a query returns. *)
Definition query_result st db sql (rs : list (ordmap bytes)) : Prop :=
  rs = [] ∨ ∃ columns rows k, dv_answer (d_view st) db (until_nul sql) = Some (columns, rows)
            ∧ rs = row_map (until_nul <$> columns) <$> take k rows.

Lemma wp_query (total : Prop) fuel db sql st Q :
  (total → (0 < fuel)%nat ∧ ∀ columns rows,
     dv_answer (d_view st) db (until_nul sql) = Some (columns, rows) → (length rows < fuel)%nat) →
  (∀ rs st', held st' = held st → query_result st db sql rs → Q rs st') →
  wp total (query fuel db sql) st Q.
Proof.
  intros Hfuel HQ. unfold query. destruct (db =? 0); [apply wp_ret, HQ; [done|by left]|].
  apply wp_bind, wp_call. pose proof (dlaw_prepare db (until_nul sql) st) as Hp.
  destruct (sqlite3_prepare_v2 db (until_nul sql) st) as [[rc s] st1]. cbn [fst snd].
  destruct Hp as [[-> Hv]|(-> & Hs & Hfresh & columns & rows & Ha & Hrows & Hv)].
  - destruct (negb (rc =? SQLITE_OK)); [apply wp_ret, HQ; [unfold held; by rewrite Hv|by left]|].
    apply wp_bind, wp_observe. rewrite dlaw_column_count. pose proof (dlaw_null st1) as (_ & _ & H0 & _).
    rewrite H0. apply wp_bind, wp_ret, wp_bind.
    destruct fuel as [|fuel]; [unfold wp; cbn; intros Ht; destruct (Hfuel Ht); lia|]. cbn [read_rows].
    apply wp_bind, wp_call. pose proof (dlaw_step 0 st1) as Hst.
    destruct (sqlite3_step 0 st1) as [rc' st2]. rewrite H0 in Hst. destruct Hst as [Hrc Hv2].
    cbn [fst snd]. rewrite (proj2 (Z.eqb_neq rc' SQLITE_ROW)) by done.
    apply wp_ret, wp_bind, wp_effect, wp_ret, HQ; [|by left].
    unfold held, dv_resources. rewrite dlaw_finalize, Hv2, Hv. cbn.
    pose proof (dlaw_null st) as (_ & _ & H00 & _). by rewrite delete_id.
  - change (negb (SQLITE_OK =? SQLITE_OK)) with false. cbn iota.
    set (x := mkStatement columns rows []) in *.
    assert (dv_statements (d_view st1) !! s = Some x) as Hx by (rewrite Hv; apply lookup_insert_eq).
    apply wp_bind, wp_observe. rewrite dlaw_column_count, Hx. cbn [s_columns x].
    apply wp_bind, (wp_column_names total s x O); [done|unfold zlen; cbn; lia|]. rewrite drop_0.
    apply wp_bind, (wp_read_rows total s _ st1 (d_view st) fuel x);
      [intros Ht; by apply (proj2 (Hfuel Ht) columns)|done|by rewrite length_fmap|done|].
    intros k st2 x' Hv2. apply wp_bind, wp_effect, wp_ret, HQ; [|right; eauto 10].
    unfold held, dv_resources. rewrite dlaw_finalize, Hv2. cbn. by rewrite delete_insert_id.
Qed.

End SqliteFacts.

(** ** The life of the facade *)

Section FacadeFacts.
Context {D : DbApi} {L : DbLaws D}.
Implicit Types (st : db_state).

Inductive Op :=
| Load (dbType : bytes)
| Connect (uri : bytes)
| Alter (c : Change)
| Query (sql : bytes).

(** The public calls, without their results. *)
Definition perform (fuel : nat) (m_driver : yasql.YaSql) (o : Op) : prog db_state yasql.YaSql :=
  match o with
  | Load t => '(_, d) ← yasql.loadDriver m_driver t; mret d
  | Connect uri => '(_, d) ← yasql.connect m_driver uri; mret d
  | Alter (Insert t data) => '(_, d) ← yasql.insert m_driver t data; mret d
  | Alter (Update t data w) => '(_, d) ← yasql.update m_driver t data w; mret d
  | Alter (Remove t w) => '(_, d) ← yasql.remove m_driver t w; mret d
  | Query sql => '(_, d) ← yasql.query fuel m_driver sql; mret d
  end.

Fixpoint perform_all (fuel : nat) (m_driver : yasql.YaSql) (os : list Op)
  : prog db_state yasql.YaSql :=
  match os with
  | [] => mret m_driver
  | o :: os' => d ← perform fuel m_driver o; perform_all fuel d os'
  end.

(** Each driver is connected at most once. *)
Fixpoint connects_once (connected : bool) (os : list Op) : bool :=
  match os with
  | [] => true
  | Load t :: os' =>
      connects_once (match yasql.new_driver t with Some _ => false | None => connected end) os'
  | Connect _ :: os' => negb connected && connects_once true os'
  | _ :: os' => connects_once connected os'
  end.

(** The world holds what it held before and what the driver owns. *)
Definition own (h : Z) (base now : gset Z) : Prop :=
  (h ∉ base) ∧ now = if h =? 0 then base else {[h]} ∪ base.

Definition connection (m_driver : yasql.YaSql) : Z :=
  match m_driver with Some (yasql.SQLiteDriver h) => h | _ => 0 end.
Definition session_of (m_driver : yasql.YaSql) : Z :=
  match m_driver with Some (yasql.MysqlDriver i) => mysql.session i | _ => 0 end.

Definition owns (m_driver : yasql.YaSql) st0 st : Prop :=
  own (connection m_driver) (dv_connections (d_view st0)) (dv_connections (d_view st))
  ∧ own (session_of m_driver) (dv_sessions (d_view st0)) (dv_sessions (d_view st))
  ∧ dv_messages (d_view st) = dv_messages (d_view st0)
  ∧ dv_statements (d_view st) = dv_statements (d_view st0).

Lemma own_drop h base now : (0 ∉ base) → own h base now → own 0 base (if h =? 0 then now else now ∖ {[h]}).
Proof.
  intros H0 [Hh ->]. split; [done|]. destruct (h =? 0); [done|]. cbn. set_solver.
Qed.

Lemma own_none base : (0 ∉ base) → own 0 base base.
Proof. done. Qed.

Lemma own_new h base : h ≠ 0 → (h ∉ base) → own h base ({[h]} ∪ base).
Proof. intros H Hh. split; [done|]. by rewrite (proj2 (Z.eqb_neq h 0)). Qed.

Lemma owns_held d st0 st st' : held st' = held st → owns d st0 st → owns d st0 st'.
Proof. unfold held, dv_resources, owns. by intros [= -> -> -> ->]. Qed.

Lemma wp_sqlite_destroy total h st Q :
  (∀ st', d_view st' = (if h =? 0 then d_view st
                        else set_connections (fun cs => cs ∖ {[h]}) (d_view st)) → Q () st') →
  wp total (sqlite.destroy h) st Q.
Proof.
  intros HQ. unfold sqlite.destroy. destruct (h =? 0); cbn [negb].
  - by apply wp_ret, HQ.
  - apply wp_effect, HQ. apply dlaw_close.
Qed.

Lemma wp_facade_destroy total d st0 st Q :
  owns d st0 st → (∀ st', owns None st0 st' → Q () st') → wp total (yasql.destroy d) st Q.
Proof.
  intros (Hc & Hs & Hm & Ht) HQ. pose proof (dlaw_null st0) as (N1 & _ & _ & N4).
  destruct d as [[h|i| |]|]; cbn [yasql.destroy].
  - apply wp_sqlite_destroy. intros st' Hv. apply HQ. apply own_drop in Hc; [|done].
    unfold owns. cbn [connection session_of] in *. rewrite Hv. by destruct (h =? 0).
  - unfold mysql.destroy. apply own_drop in Hs; [|done]. cbn [connection session_of] in *.
    destruct (mysql.session i =? 0); cbn [negb].
    + apply wp_ret, HQ. done.
    + apply wp_bind, wp_effect, wp_effect, HQ. unfold owns. cbn [connection session_of].
      rewrite dlaw_session_delete, dlaw_session_close. done.
  - apply wp_ret, HQ. done.
  - apply wp_ret, HQ. done.
  - apply wp_ret, HQ. done.
Qed.

Lemma wp_sqlite_connect total h uri st0 st Q :
  owns (Some (yasql.SQLiteDriver h)) st0 st →
  (∀ r h' st', owns (Some (yasql.SQLiteDriver h')) st0 st' → Q (r, h') st') →
  wp total (sqlite.connect h uri) st Q.
Proof.
  intros Ho HQ. unfold sqlite.connect. pose proof (dlaw_null st0) as (N1 & _ & _ & N4).
  apply wp_bind, (wp_facade_destroy total (Some (yasql.SQLiteDriver h)) st0); [done|].
  intros st1 (Hc & Hs & Hm & Ht). cbn [connection session_of] in *. destruct Hc as [_ Hc].
  apply wp_bind, wp_call. pose proof (dlaw_open (until_nul uri) st1) as Hop.
  destruct (sqlite3_open (until_nul uri) st1) as [[rc h'] st2]. destruct Hop as (Hf & Hok & Hv).
  cbn [fst snd]. cbn in Hc. rewrite Hc in Hf.
  destruct (Z.eqb_spec rc SQLITE_OK) as [Hrc|Hrc]; cbn [negb].
  - apply wp_ret, HQ. destruct Hf as [[Hz _]|(Hz & Hf & Hn)]; [by destruct Hok|].
    split_and!; cbn [connection session_of]; [rewrite Hn; by apply own_new|by rewrite Hv..].
  - apply wp_bind, wp_effect, wp_ret, HQ. split_and!; cbn [connection session_of];
      rewrite dlaw_close; cbn; [|by rewrite Hv..].
    destruct Hf as [[-> Hn]|(Hz & Hf & Hn)]; rewrite Hn; (split; [done|]); set_solver.
Qed.

(** A driver that [connects_once] regards as not connected has no session. *)
Definition tracked (connected : bool) (d : yasql.YaSql) : Prop :=
  connected = false → session_of d = 0.

Lemma wp_guarded total i f st0 st Q :
  owns (Some (yasql.MysqlDriver i)) st0 st → held (f st).2 = held st →
  (∀ r i' st', owns (Some (yasql.MysqlDriver i')) st0 st' →
     mysql.session i' = mysql.session i → Q (r, i') st') →
  wp total (mysql.guarded i f) st Q.
Proof.
  intros Ho Hh HQ. unfold mysql.guarded. apply wp_bind, wp_call.
  destruct (f st) as [[[]|e] st']; cbn in Hh; apply wp_ret, HQ; try done;
    by eapply owns_held.
Qed.

Lemma wp_change total h c st Q :
  (∀ r st', held st' = held st → Q r st') → wp total (change h c) st Q.
Proof.
  intros HQ. destruct c as [t d|t d w|t w]; cbn [change];
    unfold sqlite.insert, sqlite.update, sqlite.remove;
    (match goal with |- context [if ?b then _ else _] => destruct b end; [by apply wp_ret, HQ|]);
    apply wp_execute; auto.
Qed.

Lemma wp_on_sqlite total {A} h (m : prog db_state A) st0 st Q :
  owns (Some (yasql.SQLiteDriver h)) st0 st → wp total m st (fun _ st' => held st' = held st) →
  (∀ a st', owns (Some (yasql.SQLiteDriver h)) st0 st' → Q (a, Some (yasql.SQLiteDriver h)) st') →
  wp total (yasql.on_sqlite (fun d => yasql.unchanged d m) h) st Q.
Proof.
  intros Ho Hm HQ. unfold yasql.on_sqlite, yasql.unchanged. apply wp_bind, wp_bind.
  eapply wp_mono; [exact Hm|]. intros a st' Hh. apply wp_ret, wp_ret, HQ.
  exact (owns_held _ _ _ _ Hh Ho).
Qed.

Lemma wp_on_mysql total {A} i (f : mysql.Impl → prog db_state (A * mysql.Impl)) st0 st Q :
  wp total (f i) st (fun r st' => owns (Some (yasql.MysqlDriver r.2)) st0 st'
                                  ∧ mysql.session r.2 = mysql.session i) →
  (∀ a i' st', owns (Some (yasql.MysqlDriver i')) st0 st' → mysql.session i' = mysql.session i →
     Q (a, Some (yasql.MysqlDriver i')) st') →
  wp total (yasql.on_mysql f i) st Q.
Proof.
  intros Hm HQ. unfold yasql.on_mysql. apply wp_bind. eapply wp_mono; [exact Hm|].
  intros [a i'] st' [Ho Hs]. apply wp_ret, HQ; done.
Qed.

Lemma wp_mysql_change total (i : mysql.Impl) (refused : bool) f st0 st :
  owns (Some (yasql.MysqlDriver i)) st0 st → held (f st).2 = held st →
  wp total (if refused then mret (false, i) else mysql.guarded i f) st
    (fun r st' => owns (Some (yasql.MysqlDriver r.2)) st0 st' ∧ mysql.session r.2 = mysql.session i).
Proof. intros Ho Hh. destruct refused; [by apply wp_ret|]. eapply wp_guarded; eauto. Qed.

Lemma wp_alter total fuel c d st0 st Q :
  owns d st0 st → (∀ d' st', owns d' st0 st' → session_of d' = session_of d → Q d' st') →
  wp total (perform fuel d (Alter c)) st Q.
Proof.
  intros Ho HQ. destruct d as [[h|i| |]|]; [| |by destruct c; apply wp_bind, wp_ret, wp_ret, HQ..].
  - destruct c as [t x|t x w|t w]; cbn [perform]; apply wp_bind.
    + apply (wp_on_sqlite total h _ st0); [done|by apply (wp_change total h (Insert t x))|].
      intros a st' Ho'. by apply wp_ret, HQ.
    + apply (wp_on_sqlite total h _ st0); [done|by apply (wp_change total h (Update t x w))|].
      intros a st' Ho'. by apply wp_ret, HQ.
    + apply (wp_on_sqlite total h _ st0); [done|by apply (wp_change total h (Remove t w))|].
      intros a st' Ho'. by apply wp_ret, HQ.
  - destruct c as [t x|t x w|t w]; cbn [perform]; apply wp_bind, (wp_on_mysql total i _ st0);
      try (intros a i' st' Ho' Hs; by apply wp_ret, HQ); apply wp_mysql_change; try done.
    + apply dlaw_mysql_insert.
    + apply dlaw_mysql_update.
    + apply dlaw_mysql_remove.
Qed.

Lemma wp_perform fuel o os d connected st0 st Q :
  owns d st0 st → tracked connected d → connects_once connected (o :: os) = true →
  (∀ connected' d' st', owns d' st0 st' → tracked connected' d' →
     connects_once connected' os = true → Q d' st') →
  wp False (perform fuel d o) st Q.
Proof.
  intros Ho Ht Hc HQ. pose proof (dlaw_null st0) as (N1 & _ & _ & N4).
  destruct o as [t|uri|c|sql]; cbn [connects_once] in Hc.
  - cbn [perform]. apply wp_bind. unfold yasql.loadDriver.
    destruct (yasql.new_driver t) as [d'|] eqn:Ed; [|apply wp_ret, wp_ret; by eapply HQ].
    apply wp_bind, (wp_facade_destroy False d st0); [done|]. intros st1 (H1 & H2 & H3 & H4).
    assert (connection (Some d') = 0 ∧ session_of (Some d') = 0) as [C0 S0].
    { unfold yasql.new_driver in Ed. repeat case_bool_decide; try done; by injection Ed as <-. }
    apply wp_ret, wp_ret, (HQ false); [|by intros _|done]. unfold owns. by rewrite C0, S0.
  - apply andb_true_iff in Hc as [Hcon Hc]. apply negb_true_iff in Hcon.
    cbn [perform]. apply wp_bind.
    destruct d as [[h|i| |]|]; cbn [yasql.connect];
      [| |by apply wp_ret, wp_ret; eapply (HQ true)..].
    + unfold yasql.on_sqlite. apply wp_bind, (wp_sqlite_connect False h uri st0); [done|].
      intros r h' st' Ho'. apply wp_ret, wp_ret. by eapply (HQ true).
    + specialize (Ht Hcon). cbn in Ht. unfold yasql.on_mysql, mysql.connect.
      apply wp_bind, wp_bind, wp_call. pose proof (dlaw_session uri st) as Hs.
      destruct Ho as (H1 & [_ H2] & H3 & H4). cbn [session_of] in H2. rewrite Ht in H2. cbn in H2.
      destruct (mysqlx_session uri st) as [[s|e] st1]; cbn [fst snd].
      * destruct Hs as (Hz & Hf & Hv). apply wp_ret, wp_ret, wp_ret, (HQ true); [|by intros|done].
        rewrite H2 in Hf. split_and!; cbn [connection session_of mysql.session];
          rewrite Hv; [done| |done|done].
        cbn. rewrite H2. by apply own_new.
      * apply wp_ret, wp_ret, wp_ret, (HQ true); [|by intros|done].
        split_and!; cbn [connection session_of mysql.session mysql.failed];
          rewrite Hs; [done| |done|done]. rewrite Ht, H2. by apply own_none.
  - apply (wp_alter False fuel c d st0); [done|]. intros d' st' Ho' Hs. apply (HQ connected); [done| |done].
    intros Hcn. rewrite Hs. by apply Ht.
  - cbn [perform]. apply wp_bind. destruct d as [[h|i| |]|]; cbn [yasql.query];
      [| |by apply wp_ret, wp_ret; eapply HQ..].
    + apply (wp_on_sqlite False h _ st0); [done| |].
      { apply wp_query; [tauto|auto]. }
      intros a st' Ho'. apply wp_ret. by eapply HQ.
    + apply (wp_on_mysql False i _ st0).
      { unfold mysql.query. destruct (mysql.session i =? 0); [by apply wp_ret|].
        apply wp_bind, wp_call. pose proof (dlaw_mysql_sql (mysql.session i) sql st) as Hs.
        destruct (mysqlx_sql (mysql.session i) sql st) as [[[[cs rs] [w|]]|e] st1]; cbn in Hs;
          apply wp_ret; (split; [|done]); exact (owns_held _ _ _ _ Hs Ho). }
      intros a i' st' Ho' Hs. apply wp_ret. apply (HQ connected); [done| |done].
      intros Hcn. cbn. rewrite Hs. by apply Ht.
Qed.

(** C37. However the facade is used, with any drivers and whichever calls fail,
    as long as each driver is connected at most once: when it is destroyed, no
    connection, session, statement or error message is left beyond those that
    were there before. *)
Theorem facade_releases fuel os st d st1 st2 :
  connects_once false os = true →
  perform_all fuel None os st = Done (d, st1) → yasql.destroy d st1 = Done ((), st2) →
  held st2 = held st.
Proof.
  intros Hc E1 E2. pose proof (dlaw_null st) as (N1 & _ & _ & N4).
  assert (∀ os connected d0 st', owns d0 st st' → tracked connected d0 → connects_once connected os = true →
    wp False (perform_all fuel d0 os) st' (fun d st' => owns d st st')) as Hall.
  { clear os Hc E1 E2 st1. induction os as [|o os IH]; intros connected d0 st' Ho Ht Hc; [by apply wp_ret|].
    cbn [perform_all]. eapply wp_bind, wp_perform; [done..|]. intros c' d' st1. apply IH. }
  assert (owns d st st1) as Ho.
  { eapply (wp_partial (perform_all fuel None os) st (fun d st' => owns d st st')); [|exact E1].
    eapply Hall; [|by intros _|exact Hc]. split_and!; [by apply own_none..|done|done]. }
  assert (owns None st st2) as ([_ H1] & [_ H2] & H3 & H4).
  { eapply (wp_partial (yasql.destroy d) st1 (fun _ st' => owns None st st')); [|exact E2].
    eapply wp_facade_destroy; eauto. }
  unfold held, dv_resources. cbn in H1, H2. by rewrite H1, H2, H3, H4.
Qed.
End FacadeFacts.

(** ** A concrete database

    One table with two rows behind every connection; a file name that is empty
    cannot be opened, although a handle is given out, and a statement that does
    not end in a parenthesis fails with a message. *)
Module ToyDb.

Record State := mkState {
  tb_connections : gset Z;
  tb_messages : gset Z;
  tb_statements : gmap Z Statement;
  tb_sessions : gset Z;
  tb_executed : list (Z * bytes);
}.

Definition users : list bytes * list row :=
  ([text "id"; text "name"], [[Some (text "1"); Some (text "ann")]; [Some (text "2"); None]]).

Definition answer (h : Z) (sql : bytes) : option (list bytes * list row) :=
  if bool_decide (sql = text "SELECT * FROM users") then Some users else None.

(** Null is not an object. *)
Definition view (st : State) : DView :=
  mkDView (tb_connections st ∖ {[0]}) (tb_messages st ∖ {[0]}) (delete 0 (tb_statements st))
    (tb_sessions st ∖ {[0]}) (tb_executed st) answer.

Definition new_statement (m : gmap Z Statement) : Z := unused (dom m).

Definition set_c f st := mkState (f (tb_connections st)) (tb_messages st) (tb_statements st) (tb_sessions st) (tb_executed st).
Definition set_m f st := mkState (tb_connections st) (f (tb_messages st)) (tb_statements st) (tb_sessions st) (tb_executed st).
Definition set_s f st := mkState (tb_connections st) (tb_messages st) (f (tb_statements st)) (tb_sessions st) (tb_executed st).
Definition set_x f st := mkState (tb_connections st) (tb_messages st) (tb_statements st) (f (tb_sessions st)) (tb_executed st).
Definition log e st := mkState (tb_connections st) (tb_messages st) (tb_statements st) (tb_sessions st) (tb_executed st ++ [e]).

Definition exec (h : Z) (sql : bytes) (st : State) : (Z * Z) * State :=
  let st := log (h, sql) st in
  if bool_decide (last sql = Some 41) then ((0, 0), st)
  else let m := unused (tb_messages st) in ((1, m), set_m (union {[m]}) st).

Definition prepare (h : Z) (sql : bytes) (st : State) : (Z * Z) * State :=
  match answer h sql with
  | Some (columns, rows) =>
      let s := new_statement (tb_statements st) in
      ((0, s), set_s (<[s := mkStatement columns rows []]>) st)
  | None => ((1, 0), st)
  end.

Definition step (s : Z) (st : State) : Z * State :=
  match delete 0 (tb_statements st) !! s with
  | Some (mkStatement columns (r :: rows) _) => (100, set_s (<[s := mkStatement columns rows r]>) st)
  | _ => (101, st)
  end.

#[global] Instance toy_db : DbApi := {|
  db_state := State;
  sqlite3_open uri st :=
    let h := unused (tb_connections st) in
    ((if bool_decide (uri = []) then 14 else 0, h), set_c (union {[h]}) st);
  sqlite3_close h := set_c (fun cs => cs ∖ {[h]});
  sqlite3_exec := exec;
  sqlite3_free m := set_m (fun ms => ms ∖ {[m]});
  sqlite3_prepare_v2 := prepare;
  sqlite3_column_count s st :=
    match delete 0 (tb_statements st) !! s with Some x => zlen (s_columns x) | None => 0 end;
  sqlite3_column_name s i st := tb_statements st !! s ≫= fun x => s_columns x !! Z.to_nat i;
  sqlite3_step := step;
  sqlite3_column_text s i st := tb_statements st !! s ≫= fun x => mjoin (s_current x !! Z.to_nat i);
  sqlite3_finalize s := set_s (delete s);
  mysqlx_session uri st :=
    if bool_decide (uri = []) then (Err (text "uri"), st)
    else let s := unused (tb_sessions st) in (Ok s, set_x (union {[s]}) st);
  mysqlx_close _ st := st;
  mysqlx_delete s := set_x (fun ss => ss ∖ {[s]});
  mysqlx_insert s t cs vs st := (Ok (), st);
  mysqlx_update s t cs w st := (Ok (), st);
  mysqlx_remove s t w st := (Ok (), st);
  mysqlx_sql s q st := (Ok (users, None), st);
|}.

Lemma fresh_view (s : gset Z) :
  fresh_or_null (unused s) (s ∖ {[0]}) (({[unused s]} ∪ s) ∖ {[0]}).
Proof. destruct (unused_fresh s) as [Hf Hz]. right. split_and!; [done|set_solver|set_solver]. Qed.

Lemma minus_swap (s : gset Z) h : (s ∖ {[h]}) ∖ {[0]} = (s ∖ {[0]}) ∖ {[h]}.
Proof. set_solver. Qed.

#[global] Instance toy_db_laws : DbLaws toy_db.
Proof.
  apply (Build_DbLaws toy_db view); try done.
  - intros st. cbn. split_and!; [set_solver|set_solver|apply lookup_delete_eq|set_solver].
  - intros uri st. cbn. split_and!; [apply fresh_view|intros _; apply unused_fresh|done].
  - intros h st. unfold view, set_connections. cbn. by rewrite minus_swap.
  - intros h sql st. cbn. unfold exec. case_bool_decide; cbn.
    + split_and!; try done. by left.
    + split_and!; try done. apply fresh_view.
  - intros m st. unfold view, set_messages. cbn. by rewrite minus_swap.
  - intros h sql st. cbn. unfold prepare, answer. case_bool_decide; [right|by left].
    destruct (unused_fresh (dom (tb_statements st))) as [Hf Hz]. fold (new_statement (tb_statements st)) in Hf, Hz.
    split_and!; [done|done|cbn; rewrite lookup_delete_ne by done; by apply not_elem_of_dom|].
    exists users.1, users.2. split_and!; [done|by repeat constructor|].
    unfold view, set_statements. cbn. by rewrite delete_insert_ne.
  - intros s x i st Hx. cbn in Hx |- *. apply lookup_delete_Some in Hx as [_ ->]. cbn. by rewrite Nat2Z.id.
  - intros s st. cbn. unfold step. destruct (delete 0 (tb_statements st) !! s) as [[cs [|r rows] cur]|] eqn:E;
      [by right| |done].
    left. split; [done|]. exists r, rows. split; [done|].
    apply lookup_delete_Some in E as [Hz _]. unfold view, set_statements. cbn. by rewrite delete_insert_ne.
  - intros s x i st Hx. cbn in Hx |- *. apply lookup_delete_Some in Hx as [_ ->]. cbn. by rewrite Nat2Z.id.
  - intros s st. unfold view, set_statements. cbn. by rewrite delete_delete.
  - intros uri st. cbn. case_bool_decide; [done|]. destruct (unused_fresh (tb_sessions st)) as [Hf Hz].
    split_and!; [done|set_solver|]. unfold view, set_sessions. cbn. f_equal. set_solver.
  - intros s st. unfold view, set_sessions. cbn. by rewrite minus_swap.
Defined.

Definition empty : State := mkState ∅ ∅ ∅ ∅ [].
End ToyDb.

Lemma insert_values_exact_witness :
  read_literals 2 (sqlite.pop_back (sqlite.values_stream
    [(text "id", text "1"); (text "name", text "ann")])) = Some [text "1"; text "ann"].
Proof.
  apply (insert_values_exact [(text "id", text "1"); (text "name", text "ann")]); [done|].
  repeat constructor; apply (bool_decide_eq_true_1 _); vm_compute; reflexivity.
Defined.

(** A value with a quote becomes SQL of its own. *)
Example insert_injects :
  sqlite.insert_sql (text "users") [(text "name", text "x'); DROP TABLE users; --")]
  = text "INSERT INTO users (name) VALUES ('x'); DROP TABLE users; --')".
Proof. vm_compute. reflexivity. Qed.


Definition demo_ops : list Op :=
  [Load (text "sqlite"); Connect []; Load (text "sqlite"); Connect (text "a.db");
   Alter (Remove (text "users") []); Query (text "SELECT * FROM users");
   Load (text "mysql"); Connect (text "mysqlx://h")].

Lemma facade_releases_witness :
  ∃ d st1 st2, perform_all 3 None demo_ops ToyDb.empty = Done (d, st1)
  ∧ yasql.destroy d st1 = Done ((), st2) ∧ held st2 = held ToyDb.empty.
Proof.
  assert (outcome (fun '(d, st1) => outcome (fun _ => ()) (yasql.destroy (H := ToyDb.toy_db) d st1))
    (perform_all (D := ToyDb.toy_db) 3 None demo_ops ToyDb.empty) = Some (Some ())) as Ho
    by (vm_compute; reflexivity).
  destruct (perform_all (D := ToyDb.toy_db) 3 None demo_ops ToyDb.empty) as [[d st1]| |] eqn:E1; try discriminate Ho.
  destruct (yasql.destroy d st1) as [[[] st2]| |] eqn:E2; try (cbn in Ho; rewrite E2 in Ho; discriminate Ho).
  exists d, st1, st2. split; [reflexivity|]. split; [exact E2|].
  exact (facade_releases (D := ToyDb.toy_db) 3 demo_ops ToyDb.empty d st1 st2 eq_refl E1 E2).
Defined.

(** Connecting the MySQL driver twice loses the first session. *)
Example mysql_reconnect_leaks :
  outcome (fun '(d, st1) => outcome (fun '(_, st2) => elements (ToyDb.tb_sessions st2))
             (yasql.destroy (H := ToyDb.toy_db) d st1))
    (perform_all (D := ToyDb.toy_db) 3 None
       [Load (text "mysql"); Connect (text "a"); Connect (text "b")] ToyDb.empty) = Some (Some [1]).
Proof. vm_compute. reflexivity. Qed.
