(* ===== verification/YaShell.v ===== *)
(** * YaShell: the legacy command shell

    Models [src/ya_shell/yashell.cpp]: splitting a line into words, the
    commands, and the loop over the input.  The input is what is left of the
    stream, the output what has been written to it.

    The theorems: the words of a line are read back however they are spaced;
    the loop ends on every input, answers each line in turn, and reads nothing
    after the line that quits. *)

From S2P Require Import Prelude Text.

(** ** Words and lines *)

(** [iss >> token] until it fails: the maximal runs of characters that are not
    blank. *)
Definition goes_on (bs : bytes) : bool :=
  match bs with d :: _ => negb (is_space d) | [] => false end.

Fixpoint words (bs : bytes) : list bytes :=
  match bs with
  | [] => []
  | c :: bs' =>
      if is_space c then words bs'
      else match goes_on bs', words bs' with
           | true, w :: ws => (c :: w) :: ws
           | _, ws => [c] :: ws
           end
  end.

(** [std::getline(m_in, line)]: a line and the rest, or the end of the input. *)
Definition next_line (input : bytes) : option (bytes * bytes) :=
  let '(line, found) := split_at 10 input in
  match found with
  | Some rest => Some (line, rest)
  | None => if bool_decide (line = []) then None else Some (line, [])
  end.

Module yashell.

Record Shell := mkShell { m_running : bool; m_out : bytes }.

Definition print (text : bytes) (s : Shell) : Shell := mkShell (m_running s) (m_out s ++ text).

Definition newline : bytes := [10].

Definition parseCommand (line : bytes) : list bytes := words line.

Definition help_text : bytes :=
  text "ya-net" ++ newline ++ text "Usage:" ++ newline
  ++ text "  help        Print help" ++ newline
  ++ text "  echo [args] print args" ++ newline
  ++ text "  exit/quit   Exit shell" ++ newline.

Definition is_quit (cmd : bytes) : bool :=
  bool_decide (cmd = text "q") || bool_decide (cmd = text "quit") || bool_decide (cmd = text "exit").

Definition executeCommand (tokens : list bytes) (s : Shell) : Shell :=
  match tokens with
  | [] => s
  | cmd :: args =>
      if is_quit cmd
      then mkShell false (m_out s ++ text "bye..." ++ newline)
      else if bool_decide (cmd = text "echo")
      then print ((args ≫= fun a => a ++ text " ") ++ newline) s
      else if bool_decide (cmd = text "help") then print help_text s
      else print (text "Unknown: " ++ cmd ++ newline) s
  end.

Definition prompt : bytes := text "ya-net> ".

(** The loop: the shell afterwards and what is left of the input. *)
Fixpoint run (fuel : nat) (input : bytes) (s : Shell) : exec (Shell * bytes) :=
  match fuel with
  | O => Running
  | S fuel' =>
      if m_running s
      then let s := print prompt s in
           match next_line input with
           | None => Done (print (newline ++ text "Exit." ++ newline) s, [])
           | Some (line, rest) => run fuel' rest (executeCommand (parseCommand line) s)
           end
      else Done (s, input)
  end.
End yashell.
Import yashell.

(** ** Words are read back *)

Definition word (w : bytes) : Prop := w ≠ [] ∧ Forall (fun c => is_space c = false) w.
Definition blank (g : bytes) : Prop := Forall (fun c => is_space c = true) g.

Lemma words_blank g bs : blank g → words (g ++ bs) = words bs.
Proof. induction 1 as [|c g Hc Hg IH]; [done|]. cbn. by rewrite Hc. Qed.

Lemma words_word w g bs :
  word w → blank g → g ≠ [] ∨ bs = [] → words (w ++ g ++ bs) = w :: words (g ++ bs).
Proof.
  intros [Hn Hw] Hg Hsep. induction w as [|c w IH]; [done|]. apply Forall_cons in Hw as [Hc Hw].
  cbn [app words]. rewrite Hc. destruct w as [|d w].
  - cbn [app]. assert (goes_on (g ++ bs) = false) as ->; [|done].
    destruct g as [|e g]; [destruct Hsep as [?| ->]; done|].
    apply Forall_cons in Hg as [He _]. cbn. by rewrite He.
  - rewrite IH by done. apply Forall_cons in Hw as [Hd _]. cbn [app goes_on]. by rewrite Hd.
Qed.

(** A line made of words and the gaps after them. *)
Definition spaced (l : list (bytes * bytes)) : bytes := l ≫= fun e => e.1 ++ e.2.

(** Every word but the last is followed by a gap. *)
Fixpoint separated (l : list (bytes * bytes)) : Prop :=
  match l with
  | [] => True
  | (w, g) :: l' => word w ∧ blank g ∧ (g ≠ [] ∨ l' = []) ∧ separated l'
  end.

Lemma words_spaced l : separated l → words (spaced l) = l.*1.
Proof.
  induction l as [|[w g] l IH]; intros Hs; [done|]. destruct Hs as (Hw & Hg & Hsep & Hl).
  change (spaced ((w, g) :: l)) with ((w ++ g) ++ spaced l). rewrite <- app_assoc.
  rewrite words_word; [|done|done|]. { cbn. rewrite words_blank by done. by rewrite IH. }
  destruct Hsep as [?| ->]; [by left|by right].
Qed.

(** The shell reads back the words of a line, however many blanks precede,
    separate or follow them. *)
Theorem parse_command_words g l :
  blank g → separated l → parseCommand (g ++ spaced l) = l.*1.
Proof. intros Hg Hl. unfold parseCommand. rewrite words_blank by done. by apply words_spaced. Qed.

Lemma parse_command_words_witness :
  parseCommand (text "  echo hello   world ") = [text "echo"; text "hello"; text "world"].
Proof.
  apply (parse_command_words (text "  ")
    [(text "echo", text " "); (text "hello", text "   "); (text "world", text " ")]).
  - by repeat constructor.
  - cbn [separated]. unfold word, blank. split_and!; try done; try (by repeat constructor);
      try (by left).
Defined.

(** ** The loop *)

Lemma next_line_shorter input line rest :
  next_line input = Some (line, rest) → (length rest < length input)%nat.
Proof.
  unfold next_line. pose proof (split_at_spec 10 input) as Hs.
  destruct (split_at 10 input) as [l [r|]]; destruct Hs as [-> _].
  - intros [= <- <-]. rewrite length_app. cbn. lia.
  - case_bool_decide; [done|]. intros [= <- <-]. destruct l; [done|]. cbn. lia.
Qed.

(** What the loop does to the lines before one that quits. *)
Definition answer (s : Shell) (line : bytes) : Shell :=
  executeCommand (parseCommand line) (print prompt s).

Definition quits (line : bytes) : bool :=
  match words line with cmd :: _ => is_quit cmd | [] => false end.

Lemma execute_running tokens s :
  m_running (executeCommand tokens s)
  = m_running s && negb (match tokens with cmd :: _ => is_quit cmd | [] => false end).
Proof.
  destruct tokens as [|cmd args]; cbn; [by rewrite andb_true_r|].
  destruct (is_quit cmd); cbn; [by rewrite andb_false_r|].
  rewrite andb_true_r. repeat case_bool_decide; done.
Qed.

Definition line_ok (line : bytes) : Prop := 10 ∉ line.

Definition typed (ls : list bytes) : bytes := ls ≫= fun l => l ++ [10].

Lemma next_typed l ls more : line_ok l → next_line (typed (l :: ls) ++ more) = Some (l, typed ls ++ more).
Proof.
  intros Hl. unfold next_line. change (typed (l :: ls)) with ((l ++ [10]) ++ typed ls).
  rewrite <- !app_assoc. cbn. by rewrite split_at_app.
Qed.

Lemma run_lines ls more s fuel :
  Forall line_ok ls → Forall (fun l => quits l = false) ls → m_running s = true →
  (length ls <= fuel)%nat →
  run fuel (typed ls ++ more) s = run (fuel - length ls) more (foldl answer s ls).
Proof.
  intros Hok Hq. revert s fuel. induction ls as [|l ls IH]; intros s fuel Hr Hf.
  { cbn. by rewrite Nat.sub_0_r. }
  apply Forall_cons in Hok as [Hl Hok]. apply Forall_cons in Hq as [Hq Hqs].
  destruct fuel as [|fuel]; [cbn in Hf; lia|]. cbn [run]. rewrite Hr, next_typed by done.
  cbn [foldl length Nat.sub]. change (executeCommand (parseCommand l) (print prompt s)) with (answer s l).
  apply IH; [done|done| |cbn in Hf; lia].
  unfold answer. rewrite execute_running. unfold quits in Hq. unfold parseCommand. rewrite Hq. cbn.
  by rewrite Hr.
Qed.

Lemma run_terminates fuel input s :
  (length input < fuel)%nat → ∃ s' rest, run fuel input s = Done (s', rest).
Proof.
  revert input s. induction fuel as [|fuel IH]; intros input s Hf; [lia|]. cbn [run].
  destruct (m_running s); [|eauto]. destruct (next_line input) as [[line rest]|] eqn:En; [|eauto].
  apply next_line_shorter in En. apply IH. lia.
Qed.

(** The shell ends on every input.  It answers the lines in turn up to the
    first that quits, says goodbye, and leaves everything after that line
    unread. *)
Theorem shell_runs input ls quit more s fuel :
  m_running s = true → (length input < fuel)%nat →
  (∃ s' rest, run fuel input s = Done (s', rest))
  ∧ (input = typed ls ++ typed [quit] ++ more →
     Forall line_ok ls → Forall (fun l => quits l = false) ls → line_ok quit → quits quit = true →
     run fuel input s
     = Done (mkShell false (m_out (foldl answer s ls) ++ prompt ++ text "bye..." ++ newline), more)).
Proof.
  intros Hr Hf. split; [by apply run_terminates|].
  intros -> Hok Hq Hl Hquit.
  assert (length ls + 2 <= fuel)%nat as Hfuel.
  { assert (length ls <= length (typed ls))%nat.
    { clear. induction ls as [|l ls IH]; [done|]. change (typed (l :: ls)) with ((l ++ [10]) ++ typed ls).
      rewrite !length_app. cbn. lia. }
    rewrite !length_app in Hf. cbn in Hf. rewrite !length_app in Hf. cbn in Hf. lia. }
  rewrite run_lines by (done || lia).
  assert (m_running (foldl answer s ls) = true) as Hrun.
  { clear Hf Hfuel Hok. revert s Hr. induction Hq as [|l ls Hql Hqs IH]; intros s Hr; [done|]. cbn. apply IH.
    unfold answer. rewrite execute_running. unfold quits in Hql. unfold parseCommand. rewrite Hql. cbn.
    by rewrite Hr. }
  destruct (fuel - length ls)%nat as [|[|n]] eqn:En; [lia|lia|]. cbn [run]. rewrite Hrun.
  pose proof (next_typed quit [] more Hl) as Hn. change (typed [quit]) with ((quit ++ [10]) ++ []) in *.
  rewrite Hn. unfold parseCommand. unfold quits in Hquit.
  destruct (words quit) as [|cmd args] eqn:Ew; [done|]. cbn [executeCommand]. rewrite Hquit. cbn.
  by rewrite <- !app_assoc.
Qed.

Lemma shell_runs_witness :
  run 60 (typed [text "echo a b"] ++ typed [text "quit"] ++ text "echo c") (mkShell true [])
  = Done (mkShell false (text "ya-net> a b " ++ newline ++ text "ya-net> bye..." ++ newline),
          text "echo c").
Proof.
  refine (proj2 (shell_runs _ [text "echo a b"] (text "quit") (text "echo c") (mkShell true []) 60
    eq_refl _) eq_refl _ _ _ _).
  - apply Nat.ltb_lt. vm_compute. reflexivity.
  - repeat constructor. apply (bool_decide_eq_true_1 _). vm_compute. reflexivity.
  - repeat constructor.
  - apply (bool_decide_eq_true_1 _). vm_compute. reflexivity.
  - vm_compute. reflexivity.
Defined.
