(* ===== verification/YaLog.v ===== *)
(** * YaLog: the logger of the legacy server

    Models [src/ya_log/yalog.cpp] over an interface to spdlog: sinks may fail to
    open, a new logger has the level [info] and never flushes by itself, and a
    name can be registered once.  Lines on the error stream are kept.

    The theorems: what a first initialization achieves and how one fails; the
    state of the logger after any sequence of calls; and what a second
    initialization, which every call of [init] after the construction of the
    instance is, does to the messages. *)

From S2P Require Import Prelude Text Program.

(** ** spdlog *)

Inductive Level := trace | debug | info | warn | error | critical | off.

#[global] Instance Level_eq_dec : EqDecision Level.
Proof. solve_decision. Defined.

Definition severity (l : Level) : Z :=
  match l with
  | trace => 0 | debug => 1 | info => 2 | warn => 3 | error => 4 | critical => 5 | off => 6
  end.

Class SpdlogApi := {
  sp_state : Type;
  (* [std::make_shared<...sink_mt>(...)]: the sink, or the text of [spdlog_ex] *)
  sp_stdout_color_sink : sp_state → result bytes Z * sp_state;
  sp_rotating_file_sink : bytes → Z → Z → sp_state → result bytes Z * sp_state;
  sp_set_pattern : Z → bytes → sp_state → sp_state;
  sp_logger : bytes → list Z → sp_state → Z * sp_state;
  sp_register_logger : Z → sp_state → result bytes () * sp_state;
  sp_set_level : Z → Level → sp_state → sp_state;
  sp_flush_on : Z → Level → sp_state → sp_state;
  sp_log : Z → Level → bytes → sp_state → sp_state;
  sp_name : Z → sp_state → bytes;
  sp_drop : bytes → sp_state → sp_state;
}.

Record Logger := mkLogger {
  lg_name : bytes; lg_sinks : list Z; lg_level : Level; lg_flush : Level }.

(** A message that was written: to which sinks, and whether it was flushed. *)
Record Entry := mkEntry { en_sinks : list Z; en_level : Level; en_text : bytes; en_flushed : bool }.

Record LView := mkLView {
  lv_loggers : gmap Z Logger;
  lv_registry : gmap bytes Z;
  lv_written : list Entry;
}.

Definition lv_logger (id : Z) (f : Logger → Logger) (v : LView) : LView :=
  mkLView (alter f id (lv_loggers v)) (lv_registry v) (lv_written v).

(** What writing a message to a logger adds. *)
Definition entries (lg : Logger) (l : Level) (msg : bytes) : list Entry :=
  if severity (lg_level lg) <=? severity l
  then [mkEntry (lg_sinks lg) l msg (severity (lg_flush lg) <=? severity l)]
  else [].

Class SpdlogLaws (S : SpdlogApi) := {
  sp_view : sp_state → LView;
  sp_law_stdout st : sp_view (sp_stdout_color_sink st).2 = sp_view st;
  sp_law_rotating f m n st : sp_view (sp_rotating_file_sink f m n st).2 = sp_view st;
  sp_law_pattern s p st : sp_view (sp_set_pattern s p st) = sp_view st;
  sp_law_logger name sinks st :
    let '(id, st') := sp_logger name sinks st in
    lv_loggers (sp_view st) !! id = None
    ∧ sp_view st' = mkLView (<[id := mkLogger name sinks info off]> (lv_loggers (sp_view st)))
                      (lv_registry (sp_view st)) (lv_written (sp_view st));
  sp_law_register id lg st :
    lv_loggers (sp_view st) !! id = Some lg →
    let '(r, st') := sp_register_logger id st in
    match lv_registry (sp_view st) !! lg_name lg with
    | Some _ => is_ok r = false ∧ sp_view st' = sp_view st
    | None => r = Ok () ∧ sp_view st' = mkLView (lv_loggers (sp_view st))
                            (<[lg_name lg := id]> (lv_registry (sp_view st))) (lv_written (sp_view st))
    end;
  sp_law_level id l st :
    sp_view (sp_set_level id l st)
    = lv_logger id (fun g => mkLogger (lg_name g) (lg_sinks g) l (lg_flush g)) (sp_view st);
  sp_law_flush id l st :
    sp_view (sp_flush_on id l st)
    = lv_logger id (fun g => mkLogger (lg_name g) (lg_sinks g) (lg_level g) l) (sp_view st);
  sp_law_log id lg l msg st :
    lv_loggers (sp_view st) !! id = Some lg →
    sp_view (sp_log id l msg st)
    = mkLView (lv_loggers (sp_view st)) (lv_registry (sp_view st))
        (lv_written (sp_view st) ++ entries lg l msg);
  sp_law_name id lg st : lv_loggers (sp_view st) !! id = Some lg → sp_name id st = lg_name lg;
  sp_law_drop name st :
    sp_view (sp_drop name st)
    = mkLView (lv_loggers (sp_view st)) (delete name (lv_registry (sp_view st)))
        (lv_written (sp_view st));
}.

(** ** [YaLog::Impl] *)

Module yalog.
Section Log.
Context `{SpdlogApi}.

(** [s_logger], null or a logger, and the lines on the error stream. *)
Record Impl := mkImpl { s_logger : option Z; cerr : list bytes }.

Definition Impl_new : Impl := mkImpl None [].

Definition complain (what : bytes) (i : Impl) : Impl := mkImpl (s_logger i) (cerr i ++ [what]).

(** [catch (const spdlog::spdlog_ex &ex)] *)
Definition init_failed (i : Impl) (what : bytes) : prog sp_state Impl :=
  mret (complain (text "Log initialization failed: " ++ what) i).

Definition init (i : Impl) (file_name : bytes) (max_size max_files : Z) : prog sp_state Impl :=
  r ← call sp_stdout_color_sink;
  match r with
  | Err what => init_failed i what
  | Ok console =>
  r ← call (sp_rotating_file_sink file_name max_size max_files);
  match r with
  | Err what => init_failed i what
  | Ok file =>
  effect (sp_set_pattern console (text "[%T] [%^%L%$] %n <%P/%t>: %-10v"));;
  effect (sp_set_pattern file (text "[%T] [%L] %n <%P/%t>: %-10v"));;
  logger ← call (sp_logger (text "YaLog") [console; file]);
  let i := mkImpl (Some logger) (cerr i) in
  r ← call (sp_register_logger logger);
  match r with
  | Err what => init_failed i what
  | Ok _ =>
  effect (sp_set_level logger trace);;
  effect (sp_flush_on logger trace);;
  mret i
  end end end.

Definition level_name (l : Level) : bytes :=
  match l with
  | trace => text "trace" | debug => text "debug" | info => text "info" | warn => text "warn"
  | error => text "error" | critical => text "critical" | off => text "off"
  end.

(** The methods [DEFINE_LOG_METHOD(level)] defines. *)
Definition log (l : Level) (i : Impl) (msg : bytes) : prog sp_state Impl :=
  match s_logger i with
  | Some logger => effect (sp_log logger l msg);; mret i
  | None =>
      mret (complain (text "Logger not initialized: [" ++ level_name l ++ text "] " ++ msg) i)
  end.

(** [YaLog::YaLog], with the defaults of [init] *)
Definition YaLog_new : prog sp_state Impl :=
  init Impl_new (text "./log/ya-net.log") (10 * 1024 * 1024) 10.

(** [Impl::~Impl] *)
Definition destroy (i : Impl) : prog sp_state () :=
  match s_logger i with
  | Some logger => name ← observe (sp_name logger); effect (sp_drop name)
  | None => mret ()
  end.

(** [FORMAT_LOG]: the formatted text, or the text of [std::format_error]. *)
Definition FORMAT_LOG (formatted : result bytes bytes) : bytes :=
  match formatted with Ok s => s | Err what => text "Format error: " ++ what end.
End Log.
End yalog.
Import yalog.

(** ** The state of the logger *)

Section State.
Context {S : SpdlogApi} {SL : SpdlogLaws S}.

Definition registered (v : LView) : option Z := lv_registry v !! text "YaLog".

(** Whether both sinks of an initialization open. *)
Definition sinks_open (file : bytes) (m n : Z) (st : sp_state) : bool :=
  let '(r, st) := sp_stdout_color_sink st in
  match r with Ok _ => is_ok (sp_rotating_file_sink file m n st).1 | Err _ => false end.

(** The outcomes of an initialization: no sink, the first logger, or one more. *)
Inductive init_outcome (i : Impl) (v : LView) : bool → Impl → LView → Prop :=
| init_no_sinks what : init_outcome i v false (complain what i) v
| init_first id sinks :
    registered v = None → lv_loggers v !! id = None →
    init_outcome i v true (mkImpl (Some id) (cerr i))
      (mkLView (<[id := mkLogger (text "YaLog") sinks trace trace]> (lv_loggers v))
         (<[text "YaLog" := id]> (lv_registry v)) (lv_written v))
| init_again id sinks what :
    registered v ≠ None → lv_loggers v !! id = None →
    init_outcome i v true (mkImpl (Some id) (cerr i ++ [what]))
      (mkLView (<[id := mkLogger (text "YaLog") sinks info off]> (lv_loggers v))
         (lv_registry v) (lv_written v)).

Lemma configured_view id name sinks v reg :
  lv_logger id (fun g => mkLogger (lg_name g) (lg_sinks g) (lg_level g) trace)
    (lv_logger id (fun g => mkLogger (lg_name g) (lg_sinks g) trace (lg_flush g))
       (mkLView (<[id := mkLogger name sinks info off]> (lv_loggers v)) reg (lv_written v)))
  = mkLView (<[id := mkLogger name sinks trace trace]> (lv_loggers v)) reg (lv_written v).
Proof. unfold lv_logger. cbn. by rewrite !alter_insert_eq. Qed.

Lemma init_spec i file m n st :
  ∃ i' st', init i file m n st = Done (i', st')
  ∧ init_outcome i (sp_view st) (sinks_open file m n st) i' (sp_view st').
Proof.
  unfold init, sinks_open, mbind, prog_mbind, call, effect, init_failed, mret, prog_mret.
  pose proof (sp_law_stdout st) as H1. destruct (sp_stdout_color_sink st) as [[console|] st1]; cbn in H1;
    [|eexists _, _; split; [done|]; rewrite H1; apply init_no_sinks].
  pose proof (sp_law_rotating file m n st1) as H2.
  destruct (sp_rotating_file_sink file m n st1) as [[sink|] st2]; cbn in H2;
    [|eexists _, _; split; [done|]; rewrite H2, H1; apply init_no_sinks].
  set (st3 := sp_set_pattern sink _ _).
  assert (sp_view st3 = sp_view st) as H3 by (unfold st3; rewrite !sp_law_pattern; congruence).
  clearbody st3. pose proof (sp_law_logger (text "YaLog") [console; sink] st3) as H4.
  destruct (sp_logger (text "YaLog") [console; sink] st3) as [id st4]. destruct H4 as [Hid H4].
  rewrite H3 in Hid, H4.
  pose proof (sp_law_register id (mkLogger (text "YaLog") [console; sink] info off) st4) as H5.
  rewrite H4 in H5. cbn [lg_name lv_registry lv_loggers lv_written] in H5.
  specialize (H5 ltac:(apply lookup_insert_eq)).
  destruct (sp_register_logger id st4) as [r st5].
  destruct (lv_registry (sp_view st) !! text "YaLog") as [old|] eqn:Er; destruct H5 as [H5 H6].
  - destruct r as [|what]; [done|]. eexists _, _. split; [done|]. rewrite H6.
    unfold complain. cbn [s_logger cerr]. apply init_again; [|done]. unfold registered. by rewrite Er.
  - subst r. eexists _, _. split; [done|]. rewrite sp_law_flush, sp_law_level, H6.
    cbn [lv_loggers lv_written]. rewrite configured_view. by apply init_first.
Qed.

(** The three states the logger can be in: none yet; the registered one, which
    writes and flushes every message; or a later one, with the defaults of
    spdlog. *)
Inductive mode := Silent | Verbose | Demoted.

#[global] Instance mode_eq_dec : EqDecision mode.
Proof. solve_decision. Defined.

Definition log_as (m : mode) (i : Impl) (v : LView) : Prop :=
  (∀ id, registered v = Some id → is_Some (lv_loggers v !! id))
  ∧ match m with
    | Silent => s_logger i = None ∧ registered v = None
    | Verbose => ∃ id lg, s_logger i = Some id ∧ lv_loggers v !! id = Some lg
        ∧ registered v = Some id ∧ lg_name lg = text "YaLog" ∧ lg_level lg = trace ∧ lg_flush lg = trace
    | Demoted => ∃ id lg, s_logger i = Some id ∧ lv_loggers v !! id = Some lg
        ∧ registered v ≠ None ∧ lg_name lg = text "YaLog" ∧ lg_level lg = info ∧ lg_flush lg = off
    end.

(** What a message adds to what was written, and how an initialization may
    change the state. *)
Definition told (m : mode) (l : Level) (msg : bytes) : list (Level * bytes * bool) :=
  match m with
  | Silent => []
  | Verbose => [(l, msg, true)]
  | Demoted => if severity info <=? severity l then [(l, msg, severity off <=? severity l)] else []
  end.

Definition reinit (opened : bool) (m : mode) : mode :=
  if opened then match m with Silent => Verbose | Verbose | Demoted => Demoted end else m.

Definition summary (e : Entry) : Level * bytes * bool := (en_level e, en_text e, en_flushed e).

Lemma init_outcome_mode m i v opened i' v' :
  init_outcome i v opened i' v' → log_as m i v →
  lv_written v' = lv_written v ∧ log_as (reinit opened m) i' v'.
Proof.
  intros [what|id sinks Hr Hid|id sinks what Hr Hid] [Hv Hm]; (split; [done|]); cbn [reinit].
  - done.
  - assert (m = Silent) as -> by (destruct m; naive_solver).
    unfold log_as, registered. cbn -[text]. split.
    + intros k. rewrite lookup_insert_eq. intros ->%(inj Some). rewrite lookup_insert_eq. eauto.
    + eexists id, _. rewrite !lookup_insert_eq. done.
  - replace (match m with Silent => Verbose | _ => Demoted end) with Demoted by (destruct m; naive_solver).
    unfold log_as, registered in *. cbn -[text]. split.
    + intros k Hk. destruct (Hv k Hk) as [g Hg]. rewrite lookup_insert_ne by congruence. eauto.
    + eexists id, _. rewrite lookup_insert_eq. done.
Qed.

Lemma init_mode m i file size n st :
  log_as m i (sp_view st) →
  ∃ i' st', init i file size n st = Done (i', st')
  ∧ log_as (reinit (sinks_open file size n st) m) i' (sp_view st')
  ∧ lv_written (sp_view st') = lv_written (sp_view st).
Proof.
  intros Hm. destruct (init_spec i file size n st) as (i' & st' & E & Ho).
  destruct (init_outcome_mode m _ _ _ _ _ Ho Hm) as (Hw & Hm'). by exists i', st'.
Qed.

Lemma entries_told m i v id lg l msg :
  log_as m i v → s_logger i = Some id → lv_loggers v !! id = Some lg →
  map summary (entries lg l msg) = told m l msg.
Proof.
  intros [_ Hm] Hs Hl. destruct m; cbn in Hm.
  - naive_solver congruence.
  - destruct Hm as (? & g & Hs' & Hg & _ & _ & H1 & H2). simplify_eq.
    unfold entries. rewrite H1, H2. by destruct l.
  - destruct Hm as (? & g & Hs' & Hg & _ & _ & H1 & H2). simplify_eq.
    unfold entries. rewrite H1, H2. by destruct l.
Qed.

Lemma log_as_logger m i v :
  log_as m i v → m ≠ Silent → ∃ id lg, s_logger i = Some id ∧ lv_loggers v !! id = Some lg
    ∧ lg_name lg = text "YaLog".
Proof. destruct m; [done|..]; intros [_ (id & lg & ? & ? & ? & ? & ?)] _; by exists id, lg. Qed.

(** What a message gives in each state. *)
Lemma log_mode m l i msg st :
  log_as m i (sp_view st) →
  ∃ i' st', log l i msg st = Done (i', st') ∧ log_as m i' (sp_view st')
  ∧ map summary (lv_written (sp_view st')) = map summary (lv_written (sp_view st)) ++ told m l msg.
Proof.
  intros Hm. unfold log. destruct (decide (m = Silent)) as [->|Hne].
  - destruct Hm as [Hv [Hs Hr]]. rewrite Hs. eexists _, st. split; [done|].
    cbn [told]. by rewrite app_nil_r.
  - destruct (log_as_logger m _ _ Hm Hne) as (id & lg & Hs & Hlg & _). rewrite Hs.
    eexists i, _. split; [done|]. rewrite (sp_law_log id lg) by done. split; [done|].
    cbn [lv_written]. rewrite map_app. f_equal. by eapply entries_told.
Qed.

(** ** Sequences of calls *)

Inductive call_of := Init (file : bytes) (size files : Z) | Message (l : Level) (msg : bytes).

Definition perform (c : call_of) (i : Impl) : prog sp_state Impl :=
  match c with
  | Init file size files => init i file size files
  | Message l msg => log l i msg
  end.

Fixpoint perform_all (cs : list call_of) (i : Impl) : prog sp_state Impl :=
  match cs with
  | [] => mret i
  | c :: cs => i ← perform c i; perform_all cs i
  end.

(** What a sequence of calls tells, from one state to another. *)
Inductive tells : mode → list call_of → mode → list (Level * bytes * bool) → Prop :=
| tells_nil m : tells m [] m []
| tells_init opened m m2 file size files cs ws :
    tells (reinit opened m) cs m2 ws → tells m (Init file size files :: cs) m2 ws
| tells_message m m2 l msg cs ws :
    tells m cs m2 ws → tells m (Message l msg :: cs) m2 (told m l msg ++ ws).

Lemma perform_all_tells cs : ∀ m i st,
  log_as m i (sp_view st) →
  ∃ m' i' st' ws, perform_all cs i st = Done (i', st') ∧ log_as m' i' (sp_view st')
  ∧ tells m cs m' ws
  ∧ map summary (lv_written (sp_view st')) = map summary (lv_written (sp_view st)) ++ ws.
Proof.
  induction cs as [|[file size n|l msg] cs IH]; intros m i st Hm; cbn [perform_all perform].
  - exists m, i, st, []. rewrite app_nil_r. split_and!; [done|done|constructor|done].
  - destruct (init_mode m i file size n st Hm) as (i1 & st1 & E & Hm1 & Hw).
    destruct (IH _ i1 st1 Hm1) as (m2 & i2 & st2 & ws & E2 & Hm2 & Ht & Hw2).
    exists m2, i2, st2, ws. unfold mbind, prog_mbind. rewrite E, E2, Hw2, Hw.
    split_and!; [done|done|by econstructor|done].
  - destruct (log_mode m l i msg st Hm) as (i1 & st1 & E & Hm1 & Hw).
    destruct (IH m i1 st1 Hm1) as (m2 & i2 & st2 & ws & E2 & Hm2 & Ht & Hw2).
    exists m2, i2, st2, (told m l msg ++ ws). unfold mbind, prog_mbind. rewrite E, E2, Hw2, Hw, app_assoc.
    split_and!; [done|done|by constructor|done].
Qed.

Lemma destroy_spec m i st :
  log_as m i (sp_view st) →
  ∃ st', destroy i st = Done ((), st') ∧ registered (sp_view st') = None.
Proof.
  intros Hm. unfold destroy. destruct (decide (m = Silent)) as [->|Hne].
  - destruct Hm as [_ [Hs Hr]]. rewrite Hs. by exists st.
  - destruct (log_as_logger m _ _ Hm Hne) as (id & lg & Hs & Hlg & Hn). rewrite Hs.
    eexists. split; [done|]. rewrite (sp_law_name id lg) by done.
    unfold registered. rewrite sp_law_drop, Hn. cbn [lv_registry]. apply lookup_delete_eq.
Qed.

Lemma log_as_new st : registered (sp_view st) = None → log_as Silent Impl_new (sp_view st).
Proof. intros Hr. split; [|done]. intros id. by rewrite Hr. Qed.


(** Messages alone do not change the state. *)
Lemma messages_tell m (ms : list (Level * bytes)) m' ws :
  tells m (map (fun p => Message p.1 p.2) ms) m' ws →
  m' = m ∧ ws = concat (map (fun p => told m p.1 p.2) ms).
Proof.
  revert ws. induction ms as [|[l msg] ms IH]; intros ws Ht; inversion Ht as [| |????? w Ht']; subst; [done|].
  destruct (IH w Ht') as [-> ->]. done.
Qed.

(** What a later initialization does: when the logger is there and the sinks
    of the new one open, the messages that follow are written without being
    flushed, and those of the levels [trace] and [debug] are not written. *)
Theorem reinit_demotes m i file size n ms st :
  log_as m i (sp_view st) → m ≠ Silent → sinks_open file size n st = true →
  ∃ i' st', perform_all (Init file size n :: map (fun p => Message p.1 p.2) ms) i st = Done (i', st')
  ∧ map summary (lv_written (sp_view st'))
    = map summary (lv_written (sp_view st)) ++ concat (map (fun p => told Demoted p.1 p.2) ms).
Proof.
  intros Hm Hne Ho. destruct (init_mode m i file size n st Hm) as (i1 & st1 & E & Hm1 & Hw).
  replace (reinit _ m) with Demoted in Hm1 by (rewrite Ho; by destruct m).
  destruct (perform_all_tells (map (fun p => Message p.1 p.2) ms) _ _ _ Hm1)
    as (m2 & i2 & st2 & ws & E2 & _ & Ht & Hw2).
  apply messages_tell in Ht as [_ ->]. exists i2, st2. rewrite <- Hw. split; [|done].
  cbn [perform_all perform]. unfold mbind at 1, prog_mbind. by rewrite E.
Qed.
End State.

(** ** A concrete spdlog

    Its file sinks open when the name is not empty. *)

Module ToySpdlog.
Record State := mkState { ts_view : LView; ts_sinks : Z }.

Definition empty : State := mkState (mkLView ∅ ∅ []) 0.

Definition on_view (f : LView → LView) (st : State) : State := mkState (f (ts_view st)) (ts_sinks st).
Definition new_sink (st : State) : result bytes Z * State :=
  (Ok (ts_sinks st), mkState (ts_view st) (ts_sinks st + 1)).

#[global] Instance toy_spdlog : SpdlogApi := {|
  sp_state := State;
  sp_stdout_color_sink := new_sink;
  sp_rotating_file_sink f _ _ st :=
    match f with [] => (Err (text "Failed opening file"), st) | _ => new_sink st end;
  sp_set_pattern _ _ st := st;
  sp_logger name sinks st :=
    let id := unused (dom (lv_loggers (ts_view st))) in
    (id, on_view (fun v => mkLView (<[id := mkLogger name sinks info off]> (lv_loggers v))
                             (lv_registry v) (lv_written v)) st);
  sp_register_logger id st :=
    match lv_loggers (ts_view st) !! id with
    | Some lg =>
        match lv_registry (ts_view st) !! lg_name lg with
        | Some _ => (Err (text "logger already exists"), st)
        | None => (Ok (), on_view (fun v => mkLView (lv_loggers v)
                            (<[lg_name lg := id]> (lv_registry v)) (lv_written v)) st)
        end
    | None => (Err [], st)
    end;
  sp_set_level id l :=
    on_view (lv_logger id (fun g => mkLogger (lg_name g) (lg_sinks g) l (lg_flush g)));
  sp_flush_on id l :=
    on_view (lv_logger id (fun g => mkLogger (lg_name g) (lg_sinks g) (lg_level g) l));
  sp_log id l msg := on_view (fun v =>
    mkLView (lv_loggers v) (lv_registry v)
      (lv_written v ++ from_option (fun lg => entries lg l msg) [] (lv_loggers v !! id)));
  sp_name id st := from_option lg_name [] (lv_loggers (ts_view st) !! id);
  sp_drop name :=
    on_view (fun v => mkLView (lv_loggers v) (delete name (lv_registry v)) (lv_written v));
|}.

#[global] Program Instance toy_spdlog_laws : SpdlogLaws toy_spdlog := {| sp_view := ts_view |}.
Next Obligation. done. Qed.
Next Obligation. intros [] ???; done. Qed.
Next Obligation. done. Qed.
Next Obligation.
  intros name sinks st. cbn. split; [|done]. apply not_elem_of_dom, unused_fresh.
Qed.
Next Obligation.
  intros id lg st Hlg. cbn. rewrite Hlg. by destruct (lv_registry (ts_view st) !! lg_name lg).
Qed.
Next Obligation. done. Qed.
Next Obligation. done. Qed.
Next Obligation. intros id lg l msg st Hlg. cbn. by rewrite Hlg. Qed.
Next Obligation. intros id lg st Hlg. cbn. by rewrite Hlg. Qed.
Next Obligation. done. Qed.

Definition written (st : State) : list (Level * bytes * bool) := map summary (lv_written (ts_view st)).

(** A message before and after a second initialization. *)
Definition session : list call_of :=
  [Message debug (text "first"); Init (text "x.log") 1024 3; Message debug (text "second");
   Message warn (text "third")].


Definition started : Impl * State :=
  match YaLog_new empty with Done p => p | _ => (Impl_new, empty) end.

Lemma reinit_demotes_witness :
  ∃ i' st', perform_all [Init (text "x.log") 1024 3; Message debug (text "second"); Message error (text "third")]
              started.1 started.2 = Done (i', st')
    ∧ written st' = [(error, text "third", false)].
Proof.
  apply (reinit_demotes (SL := toy_spdlog_laws) Verbose started.1 (text "x.log") 1024 3
           [(debug, text "second"); (error, text "third")] started.2); [|done|vm_compute; reflexivity].
  split.
  - intros id [= <-]. eexists. vm_compute. reflexivity.
  - eexists 1, _. split; [vm_compute; reflexivity|]. split; [vm_compute; reflexivity|]. done.
Defined.
End ToySpdlog.
