(* ===== verification/YaUtils.v ===== *)
(** * YaUtils: the executable, the timers and the platform

    Models the part of [src/ya_utils/yautils.cpp] before the cryptography:
    [YaUtils::Exe], [YaUtils::Timer] and [YaUtils::Platform].  The working
    directory and the readings of the steady clock are arguments; a double is
    the binary64 number of [SpecFloat].

    The theorems: which name and path an invocation gives; which readings of the
    clock an elapsed time is made of; that the microseconds are exact up to
    [2 ^ 53]. *)

From Stdlib Require Import SpecFloat.
From S2P Require Import Prelude Text.

(** ** Doubles *)

Definition double := spec_float.

(** [static_cast<double>] of an integer, and the division. *)
Definition to_double (n : Z) : double := binary_normalize 53 1024 n 0 false.
Definition double_div (x y : double) : double := SFdiv 53 1024 x y.

(** A double is the integer [n]. *)
Definition is_integer (x : double) (n : Z) : Prop :=
  match x with
  | S754_zero _ => n = 0
  | S754_finite s m e =>
      if e <? 0 then cond_Zopp s (Zpos m) = n * 2 ^ (- e) else cond_Zopp s (Zpos m) * 2 ^ e = n
  | S754_infinity _ | S754_nan => False
  end.

Lemma digits2_pos_bounds p :
  2 ^ (Zpos (digits2_pos p) - 1) <= Zpos p < 2 ^ Zpos (digits2_pos p).
Proof.
  induction p as [p IH|p IH|]; cbn [digits2_pos]; [| |done];
    rewrite Pos2Z.inj_succ; (replace (Z.succ (Zpos (digits2_pos p)) - 1)
      with (Z.succ (Zpos (digits2_pos p) - 1)) by lia);
    rewrite !Z.pow_succ_r by lia; lia.
Qed.

Lemma iter_xO p k :
  Zpos (Pos.iter xO p k) = Zpos p * 2 ^ Zpos k
  ∧ Zpos (digits2_pos (Pos.iter xO p k)) = Zpos (digits2_pos p) + Zpos k.
Proof.
  induction k as [|k [IH1 IH2]] using Pos.peano_ind; [cbn; lia|].
  rewrite Pos.iter_succ. cbn [digits2_pos]. rewrite !Pos2Z.inj_succ, Z.pow_succ_r, IH2 by lia. lia.
Qed.

(** Rounding what has 53 digits already changes nothing. *)
Lemma round_exact s m e :
  Zpos (digits2_pos m) = 53 → - 1074 <= e <= 971 →
  binary_round_aux 53 1024 s (Zpos m) e loc_Exact = S754_finite s m e.
Proof.
  intros Hd He.
  assert (shr_fexp 53 1024 (Zpos m) e loc_Exact = (Build_shr_record (Zpos m) false false, e)) as E.
  { unfold shr_fexp, fexp, emin, Zdigits2, shr_record_of_loc. rewrite Hd.
    replace (Z.max (53 + e - 53) (3 - 1024 - 53) - e) with 0 by lia. done. }
  unfold binary_round_aux. rewrite E. cbn [shr_m loc_of_shr_record round_nearest_even]. rewrite E.
  cbn [shr_m]. by rewrite (proj2 (Z.leb_le e (1024 - 53))) by lia.
Qed.

Lemma binary_round_exact s p :
  Zpos p < 2 ^ 53 →
  is_integer (binary_round 53 1024 s p 0) (cond_Zopp s (Zpos p)).
Proof.
  intros Hp. pose proof (digits2_pos_bounds p) as [Hlo _].
  assert (Zpos (digits2_pos p) - 1 < 53) as Hd by (apply (Z.pow_lt_mono_r_iff 2); lia).
  unfold binary_round, fexp, emin.
  replace (Z.max (Zpos (digits2_pos p) + 0 - 53) (3 - 1024 - 53)) with (Zpos (digits2_pos p) - 53) by lia.
  unfold shl_align. destruct (Zpos (digits2_pos p) - 53 - 0) as [|k|k] eqn:Ek; [|lia|].
  - rewrite round_exact by lia. cbn. lia.
  - destruct (iter_xO p k) as [Hv Hdk]. rewrite round_exact by lia.
    unfold is_integer. rewrite (proj2 (Z.ltb_lt _ 0)) by lia.
    replace (- (Zpos (digits2_pos p) - 53)) with (Zpos k) by lia.
    destruct s; cbn [cond_Zopp]; rewrite Hv; lia.
Qed.

Lemma to_double_exact n : Z.abs n < 2 ^ 53 → is_integer (to_double n) n.
Proof.
  intros Hn. destruct n as [|p|p]; [done|..]; unfold to_double, binary_normalize.
  - by apply (binary_round_exact false).
  - by apply (binary_round_exact true).
Qed.

(** ** [YaUtils::Exe], [Timer] and [Platform] *)

(** [path::filename] on a POSIX system: what follows the last slash. *)
Fixpoint filename (p : bytes) : bytes :=
  match p with
  | [] => []
  | c :: p' => if bool_decide (47 ∈ p) then filename p' else p
  end.

Module yautils.
Definition m_exe_name : bytes := [].

(** [current_path] may throw. *)
Definition GetExeDir (current_path : option bytes) : option bytes :=
  path ← current_path; Some (map (fun c : Z => if c =? 92 then 47 else c) path).

Definition GetExeName (m_exe_name : bytes) : bytes := m_exe_name.

Definition GetExePath (current_path : option bytes) (m_exe_name : bytes) : option bytes :=
  dir ← GetExeDir current_path; Some (dir ++ text "/" ++ GetExeName m_exe_name).

(** [argv[argc]] is a null pointer, of which no path can be made. *)
Definition ProcessArgs (argv : list bytes) : exec bytes :=
  match argv with
  | [] => Undefined
  | exe_name :: _ => Done (filename exe_name)
  end.

(** The readings of the steady clock, in nanoseconds. *)
Definition m_timers : gmap bytes Z := ∅.

Definition StartTimer (now : Z) (timer_id : bytes) (timers : gmap bytes Z) : gmap bytes Z := <[timer_id := now]> timers.

(** The subtraction of the readings is at 64 bits. *)
Definition GetElapsedTime_us (now : Z) (timer_id : bytes) (timers : gmap bytes Z) : exec double :=
  match timers !! timer_id with
  | None => Done (to_double 0)
  | Some started =>
      if (- 2 ^ 63 <=? now - started) && (now - started <? 2 ^ 63)
      then Done (to_double (Z.quot (now - started) 1000))
      else Undefined
  end.

Definition GetElapsedTime_ms (now : Z) (timer_id : bytes) (timers : gmap bytes Z) : exec double :=
  us ← GetElapsedTime_us now timer_id timers; Done (double_div us (to_double 1000)).

Definition GetElapsedTime_s (now : Z) (timer_id : bytes) (timers : gmap bytes Z) : exec double :=
  us ← GetElapsedTime_us now timer_id timers; Done (double_div us (to_double 1000000)).

Inductive PLATFORM := WINDOWS | LINUX | MACOS.

(** The macros the compiler defines. *)
Record Macros := mkMacros {
  _WIN32 : bool; _WIN64 : bool; __linux__ : bool; __linux : bool; __APPLE__ : bool; __MACH__ : bool }.

Definition YA_WINDOWS (m : Macros) : bool := _WIN32 m || _WIN64 m.
Definition YA_LINUX (m : Macros) : bool := __linux__ m || __linux m.
Definition YA_MACOS (m : Macros) : bool := __APPLE__ m && __MACH__ m.

(** [None]: the file does not compile. *)
Definition GetPlatform (m : Macros) : option PLATFORM :=
  if YA_WINDOWS m then Some WINDOWS
  else if YA_LINUX m then Some LINUX
  else if YA_MACOS m then Some MACOS
  else None.
End yautils.
Import yautils.

(** ** The executable *)

Lemma filename_plain p : 47 ∉ p → filename p = p.
Proof. destruct p; [done|]. intros H. cbn. by rewrite bool_decide_false. Qed.

Lemma filename_after dir name : 47 ∉ name → filename (dir ++ 47 :: name) = name.
Proof.
  intros Hn. induction dir as [|c dir IH]; cbn -[elem_of].
  - rewrite bool_decide_true by set_solver. by apply filename_plain.
  - rewrite bool_decide_true by set_solver. done.
Qed.

Lemma filename_no_slash p : 47 ∉ filename p.
Proof.
  induction p as [|c p IH]; cbn -[elem_of]; [set_solver|]. by case_bool_decide.
Qed.

Definition no_backslash (c : Z) : Prop := c ≠ 92.

(** The path of the executable: after an invocation by a path in any
    directory, or by a name alone, the path is the working directory, with
    slashes for backslashes, and the name; the directory of the invocation does
    not matter. *)
Theorem exe_path_is_under_cwd cwd dir name args :
  47 ∉ name → Forall no_backslash cwd →
  (exe ← ProcessArgs ((dir ++ 47 :: name) :: args); Done (GetExePath (Some cwd) exe))
    = Done (Some (cwd ++ text "/" ++ name))
  ∧ (exe ← ProcessArgs (name :: args); Done (GetExePath (Some cwd) exe))
    = Done (Some (cwd ++ text "/" ++ name)).
Proof.
  intros Hn Hc. cbn -[text]. rewrite filename_after, filename_plain by done.
  unfold GetExePath, GetExeDir, GetExeName. cbn -[text].
  assert (map (fun c : Z => if c =? 92 then 47 else c) cwd = cwd) as E.
  { induction Hc as [|c cwd Hc _ IH]; [done|]. unfold no_backslash in Hc. cbn. rewrite IH.
    by rewrite (proj2 (Z.eqb_neq c 92)). }
  by rewrite E.
Qed.

Lemma exe_path_is_under_cwd_witness :
  (exe ← ProcessArgs [text "/opt/ya/bin/server"; text "-v"]; Done (GetExePath (Some (text "/home/u")) exe))
    = Done (Some (text "/home/u/server")).
Proof.
  refine (proj1 (exe_path_is_under_cwd (text "/home/u") (text "/opt/ya/bin") (text "server") [text "-v"] _ _)).
  - apply (bool_decide_eq_true_1 _). vm_compute. reflexivity.
  - repeat constructor; done.
Defined.

(** ** The timers *)

(** The timers after a sequence of starts, and the last start of one of them. *)
Definition start_all (es : list (bytes * Z)) : gmap bytes Z :=
  foldl (fun timers '(id, now) => StartTimer now id timers) m_timers es.

Definition last_start (id : bytes) (es : list (bytes * Z)) : option Z :=
  last (omap (fun '(k, now) => if decide (k = id) then Some now else None) es).

Lemma start_all_lookup id es : start_all es !! id = last_start id es.
Proof.
  induction es as [|[k now] es IH] using rev_ind; [done|].
  unfold start_all, last_start in *. rewrite foldl_app, omap_app.
  cbn [foldl omap list_omap]. unfold StartTimer. destruct (decide (k = id)) as [->|Hne].
  - by rewrite lookup_insert_eq, last_snoc.
  - by rewrite lookup_insert_ne, app_nil_r.
Qed.

(** The elapsed time of a timer: whatever was started before, it is the whole
    number of microseconds since the last start of that timer, exactly, for
    285 years; and zero for a timer that was never started. *)
Theorem elapsed_since_last_start es id now :
  (∀ t, last_start id es = Some t → 0 <= now - t < 1000 * 2 ^ 53) →
  ∃ x, GetElapsedTime_us now id (start_all es) = Done x
  ∧ is_integer x (match last_start id es with Some t => (now - t) / 1000 | None => 0 end).
Proof.
  intros Ht. unfold GetElapsedTime_us. rewrite start_all_lookup.
  destruct (last_start id es) as [t|]; [|by exists (to_double 0)].
  specialize (Ht t eq_refl).
  rewrite (proj2 (Z.leb_le (- 2 ^ 63) (now - t))), (proj2 (Z.ltb_lt (now - t) (2 ^ 63))) by lia.
  eexists. split; [done|]. rewrite Z.quot_div_nonneg by lia. apply to_double_exact.
  assert (0 <= (now - t) / 1000 < 2 ^ 53) by (split; [apply Z.div_pos|apply Z.div_lt_upper_bound]; lia). lia.
Qed.

Lemma elapsed_since_last_start_witness :
  ∃ x, GetElapsedTime_us 5000999 (text "0") (start_all [(text "0", 7); (text "1", 9); (text "0", 1000)]) = Done x
  ∧ is_integer x 4999.
Proof.
  set (es := [(text "0", 7); (text "1", 9); (text "0", 1000)]).
  assert (last_start (text "0") es = Some 1000) as E by (vm_compute; reflexivity).
  destruct (elapsed_since_last_start es (text "0") 5000999) as (x & E1 & E2).
  - rewrite E. intros t [= <-]. lia.
  - exists x. rewrite E in E2. split; [exact E1|exact E2].
Defined.
