(* ===== verification/HwInfo.v ===== *)
(** * HwInfo: hardware information on Linux

    Models the Linux side of [src/ya_hwinfo]: the readers of [/proc/cpuinfo],
    [/sys/class/dmi], [/etc/os-release], [/sys/block], [/sys/class/drm], the
    SMBIOS memory entries and the network interfaces, and the facade that
    returns their results.  The files and directories are a parameter [Sys].
    The Windows branches are in [Wmi].

    The theorems: values are trimmed and nothing else; the release file gives the
    last name and version, unquoted; the strings of an SMBIOS structure are found
    when the structure has the length the reader assumes, and when reading one
    runs past the data. *)

From S2P Require Import Prelude Text.

(** ** The system *)

Inductive Family := AF_PACKET | AF_INET | OtherFamily.

#[global] Instance Family_eq_dec : EqDecision Family.
Proof. solve_decision. Defined.

(** One element of the list of [getifaddrs]: [ifa_addr] may be null. *)
Record IfAddr := mkIfAddr { ifa_name : bytes; ifa_family : option Family; ifa_text : bytes }.

Record Sys := mkSys {
  (* the contents of the files that can be opened *)
  sys_file : bytes → option bytes;
  (* [fs::exists], which does not ask whether the file can be opened *)
  sys_exists : bytes → bool;
  (* the entries of a directory; without the directory the iterator throws *)
  sys_dir : bytes → option (list bytes);
  (* [is_directory] *)
  sys_is_directory : bytes → bool;
  (* [uname] *)
  sys_machine : option bytes;
  (* [getifaddrs], at each call *)
  sys_ifaddrs : option (list IfAddr);
}.

Record BIOS := mkBIOS {
  bios_serial_number : bytes; bios_manufacturer : bytes; bios_date : bytes; bios_version : bytes }.
Record CPU := mkCPU {
  cpu_serial_number : bytes; cpu_architecture : bytes; cpu_manufacturer : bytes; cpu_name : bytes }.
Record DISK := mkDISK {
  disk_serial_number : bytes; disk_manufacturer : bytes; disk_name : bytes }.
Record GPU := mkGPU {
  gpu_serial_number : bytes; gpu_manufacturer : bytes; gpu_name : bytes }.
Record MEMORY := mkMEMORY { memory_serial_number : bytes; memory_manufacturer : bytes }.
Record MOTHERBOARD := mkMOTHERBOARD {
  board_serial_number : bytes; board_manufacturer : bytes; board_version : bytes;
  board_name : bytes }.
Record NETWORK := mkNETWORK {
  network_name : bytes; network_ipv4 : bytes; network_ipv6 : bytes; network_mac : bytes }.
Record OS := mkOS { os_id : bytes; os_name : bytes; os_version : bytes }.

(** ** Text *)

(** The lines [std::getline] reads until it fails. *)
Fixpoint lines (bs : bytes) : list bytes :=
  match bs with
  | [] => []
  | c :: bs' =>
      if c =? 10 then [] :: lines bs'
      else match lines bs' with
           | [] => [[c]]
           | l :: ls => (c :: l) :: ls
           end
  end.

(** The first [std::getline] on an open file. *)
Definition first_line (contents : bytes) : bytes := (split_at 10 contents).1.

Fixpoint starts_with (p s : bytes) : bool :=
  match p, s with
  | [], _ => true
  | a :: p', b :: s' => (a =? b) && starts_with p' s'
  | _ :: _, [] => false
  end.

(** [s.find(p) != std::string::npos] *)
Fixpoint contains (p s : bytes) : bool :=
  starts_with p s || match s with [] => false | _ :: s' => contains p s' end.

(** [erase(0, find_first_not_of(set))] and [erase(find_last_not_of(set) + 1)] *)
Fixpoint skip_set (set : Z → bool) (s : bytes) : bytes :=
  match s with
  | c :: s' => if set c then skip_set set s' else s
  | [] => []
  end.
Definition trim (set : Z → bool) (s : bytes) : bytes := rev (skip_set set (rev (skip_set set s))).

Definition blank_tab (c : Z) : bool := (c =? 32) || (c =? 9).
Definition blank_line (c : Z) : bool := blank_tab c || (c =? 10) || (c =? 13).

Module hwinfo.
Section Readers.
Context (sys : Sys).

(** [std::ifstream file(path); if (file.is_open()) std::getline(file, value);] *)
Definition read_id (path : bytes) (value : bytes) : bytes :=
  match sys_file sys path with Some contents => first_line contents | None => value end.

Definition readSysFile (path : bytes) : bytes := read_id path [].

Definition dmi : bytes := text "/sys/class/dmi/id/".

(** [YaBIOS::init] *)
Definition getBIOS : BIOS :=
  mkBIOS (read_id (dmi ++ text "bios_serial") []) (read_id (dmi ++ text "bios_vendor") [])
    (read_id (dmi ++ text "bios_date") []) (read_id (dmi ++ text "bios_version") []).

(** [YaMOTHERBOARD::init] *)
Definition getMOTHERBOARD : MOTHERBOARD :=
  mkMOTHERBOARD (read_id (dmi ++ text "board_serial") []) (read_id (dmi ++ text "board_vendor") [])
    (read_id (dmi ++ text "board_version") []) (read_id (dmi ++ text "board_name") []).

(** The value on a line: what follows the first colon, trimmed. *)
Definition field_value (field line : bytes) : option bytes :=
  if contains field line
  then match split_at 58 line with
       | (_, Some value) => Some (trim blank_tab value)
       | (_, None) => None
       end
  else None.

Fixpoint first_value (field : bytes) (ls : list bytes) : bytes :=
  match ls with
  | [] => []
  | line :: ls' =>
      match field_value field line with Some value => value | None => first_value field ls' end
  end.

Definition get_cpu_field (field : bytes) : bytes :=
  match sys_file sys (text "/proc/cpuinfo") with
  | None => []
  | Some contents => first_value field (lines contents)
  end.

(** [YaCPU::init] *)
Definition getCPU : CPU :=
  let manufacturer := get_cpu_field (text "vendor_id") in
  let name := get_cpu_field (text "model name") in
  let serial_number := get_cpu_field (text "serial") in
  let architecture := default [] (sys_machine sys) in
  let serial_number :=
    if bool_decide (serial_number = []) || bool_decide (serial_number = text "Not Specified")
    then [] else serial_number in
  mkCPU serial_number architecture manufacturer name.

Definition quote : Z := 34.

(** [if (!s.empty() && s.front() == '"' && s.back() == '"') s = s.substr(1, s.size() - 2)];
    the length wraps around for a single quote, and the rest of the string is
    taken. *)
Definition unquote (s : bytes) : bytes :=
  if bool_decide (head s = Some quote) && bool_decide (last s = Some quote)
  then if zlen s =? 1 then [] else take (length s - 2) (drop 1 s)
  else s.

Definition os_line (o : OS) (line : bytes) : OS :=
  let pattern_name := text "PRETTY_NAME=" in
  let pattern_version := text "VERSION_ID=" in
  if starts_with pattern_name line
  then mkOS (os_id o) (unquote (drop (length pattern_name) line)) (os_version o)
  else if starts_with pattern_version line
  then mkOS (os_id o) (os_name o) (unquote (drop (length pattern_version) line))
  else o.

(** [YaOS::init] *)
Definition getOS : OS :=
  let o := foldl os_line (mkOS [] [] []) (lines (default [] (sys_file sys (text "/etc/os-release")))) in
  mkOS (read_id (text "/etc/machine-id") (os_id o)) (os_name o) (os_version o).

(** [std::set<std::string>{"sd", "nvme", "hd"}] *)
Definition allowed_prefixes : list bytes := [text "hd"; text "nvme"; text "sd"].

Definition disk_entry (dev : bytes) : option DISK :=
  if existsb (fun prefix => starts_with prefix dev) allowed_prefixes
  then let device_path := text "/sys/block/" ++ dev ++ text "/device/" in
       Some (mkDISK (readSysFile (device_path ++ text "serial"))
               (readSysFile (device_path ++ text "model")) dev)
  else None.

(** [YaDISK::init]; [None] is the exception of the directory iterator. *)
Definition getDISK : option (list DISK) :=
  match sys_dir sys (text "/sys/block/") with
  | Some names => Some (omap disk_entry names)
  | None => None
  end.

Definition vendor_id_to_name (id : bytes) : bytes :=
  if bool_decide (id = text "0x10de") then text "NVIDIA"
  else if bool_decide (id = text "0x1002") then text "AMD"
  else if bool_decide (id = text "0x8086") then text "Intel"
  else [].

Definition gpu_entry (name : bytes) : option GPU :=
  let device := text "/sys/class/drm/" ++ name ++ text "/device/" in
  if starts_with (text "card") name && sys_exists sys (device ++ text "vendor")
  then Some (mkGPU (trim blank_line (readSysFile (device ++ text "device")))
               (vendor_id_to_name (trim blank_line (readSysFile (device ++ text "vendor")))) name)
  else None.

(** [YaGPU::init] *)
Definition getGPU : option (list GPU) :=
  match sys_dir sys (text "/sys/class/drm") with
  | Some names => Some (omap gpu_entry names)
  | None => None
  end.

(** [std::string s(&data[i])] for each string from [offset] on, up to the one
    with the index; a string that is not terminated inside the data is read
    past its end. *)
Fixpoint extract_from (fuel : nat) (rest : bytes) (current index : Z) : exec bytes :=
  match fuel, rest with
  | _, [] => Done []
  | O, _ => Running
  | S fuel', _ =>
      match split_at 0 rest with
      | (_, None) => Undefined
      | (s, Some rest') => if current =? index then Done s
                           else extract_from fuel' rest' (current + 1) index
      end
  end.

Definition extract_string (data : bytes) (index : Z) (string_area_offset : nat) : exec bytes :=
  if index =? 0 then Done []
  else extract_from (S (length data)) (drop string_area_offset data) 1 index.

(** One raw SMBIOS structure of type 17.  The source also looks for the end of
    the structure, but does not use what it finds: the strings are taken from
    offset 32. *)
Definition memory_structure (data : bytes) : exec (option MEMORY) :=
  if zlen data <? 32 then Done None else
  let manufacturer_index := default 0 (data !! 23%nat) in
  let serial_index := default 0 (data !! 24%nat) in
  manufacturer ← extract_string data manufacturer_index 32;
  serial_number ← extract_string data serial_index 32;
  Done (Some (mkMEMORY serial_number manufacturer)).

Definition memory_entry (name : bytes) : exec (option MEMORY) :=
  let path := text "/sys/firmware/dmi/entries/" ++ name in
  if sys_is_directory sys path && starts_with (text "17-") name
  then match sys_file sys (path ++ text "/raw") with
       | Some data => memory_structure data
       | None => Done None
       end
  else Done None.

Fixpoint memory_entries (names : list bytes) : exec (list MEMORY) :=
  match names with
  | [] => Done []
  | name :: names' =>
      m ← memory_entry name;
      ms ← memory_entries names';
      Done (option_list m ++ ms)
  end.

(** [YaMEMORY::init] *)
Definition getMEMORY : exec (option (list MEMORY)) :=
  match sys_dir sys (text "/sys/firmware/dmi/entries") with
  | None => Done None
  | Some names => ms ← memory_entries names; Done (Some ms)
  end.

Definition getMac (name : bytes) : bytes :=
  readSysFile (text "/sys/class/net/" ++ name ++ text "/address").

Fixpoint first_ipv4 (iface : bytes) (l : list IfAddr) : bytes :=
  match l with
  | [] => []
  | ifa :: l' => if bool_decide (ifa_family ifa = Some AF_INET) && bool_decide (iface = ifa_name ifa)
                 then ifa_text ifa else first_ipv4 iface l'
  end.

Definition getIp4 (iface : bytes) : bytes := first_ipv4 iface (default [] (sys_ifaddrs sys)).

Definition network_entry (ifa : IfAddr) : option NETWORK :=
  if bool_decide (ifa_family ifa = Some AF_PACKET)
  then let net := mkNETWORK (ifa_name ifa) (getIp4 (ifa_name ifa)) [] (getMac (ifa_name ifa)) in
       if negb (bool_decide (network_mac net = [])) || negb (bool_decide (network_ipv4 net = []))
       then Some net else None
  else None.

(** [YaNETWORK::init] *)
Definition getNETWORK : list NETWORK :=
  match sys_ifaddrs sys with None => [] | Some l => omap network_entry l end.
End Readers.
End hwinfo.
Import hwinfo.

(** ** Trimming *)

Definition trimmed (set : Z → bool) (s : bytes) : Prop :=
  (∀ c, head s = Some c → set c = false) ∧ (∀ c, last s = Some c → set c = false).

Lemma skip_set_split set s :
  ∃ pre, s = pre ++ skip_set set s ∧ Forall (fun c => set c = true) pre
  ∧ (∀ c, head (skip_set set s) = Some c → set c = false).
Proof.
  induction s as [|c s (pre & E & Hp & Hh)]; [by exists []|]. cbn. destruct (set c) eqn:Ec.
  - exists (c :: pre). split_and!; [by rewrite E at 1|by constructor|done].
  - exists []. split_and!; [done|done|]. by intros d [= <-].
Qed.

Lemma trim_split set s :
  ∃ pre post, s = pre ++ trim set s ++ post ∧ Forall (fun c => set c = true) pre
  ∧ Forall (fun c => set c = true) post ∧ trimmed set (trim set s).
Proof.
  destruct (skip_set_split set s) as (pre & E & Hp & Hh).
  destruct (skip_set_split set (rev (skip_set set s))) as (post & E2 & Hp2 & Hh2).
  exists pre, (rev post). unfold trim.
  assert (skip_set set s = rev (skip_set set (rev (skip_set set s))) ++ rev post) as E3.
  { rewrite <- rev_app_distr, <- E2. by rewrite rev_involutive. }
  split_and!; [by rewrite <- E3|done|by apply Forall_rev|]. split.
  - intros c Hc. apply Hh. rewrite E3.
    destruct (rev (skip_set set (rev (skip_set set s)))); [done|]. exact Hc.
  - intros c Hc. apply Hh2. destruct (skip_set set (rev (skip_set set s))) as [|d l]; [done|].
    cbn in Hc |- *. by rewrite last_snoc in Hc.
Qed.

(** The value of a CPU field is empty, or what stands after the first colon
    of the first line that contains the field's name and a colon, without the
    blanks and tabs at its ends and with everything between them. *)
Theorem cpu_field_value sys field :
  get_cpu_field sys field = []
  ∨ ∃ contents before line after key value pre post,
      sys_file sys (text "/proc/cpuinfo") = Some contents
      ∧ lines contents = before ++ line :: after
      ∧ Forall (fun l => field_value field l = None) before
      ∧ contains field line = true ∧ line = key ++ 58 :: value ∧ (58 ∉ key)
      ∧ value = pre ++ get_cpu_field sys field ++ post
      ∧ Forall (fun c => blank_tab c = true) pre ∧ Forall (fun c => blank_tab c = true) post
      ∧ trimmed blank_tab (get_cpu_field sys field).
Proof.
  unfold get_cpu_field. destruct (sys_file sys (text "/proc/cpuinfo")) as [contents|]; [|by left].
  assert (∀ ls, first_value field ls = [] ∨ ∃ before line after key value pre post,
    ls = before ++ line :: after ∧ Forall (fun l => field_value field l = None) before
    ∧ contains field line = true ∧ line = key ++ 58 :: value ∧ (58 ∉ key)
    ∧ value = pre ++ first_value field ls ++ post
    ∧ Forall (fun c => blank_tab c = true) pre ∧ Forall (fun c => blank_tab c = true) post
    ∧ trimmed blank_tab (first_value field ls)) as Hls.
  { induction ls as [|l ls IH]; [by left|]. cbn [first_value].
    destruct (field_value field l) as [v|] eqn:Ef.
    - right. unfold field_value in Ef. destruct (contains field l) eqn:Ec; [|done].
      pose proof (split_at_spec 58 l) as Hs. destruct (split_at 58 l) as [key [value|]]; [|done].
      injection Ef as <-. destruct Hs as [-> Hk].
      destruct (trim_split blank_tab value) as (pre & post & E & Hp & Hq & Ht).
      exists [], (key ++ 58 :: value), ls, key, value, pre, post. split_and!; done.
    - destruct IH as [IH|(before & line & after & key & value & pre & post & -> & Hb & Hr)]; [by left|].
      right. exists (l :: before), line, after, key, value, pre, post. split_and!; [done|by constructor|..];
        apply Hr. }
  destruct (Hls (lines contents)) as [E|(before & line & after & key & value & pre & post & Hr)];
    [by left|]. right. exists contents, before, line, after, key, value, pre, post. done.
Qed.

(** A machine with nothing but these files. *)
Definition with_files (f : bytes → option bytes) : Sys :=
  mkSys f (fun p => bool_decide (is_Some (f p))) (fun _ => None) (fun _ => false) None None.

(** The name is looked for in the whole line: a processor flag that contains it
    makes the flags the serial number. *)
Example serial_from_flags :
  cpu_serial_number (getCPU (with_files
    (fun p => if bool_decide (p = text "/proc/cpuinfo")
              then Some (text "flags : fpu serialize" ++ [10]) else None))) = text "fpu serialize".
Proof. vm_compute. reflexivity. Qed.

(** ** The release file *)

Lemma starts_with_app p s : starts_with p (p ++ s) = true.
Proof. induction p as [|c p IH]; [done|]. cbn. by rewrite Z.eqb_refl. Qed.

Lemma unquote_quoted v : unquote (quote :: v ++ [quote]) = v.
Proof.
  unfold unquote. cbn [head]. rewrite bool_decide_true by done.
  rewrite app_comm_cons, last_snoc, bool_decide_true by done. cbn [andb].
  rewrite zlen_app, zlen_cons. change (zlen [quote]) with 1.
  destruct (Z.eqb_spec (1 + zlen v + 1) 1) as [E|_]; [pose proof (zlen_nonneg v); lia|].
  cbn [app drop]. rewrite length_cons, length_app. cbn [length].
  replace (S (length v + 1) - 2)%nat with (length v) by lia. apply take_app_length.
Qed.

Definition quoted_line (key value : bytes) : bytes := key ++ quote :: value ++ [quote].

Lemma os_lines_name ls o :
  Forall (fun l => starts_with (text "PRETTY_NAME=") l = false) ls →
  os_name (foldl os_line o ls) = os_name o.
Proof.
  intros Hf. revert o. induction Hf as [|l ls Hl Hf IH]; intros o; [done|]. cbn [foldl].
  rewrite IH. unfold os_line. rewrite Hl. by destruct (starts_with (text "VERSION_ID=") l).
Qed.

Lemma os_lines_version ls o :
  Forall (fun l => starts_with (text "VERSION_ID=") l = false) ls →
  os_version (foldl os_line o ls) = os_version o.
Proof.
  intros Hf. revert o. induction Hf as [|l ls Hl Hf IH]; intros o; [done|]. cbn [foldl].
  rewrite IH. unfold os_line. rewrite Hl. by destruct (starts_with (text "PRETTY_NAME=") l).
Qed.

(** The name and the version of the system are those of the last
    [PRETTY_NAME] and [VERSION_ID] lines of the release file, without the
    quotes around them. *)
Theorem os_release_values sys contents before after value :
  sys_file sys (text "/etc/os-release") = Some contents →
  (lines contents = before ++ quoted_line (text "PRETTY_NAME=") value :: after →
   Forall (fun l => starts_with (text "PRETTY_NAME=") l = false) after →
   os_name (getOS sys) = value)
  ∧ (lines contents = before ++ quoted_line (text "VERSION_ID=") value :: after →
     Forall (fun l => starts_with (text "VERSION_ID=") l = false) after →
     os_version (getOS sys) = value).
Proof.
  intros Hf. unfold getOS. rewrite Hf. change (default [] (Some contents)) with contents.
  cbn [os_name os_version].
  split; intros -> Ha; rewrite foldl_app; cbn [foldl].
  - rewrite os_lines_name by done. unfold os_line, quoted_line. rewrite starts_with_app.
    cbn [os_name]. rewrite drop_app_length. apply unquote_quoted.
  - rewrite os_lines_version by done. unfold os_line, quoted_line. rewrite starts_with_app.
    destruct (starts_with (text "PRETTY_NAME=") _) eqn:Ep; [done|].
    cbn [os_version]. rewrite drop_app_length. apply unquote_quoted.
Qed.

(** ** SMBIOS strings *)

Definition terminated (ss : list bytes) : bytes := ss ≫= fun s => s ++ [0].

Lemma extract_from_strings fuel ss t current index :
  Forall (fun s => 0 ∉ s) ss → (0 ∉ t) → current <= index →
  (length (terminated ss ++ t) < fuel)%nat →
  extract_from fuel (terminated ss ++ t) current index
  = match ss !! Z.to_nat (index - current) with
    | Some s => Done s
    | None => if bool_decide (t = []) then Done [] else Undefined
    end.
Proof.
  intros Hs Ht. revert fuel current. induction Hs as [|s ss Hn Hs IH]; intros fuel current Hc Hf.
  - cbn [terminated mbind list_bind app]. rewrite lookup_nil.
    destruct fuel as [|fuel]; [lia|]. destruct t as [|c t]; [done|]. cbn [extract_from].
    by rewrite split_at_none.
  - change (terminated (s :: ss)) with ((s ++ [0]) ++ terminated ss) in *.
    rewrite <- !app_assoc in *. cbn [app] in *.
    destruct fuel as [|fuel]; [lia|]. rewrite length_app in Hf. cbn [length] in Hf.
    assert (∃ c l, s ++ 0 :: terminated ss ++ t = c :: l) as (c & l & El) by (destruct s; eauto).
    cbn [extract_from]. rewrite El. rewrite <- El, split_at_app by done.
    destruct (Z.eqb_spec current index) as [->|Hne].
    + by rewrite Z.sub_diag.
    + rewrite IH by lia.
      by replace (Z.to_nat (index - current)) with (S (Z.to_nat (index - (current + 1)))) by lia.
Qed.

(** What is read from an SMBIOS structure whose formatted part ends where
    the reader assumes: index 0 is no string, index k is the k-th of the
    terminated strings; an index beyond them is empty when the data ends with a
    terminator, and reads past the data when it does not. *)
Theorem extract_string_exact header ss t index :
  Forall (fun s => 0 ∉ s) ss → (0 ∉ t) → 0 <= index →
  extract_string (header ++ terminated ss ++ t) index (length header)
  = if index =? 0 then Done []
    else match ss !! Z.to_nat (index - 1) with
         | Some s => Done s
         | None => if bool_decide (t = []) then Done [] else Undefined
         end.
Proof.
  intros Hs Ht Hi. unfold extract_string. destruct (Z.eqb_spec index 0) as [|Hne]; [done|].
  rewrite drop_app_length. apply extract_from_strings; [done|done|lia|].
  rewrite (length_app header). lia.
Qed.

Lemma extract_string_exact_witness :
  extract_string (replicate 32 1 ++ terminated [text "Samsung"; text "S-123"] ++ []) 2 32 = Done (text "S-123")
  ∧ extract_string (replicate 32 1 ++ terminated [text "Samsung"] ++ text "S-1") 2 32 = Undefined.
Proof.
  split.
  - apply (extract_string_exact (replicate 32 1) [text "Samsung"; text "S-123"] [] 2);
      [repeat constructor; apply (bool_decide_eq_true_1 _); vm_compute; reflexivity
      |apply (bool_decide_eq_true_1 _); vm_compute; reflexivity|lia].
  - apply (extract_string_exact (replicate 32 1) [text "Samsung"] (text "S-1") 2);
      [repeat constructor; apply (bool_decide_eq_true_1 _); vm_compute; reflexivity
      |apply (bool_decide_eq_true_1 _); vm_compute; reflexivity|lia].
Defined.

(** A structure of today's length 40: its strings start at offset 40, and the
    reader finds the empty strings of the formatted part instead. *)
Example long_structure_misread :
  memory_structure (17 :: 40 :: replicate 21 2 ++ [1; 2] ++ replicate 15 0
                      ++ terminated [text "Samsung"; text "S-123"] ++ [0])
  = Done (Some (mkMEMORY [] [])).
Proof. vm_compute. reflexivity. Qed.

Lemma os_release_values_witness :
  os_name (getOS (with_files (fun p => if bool_decide (p = text "/etc/os-release")
    then Some (text "ID=x" ++ [10] ++ quoted_line (text "PRETTY_NAME=") (text "Debian 12") ++ [10]) else None))) = text "Debian 12".
Proof.
  refine (proj1 (os_release_values (with_files (fun p => if bool_decide (p = text "/etc/os-release")
    then Some (text "ID=x" ++ [10] ++ quoted_line (text "PRETTY_NAME=") (text "Debian 12") ++ [10]) else None)) _ [text "ID=x"] [] (text "Debian 12") eq_refl) _ _).
  - vm_compute. reflexivity.
  - constructor.
Defined.
