(* ===== verification/Wmi.v ===== *)
(** * Wmi: hardware information on Windows

    Models [src/ya_hwinfo/hwinfooperator.cpp], the class [WmiQuery], and the
    Windows branches of the readers in [src/ya_hwinfo] that use it.  COM is the
    class [ComApi]: an interface pointer is a number, [Release] of a pointer that
    is not held is undefined.  Wide strings are lists of UTF-16 units; converting
    one to [std::string] tidy the low byte of every unit.

    The theorems: a reader gives back every interface it acquired, but leaves COM
    with one initialization less when initializing had failed; a query ends with
    the values of the objects that have the property; reading past the end of a
    shorter column is characterized; which addresses are found in an array; and
    after one reader in a process the others find nothing. *)

From S2P Require Import Prelude Text Program HwInfo.

(** ** COM *)

Abbreviation wtext := (list Z).

(** [VARIANT]: a string may be a null pointer; of an array the bounds, which may
    be unavailable, and the elements, which may fail or be null. *)
Inductive VARIANT :=
| VT_ARRAY_BSTR (bounds : option (Z * Z)) (element : Z → option wtext)
| VT_BSTR (s : option wtext)
| VT_I2 (v : Z)
| VT_UI2 (v : Z)
| VT_I4 (v : Z)
| VT_UI4 (v : Z)
| VT_BOOL (v : Z)
| VT_OTHER.

Class ComApi := {
  com_state : Type;
  (* whether the call succeeded *)
  CoInitializeEx : com_state → bool * com_state;
  CoInitializeSecurity : com_state → bool * com_state;
  CoSetProxyBlanket : Z → com_state → bool * com_state;
  (* the pointer, if the call succeeded *)
  CoCreateInstance : com_state → option Z * com_state;
  ConnectServer : Z → wtext → com_state → option Z * com_state;
  ExecQuery : Z → wtext → com_state → option Z * com_state;
  (* the next object; none with [uReturn == 0] *)
  Next : Z → com_state → option Z * com_state;
  Get : Z → wtext → com_state → option VARIANT * com_state;
  Release : Z → com_state → option (() * com_state);
  CoUninitialize : com_state → com_state;
}.

(** What is relied on: interface pointers are counted, and security can be set
    up once in a process. *)
Class ComLaws (M : ComApi) := {
  (* the pointers the program holds, the initializations, whether security was
     set up, and how many objects an enumerator still has *)
  com_held : com_state → gset Z;
  com_depth : com_state → Z;
  com_secured : com_state → bool;
  com_rest : Z → com_state → nat;
  com_bound : nat;
  com_CoInitializeEx st :
    let '(ok, st') := CoInitializeEx st in
    com_held st' = com_held st ∧ com_secured st' = com_secured st
    ∧ com_depth st' = if (ok : bool) then com_depth st + 1 else com_depth st;
  com_CoInitializeSecurity st :
    let '(ok, st') := CoInitializeSecurity st in
    com_held st' = com_held st ∧ com_depth st' = com_depth st
    ∧ com_secured st' = com_secured st || ok ∧ (com_secured st = true → ok = false);
  com_CoSetProxyBlanket p st :
    let '(_, st') := CoSetProxyBlanket p st in
    com_held st' = com_held st ∧ com_depth st' = com_depth st ∧ com_secured st' = com_secured st;
  com_CoCreateInstance st :
    let '(p, st') := CoCreateInstance st in
    com_depth st' = com_depth st ∧ com_secured st' = com_secured st
    ∧ match p with
      | Some p => (p ∉ com_held st) ∧ com_held st' = {[p]} ∪ com_held st
      | None => com_held st' = com_held st
      end;
  com_ConnectServer l name st :
    let '(p, st') := ConnectServer l name st in
    com_depth st' = com_depth st ∧ com_secured st' = com_secured st
    ∧ match p with
      | Some p => (p ∉ com_held st) ∧ com_held st' = {[p]} ∪ com_held st
      | None => com_held st' = com_held st
      end;
  com_ExecQuery s q st :
    let '(p, st') := ExecQuery s q st in
    com_depth st' = com_depth st ∧ com_secured st' = com_secured st
    ∧ match p with
      | Some p => (p ∉ com_held st) ∧ com_held st' = {[p]} ∪ com_held st
                  ∧ (com_rest p st' <= com_bound)%nat
      | None => com_held st' = com_held st
      end;
  com_Next e st :
    let '(p, st') := Next e st in
    com_depth st' = com_depth st ∧ com_secured st' = com_secured st
    ∧ match p with
      | Some p => (p ∉ com_held st) ∧ com_held st' = {[p]} ∪ com_held st
                  ∧ com_rest e st = S (com_rest e st')
      | None => com_held st' = com_held st
      end;
  com_Get o name st :
    let '(_, st') := Get o name st in
    com_held st' = com_held st ∧ com_depth st' = com_depth st ∧ com_secured st' = com_secured st
    ∧ ∀ e, com_rest e st' = com_rest e st;
  com_Release p st :
    p ∈ com_held st →
    ∃ st', Release p st = Some ((), st') ∧ com_held st' = com_held st ∖ {[p]}
    ∧ com_depth st' = com_depth st ∧ com_secured st' = com_secured st
    ∧ ∀ e, com_rest e st' = com_rest e st;
  com_Release_held p st : is_Some (Release p st) → p ∈ com_held st;
  com_CoUninitialize st :
    com_held (CoUninitialize st) = com_held st ∧ com_depth (CoUninitialize st) = com_depth st - 1
    ∧ com_secured (CoUninitialize st) = com_secured st;
}.

(** ** [WmiQuery] *)

Module wmi.
Definition quote : Z := 34.
Definition VARIANT_TRUE : Z := -1.

(** The elements of an array, quoted and separated. *)
Fixpoint array_body (first : bool) (elements : list wtext) : wtext :=
  match elements with
  | [] => []
  | ws :: rest =>
      (if first then [] else text ", ") ++ quote :: ws ++ quote :: array_body false rest
  end.

Definition array_text (elements : list wtext) : wtext :=
  text "{" ++ array_body true elements ++ text "}".

(** [value] after the [switch] on the type; a null string is dereferenced. *)
Definition variant_text (v : VARIANT) : exec wtext :=
  match v with
  | VT_ARRAY_BSTR None _ => Done []
  | VT_ARRAY_BSTR (Some (lbound, ubound)) element =>
      Done (array_text (omap element (seqZ lbound (ubound - lbound + 1))))
  | VT_BSTR (Some s) => Done s
  | VT_BSTR None => Undefined
  | VT_I2 v | VT_UI2 v => Done (dec (wrap 16 v))
  | VT_I4 v | VT_UI4 v => Done (dec (wrap 32 v))
  | VT_BOOL v => Done (if v =? VARIANT_TRUE then text "true" else text "false")
  | VT_OTHER => Done []
  end.

Section Query.
Context `{ComApi}.
Abbreviation com A := (prog com_state A).

Record WmiQuery := mkWmiQuery {
  pSvc : option Z;
  pLoc : option Z;
  initialized : bool;
}.

Definition WmiQuery_new : WmiQuery := mkWmiQuery None None false.

Definition initialize (w : WmiQuery) : com (bool * WmiQuery) :=
  ok ← call CoInitializeEx;
  if negb ok then mret (false, w) else
  ok ← call CoInitializeSecurity;
  if negb ok then mret (false, w) else
  loc ← call CoCreateInstance;
  match loc with
  | None => mret (false, w)
  | Some loc =>
  let w := mkWmiQuery (pSvc w) (Some loc) (initialized w) in
  svc ← call (ConnectServer loc (text "ROOT\CIMV2"));
  match svc with
  | None => mret (false, w)
  | Some svc =>
  let w := mkWmiQuery (Some svc) (pLoc w) (initialized w) in
  ok ← call (CoSetProxyBlanket svc);
  if negb (ok : bool) then mret (false, w)
  else mret (true, mkWmiQuery (pSvc w) (pLoc w) true)
  end end.

(** [if (SUCCEEDED(hr)) { ... results.emplace_back(value); }] *)
Definition object_value (vtProp : option VARIANT) : com (list wtext) :=
  match vtProp with
  | Some v => value ← produce (variant_text v); mret [value]
  | None => mret []
  end.

(** The loop over the objects of an enumerator. *)
Fixpoint objects (fuel : nat) (pEnumerator : Z) (property : wtext) : com (list wtext) :=
  match fuel with
  | O => fun _ => Running
  | S fuel' =>
      obj ← call (Next pEnumerator);
      match obj with
      | None => mret []
      | Some pclsObj =>
          vtProp ← call (Get pclsObj property);
          value ← object_value vtProp;
          attempt (Release pclsObj);;
          results ← objects fuel' pEnumerator property;
          mret (value ++ results)
      end
  end.

Definition select (property wmiClass : wtext) : wtext :=
  text "SELECT " ++ property ++ text " FROM " ++ wmiClass.

Definition query (fuel : nat) (w : WmiQuery) (wmiClass property : wtext) : com (list wtext) :=
  if negb (initialized w) then mret [] else
  svc ← attempt (fun st => (fun p => (p, st)) <$> pSvc w);
  e ← call (ExecQuery svc (select property wmiClass));
  match e with
  | None => mret []
  | Some pEnumerator =>
      results ← objects fuel pEnumerator property;
      attempt (Release pEnumerator);;
      mret results
  end.

Definition release (p : option Z) : com () :=
  match p with Some p => attempt (Release p) | None => mret () end.

Definition cleanup (w : WmiQuery) : com WmiQuery :=
  release (pSvc w);; release (pLoc w);; effect CoUninitialize;;
  mret (mkWmiQuery None None false).

(** [WmiQuery wmi; if (wmi.initialize()) { body }]: without success the members
    keep their initial values; the destructor ends the scope. *)
Definition with_wmi {A} (none : A) (body : WmiQuery → com A) : com A :=
  '(ok, w) ← initialize WmiQuery_new;
  a ← (if (ok : bool) then body w else mret none);
  cleanup w;;
  mret a.

(** *** Readers *)

(** [std::string(ws.begin(), ws.end())] *)
Definition narrow (ws : wtext) : bytes := u8 <$> ws.

(** [if (!results.empty()) member = ...results[0]...;] for an empty member *)
Definition first_result (results : list wtext) : bytes :=
  match results with ws :: _ => narrow ws | [] => [] end.

Context (fuel : nat).

Definition property (w : WmiQuery) (wmiClass name : wtext) : com bytes :=
  results ← query fuel w wmiClass name; mret (first_result results).

(** [yyyymmdd...] with dashes, or nothing *)
Definition release_date (raw : bytes) : bytes :=
  if 8 <=? zlen raw
  then take 4 raw ++ text "-" ++ take 2 (drop 4 raw) ++ text "-" ++ take 2 (drop 6 raw)
  else [].

Definition getBIOS : com BIOS :=
  with_wmi (mkBIOS [] [] [] []) (fun w =>
    serial ← property w (text "Win32_BIOS") (text "SerialNumber");
    vendor ← property w (text "Win32_BIOS") (text "Manufacturer");
    version ← property w (text "Win32_BIOS") (text "SMBIOSBIOSVersion");
    date ← property w (text "Win32_BIOS") (text "ReleaseDate");
    mret (mkBIOS serial vendor (release_date date) version)).

(** [std::stoi]: the exceptions [std::invalid_argument] and [std::out_of_range] *)
Inductive StoiError := NoConversion | NotInRange.

Definition stoi (ws : wtext) : result StoiError Z :=
  let '(negative, ws) := take_sign (skip_space ws) in
  let '(digits, _) := span_digits ws in
  if bool_decide (digits = []) then Err NoConversion else
  let v := if negative then - digits_value digits else digits_value digits in
  if (v <? - 2 ^ 31) || (2 ^ 31 - 1 <? v) then Err NotInRange else Ok v.

Definition architecture_name (archCode : Z) : bytes :=
  if archCode =? 0 then text "x86"
  else if archCode =? 9 then text "x64"
  else if archCode =? 5 then text "ARM"
  else if archCode =? 12 then text "ARM64"
  else text "Unknown".

Definition getCPU : com (result StoiError CPU) :=
  with_wmi (Ok (mkCPU [] [] [] [])) (fun w =>
    serial ← property w (text "Win32_Processor") (text "ProcessorId");
    name ← property w (text "Win32_Processor") (text "Name");
    vendor ← property w (text "Win32_Processor") (text "Manufacturer");
    archs ← query fuel w (text "Win32_Processor") (text "Architecture");
    match archs with
    | [] => mret (Ok (mkCPU serial [] vendor name))
    | arch :: _ =>
        match stoi arch with
        | Err e => mret (Err e)
        | Ok code => mret (Ok (mkCPU serial (architecture_name code) vendor name))
        end
    end).

(** [for (i = 0; i < names.size(); ++i)] with [second[i]] and [third[i]]: past the
    end of a shorter vector the access is undefined. *)
Fixpoint rows {A} (make : bytes → bytes → bytes → A) (names second third : list wtext)
  : exec (list A) :=
  match names with
  | [] => Done []
  | n :: names' =>
      match second, third with
      | s :: second', t :: third' =>
          rest ← rows make names' second' third';
          Done (make (narrow n) (narrow s) (narrow t) :: rest)
      | _, _ => Undefined
      end
  end.

Definition getDISK : com (list DISK) :=
  with_wmi [] (fun w =>
    names ← query fuel w (text "Win32_DiskDrive") (text "DeviceID");
    serials ← query fuel w (text "Win32_DiskDrive") (text "SerialNumber");
    models ← query fuel w (text "Win32_DiskDrive") (text "Model");
    produce (rows (fun name serial model => mkDISK serial model name) names serials models)).

Definition getGPU : com (list GPU) :=
  with_wmi [] (fun w =>
    names ← query fuel w (text "Win32_VideoController") (text "Name");
    vendors ← query fuel w (text "Win32_VideoController") (text "AdapterCompatibility");
    device_ids ← query fuel w (text "Win32_VideoController") (text "PNPDeviceID");
    produce (rows (fun name vendor device => mkGPU device vendor name) names vendors device_ids)).

(** The only loop that checks the other vector. *)
Fixpoint memory_rows (serials manufacturers : list wtext) : list MEMORY :=
  match serials with
  | [] => []
  | s :: serials' =>
      mkMEMORY (narrow s) (first_result manufacturers) :: memory_rows serials' (tail manufacturers)
  end.

Definition getMEMORY : com (list MEMORY) :=
  with_wmi [] (fun w =>
    manufacturers ← query fuel w (text "Win32_PhysicalMemory") (text "Manufacturer");
    serials ← query fuel w (text "Win32_PhysicalMemory") (text "SerialNumber");
    mret (memory_rows serials manufacturers)).

Definition getMOTHERBOARD : com MOTHERBOARD :=
  with_wmi (mkMOTHERBOARD [] [] [] []) (fun w =>
    serial ← property w (text "Win32_BaseBoard") (text "SerialNumber");
    vendor ← property w (text "Win32_BaseBoard") (text "Manufacturer");
    version ← property w (text "Win32_BaseBoard") (text "Version");
    name ← property w (text "Win32_BaseBoard") (text "Product");
    mret (mkMOTHERBOARD serial vendor version name)).

Definition getOS : com OS :=
  with_wmi (mkOS [] [] []) (fun w =>
    name ← property w (text "Win32_OperatingSystem") (text "Caption");
    id ← property w (text "Win32_ComputerSystemProduct") (text "UUID");
    version ← property w (text "Win32_OperatingSystem") (text "Version");
    mret (mkOS id name version)).

(** What stands between the first and the second, and between the third and the
    fourth quote; nothing unless there are four. *)
Definition ip_addresses (ipRaw : wtext) : bytes * bytes :=
  match split_at quote ipRaw with
  | (_, Some r1) =>
      match split_at quote r1 with
      | (ipv4, Some r2) =>
          match split_at quote r2 with
          | (_, Some r3) =>
              match split_at quote r3 with
              | (ipv6, Some _) => (narrow ipv4, narrow ipv6)
              | _ => ([], [])
              end
          | _ => ([], [])
          end
      | _ => ([], [])
      end
  | _ => ([], [])
  end.

Definition network_row (name mac ip : wtext) : NETWORK :=
  let '(ipv4, ipv6) := if bool_decide (ip = []) then ([], []) else ip_addresses ip in
  mkNETWORK (narrow name) ipv4 ipv6 (narrow mac).

Definition anything (net : NETWORK) : bool :=
  negb (bool_decide (network_name net = [])) || negb (bool_decide (network_mac net = []))
  || negb (bool_decide (network_ipv4 net = [])) || negb (bool_decide (network_ipv6 net = [])).

Fixpoint network_rows (names macs ips : list wtext) : exec (list NETWORK) :=
  match names with
  | [] => Done []
  | [] :: names' => network_rows names' (tail macs) (tail ips)
  | name :: names' =>
      match macs, ips with
      | mac :: macs', ip :: ips' =>
          rest ← network_rows names' macs' ips';
          let net := network_row name mac ip in
          Done (if anything net then net :: rest else rest)
      | _, _ => Undefined
      end
  end.

Definition getNETWORK : com (list NETWORK) :=
  with_wmi [] (fun w =>
    names ← query fuel w (text "Win32_NetworkAdapter") (text "Caption");
    macs ← query fuel w (text "Win32_NetworkAdapter") (text "MACAddress");
    ips ← query fuel w (text "Win32_NetworkAdapterConfiguration") (text "IPAddress");
    produce (network_rows names macs ips)).
End Query.
End wmi.

(** ** Balance *)

Section Balance.
Context {M : ComApi} {ML : ComLaws M}.
Import wmi.

(** The world apart from what enumerators still have. *)
Definition quiet st st' : Prop :=
  com_held st' = com_held st ∧ com_depth st' = com_depth st ∧ com_secured st' = com_secured st.

Lemma quiet_trans st1 st2 st3 : quiet st1 st2 → quiet st2 st3 → quiet st1 st3.
Proof. intros (? & ? & ?) (? & ? & ?). split_and!; congruence. Qed.

Definition tidy {A} (m : prog com_state A) : Prop :=
  ∀ st a st', m st = Done (a, st') → quiet st st'.

Lemma tidy_ret {A} (a : A) : tidy (mret a).
Proof. by intros st b st' [= <- <-]. Qed.

Lemma tidy_bind {A B} (m : prog com_state A) (f : A → prog com_state B) :
  tidy m → (∀ a, tidy (f a)) → tidy (m ≫= f).
Proof.
  intros Hm Hf st b st'. unfold mbind, prog_mbind. destruct (m st) as [[a st1]| |] eqn:E; [|done..].
  intros E2. by eapply quiet_trans; [eapply Hm|eapply Hf].
Qed.

Lemma tidy_produce {A} (e : exec A) : tidy (produce e).
Proof. intros st a st'. unfold produce. destruct e; [|done..]. by intros [= <- <-]. Qed.

(** An interface that is acquired, used and released. *)
Lemma release_last p st st1 st2 st3 :
  p ∉ com_held st → com_held st1 = {[p]} ∪ com_held st → com_depth st1 = com_depth st →
  com_secured st1 = com_secured st → quiet st1 st2 → Release p st2 = Some ((), st3) → quiet st st3.
Proof.
  intros Hp Hh Hd Hs (Hh2 & Hd2 & Hs2) Hr.
  destruct (com_Release p st2) as (st3' & Hr' & Hh3 & Hd3 & Hs3 & _);
    [apply com_Release_held; by rewrite Hr|].
  rewrite Hr in Hr'. injection Hr' as <-. split_and!; [|congruence..].
  rewrite Hh3, Hh2, Hh. set_solver.
Qed.

Lemma tidy_object_value v : tidy (object_value v).
Proof.
  destruct v; [|apply tidy_ret]. apply tidy_bind; [apply tidy_produce|]. intros. apply tidy_ret.
Qed.

Lemma tidy_objects fuel e name : tidy (objects fuel e name).
Proof.
  induction fuel as [|fuel IH]; intros st rs st'; [done|]. cbn [objects].
  unfold mbind, prog_mbind, call. pose proof (com_Next e st) as Hn.
  destruct (Next e st) as [[o|] st1]; cycle 1.
  { destruct Hn as (? & ? & ?). by intros [= <- <-]. }
  destruct Hn as (Hd & Hs & Hp & Hh & _).
  pose proof (com_Get o name st1) as Hg. destruct (Get o name st1) as [v st2].
  destruct Hg as (Hg1 & Hg2 & Hg3 & _).
  destruct (object_value v st2) as [[value st3]| |] eqn:Ev; [|done..].
  apply tidy_object_value in Ev. unfold attempt. destruct (Release o st3) as [[[] st4]|] eqn:Er; [|done].
  destruct (objects fuel e name st4) as [[rest st5]| |] eqn:Eo; [|done..]. intros [= <- <-].
  eapply quiet_trans; [|by eapply IH].
  eapply (release_last o st st1 st3); [done..| |done].
  by eapply quiet_trans; [|exact Ev].
Qed.

Lemma tidy_query fuel w cls name : tidy (query fuel w cls name).
Proof.
  intros st rs st'. unfold query. destruct (initialized w); cbn [negb]; [|by apply tidy_ret].
  unfold mbind, prog_mbind, attempt, call. destruct (pSvc w) as [svc|]; [|done].
  cbn [fmap option_fmap option_map].
  pose proof (com_ExecQuery svc (select name cls) st) as He.
  destruct (ExecQuery svc (select name cls) st) as [[e|] st1]; cycle 1.
  { destruct He as (? & ? & ?). by intros [= <- <-]. }
  destruct He as (Hd & Hs & Hp & Hh & _).
  destruct (objects fuel e name st1) as [[results st2]| |] eqn:Eo; [|done..].
  destruct (Release e st2) as [[[] st3]|] eqn:Er; [|done]. intros [= <- <-].
  eapply (release_last e st st1 st2); [done..| |done]. by eapply tidy_objects.
Qed.

Lemma tidy_property fuel w cls name : tidy (property fuel w cls name).
Proof. apply tidy_bind; [apply tidy_query|]. intros. apply tidy_ret. Qed.

(** *** The scope of a reader *)

(** What a reader leaves: no interface, and one initialization less if the first
    one failed. *)
Definition released st st' : Prop :=
  com_held st' = com_held st
  ∧ com_depth st' = com_depth st - (if (CoInitializeEx st).1 then 0 else 1).

Definition pointers (w : WmiQuery) : list Z := option_list (pSvc w) ++ option_list (pLoc w).

(** After [initialize], whether it succeeded or not, the object points to
    exactly the interfaces that were acquired. *)
Lemma initialize_spec st :
  ∃ ok w st', initialize WmiQuery_new st = Done ((ok, w), st')
  ∧ NoDup (pointers w) ∧ Forall (fun p => p ∉ com_held st) (pointers w)
  ∧ com_held st' = list_to_set (pointers w) ∪ com_held st
  ∧ com_depth st' = com_depth st + (if (CoInitializeEx st).1 then 1 else 0)
  ∧ (ok = true → initialized w = true ∧ is_Some (pSvc w) ∧ com_secured st' = true)
  ∧ (com_secured st = true → ok = false ∧ w = WmiQuery_new).
Proof.
  unfold initialize, mbind, prog_mbind, call.
  pose proof (com_CoInitializeEx st) as H1. destruct (CoInitializeEx st) as [[] st1]; cbn [negb fst];
    destruct H1 as (Hh1 & Hs1 & Hd1); cycle 1.
  { eexists false, _, st1. split; [done|]. cbn. split_and!; [constructor|done|set_solver|lia|done|done]. }
  pose proof (com_CoInitializeSecurity st1) as H2.
  destruct (CoInitializeSecurity st1) as [[] st2]; cbn [negb]; destruct H2 as (Hh2 & Hd2 & Hs2 & Hf2); cycle 1.
  { eexists false, _, st2. split; [done|]. cbn. split_and!; [constructor|done|set_solver|lia|done|done]. }
  rewrite orb_true_r in Hs2.
  assert (com_secured st ≠ true) as Hns by (rewrite <- Hs1; intros E; by specialize (Hf2 E)).
  pose proof (com_CoCreateInstance st2) as H3.
  destruct (CoCreateInstance st2) as [[loc|] st3]; destruct H3 as (Hd3 & Hs3 & H3); cycle 1.
  { eexists false, _, st3. split; [done|]. cbn -[text]. rewrite H3, Hh2, Hh1.
    split_and!; [constructor|done|clear; set_solver|lia|done|done]. }
  destruct H3 as [Hl Hh3]. pose proof (com_ConnectServer loc (text "ROOT\CIMV2") st3) as H4.
  destruct (ConnectServer loc (text "ROOT\CIMV2") st3) as [[svc|] st4];
    destruct H4 as (Hd4 & Hs4 & H4); cycle 1.
  { eexists false, _, st4. split; [done|]. cbn -[text]. rewrite H4, Hh3, Hh2, Hh1.
    split_and!; [apply NoDup_singleton| |clear; set_solver|lia|done|done].
    constructor; [by rewrite Hh2, Hh1 in Hl|done]. }
  destruct H4 as [Hv Hh4]. pose proof (com_CoSetProxyBlanket svc st4) as H5.
  destruct (CoSetProxyBlanket svc st4) as [ok st5]. destruct H5 as (Hh5 & Hd5 & Hs5).
  assert (com_held st5 = {[svc]} ∪ ({[loc]} ∪ ∅) ∪ com_held st) as Hheld
    by (rewrite Hh5, Hh4, Hh3, Hh2, Hh1; clear; set_solver).
  rewrite Hh3 in Hv. rewrite Hh2, Hh1 in Hv, Hl. apply not_elem_of_union in Hv as [Hne Hv].
  assert (NoDup [svc; loc]) as Hnd.
  { constructor; [|apply NoDup_singleton]. intros ->%list_elem_of_singleton. by apply Hne, elem_of_singleton. }
  assert (Forall (fun p => p ∉ com_held st) [svc; loc]) as Hfresh by (by repeat constructor).
  destruct ok; cbn [negb].
  - eexists true, _, st5. split; [done|]. cbn -[text]. split_and!; [done|done|done|lia| |done].
    intros _. split_and!; [done|done|congruence].
  - eexists false, _, st5. split; [done|]. cbn -[text]. by split_and!; [done|done|done|lia|..].
Qed.

Lemma release_held p st :
  match p with Some p => p ∈ com_held st | None => True end →
  ∃ st', release p st = Done ((), st') ∧ com_held st' = com_held st ∖ list_to_set (option_list p)
  ∧ com_depth st' = com_depth st ∧ com_secured st' = com_secured st.
Proof.
  intros Hp. destruct p as [p|]; cbn.
  - destruct (com_Release p st Hp) as (st' & Hr & Hh & Hd & Hs & _). exists st'.
    unfold attempt. rewrite Hr. split_and!; [done| |done|done]. rewrite Hh. clear. set_solver.
  - exists st. split_and!; [done| |done|done]. clear. set_solver.
Qed.

(** The destructor gives back what the object points to, whatever happened in
    between, and takes back one initialization. *)
Lemma cleanup_spec w st0 st :
  NoDup (pointers w) → Forall (fun p => p ∉ com_held st0) (pointers w) →
  com_held st = list_to_set (pointers w) ∪ com_held st0 →
  ∃ w' st', cleanup w st = Done (w', st') ∧ com_held st' = com_held st0
  ∧ com_depth st' = com_depth st - 1 ∧ com_secured st' = com_secured st.
Proof.
  intros Hn Hf Hh. unfold cleanup, mbind, prog_mbind.
  destruct (release_held (pSvc w) st) as (st1 & -> & Hh1 & Hd1 & Hs1).
  { unfold pointers in Hh. destruct (pSvc w); [|done]. rewrite Hh. clear. set_solver. }
  destruct (release_held (pLoc w) st1) as (st2 & -> & Hh2 & Hd2 & Hs2).
  { unfold pointers in *. destruct (pLoc w) as [l|]; [|done]. rewrite Hh1, Hh.
    apply NoDup_app in Hn as (_ & Hx & _). clear -Hx. set_solver. }
  eexists _, _. split; [done|]. cbn. destruct (com_CoUninitialize st2) as (-> & -> & ->).
  split_and!; [|lia|congruence]. rewrite Hh2, Hh1, Hh. unfold pointers in *. clear -Hf.
  rewrite list_to_set_app_L. rewrite Forall_forall in Hf. set_solver.
Qed.

Definition scoped {A} (m : prog com_state A) : Prop :=
  ∀ st a st', m st = Done (a, st') → released st st'.

Lemma with_wmi_scoped {A} (none : A) body : (∀ w, tidy (body w)) → scoped (with_wmi none body).
Proof.
  intros Hb st a st'. unfold with_wmi, mbind, prog_mbind.
  destruct (initialize_spec st) as (ok & w & st1 & -> & Hn & Hf & Hh & Hd & _).
  destruct ((if ok then body w else mret none) st1) as [[b st2]| |] eqn:E; [|done..].
  assert (quiet st1 st2) as (Hh2 & Hd2 & _).
  { destruct ok; [by eapply Hb|]. by injection E as <- <-. }
  destruct (cleanup_spec w st st2) as (w' & st3 & -> & Hh3 & Hd3 & _); [done|done|congruence|].
  intros [= <- <-]. split; [done|]. destruct (CoInitializeEx st).1; lia.
Qed.

Create HintDb tidy.
#[local] Hint Resolve tidy_ret tidy_produce tidy_query tidy_property tidy_bind : tidy.

Ltac solve_keeps :=
  repeat first [ progress auto with tidy nocore | apply tidy_bind; [auto with tidy nocore|intros ?]
               | case_match ].
Ltac solve_scoped := apply with_wmi_scoped; intros w; solve_keeps.

(** Every reader gives back the interfaces it acquired, in whatever call it
    fails; COM has as many initializations as before, or one less if
    [CoInitializeEx] failed, which the destructor does not take into account. *)
Theorem readers_release fuel :
  scoped (getBIOS fuel) ∧ scoped (getCPU fuel) ∧ scoped (getDISK fuel) ∧ scoped (getGPU fuel)
  ∧ scoped (getMEMORY fuel) ∧ scoped (getMOTHERBOARD fuel) ∧ scoped (getOS fuel)
  ∧ scoped (getNETWORK fuel).
Proof. split_and!; solve_scoped. Qed.

(** Security can be set up once in a process: once it has been, every reader
    ends and finds nothing. *)
Theorem secured_finds_nothing {A} (none : A) body st :
  com_secured st = true → ∃ st', with_wmi none body st = Done (none, st').
Proof.
  intros Hs. unfold with_wmi, mbind, prog_mbind.
  destruct (initialize_spec st) as (ok & w & st1 & -> & Hn & Hf & Hh & _ & _ & Hx).
  destruct (Hx Hs) as [-> ->]. cbn. eauto.
Qed.

Lemma with_wmi_secures {A} (none : A) body st a st' :
  (∀ w, tidy (body w)) → with_wmi none body st = Done (a, st') → a ≠ none →
  com_secured st' = true.
Proof.
  intros Hb. unfold with_wmi, mbind, prog_mbind.
  destruct (initialize_spec st) as (ok & w & st1 & -> & Hn & Hf & Hh & _ & Hok & _).
  destruct ((if ok then body w else mret none) st1) as [[b st2]| |] eqn:E; [|done..].
  destruct ok; [|injection E as <- <-; by destruct (cleanup w st1) as [[? ?]| |]; [intros [= <- _]|..]].
  destruct (Hb w _ _ _ E) as (Hh2 & _ & Hs2).
  destruct (cleanup_spec w st st2) as (w' & st3 & -> & _ & _ & Hs3); [done|done|congruence|].
  intros [= <- <-] _. rewrite Hs3, Hs2. by apply Hok.
Qed.

(** In one process only the first reader finds anything: after [getBIOS] has
    found something, the processor, disk, memory and network readers end with
    empty results, whatever the machine has. *)
Theorem only_first_reader fuel st bios st1 :
  getBIOS fuel st = Done (bios, st1) → bios ≠ mkBIOS [] [] [] [] →
  (∃ st2, getCPU fuel st1 = Done (Ok (mkCPU [] [] [] []), st2))
  ∧ (∃ st2, getDISK fuel st1 = Done ([], st2))
  ∧ (∃ st2, getMEMORY fuel st1 = Done ([], st2))
  ∧ (∃ st2, getNETWORK fuel st1 = Done ([], st2)).
Proof.
  intros Hb Hne. assert (com_secured st1 = true) as Hs.
  { refine (with_wmi_secures _ _ _ _ _ _ Hb Hne). intros w. solve_keeps. }
  split_and!; by apply secured_finds_nothing.
Qed.

(** *** Queries end *)

(** No string property is a null pointer. *)
Definition no_null_strings : Prop := ∀ o name st, (Get o name st).1 ≠ Some (VT_BSTR None).

Lemma object_value_returns v st :
  v ≠ Some (VT_BSTR None) →
  ∃ value, object_value v st = Done (value, st) ∧ (length value <= 1)%nat.
Proof.
  intros Hv. unfold object_value, mbind, prog_mbind, produce.
  destruct v as [v|]; [|exists []; split; [done|cbn; lia]].
  destruct v as [[[]|]| [] | | | | | |]; cbn -[dec wrap text array_text]; eauto. done.
Qed.

Lemma objects_return fuel e name st :
  no_null_strings → (com_rest e st < fuel)%nat →
  ∃ rs st', objects fuel e name st = Done (rs, st') ∧ (length rs <= com_rest e st)%nat.
Proof.
  intros Hnn. revert st. induction fuel as [|fuel IH]; intros st Hf; [lia|]. cbn [objects].
  unfold mbind, prog_mbind, call. pose proof (com_Next e st) as Hn.
  destruct (Next e st) as [[o|] st1]; [|exists [], st1; split; [done|cbn; lia]].
  destruct Hn as (_ & _ & _ & Hh & Hr). pose proof (Hnn o name st1) as Hv.
  pose proof (com_Get o name st1) as Hg. destruct (Get o name st1) as [v st2].
  destruct Hg as (Hg & _ & _ & Hrest).
  destruct (object_value_returns v st2 Hv) as (value & -> & Hlen).
  destruct (com_Release o st2) as (st3 & Hrel & _ & _ & _ & Hrest3); [rewrite Hg, Hh; clear; set_solver|].
  unfold attempt. rewrite Hrel.
  destruct (IH st3) as (rs & st4 & -> & Hl); [rewrite Hrest3, Hrest; lia|].
  exists (value ++ rs), st4. split; [done|]. rewrite length_app. rewrite Hrest3, Hrest in Hl. lia.
Qed.

(** A query of an initialized object ends, with at most one value per object, and
    leaves COM as it was. *)
Theorem query_returns fuel w cls name st :
  no_null_strings → (com_bound < fuel)%nat → initialized w = true → is_Some (pSvc w) →
  ∃ rs st', query fuel w cls name st = Done (rs, st') ∧ (length rs <= com_bound)%nat ∧ quiet st st'.
Proof.
  intros Hnn Hf Hi [svc Hs].
  enough (∃ rs st', query fuel w cls name st = Done (rs, st') ∧ (length rs <= com_bound)%nat)
    as (rs & st' & Hq & Hl) by (exists rs, st'; split_and!; [done|done|by eapply tidy_query]).
  unfold query. rewrite Hi. unfold mbind, prog_mbind, attempt, call. rewrite Hs.
  cbn [negb fmap option_fmap option_map].
  pose proof (com_ExecQuery svc (select name cls) st) as He.
  destruct (ExecQuery svc (select name cls) st) as [[e|] st1]; [|exists [], st1; split; [done|cbn; lia]].
  destruct He as (_ & _ & _ & Hh & Hr).
  destruct (objects_return fuel e name st1 Hnn) as (rs & st2 & Ho & Hl); [lia|]. rewrite Ho.
  destruct (tidy_objects _ _ _ _ _ _ Ho) as (Hh2 & _).
  destruct (com_Release e st2) as (st3 & -> & _); [rewrite Hh2, Hh; clear; set_solver|].
  exists rs, st3. split; [done|lia].
Qed.
End Balance.

(** ** Columns and arrays *)

Import wmi.

(** The rows of three queries: as many as names when the other two columns are
    at least as long, in order; otherwise the code reads past a vector. *)
Theorem rows_exact {A} (make : bytes → bytes → bytes → A) names second third :
  rows make names second third
  = if (length names <=? length second)%nat && (length names <=? length third)%nat
    then Done (zip_with (fun n st => make (narrow n) (narrow st.1) (narrow st.2)) names (zip second third))
    else Undefined.
Proof.
  revert second third. induction names as [|n names IH]; intros second third; [done|]. cbn [rows].
  destruct second as [|s second]; [done|].
  destruct third as [|t third]; [by rewrite andb_false_r|].
  rewrite IH. cbn [length Nat.leb zip zip_with]. by destruct (_ && _).
Qed.

Lemma array_body_quote first l rest :
  Forall (fun ws => quote ∉ ws) l →
  match l with
  | [] => array_body first l = []
  | ws :: l' => ∃ sep, (quote ∉ sep)
      ∧ array_body first l ++ rest = sep ++ quote :: ws ++ quote :: array_body false l' ++ rest
  end.
Proof.
  intros Hl. destruct l as [|ws l]; [done|]. exists (if first then [] else text ", "). split.
  - destruct first; apply (bool_decide_eq_true_1 _); vm_compute; reflexivity.
  - cbn [array_body]. rewrite <- !app_assoc. cbn. by rewrite <- !app_assoc.
Qed.

(** The addresses of an adapter, printed from an array and taken apart again: the
    first two elements, but nothing at all when the array has only one. *)
Theorem addresses_from_array l :
  Forall (fun ws => quote ∉ ws) l →
  ip_addresses (array_text l)
  = match l with
    | ipv4 :: ipv6 :: _ => (narrow ipv4, narrow ipv6)
    | _ => ([], [])
    end.
Proof.
  intros Hl. unfold array_text.
  assert (quote ∉ text "{") as Ho by (apply (bool_decide_eq_true_1 _); vm_compute; reflexivity).
  assert (quote ∉ text "}") as Hc by (apply (bool_decide_eq_true_1 _); vm_compute; reflexivity).
  destruct l as [|v4 l].
  { cbn [array_body]. unfold ip_addresses. rewrite split_at_none by set_solver. done. }
  destruct (array_body_quote true (v4 :: l) (text "}") Hl) as (sep & Hs & ->).
  apply Forall_cons in Hl as [H4 Hl]. unfold ip_addresses.
  rewrite app_assoc, split_at_app, split_at_app by set_solver.
  destruct l as [|v6 l].
  { cbn [array_body app]. rewrite split_at_none by done. done. }
  destruct (array_body_quote false (v6 :: l) (text "}") Hl) as (sep2 & Hs2 & ->).
  apply Forall_cons in Hl as [H6 _]. by rewrite !split_at_app.
Qed.

(** ** A machine *)

Module ToyCom.
(** What an enumerator still has and what an object answers are parts of the
    state; [tm_table] gives the answers to a query. *)
Record State := mkState {
  tm_table : wtext → list (option VARIANT);
  tm_held : gset Z;
  tm_depth : Z;
  tm_secured : bool;
  tm_rows : gmap Z (list (option VARIANT));
  tm_object : option VARIANT;
}.

Definition size : nat := 8.

Definition acquire (st : State) : Z * State :=
  let p := unused (tm_held st) in
  (p, mkState (tm_table st) ({[p]} ∪ tm_held st) (tm_depth st) (tm_secured st) (tm_rows st) (tm_object st)).

Definition set_held f st :=
  mkState (tm_table st) (f (tm_held st)) (tm_depth st) (tm_secured st) (tm_rows st) (tm_object st).

#[global] Instance toy_com : ComApi := {|
  com_state := State;
  CoInitializeEx st := (true, mkState (tm_table st) (tm_held st) (tm_depth st + 1) (tm_secured st)
                                (tm_rows st) (tm_object st));
  CoInitializeSecurity st := (negb (tm_secured st),
    mkState (tm_table st) (tm_held st) (tm_depth st) true (tm_rows st) (tm_object st));
  CoSetProxyBlanket _ st := (true, st);
  CoCreateInstance st := let '(p, st) := acquire st in (Some p, st);
  ConnectServer _ _ st := let '(p, st) := acquire st in (Some p, st);
  ExecQuery _ q st :=
    let '(p, st) := acquire st in
    (Some p, mkState (tm_table st) (tm_held st) (tm_depth st) (tm_secured st)
               (<[p := take size (tm_table st q)]> (tm_rows st)) (tm_object st));
  Next e st :=
    match tm_rows st !! e with
    | Some (v :: rows) =>
        let '(p, st) := acquire st in
        (Some p, mkState (tm_table st) (tm_held st) (tm_depth st) (tm_secured st)
                   (<[e := rows]> (tm_rows st)) v)
    | _ => (None, st)
    end;
  (* no string is a null pointer *)
  Get _ _ st := (match tm_object st with Some (VT_BSTR None) => Some VT_OTHER | v => v end, st);
  Release p st := if decide (p ∈ tm_held st) then Some ((), set_held (fun h => h ∖ {[p]}) st) else None;
  CoUninitialize st := mkState (tm_table st) (tm_held st) (tm_depth st - 1) (tm_secured st)
                         (tm_rows st) (tm_object st);
|}.

Lemma acquire_spec st :
  let '(p, st') := acquire st in
  (p ∉ tm_held st) ∧ tm_held st' = {[p]} ∪ tm_held st ∧ tm_depth st' = tm_depth st
  ∧ tm_secured st' = tm_secured st ∧ tm_rows st' = tm_rows st.
Proof. unfold acquire. cbn. by split_and!; [apply unused_fresh|..]. Qed.

#[global] Program Instance toy_com_laws : ComLaws toy_com := {|
  com_held := tm_held;
  com_depth := tm_depth;
  com_secured := tm_secured;
  com_rest e st := length (default [] (tm_rows st !! e));
  com_bound := size;
|}.
Next Obligation. done. Qed.
Next Obligation. intros st. cbn. split_and!; [done|done|by destruct (tm_secured st)|by intros ->]. Qed.
Next Obligation. done. Qed.
Next Obligation. intros st. cbn. by split_and!; [..|apply unused_fresh|]. Qed.
Next Obligation. intros l name st. cbn. by split_and!; [..|apply unused_fresh|]. Qed.
Next Obligation.
  intros s q st. cbn -[take]. split_and!; [done|done|apply unused_fresh|done|].
  rewrite lookup_insert_eq. cbn -[take]. rewrite length_take. lia.
Qed.
Next Obligation.
  intros e st. cbn. destruct (tm_rows st !! e) as [[|v rows]|] eqn:E; [done| |done]. cbn.
  split_and!; [done|done|apply unused_fresh|done|]. by rewrite lookup_insert_eq.
Qed.
Next Obligation. done. Qed.
Next Obligation. intros p st Hp. cbn. rewrite decide_True by done. eauto 10. Qed.
Next Obligation. intros p st. cbn. case_decide; [done|]. by intros [? ?]. Qed.
Next Obligation. done. Qed.

(** Every property is "AMI", but the second disk has no serial number. *)
Definition table (q : wtext) : list (option VARIANT) :=
  if bool_decide (q = select (text "SerialNumber") (text "Win32_DiskDrive"))
  then [Some (VT_BSTR (Some (text "S1"))); None]
  else if bool_decide (q = select (text "DeviceID") (text "Win32_DiskDrive"))
          || bool_decide (q = select (text "Model") (text "Win32_DiskDrive"))
  then [Some (VT_BSTR (Some (text "d1"))); Some (VT_BSTR (Some (text "d2")))]
  else [Some (VT_BSTR (Some (text "AMI")))].

Definition machine : State := mkState table ∅ 0 false ∅ None.

Definition after {A} (e : exec (A * State)) : State := match e with Done (_, st) => st | _ => machine end.

(** A disk without a serial number shifts nothing in its column: it is missing,
    and the loop over the names reads past the end of the serial numbers. *)
Example missing_serial_undefined : getDISK (H := toy_com) 9 machine = Undefined.
Proof. vm_compute. reflexivity. Qed.

(** A machine with one address only shows none. *)
Example single_address_lost :
  ip_addresses (array_text [text "192.168.1.1"]) = ([], []).
Proof. vm_compute. reflexivity. Qed.

Lemma only_first_reader_witness :
  getBIOS (H := toy_com) 9 machine = Done (mkBIOS (text "AMI") (text "AMI") [] (text "AMI"), after (getBIOS (H := toy_com) 9 machine))
  ∧ ∃ st2, getMEMORY (H := toy_com) 9 (after (getBIOS (H := toy_com) 9 machine)) = Done ([], st2).
Proof.
  destruct (outcome_run fst (getBIOS (H := toy_com) 9 machine) (mkBIOS (text "AMI") (text "AMI") [] (text "AMI")))
    as ([bios st1] & E & Hb); [vm_compute; reflexivity|]. cbn in Hb. subst bios.
  split; [by rewrite E|].
  destruct (only_first_reader (M := toy_com) 9 machine _ st1 E) as (_ & _ & H & _); [done|]. by rewrite E.
Defined.

Lemma query_returns_witness :
  ∃ rs st', query (H := toy_com) 9 (mkWmiQuery (Some 1) None true) (text "Win32_BIOS") (text "SerialNumber") machine
            = Done (rs, st') ∧ quiet (M := toy_com) machine st'.
Proof.
  destruct (query_returns (M := toy_com) 9 (mkWmiQuery (Some 1) None true) (text "Win32_BIOS")
    (text "SerialNumber") machine) as (rs & st' & Hq & _ & Hk).
  - intros o name st. cbn. by destruct (tm_object st) as [[| []| | | | | |]|].
  - unfold com_bound. cbn. unfold size. lia.
  - done.
  - eauto.
  - eauto.
Defined.

Lemma addresses_from_array_witness :
  ip_addresses (array_text [text "10.0.0.1"; text "fe80::1"]) = (text "10.0.0.1", text "fe80::1").
Proof.
  rewrite (addresses_from_array [text "10.0.0.1"; text "fe80::1"]).
  - vm_compute. reflexivity.
  - repeat constructor; apply (bool_decide_eq_true_1 _); vm_compute; reflexivity.
Defined.
End ToyCom.
