(* ===== verification/Kernel.v ===== *)
(** * Kernel: the system calls the socket transport makes

    [src/ya_license_transport/src/unix_socket.cpp] is a layer over Linux system
    calls.  [Kernel] is their interface: each call takes the state behind the
    calls (descriptors, peers, file system, clock, other threads) and returns
    its value or [errno].  [KernelLaws] is what the code relies on: a ghost
    [View] of that state (descriptors, streams, directory entries) and how each
    call changes it.  [ToyKernel.v] is a concrete instance.

    [sys] is the monad of code that makes system calls: [prog] of [Program.v],
    whose program logic gets the rules for a call and for a call repeated while
    it is interrupted. *)


From S2P Require Import Prelude Program.

(** ** Constants and structures *)

Definition ENOENT : Z := 2.
Definition EINTR : Z := 4.
Definition EAGAIN : Z := 11.
Definition EWOULDBLOCK : Z := EAGAIN.
Definition EEXIST : Z := 17.
Definition EMFILE : Z := 24.
Definition EADDRINUSE : Z := 98.
Definition EISCONN : Z := 106.
Definition ECONNREFUSED : Z := 111.
Definition EALREADY : Z := 114.
Definition EINPROGRESS : Z := 115.

Definition POLLIN : Z := 1.
Definition POLLOUT : Z := 4.
Definition POLLERR : Z := 8.
Definition POLLHUP : Z := 16.
Definition POLLNVAL : Z := 32.

Definition INT_MAX : Z := 2147483647.

(** [struct stat], [S_ISSOCK]: the file type is in the bits [0170000]. *)
Record StatBuf := mkStatBuf { st_mode : Z; st_dev : Z; st_ino : Z }.
Definition S_IFMT : Z := 61440.
Definition S_IFSOCK : Z := 49152.
Definition S_ISSOCK (mode : Z) : bool := Z.land mode S_IFMT =? S_IFSOCK.

#[global] Instance StatBuf_eq_dec : EqDecision StatBuf.
Proof. solve_decision. Defined.

(** [struct sockaddr_un] with the length passed along, and the name it stands
    for: a path up to the first NUL, or, if [sun_path] starts with a NUL, a name
    outside the file system. *)
Record Address := mkAddress { sun_path : bytes; addr_length : Z }.

Inductive SocketName := PathName (path : bytes) | AbstractName (name : bytes).

Definition address_name (a : Address) : SocketName :=
  match until_nul (sun_path a) with
  | [] => AbstractName (take (Z.to_nat (addr_length a - 2)) (sun_path a))
  | path => PathName path
  end.

(** [c_str()] as a system call reads it. *)
Definition c_str (s : string) : bytes := until_nul (string_bytes s).

(** [struct ucred] *)
Record ucred := mkUcred { uc_pid : Z; uc_uid : Z; uc_gid : Z }.

(** What [poll] reports on the two descriptors it is given. *)
Inductive PollOutcome :=
| PollFailed (error : Z)
| PollTimedOut
| PollReady (revents0 revents1 : Z).

(** ** The calls *)

Class Kernel := {
  k_state : Type;
  (* [std::chrono::steady_clock::now()], in nanoseconds *)
  k_clock : k_state → Z;
  k_errno : k_state → Z;
  sys_eventfd : k_state → result Z Z * k_state;
  sys_write_event : Z → k_state → result Z () * k_state;
  sys_socket : k_state → result Z Z * k_state;
  sys_dup : Z → k_state → result Z Z * k_state;
  sys_close : Z → k_state → k_state;
  sys_shutdown : Z → k_state → k_state;
  sys_connect : Z → Address → k_state → result Z () * k_state;
  (* descriptor, its events, second descriptor (for [POLLIN]), timeout in
     milliseconds; [None]: never returns *)
  sys_poll : Z → Z → Z → Z → k_state → option (PollOutcome * k_state);
  sys_recv : Z → Z → k_state → result Z bytes * k_state;
  sys_send : Z → bytes → k_state → result Z Z * k_state;
  sys_so_error : Z → k_state → result Z Z * k_state;
  sys_so_peercred : Z → k_state → result Z ucred * k_state;
  sys_lstat : bytes → k_state → result Z StatBuf * k_state;
  sys_unlink : bytes → k_state → result Z () * k_state;
  sys_umask : Z → k_state → Z * k_state;
  sys_bind : Z → Address → k_state → result Z () * k_state;
  sys_chmod : bytes → Z → k_state → result Z () * k_state;
  sys_listen : Z → Z → k_state → result Z () * k_state;
  sys_accept4 : Z → k_state → result Z Z * k_state;
  (* at a lock: has another thread called [close()] on the object by now? *)
  k_preempted : k_state → bool * k_state;
}.

(** ** The monad *)

Abbreviation sys := (prog k_state).

(** [do { r = f(); } while (r < 0 && errno == EINTR);] *)
Fixpoint uninterrupted {K : Kernel} {A} (fuel : nat) (f : k_state → result Z A * k_state)
  : sys (result Z A) := fun k =>
  match fuel with
  | O => Running
  | S fuel' =>
      match f k with
      | (Ok a, k) => Done (Ok a, k)
      | (Err e, k) => if e =? EINTR then uninterrupted fuel' f k else Done (Err e, k)
      end
  end.

(** ** What the code relies on *)

Record View := mkView {
  (* open descriptors and the open file description each refers to *)
  v_files : gmap Z nat;
  (* all bytes that can still be read from a description *)
  v_incoming : gmap nat bytes;
  (* all bytes written to a description *)
  v_sent : gmap nat bytes;
  v_paths : gmap bytes StatBuf;
  (* device and inode of the sockets somebody listens on *)
  v_live : gset (Z * Z);
  v_umask : Z;
}.

Definition set_files (f : gmap Z nat → gmap Z nat) (v : View) : View :=
  mkView (f (v_files v)) (v_incoming v) (v_sent v) (v_paths v) (v_live v) (v_umask v).
Definition set_incoming (f : gmap nat bytes → gmap nat bytes) (v : View) : View :=
  mkView (v_files v) (f (v_incoming v)) (v_sent v) (v_paths v) (v_live v) (v_umask v).
Definition set_sent (f : gmap nat bytes → gmap nat bytes) (v : View) : View :=
  mkView (v_files v) (v_incoming v) (f (v_sent v)) (v_paths v) (v_live v) (v_umask v).
Definition set_paths (f : gmap bytes StatBuf → gmap bytes StatBuf) (v : View) : View :=
  mkView (v_files v) (v_incoming v) (v_sent v) (f (v_paths v)) (v_live v) (v_umask v).
Definition set_live (s : gset (Z * Z)) (v : View) : View :=
  mkView (v_files v) (v_incoming v) (v_sent v) (v_paths v) s (v_umask v).
Definition set_umask (m : Z) (v : View) : View :=
  mkView (v_files v) (v_incoming v) (v_sent v) (v_paths v) (v_live v) m.

Definition incoming (v : View) (d : nat) : bytes := default [] (v_incoming v !! d).
Definition sent (v : View) (d : nat) : bytes := default [] (v_sent v !! d).
Definition live (v : View) (s : StatBuf) : Prop := (st_dev s, st_ino s) ∈ v_live v.

(** Errors after which the code tries again. *)
Definition transient (e : Z) : bool := (e =? EINTR) || (e =? EAGAIN).

(** [k_patience] bounds how often calls will still be disturbed: interrupted,
    woken up without an event, or sent away with [EAGAIN]. *)
Class KernelLaws (K : Kernel) := {
  k_view : k_state → View;
  k_patience : k_state → nat;
  evolves (k k' : k_state) : Prop :=
    k_clock k <= k_clock k' ∧ (k_patience k' <= k_patience k)%nat;
  quiet (k k' : k_state) : Prop := evolves k k' ∧ k_view k' = k_view k;
  (* a call that fails changes nothing, one that succeeds changes the view as
     [P] says *)
  outcome {A} (k : k_state) (r : result Z A * k_state) (P : A → View → View → Prop) : Prop :=
    match r with
    | (Err e, k') => quiet k k' ∧ k_errno k' = e
                     ∧ (transient e = true → (k_patience k' < k_patience k)%nat)
    | (Ok a, k') => evolves k k' ∧ P a (k_view k) (k_view k')
    end;
  law_descriptors k fd d : v_files (k_view k) !! fd = Some d → 0 <= fd;
  law_eventfd k : outcome k (sys_eventfd k) (fun fd v v' =>
    0 <= fd ∧ v_files v !! fd = None ∧ ∃ d, v' = set_files (<[fd:=d]>) v);
  law_write_event fd k : outcome k (sys_write_event fd k) (fun _ v v' => v' = v);
  law_socket k : outcome k (sys_socket k) (fun fd v v' =>
    0 <= fd ∧ v_files v !! fd = None ∧ ∃ d, v' = set_files (<[fd:=d]>) v);
  law_dup fd k : outcome k (sys_dup fd k) (fun new v v' =>
    0 <= new ∧ v_files v !! new = None
    ∧ ∃ d, v_files v !! fd = Some d ∧ v' = set_files (<[new:=d]>) v);
  law_close fd k : evolves k (sys_close fd k)
    ∧ ∃ s, k_view (sys_close fd k) = set_live s (set_files (delete fd) (k_view k));
  law_shutdown fd k : evolves k (sys_shutdown fd k)
    ∧ ∃ f, k_view (sys_shutdown fd k) = set_incoming f (k_view k);
  law_connect fd a k : outcome k (sys_connect fd a k) (fun _ v v' => v' = v);
  (* a connection is refused if nobody listens at the path *)
  law_refused fd a k k' p s : sys_connect fd a k = (Err ECONNREFUSED, k') →
    address_name a = PathName p → v_paths (k_view k) !! p = Some s → ¬ live (k_view k) s;
  law_poll fd events cancel_fd timeout k r k' :
    sys_poll fd events cancel_fd timeout k = Some (r, k') →
    quiet k k' ∧
    match r with
    | PollFailed e => k_errno k' = e ∧ (transient e = true → (k_patience k' < k_patience k)%nat)
    | PollTimedOut => 0 <= timeout ∧ k_clock k + timeout * 1000000 <= k_clock k'
    | PollReady r0 r1 =>
        Z.land r1 POLLIN = 0 →
        Z.land r0 (Z.lor (Z.lor (Z.lor events POLLERR) POLLHUP) POLLNVAL) = 0 →
        (k_patience k' < k_patience k)%nat
    end;
  law_poll_returns fd events cancel_fd timeout k :
    0 <= timeout → is_Some (sys_poll fd events cancel_fd timeout k);
  law_recv fd n k : outcome k (sys_recv fd n k) (fun bs v v' =>
    (0 <= n → zlen bs <= n) ∧ octets bs
    ∧ ∃ d rest, v_files v !! fd = Some d ∧ incoming v d = bs ++ rest
                ∧ (bs = [] → 0 < n → rest = [])
                ∧ v' = set_incoming (<[d:=rest]>) v);
  law_send fd bs k : outcome k (sys_send fd bs k) (fun n v v' =>
    0 <= n <= zlen bs
    ∧ ∃ d, v_files v !! fd = Some d
           ∧ v' = set_sent (<[d:=sent v d ++ take (Z.to_nat n) bs]>) v);
  law_so_error fd k : outcome k (sys_so_error fd k) (fun _ v v' => v' = v);
  law_so_peercred fd k : outcome k (sys_so_peercred fd k) (fun _ v v' => v' = v);
  law_lstat p k : outcome k (sys_lstat p k) (fun s v v' => v' = v ∧ v_paths v !! p = Some s);
  law_lstat_missing p k k' : sys_lstat p k = (Err ENOENT, k') → v_paths (k_view k) !! p = None;
  law_unlink p k : outcome k (sys_unlink p k) (fun _ v v' => v' = set_paths (delete p) v);
  law_umask m k : evolves k (sys_umask m k).2 ∧ (sys_umask m k).1 = v_umask (k_view k)
    ∧ k_view (sys_umask m k).2 = set_umask (Z.land m 511) (k_view k);
  law_umask_bits k : Z.land (v_umask (k_view k)) 511 = v_umask (k_view k);
  (* the new file is a socket nobody listens on, with the permissions the mask
     leaves *)
  law_bind fd a k : outcome k (sys_bind fd a k) (fun _ v v' =>
    match address_name a with
    | AbstractName _ => v' = v
    | PathName p =>
        v_paths v !! p = None
        ∧ ∃ s, v' = set_paths (<[p:=s]>) v ∧ S_ISSOCK (st_mode s) = true ∧ ¬ live v s
               ∧ Z.land (st_mode s) 511 = Z.ldiff 511 (v_umask v)
    end);
  law_chmod p m k : outcome k (sys_chmod p m k) (fun _ v v' =>
    ∃ s s', v_paths v !! p = Some s ∧ v' = set_paths (<[p:=s']>) v
      ∧ S_ISSOCK (st_mode s') = S_ISSOCK (st_mode s) ∧ st_dev s' = st_dev s ∧ st_ino s' = st_ino s
      ∧ Z.land (st_mode s') 511 = Z.land m 511);
  law_listen fd n k : outcome k (sys_listen fd n k) (fun _ v v' => ∃ s, v' = set_live s v);
  law_accept4 fd k : outcome k (sys_accept4 fd k) (fun new v v' =>
    0 <= new ∧ v_files v !! new = None ∧ ∃ d, v' = set_files (<[new:=d]>) v);
  law_preempted k : quiet k (k_preempted k).2;
}.

(** ** Program logic *)

Section Logic.
Context {K : Kernel} {KL : KernelLaws K}.
Implicit Types (k : k_state).

#[global] Instance evolves_preorder : PreOrder evolves.
Proof. split; [split; lia|]. intros x y z [? ?] [? ?]. split; lia. Qed.

#[global] Instance quiet_preorder : PreOrder quiet.
Proof.
  split; [by split|]. intros x y z [? Hx] [? Hy]. split; [by etrans|congruence].
Qed.

Lemma quiet_evolves k k' : quiet k k' → evolves k k'.
Proof. by intros []. Qed.

Lemma outcome_evolves {A} k (r : result Z A * k_state) P : outcome k r P → evolves k r.2.
Proof. destruct r as [[a|e] k']; [by intros []|]. by intros ([] & _). Qed.

(** A call whose effect on the view is none, whether it fails or not. *)
Lemma outcome_quiet {A} k (r : result Z A * k_state) P :
  outcome k r P → (∀ a v v', P a v v' → v' = v) → quiet k r.2.
Proof.
  destruct r as [[a|e] k']; cbn; [|by intros ([] & _)].
  intros [Hev HP] H. split; [done|]. by eapply H.
Qed.

(** A system call in the logic. *)
Lemma wp_outcome total {A} (f : k_state → result Z A * k_state) k P (Q : result Z A → k_state → Prop) :
  outcome k (f k) P →
  (∀ e k', quiet k k' → f k = (Err e, k') → k_errno k' = e → (transient e = true → (k_patience k' < k_patience k)%nat) →
     Q (Err e) k') →
  (∀ a k', evolves k k' → f k = (Ok a, k') → P a (k_view k) (k_view k') → Q (Ok a) k') →
  wp total (call f) k Q.
Proof.
  intros Ho He Ha. apply wp_call. destruct (f k) as [[a|e] k'] eqn:E; cbn.
  - destruct Ho as [? HP]. by apply Ha.
  - destruct Ho as (? & ? & ?). by apply He.
Qed.

(** The retry loop: it has returned after as many interruptions as there can
    be, and what it returns is what one call returned. *)
Lemma wp_uninterrupted (total : Prop) {A} fuel (f : k_state → result Z A * k_state) k P
    (Q : result Z A → k_state → Prop) :
  (total → (k_patience k < fuel)%nat) →
  (∀ k1, outcome k1 (f k1) P) →
  (∀ e k1 k', quiet k k1 → quiet k1 k' → f k1 = (Err e, k') → k_errno k' = e → e ≠ EINTR →
     Q (Err e) k') →
  (∀ a k1 k', quiet k k1 → evolves k1 k' → f k1 = (Ok a, k') → P a (k_view k1) (k_view k') →
     Q (Ok a) k') →
  wp total (uninterrupted fuel f) k Q.
Proof.
  intros Hf Ho He Ha. revert k Hf He Ha. induction fuel as [|fuel IH]; intros k Hf He Ha.
  - intros Ht. specialize (Hf Ht). lia.
  - specialize (Ho k) as Hk. unfold wp. cbn. destruct (f k) as [[a|e] k'] eqn:E.
    + destruct Hk. by eapply Ha.
    + destruct Hk as (Hq & Hn & Hp). destruct (Z.eqb_spec e EINTR) as [->|Hne]; [|eapply (He e k k'); [reflexivity|done|done|done|done]].
      specialize (Hp eq_refl). apply IH.
      * intros Ht. specialize (Hf Ht). lia.
      * intros e1 k1 k2 Hq1. apply He. by etrans.
      * intros a1 k1 k2 Hq1. apply Ha. by etrans.
Qed.
End Logic.
