(* ===== verification/ToyKernel.v ===== *)
(** * ToyKernel: a concrete kernel

    An executable instance of [Kernel] that satisfies [KernelLaws], for
    evaluating the socket code on concrete situations.  Data arrives in chunks;
    a script says which calls are interrupted or fail (an error number), time
    out, wake up without an event or report cancellation; [ty_closers] says at
    which locks another thread has called [close()]. *)

From S2P Require Import Prelude Program Kernel.

Record Toy := mkToy {
  ty_view : View;
  (* the clock, in units of ten nanoseconds *)
  ty_now : Z;
  ty_errno : Z;
  (* next descriptor; also used for descriptions and inodes *)
  ty_next : Z;
  ty_chunk : nat;
  (* what the next calls do: 0 works, positive fails with that error *)
  ty_script : list Z;
  ty_closers : list bool;
  (* descriptions of the clients that wait to be accepted *)
  ty_pending : list nat;
  ty_bound : gmap Z (Z * Z);
}.

Definition toy_with_view (t : Toy) (v : View) : Toy :=
  mkToy v (ty_now t) (ty_errno t) (ty_next t) (ty_chunk t) (ty_script t) (ty_closers t)
    (ty_pending t) (ty_bound t).
Definition toy_with_script (t : Toy) (errno : Z) (script : list Z) : Toy :=
  mkToy (ty_view t) (ty_now t) errno (ty_next t) (ty_chunk t) script (ty_closers t)
    (ty_pending t) (ty_bound t).
Definition toy_count (t : Toy) : Toy :=
  mkToy (ty_view t) (ty_now t) (ty_errno t) (ty_next t + 1) (ty_chunk t) (ty_script t)
    (ty_closers t) (ty_pending t) (ty_bound t).
Definition toy_wait (t : Toy) (ns : Z) : Toy :=
  mkToy (ty_view t) (ty_now t + ns) (ty_errno t) (ty_next t) (ty_chunk t) (ty_script t)
    (ty_closers t) (ty_pending t) (ty_bound t).
Definition toy_with_closers (t : Toy) (l : list bool) : Toy :=
  mkToy (ty_view t) (ty_now t) (ty_errno t) (ty_next t) (ty_chunk t) (ty_script t) l
    (ty_pending t) (ty_bound t).
Definition toy_with_pending (t : Toy) (l : list nat) : Toy :=
  mkToy (ty_view t) (ty_now t) (ty_errno t) (ty_next t) (ty_chunk t) (ty_script t) (ty_closers t)
    l (ty_bound t).
Definition toy_with_bound (t : Toy) (b : gmap Z (Z * Z)) : Toy :=
  mkToy (ty_view t) (ty_now t) (ty_errno t) (ty_next t) (ty_chunk t) (ty_script t) (ty_closers t)
    (ty_pending t) b.

(** Descriptors are not negative, the mask has nine bits. *)
Definition clean (v : View) : View :=
  mkView (filter (fun p => 0 <= p.1) (v_files v)) (v_incoming v) (v_sent v) (v_paths v) (v_live v)
    (Z.land (v_umask v) 511).

Definition toy_view (t : Toy) : View := clean (ty_view t).

(** A scripted failure is never one of the two errors that say something about
    the directory. *)
Definition scripted (e : Z) : Z := if (e =? ENOENT) || (e =? ECONNREFUSED) then 13 else e.

Definition fails {A} (t : Toy) (e : Z) : result Z A * Toy := (Err e, toy_with_script t e (ty_script t)).

(** A call: the script first, then what it does. *)
Definition attempt {A} (ok : Toy → result Z A * Toy) (t : Toy) : result Z A * Toy :=
  match ty_script t with
  | [] => ok t
  | e :: script =>
      let t := toy_with_script t (ty_errno t) script in
      if 0 <? e then fails t (scripted e) else ok t
  end.

Definition EBADF : Z := 9.
Definition ENOTCONN : Z := 107.

(** A new descriptor for a description. *)
Definition toy_open (d : nat) (t : Toy) : result Z Z * Toy :=
  if bool_decide (v_files (toy_view t) !! ty_next t = None) && (0 <=? ty_next t)
  then (Ok (ty_next t), toy_count (toy_with_view t (set_files (<[ty_next t:=d]>) (toy_view t))))
  else fails t EMFILE.

Definition toy_poll (events timeout : Z) (t : Toy) : option (PollOutcome * Toy) :=
  match ty_script t with
  | [] => Some (PollReady (Z.lor events POLLHUP) 0, t)
  | e :: script =>
      let t := toy_with_script t (if 0 <? e then e else ty_errno t) script in
      if 0 <? e then Some (PollFailed e, t)
      else if e =? 0 then Some (PollReady (Z.lor events POLLHUP) 0, t)
      else if e =? -1 then
        if 0 <=? timeout then Some (PollTimedOut, toy_wait t (timeout * 100000)) else None
      else if e =? -2 then Some (PollReady 0 0, t)
      else Some (PollReady 0 POLLIN, t)
  end.

Definition toy_recv (fd n : Z) (t : Toy) : result Z bytes * Toy :=
  match v_files (toy_view t) !! fd with
  | None => fails t EBADF
  | Some d =>
      let data := incoming (toy_view t) d in
      let count := Nat.min (Z.to_nat n) (S (ty_chunk t)) in
      if forallb (fun b => (0 <=? b) && (b <? 256)) (take count data)
      then (Ok (take count data),
            toy_with_view t (set_incoming (<[d:=drop count data]>) (toy_view t)))
      else fails t 5
  end.

Definition toy_send (fd : Z) (bs : bytes) (t : Toy) : result Z Z * Toy :=
  match v_files (toy_view t) !! fd with
  | None => fails t EBADF
  | Some d =>
      let count := Nat.min (length bs) (S (ty_chunk t)) in
      (Ok (Z.of_nat count),
       toy_with_view t (set_sent (<[d:=sent (toy_view t) d ++ take count bs]>) (toy_view t)))
  end.

Definition toy_connect (a : Address) (t : Toy) : result Z () * Toy :=
  match address_name a with
  | AbstractName _ => fails t ECONNREFUSED
  | PathName p =>
      match v_paths (toy_view t) !! p with
      | None => fails t ENOENT
      | Some e =>
          if bool_decide ((st_dev e, st_ino e) ∈ v_live (toy_view t)) then (Ok (), t)
          else fails t ECONNREFUSED
      end
  end.

Definition toy_close (fd : Z) (t : Toy) : Toy :=
  let live := match ty_bound t !! fd with
              | Some i => v_live (toy_view t) ∖ {[i]}
              | None => v_live (toy_view t)
              end in
  toy_with_bound (toy_with_view t (set_live live (set_files (delete fd) (toy_view t))))
    (delete fd (ty_bound t)).

Definition toy_shutdown (fd : Z) (t : Toy) : Toy :=
  match v_files (toy_view t) !! fd with
  | None => t
  | Some d => toy_with_view t (set_incoming (<[d:=[]]>) (toy_view t))
  end.

Definition toy_bind (fd : Z) (a : Address) (t : Toy) : result Z () * Toy :=
  match address_name a with
  | AbstractName _ => (Ok (), t)
  | PathName p =>
      if bool_decide (v_paths (toy_view t) !! p = None)
         && bool_decide ((1, ty_next t) ∉ v_live (toy_view t))
      then
        let mode := Z.lor S_IFSOCK (Z.ldiff 511 (v_umask (toy_view t))) in
        (Ok (), toy_count (toy_with_bound
                  (toy_with_view t (set_paths (<[p:=mkStatBuf mode 1 (ty_next t)]>) (toy_view t)))
                  (<[fd:=(1, ty_next t)]> (ty_bound t))))
      else fails t EADDRINUSE
  end.

Definition toy_chmod (p : bytes) (m : Z) (t : Toy) : result Z () * Toy :=
  match v_paths (toy_view t) !! p with
  | None => fails t ENOENT
  | Some e =>
      let mode := Z.lor (Z.ldiff (st_mode e) 511) (Z.land m 511) in
      (Ok (), toy_with_view t
                (set_paths (<[p:=mkStatBuf mode (st_dev e) (st_ino e)]>) (toy_view t)))
  end.

Definition toy_listen (fd : Z) (t : Toy) : result Z () * Toy :=
  let live := match ty_bound t !! fd with
              | Some i => {[i]} ∪ v_live (toy_view t)
              | None => v_live (toy_view t)
              end in
  (Ok (), toy_with_view t (set_live live (toy_view t))).

Definition toy_kernel : Kernel :=
  {| k_state := Toy;
     k_clock := fun t => 10 * ty_now t;
     k_errno := ty_errno;
     sys_eventfd := attempt (fun t => toy_open (Z.to_nat (ty_next t)) t);
     sys_write_event := fun _ => attempt (fun t => (Ok (), t));
     sys_socket := attempt (fun t => toy_open (Z.to_nat (ty_next t)) t);
     sys_dup := fun fd => attempt (fun t =>
       match v_files (toy_view t) !! fd with Some d => toy_open d t | None => fails t EBADF end);
     sys_close := toy_close;
     sys_shutdown := toy_shutdown;
     sys_connect := fun _ a => attempt (toy_connect a);
     sys_poll := fun _ events _ timeout => toy_poll events timeout;
     sys_recv := fun fd n => attempt (toy_recv fd n);
     sys_send := fun fd bs => attempt (toy_send fd bs);
     sys_so_error := fun _ => attempt (fun t => (Ok 0, t));
     sys_so_peercred := fun _ => attempt (fun t => (Ok (mkUcred 7 1000 0), t));
     sys_lstat := fun p => attempt (fun t =>
       match v_paths (toy_view t) !! p with Some e => (Ok e, t) | None => fails t ENOENT end);
     sys_unlink := fun p => attempt (fun t =>
       match v_paths (toy_view t) !! p with
       | Some _ => (Ok (), toy_with_view t (set_paths (delete p) (toy_view t)))
       | None => fails t ENOENT
       end);
     sys_umask := fun m t =>
       (v_umask (toy_view t), toy_with_view t (set_umask (Z.land m 511) (toy_view t)));
     sys_bind := fun fd a => attempt (toy_bind fd a);
     sys_chmod := fun p m => attempt (toy_chmod p m);
     sys_listen := fun fd _ => attempt (toy_listen fd);
     sys_accept4 := fun _ => attempt (fun t =>
       match ty_pending t with
       | [] => fails t ENOTCONN
       | d :: pending => toy_open d (toy_with_pending t pending)
       end);
     k_preempted := fun t =>
       match ty_closers t with
       | [] => (false, t)
       | b :: l => (b, toy_with_closers t l)
       end |}.

(** ** The laws *)

Lemma clean_clean v : clean (clean v) = clean v.
Proof.
  destruct v. unfold clean. cbn. f_equal; [|by rewrite <- Z.land_assoc].
  apply map_filter_id. intros i x H%map_lookup_filter_Some. apply H.
Qed.

Lemma clean_set_incoming f v : clean (set_incoming f v) = set_incoming f (clean v).
Proof. done. Qed.
Lemma clean_set_sent f v : clean (set_sent f v) = set_sent f (clean v).
Proof. done. Qed.
Lemma clean_set_paths f v : clean (set_paths f v) = set_paths f (clean v).
Proof. done. Qed.
Lemma clean_set_live s v : clean (set_live s v) = set_live s (clean v).
Proof. done. Qed.
Lemma clean_set_umask m v : clean (set_umask (Z.land m 511) v) = set_umask (Z.land m 511) (clean v).
Proof. unfold clean, set_umask. cbn. by rewrite <- Z.land_assoc. Qed.
Lemma clean_delete fd v : clean (set_files (delete fd) v) = set_files (delete fd) (clean v).
Proof. unfold clean, set_files. cbn. by rewrite map_filter_delete. Qed.
Lemma clean_insert fd d v :
  0 <= fd → clean (set_files (<[fd:=d]>) v) = set_files (<[fd:=d]>) (clean v).
Proof. intros H. unfold clean, set_files. cbn. by rewrite map_filter_insert_True. Qed.

Create HintDb toy.
Create Rewrite HintDb clean.
#[export] Hint Rewrite clean_clean clean_set_incoming clean_set_sent clean_set_paths clean_set_live
  clean_set_umask clean_delete : clean.

Lemma mode_bits (u : Z) :
  S_ISSOCK (Z.lor S_IFSOCK (Z.ldiff 511 u)) = true
  ∧ Z.land (Z.lor S_IFSOCK (Z.ldiff 511 u)) 511 = Z.ldiff 511 u.
Proof.
  rewrite Z.ldiff_land. unfold S_ISSOCK. rewrite !Z.land_lor_distr_l, <- !Z.land_assoc.
  rewrite !(Z.land_comm (Z.lnot u)), !Z.land_assoc. by split.
Qed.

Lemma chmod_bits (m n : Z) :
  S_ISSOCK (Z.lor (Z.ldiff m 511) (Z.land n 511)) = S_ISSOCK m
  ∧ Z.land (Z.lor (Z.ldiff m 511) (Z.land n 511)) 511 = Z.land n 511.
Proof.
  unfold S_ISSOCK. rewrite Z.ldiff_land, !Z.land_lor_distr_l, <- !Z.land_assoc.
  change (Z.land (Z.lnot 511) S_IFMT) with S_IFMT. change (Z.land 511 S_IFMT) with 0.
  change (Z.land (Z.lnot 511) 511) with 0. change (Z.land 511 511) with 511.
  by rewrite !Z.land_0_r, Z.lor_0_r.
Qed.

(** The outcome of a call, as [KernelLaws] will state it. *)
Definition toy_evolves (t t' : Toy) : Prop :=
  10 * ty_now t <= 10 * ty_now t' ∧ (length (ty_script t') <= length (ty_script t))%nat.

Definition toy_outcome {A} (t : Toy) (r : result Z A * Toy) (P : A → View → View → Prop) : Prop :=
  match r with
  | (Err e, t') => (toy_evolves t t' ∧ toy_view t' = toy_view t) ∧ ty_errno t' = e
                   ∧ (transient e = true → (length (ty_script t') < length (ty_script t))%nat)
  | (Ok a, t') => toy_evolves t t' ∧ P a (toy_view t) (toy_view t')
  end.

(** Without a script: failures are not transient. *)
Definition steady_outcome {A} (t : Toy) (r : result Z A * Toy) (P : A → View → View → Prop) : Prop :=
  match r with
  | (Err e, t') => (toy_evolves t t' ∧ toy_view t' = toy_view t) ∧ ty_errno t' = e ∧ transient e = false
  | (Ok a, t') => toy_evolves t t' ∧ P a (toy_view t) (toy_view t')
  end.

Lemma attempt_outcome {A} (ok : Toy → result Z A * Toy) t P :
  (∀ t', steady_outcome t' (ok t') P) → toy_outcome t (attempt ok t) P.
Proof.
  intros Hok. unfold attempt. destruct (ty_script t) as [|e script] eqn:Es.
  - specialize (Hok t). destruct (ok t) as [[a|e] t']; cbn in *; [done|].
    destruct Hok as (? & ? & ->). done.
  - set (t1 := toy_with_script t (ty_errno t) script).
    assert (toy_evolves t t1) as H1 by (split; cbn; [lia|rewrite Es; cbn; lia]).
    destruct (0 <? e).
    + cbn. split_and!; try done. intros _. rewrite Es. cbn. lia.
    + specialize (Hok t1). destruct (ok t1) as [[a|e'] t'] eqn:E; cbn in *.
      * destruct Hok as [[? ?] HP]. split; [|exact HP]. destruct H1. split; cbn in *; lia.
      * destruct Hok as (([? ?] & Hv) & He & ->). destruct H1. split_and!; try done. split; cbn in *; lia.
Qed.

Lemma fails_outcome {A} t e (P : A → View → View → Prop) :
  transient e = false → steady_outcome t (fails t e) P.
Proof. intros H. unfold fails. split_and!; try done; cbn; lia. Qed.

Lemma toy_open_outcome d t :
  steady_outcome t (toy_open d t) (fun fd v v' =>
    0 <= fd ∧ v_files v !! fd = None ∧ v' = set_files (<[fd:=d]>) v).
Proof.
  unfold toy_open. destruct (_ && _) eqn:E; [|by apply fails_outcome].
  apply andb_true_iff in E as [E%bool_decide_eq_true Hn%Z.leb_le].
  split; [split; cbn; lia|]. split_and!; [done|done|].
  unfold toy_view in *. cbn. by rewrite clean_insert, clean_clean.
Qed.

Lemma outcome_weaken {A} t (r : result Z A * Toy) (P Q : A → View → View → Prop) :
  steady_outcome t r P → (∀ a v v', P a v v' → Q a v v') → steady_outcome t r Q.
Proof. destruct r as [[a|e] t']; cbn; naive_solver. Qed.

(** A call that changes the view and nothing else. *)
Lemma view_outcome {A} t (a : A) v (P : A → View → View → Prop) :
  clean v = v → P a (toy_view t) v → steady_outcome t (Ok a, toy_with_view t v) P.
Proof. intros Hv HP. split; [split; cbn; lia|]. unfold toy_view at 2. cbn. by rewrite Hv. Qed.

Lemma same_outcome {A} t (a : A) (P : A → View → View → Prop) :
  P a (toy_view t) (toy_view t) → steady_outcome t (Ok a, t) P.
Proof. intros HP. split; [split; cbn; lia|done]. Qed.

#[export] Hint Resolve fails_outcome same_outcome : toy.


Section Laws.
#[local] Existing Instance toy_kernel.
Implicit Types t : Toy.

Lemma toy_law_descriptors t fd d : v_files (toy_view t) !! fd = Some d → 0 <= fd.
Proof.
  intros H. change (v_files (toy_view t) !! fd = Some d) in H.
  by apply map_lookup_filter_Some in H as [_ H].
Qed.

Lemma toy_law_eventfd t : toy_outcome t (sys_eventfd t) (fun fd v v' =>
    0 <= fd ∧ v_files v !! fd = None ∧ ∃ d, v' = set_files (<[fd:=d]>) v).
Proof.
  apply attempt_outcome. intros t'. eapply outcome_weaken; [apply toy_open_outcome|].
  cbn. intros; naive_solver.
Qed.

Lemma toy_law_write_event fd t : toy_outcome t (sys_write_event fd t) (fun _ v v' => v' = v).
Proof.
  apply attempt_outcome. intros t'. by apply same_outcome.
Qed.

Lemma toy_law_socket t : toy_outcome t (sys_socket t) (fun fd v v' =>
    0 <= fd ∧ v_files v !! fd = None ∧ ∃ d, v' = set_files (<[fd:=d]>) v).
Proof.
  apply attempt_outcome. intros t'. eapply outcome_weaken; [apply toy_open_outcome|].
  cbn. intros; naive_solver.
Qed.

Lemma toy_law_dup fd t : toy_outcome t (sys_dup fd t) (fun new v v' =>
    0 <= new ∧ v_files v !! new = None
    ∧ ∃ d, v_files v !! fd = Some d ∧ v' = set_files (<[new:=d]>) v).
Proof.
  apply attempt_outcome. intros t'.
  destruct (v_files (toy_view t') !! fd) as [d|] eqn:E; [|by apply fails_outcome].
  pose proof (toy_open_outcome d t') as Ho. destruct (toy_open d t') as [[a|e] t1]; [|exact Ho].
  destruct Ho as (He & Hn & Hno & Hv). split; [exact He|]. split_and!; [done|done|]. exists d. by split.
Qed.

Lemma toy_law_close fd t : toy_evolves t (sys_close fd t)
    ∧ ∃ s, toy_view (sys_close fd t) = set_live s (set_files (delete fd) (toy_view t)).
Proof.
  split; [split; cbn; lia|]. eexists. unfold sys_close. cbn [toy_kernel]. unfold toy_close, toy_view at 1.
  cbn [ty_view toy_with_bound toy_with_view]. unfold toy_view. autorewrite with clean. done.
Qed.

Lemma toy_law_shutdown fd t : toy_evolves t (sys_shutdown fd t)
    ∧ ∃ f, toy_view (sys_shutdown fd t) = set_incoming f (toy_view t).
Proof.
  unfold sys_shutdown. cbn [toy_kernel]. unfold toy_shutdown.
  destruct (v_files (toy_view t) !! fd) as [d|].
  + split; [split; cbn; lia|]. eexists. unfold toy_view. cbn [ty_view toy_with_view].
    autorewrite with clean. done.
  + split; [split; cbn; lia|]. exists (fun m => m). by destruct (toy_view t).
Qed.

Lemma toy_law_connect fd a t : toy_outcome t (sys_connect fd a t) (fun _ v v' => v' = v).
Proof.
  apply attempt_outcome. intros t'. unfold toy_connect.
  destruct (address_name a); [|by apply fails_outcome].
  destruct (v_paths _ !! _); [|by apply fails_outcome].
  destruct (bool_decide _); [by apply same_outcome|by apply fails_outcome].
Qed.

Lemma toy_law_refused fd a t t' p e : sys_connect fd a t = (Err ECONNREFUSED, t') →
    address_name a = PathName p → v_paths (toy_view t) !! p = Some e → ¬ live (toy_view t) e.
Proof.
  intros H Hn Hp. unfold sys_connect in H. cbn in H. unfold attempt, toy_connect in H.
  assert (∀ x, scripted x ≠ ECONNREFUSED) as Hs.
  { intros x. unfold scripted. destruct (Z.eqb_spec x ENOENT), (Z.eqb_spec x ECONNREFUSED); done. }
  change (v_paths (toy_view t) !! p = Some e) in Hp. change (¬ (st_dev e, st_ino e) ∈ v_live (toy_view t)).
  rewrite Hn in H. destruct (ty_script t) as [|x script].
  + rewrite Hp in H. destruct (bool_decide _) eqn:E; [done|]. by apply bool_decide_eq_false in E.
  + destruct (0 <? x); [injection H as H _; by apply Hs in H|].
    change (toy_view (toy_with_script t (ty_errno t) script)) with (toy_view t) in H.
    rewrite Hp in H. destruct (bool_decide _) eqn:E; [done|]. by apply bool_decide_eq_false in E.
Qed.

Lemma toy_law_poll fd events cfd timeout t r t' :
    sys_poll fd events cfd timeout t = Some (r, t') →
    (toy_evolves t t' ∧ toy_view t' = toy_view t) ∧
    match r with
    | PollFailed e => k_errno t' = e ∧ (transient e = true → (length (ty_script t') < length (ty_script t))%nat)
    | PollTimedOut => 0 <= timeout ∧ k_clock t + timeout * 1000000 <= k_clock t'
    | PollReady r0 r1 =>
        Z.land r1 POLLIN = 0 →
        Z.land r0 (Z.lor (Z.lor (Z.lor events POLLERR) POLLHUP) POLLNVAL) = 0 →
        (length (ty_script t') < length (ty_script t))%nat
    end.
Proof.
  intros H. unfold sys_poll in H. cbn in H. unfold toy_poll in H.
  assert (∀ r1, Z.land (Z.lor events POLLHUP) (Z.lor (Z.lor (Z.lor events POLLERR) POLLHUP) POLLNVAL) = 0 → r1) as Hready.
  { intros r1 E. exfalso. apply (f_equal (fun z => Z.testbit z 4)) in E.
    rewrite Z.land_spec, !Z.lor_spec in E. change (Z.testbit POLLHUP 4) with true in E.
    rewrite !orb_true_r in E. done. }
  destruct (ty_script t) as [|e script] eqn:Es.
  { injection H as <- <-. split; [by split|]. intros _. apply Hready. }
  assert (∀ x, toy_evolves t (toy_with_script t x script)
               ∧ (length script < length (ty_script t))%nat) as Hev.
  { intros x. rewrite Es. cbn. split; [split; cbn; rewrite ?Es; cbn; lia|lia]. }
  destruct (0 <? e) eqn:E0.
  { injection H as <- <-. split; [split; [apply Hev|done]|]. split; [done|]. intros _. cbn. lia. }
  destruct (e =? 0).
  { injection H as <- <-. split; [split; [apply Hev|done]|]. intros _. apply Hready. }
  destruct (e =? -1).
  { destruct (Z.leb_spec 0 timeout); [|done]. injection H as <- <-.
    split; [split; [|done]|cbn; split; [done|lia]].
    destruct (Hev (ty_errno t)) as [[? ?] _]. split; cbn in *; lia. }
  destruct (e =? -2); injection H as <- <-; (split; [split; [apply Hev|done]|]); [|done].
  intros _ _. cbn. lia.
Qed.

Lemma toy_law_poll_returns fd events cfd timeout t :
    0 <= timeout → is_Some (sys_poll fd events cfd timeout t).
Proof.
  intros Ht. cbn. unfold toy_poll. destruct (ty_script t); [by eexists|].
  rewrite (proj2 (Z.leb_le 0 timeout)) by done. by repeat case_match; eexists.
Qed.

Lemma toy_law_recv fd n t : toy_outcome t (sys_recv fd n t) (fun bs v v' =>
    (0 <= n → zlen bs <= n) ∧ octets bs
    ∧ ∃ d rest, v_files v !! fd = Some d ∧ incoming v d = bs ++ rest
                ∧ (bs = [] → 0 < n → rest = [])
                ∧ v' = set_incoming (<[d:=rest]>) v).
Proof.
  apply attempt_outcome. intros t'. unfold toy_recv.
  destruct (v_files (toy_view t') !! fd) as [d|] eqn:E; [|by apply fails_outcome].
  destruct (forallb _ _) eqn:Ef; [|by apply fails_outcome].
  apply view_outcome; [unfold toy_view; by autorewrite with clean|].
  split; [intros; unfold zlen; rewrite length_take; lia|]. split; [by apply small_octets|].
  eexists d, _. split_and!; [done|symmetry; apply take_drop| |done].
  intros Hnil Hn. destruct (incoming (toy_view t') d) as [|x l]; [by rewrite drop_nil|].
  destruct (Nat.min (Z.to_nat n) (S (ty_chunk t'))) eqn:En; [lia|done].
Qed.

Lemma toy_law_send fd bs t : toy_outcome t (sys_send fd bs t) (fun n v v' =>
    0 <= n <= zlen bs
    ∧ ∃ d, v_files v !! fd = Some d
           ∧ v' = set_sent (<[d:=sent v d ++ take (Z.to_nat n) bs]>) v).
Proof.
  apply attempt_outcome. intros t'. unfold toy_send.
  destruct (v_files (toy_view t') !! fd) as [d|] eqn:E; [|by apply fails_outcome].
  apply view_outcome; [unfold toy_view; by autorewrite with clean|].
  split; [unfold zlen; lia|]. exists d. split; [done|]. by rewrite Nat2Z.id.
Qed.

Lemma toy_law_so_error fd t : toy_outcome t (sys_so_error fd t) (fun _ v v' => v' = v).
Proof.
  apply attempt_outcome. intros t'. by apply same_outcome.
Qed.

Lemma toy_law_so_peercred fd t : toy_outcome t (sys_so_peercred fd t) (fun _ v v' => v' = v).
Proof.
  apply attempt_outcome. intros t'. by apply same_outcome.
Qed.

Lemma toy_law_lstat p t : toy_outcome t (sys_lstat p t) (fun s v v' => v' = v ∧ v_paths v !! p = Some s).
Proof.
  apply attempt_outcome. intros t'.
  destruct (v_paths (toy_view t') !! p) eqn:E; [by apply same_outcome|by apply fails_outcome].
Qed.

Lemma toy_law_lstat_missing p t t' : sys_lstat p t = (Err ENOENT, t') → v_paths (toy_view t) !! p = None.
Proof.
  intros H. unfold sys_lstat in H. cbn [toy_kernel] in H. unfold attempt in H.
  change (v_paths (toy_view t) !! p = None).
  assert (∀ x, scripted x ≠ ENOENT) as Hs.
  { intros x. unfold scripted. destruct (Z.eqb_spec x ENOENT), (Z.eqb_spec x ECONNREFUSED); done. }
  destruct (ty_script t) as [|x script]; [by destruct (v_paths (toy_view t) !! p)|].
  destruct (0 <? x); [injection H as H _; by apply Hs in H|].
  change (toy_view (toy_with_script t (ty_errno t) script)) with (toy_view t) in H.
  by destruct (v_paths (toy_view t) !! p).
Qed.

Lemma toy_law_unlink p t : toy_outcome t (sys_unlink p t) (fun _ v v' => v' = set_paths (delete p) v).
Proof.
  apply attempt_outcome. intros t'.
  destruct (v_paths (toy_view t') !! p) eqn:E; [|by apply fails_outcome].
  apply view_outcome; [unfold toy_view; by autorewrite with clean|done].
Qed.

Lemma toy_law_umask m t : toy_evolves t (sys_umask m t).2 ∧ (sys_umask m t).1 = v_umask (toy_view t)
    ∧ toy_view (sys_umask m t).2 = set_umask (Z.land m 511) (toy_view t).
Proof.
  split_and!; [split; cbn; lia|done|].
  change (clean (set_umask (Z.land m 511) (toy_view t)) = set_umask (Z.land m 511) (toy_view t)).
  unfold toy_view. by autorewrite with clean.
Qed.

Lemma toy_law_umask_bits t : Z.land (v_umask (toy_view t)) 511 = v_umask (toy_view t).
Proof.
  change (Z.land (Z.land (v_umask (ty_view t)) 511) 511 = Z.land (v_umask (ty_view t)) 511).
  by rewrite <- Z.land_assoc.
Qed.

Lemma toy_law_bind fd a t : toy_outcome t (sys_bind fd a t) (fun _ v v' =>
    match address_name a with
    | AbstractName _ => v' = v
    | PathName p =>
        v_paths v !! p = None
        ∧ ∃ s, v' = set_paths (<[p:=s]>) v ∧ S_ISSOCK (st_mode s) = true ∧ ¬ live v s
               ∧ Z.land (st_mode s) 511 = Z.ldiff 511 (v_umask v)
    end).
Proof.
  apply attempt_outcome. intros t'. unfold toy_bind.
  destruct (address_name a); [|by apply same_outcome].
  destruct (_ && _) eqn:E; [|by apply fails_outcome].
  apply andb_true_iff in E as [E1%bool_decide_eq_true E2%bool_decide_eq_true].
  split; [split; cbn; lia|]. split; [done|]. eexists. split; [|split; [|split]].
  + unfold toy_view at 1. cbn [ty_view toy_count toy_with_bound toy_with_view]. unfold toy_view.
    autorewrite with clean. reflexivity.
  + apply mode_bits.
  + exact E2.
  + apply mode_bits.
Qed.

Lemma toy_law_chmod p m t : toy_outcome t (sys_chmod p m t) (fun _ v v' =>
    ∃ s s', v_paths v !! p = Some s ∧ v' = set_paths (<[p:=s']>) v
      ∧ S_ISSOCK (st_mode s') = S_ISSOCK (st_mode s) ∧ st_dev s' = st_dev s ∧ st_ino s' = st_ino s
      ∧ Z.land (st_mode s') 511 = Z.land m 511).
Proof.
  apply attempt_outcome. intros t'. unfold toy_chmod.
  destruct (v_paths (toy_view t') !! p) as [e|] eqn:E; [|by apply fails_outcome].
  apply view_outcome; [unfold toy_view; by autorewrite with clean|].
  eexists e, _. split_and!; [done|reflexivity| |done|done|]; apply chmod_bits.
Qed.

Lemma toy_law_listen fd n t : toy_outcome t (sys_listen fd n t) (fun _ v v' => ∃ s, v' = set_live s v).
Proof.
  apply attempt_outcome. intros t'. unfold toy_listen.
  apply view_outcome; [unfold toy_view; by autorewrite with clean|]. by eexists.
Qed.

Lemma toy_law_accept4 fd t : toy_outcome t (sys_accept4 fd t) (fun new v v' =>
    0 <= new ∧ v_files v !! new = None ∧ ∃ d, v' = set_files (<[new:=d]>) v).
Proof.
  apply attempt_outcome. intros t'. destruct (ty_pending t') as [|d pending]; [by apply fails_outcome|].
  pose proof (toy_open_outcome d (toy_with_pending t' pending)) as Ho.
  destruct (toy_open d (toy_with_pending t' pending)) as [[x|e] t1]; [|exact Ho].
  destruct Ho as (He & Hn & Hno & Hv). split; [exact He|]. split_and!; [done|done|]. by exists d.
Qed.

Lemma toy_law_preempted t : toy_evolves t (k_preempted t).2 ∧ toy_view (k_preempted t).2 = toy_view t.
Proof.
  cbn. destruct (ty_closers t); (split; [split; cbn; lia|done]).
Qed.

End Laws.

#[global] Instance toy_laws : KernelLaws toy_kernel :=
  {| k_view := toy_view : @k_state toy_kernel → View;
     k_patience := fun t : @k_state toy_kernel => length (ty_script t);
     law_descriptors := toy_law_descriptors;
     law_eventfd := toy_law_eventfd;
     law_write_event := toy_law_write_event;
     law_socket := toy_law_socket;
     law_dup := toy_law_dup;
     law_close := toy_law_close;
     law_shutdown := toy_law_shutdown;
     law_connect := toy_law_connect;
     law_refused := toy_law_refused;
     law_poll := toy_law_poll;
     law_poll_returns := toy_law_poll_returns;
     law_recv := toy_law_recv;
     law_send := toy_law_send;
     law_so_error := toy_law_so_error;
     law_so_peercred := toy_law_so_peercred;
     law_lstat := toy_law_lstat;
     law_lstat_missing := toy_law_lstat_missing;
     law_unlink := toy_law_unlink;
     law_umask := toy_law_umask;
     law_umask_bits := toy_law_umask_bits;
     law_bind := toy_law_bind;
     law_chmod := toy_law_chmod;
     law_listen := toy_law_listen;
     law_accept4 := toy_law_accept4;
     law_preempted := toy_law_preempted |}.
