(* ===== verification/UnixSocket.v ===== *)
(** * UnixSocket: the stream transport over Unix domain sockets

    Models [UnixSocketTransport] of [src/ya_license_transport/src/unix_socket.cpp]
    over the system calls of [Kernel.v]: addresses, deadlines and [poll],
    [connect], the read and write loops, cancellation by [close], credentials.

    An object is its [State] (a moved-from object has none).  Its mutex protects
    [fd] and [canceled] against a [close()] by another thread: [yield] stands
    before every lock and lets that [close()] happen there, so that it is seen
    in any order with the system calls in between.  Loops take a number of
    iterations ([fuel] each). *)

From S2P Require Import Prelude Transport Program Kernel.

(** ** Helpers of the anonymous namespace *)

Definition systemError (error : Z) : TransportStatus := mkTransportStatus StatusCode.SystemError error.
Definition invalidArgument : TransportStatus := mkTransportStatus StatusCode.InvalidArgument 0.
Definition timedOut : TransportStatus := mkTransportStatus StatusCode.Timeout 0.
Definition canceledStatus : TransportStatus := mkTransportStatus StatusCode.Canceled 0.
Definition endOfFile : TransportStatus := mkTransportStatus StatusCode.EndOfFile 0.

(** [sizeof(sun_path)] and [offsetof(sockaddr_un, sun_path)] *)
Definition kSunPathSize : Z := 108.
Definition kSunPathOffset : Z := 2.

Definition makeAddress (path : string) : result TransportStatus Address :=
  if str_empty path || (kSunPathSize <=? str_size path) then Err invalidArgument
  else Ok (mkAddress (string_bytes path ++ replicate (Z.to_nat (kSunPathSize - str_size path)) 0)
             (kSunPathOffset + str_size path + 1)).

(** [Deadline::max()] *)
Definition noDeadline : Deadline := 2 ^ 63 - 1.

Definition timeoutMilliseconds (deadline : Deadline) (now : Z) : Z :=
  if deadline =? noDeadline then -1
  else
    let remaining := deadline - now in
    if remaining <=? 0 then 0
    else
      let milliseconds := (remaining + 999999) / 1000000 in
      if INT_MAX <? milliseconds then INT_MAX else milliseconds.

Section Calls.
Context {K : Kernel}.

Definition createCancelFd : sys Z :=
  r ← call sys_eventfd;
  mret (match r with Ok fd => fd | Err _ => -1 end).

Definition signalCancel (fuel : nat) (fd : Z) : sys () :=
  if fd <? 0 then mret () else uninterrupted fuel (sys_write_event fd) ;; mret ().

(** The readiness test of [waitFor] on the first descriptor. *)
Definition wanted (events : Z) : Z := Z.lor (Z.lor (Z.lor events POLLERR) POLLHUP) POLLNVAL.

Fixpoint waitFor (fuel : nat) (fd cancel_fd events : Z) (deadline : Deadline)
  : sys TransportStatus := fun k =>
  match fuel with
  | O => Running
  | S fuel' =>
      match sys_poll fd events cancel_fd (timeoutMilliseconds deadline (k_clock k)) k with
      | None => Running
      | Some (PollFailed e, k) =>
          if e =? EINTR then waitFor fuel' fd cancel_fd events deadline k
          else Done (systemError e, k)
      | Some (PollTimedOut, k) => Done (timedOut, k)
      | Some (PollReady revents0 revents1, k) =>
          if negb (Z.land revents1 POLLIN =? 0) then Done (canceledStatus, k)
          else if negb (Z.land revents0 (wanted events) =? 0) then Done (success, k)
          else waitFor fuel' fd cancel_fd events deadline k
      end
  end.

Definition duplicateFd (fuel : nat) (fd : Z) : sys Z :=
  r ← uninterrupted fuel (sys_dup fd);
  mret (match r with Ok fd => fd | Err _ => -1 end).

Definition closeFd (fd : Z) : sys () :=
  if 0 <=? fd then effect (sys_close fd) else mret ().
End Calls.

(** ** [UnixSocketTransport] *)

(** [UnixSocketTransport::State] *)
Record TransportState := mkTransportState {
  us_path : string;
  us_fd : Z;
  us_cancel_fd : Z;
  us_canceled : bool;
}.

Definition with_fd (s : TransportState) (fd : Z) : TransportState :=
  mkTransportState (us_path s) fd (us_cancel_fd s) (us_canceled s).

(** [std::unique_ptr<State> state_] *)
Abbreviation UnixSocketTransport := (option TransportState).

(** [transport::PeerCredentials] *)
Record PeerCredentials := mkPeerCredentials {
  pc_pid : Z;
  pc_uid : Z;
  pc_gid : Z;
}.

Module Unix.
Section Transport.
Context {K : Kernel}.

(** The public constructor and the one for an accepted descriptor. *)
Definition newTransport (path : string) : sys UnixSocketTransport :=
  cancel_fd ← createCancelFd; mret (Some (mkTransportState path (-1) cancel_fd false)).
Definition acceptedTransport (fd : Z) : sys UnixSocketTransport :=
  cancel_fd ← createCancelFd; mret (Some (mkTransportState "" fd cancel_fd false)).

(** [shutdown] and [close] of a descriptor taken out of the object. *)
Definition dropSocket (fd : Z) : sys () :=
  if 0 <=? fd then effect (sys_shutdown fd) ;; closeFd fd else mret ().

(** [close()] of an object that has a state *)
Definition closeState (fuel : nat) (s : TransportState) : sys TransportState :=
  signalCancel fuel (us_cancel_fd s) ;;
  dropSocket (us_fd s) ;;
  mret (mkTransportState (us_path s) (-1) (us_cancel_fd s) true).

(** Before a lock is taken, another thread may have called [close()]. *)
Definition yield (fuel : nat) (s : TransportState) : sys TransportState :=
  preempted ← call k_preempted;
  if (preempted : bool) then closeState fuel s else mret s.

(** [State::operationFd]: a duplicate that survives a concurrent [close()]. *)
Definition operationFd (fuel : nat) (s : TransportState) : sys (TransportState * Z) :=
  s ← yield fuel s;
  value ← (if us_fd s <? 0 then mret (-1) else duplicateFd fuel (us_fd s));
  mret (s, value).

Definition resetSocket (fuel : nat) (s : TransportState) : sys TransportState :=
  s ← yield fuel s;
  dropSocket (us_fd s) ;;
  mret (with_fd s (-1)).

(** [isCanceled() ? Canceled : success()] *)
Definition unlessCanceled (fuel : nat) (s : TransportState) : sys (TransportStatus * TransportState) :=
  s ← yield fuel s;
  mret (if us_canceled s then canceledStatus else success, s).

(** [connect] from the point where there is an operation descriptor. *)
Definition connectOn (fuel : nat) (s : TransportState) (operation : Z) (address : Address)
    (deadline : Deadline) : sys (TransportStatus * TransportState) :=
  result ← uninterrupted fuel (sys_connect operation address);
  match result with
  | Ok _ => unlessCanceled fuel s
  | Err e =>
      if negb (e =? EINPROGRESS) then s ← resetSocket fuel s; mret (systemError e, s)
      else
      status ← waitFor fuel operation (us_cancel_fd s) POLLOUT deadline;
      if negb (status_ok status) then
        s ← (if negb (bool_decide (ts_code status = StatusCode.Canceled))
             then resetSocket fuel s else mret s);
        mret (status, s)
      else
      option ← call (sys_so_error operation);
      match option with
      | Err e => s ← resetSocket fuel s; mret (systemError e, s)
      | Ok socket_error =>
          if negb (socket_error =? 0)
          then s ← resetSocket fuel s; mret (systemError socket_error, s)
          else unlessCanceled fuel s
      end
  end.

Definition connectState (fuel : nat) (s : TransportState) (deadline : Deadline)
  : sys (TransportStatus * TransportState) :=
  if us_cancel_fd s <? 0 then mret (systemError EMFILE, s)
  else
  match makeAddress (us_path s) with
  | Err status => mret (status, s)
  | Ok address =>
  created ← call sys_socket;
  match created with
  | Err e => mret (systemError e, s)
  | Ok fd =>
  s ← yield fuel s;
  if us_canceled s then closeFd fd ;; mret (canceledStatus, s)
  else if 0 <=? us_fd s then closeFd fd ;; mret (systemError EISCONN, s)
  else
  '(s, operation) ← operationFd fuel (with_fd s fd);
  if operation <? 0 then errno ← observe k_errno; mret (systemError errno, s)
  else
  '(status, s) ← connectOn fuel s operation address deadline;
  closeFd operation ;; mret (status, s)
  end
  end.

Definition connect (fuel : nat) (t : UnixSocketTransport) (deadline : Deadline)
  : sys (TransportStatus * UnixSocketTransport) :=
  match t with
  | None => mret (systemError EMFILE, None)
  | Some s => '(status, s) ← connectState fuel s deadline; mret (status, Some s)
  end.

(** The loop of [readExact]; [got] is the filled part of [output]. *)
Fixpoint readLoop (tries fuel : nat) (fd cancel_fd : Z) (size : Z) (deadline : Deadline)
    (got : bytes) : sys (result TransportStatus bytes) :=
  if negb (zlen got <? size) then mret (Ok got)
  else
  match fuel with
  | O => fun _ => Running
  | S fuel' =>
      status ← waitFor tries fd cancel_fd POLLIN deadline;
      if negb (status_ok status) then mret (Err status)
      else
      received ← call (sys_recv fd (size - zlen got));
      match received with
      | Ok [] => mret (Err endOfFile)
      | Ok count => readLoop tries fuel' fd cancel_fd size deadline (got ++ count)
      | Err e =>
          if negb (e =? EINTR) && negb (e =? EAGAIN) && negb (e =? EWOULDBLOCK)
          then mret (Err (systemError e))
          else readLoop tries fuel' fd cancel_fd size deadline got
      end
  end.

(** What the operations on an open socket have in common: take the duplicate,
    run, close the duplicate. *)
Definition withOperation {A} (fuel : nat) (t : UnixSocketTransport) (otherwise : A)
    (run : Z → Z → sys A) : sys (A * UnixSocketTransport) :=
  match t with
  | None => mret (otherwise, None)
  | Some s =>
      '(s, operation) ← operationFd fuel s;
      if operation <? 0 then mret (otherwise, Some s)
      else
        a ← run operation (us_cancel_fd s);
        closeFd operation ;; mret (a, Some s)
  end.

Definition readExact (fuel : nat) (t : UnixSocketTransport) (size : Z) (deadline : Deadline)
  : sys (result TransportStatus bytes * UnixSocketTransport) :=
  withOperation fuel t (Err canceledStatus) (fun operation cancel_fd =>
    readLoop fuel fuel operation cancel_fd size deadline []).

(** The loop of [writeAll]; [data] is what is left from the offset on. *)
Fixpoint writeLoop (tries fuel : nat) (fd cancel_fd : Z) (deadline : Deadline) (data : bytes)
  : sys TransportStatus :=
  if negb (0 <? zlen data) then mret success
  else
  match fuel with
  | O => fun _ => Running
  | S fuel' =>
      status ← waitFor tries fd cancel_fd POLLOUT deadline;
      if negb (status_ok status) then mret status
      else
      written ← call (sys_send fd data);
      match written with
      | Ok count =>
          if 0 <? count
          then writeLoop tries fuel' fd cancel_fd deadline (drop (Z.to_nat count) data)
          else mret endOfFile
      | Err e =>
          if negb (e =? EINTR) && negb (e =? EAGAIN) && negb (e =? EWOULDBLOCK)
          then mret (systemError e)
          else writeLoop tries fuel' fd cancel_fd deadline data
      end
  end.

Definition writeAll (fuel : nat) (t : UnixSocketTransport) (data : bytes) (deadline : Deadline)
  : sys (TransportStatus * UnixSocketTransport) :=
  withOperation fuel t canceledStatus (fun operation cancel_fd =>
    writeLoop fuel fuel operation cancel_fd deadline data).

Definition close (fuel : nat) (t : UnixSocketTransport) : sys UnixSocketTransport :=
  match t with
  | None => mret None
  | Some s => s ← closeState fuel s; mret (Some s)
  end.

Definition peerCredentials (fuel : nat) (t : UnixSocketTransport)
  : sys (result TransportStatus PeerCredentials * UnixSocketTransport) :=
  withOperation fuel t (Err canceledStatus) (fun operation _ =>
    option ← call (sys_so_peercred operation);
    mret (match option with
          | Ok c => Ok (mkPeerCredentials (uc_pid c) (uc_uid c) (uc_gid c))
          | Err e => Err (systemError e)
          end)).

Definition isOpen (fuel : nat) (t : UnixSocketTransport) : sys (bool * UnixSocketTransport) :=
  match t with
  | None => mret (false, None)
  | Some s => s ← yield fuel s; mret (0 <=? us_fd s, Some s)
  end.

(** [State::~State] *)
Definition destroyState (s : TransportState) : sys () :=
  closeFd (us_fd s) ;; closeFd (us_cancel_fd s).

(** [~UnixSocketTransport] *)
Definition destroy (fuel : nat) (t : UnixSocketTransport) : sys () :=
  match t with
  | None => mret ()
  | Some s => s ← closeState fuel s; destroyState s
  end.

(** The move assignment: the old state of the target goes without [close()];
    the source is left without a state. *)
Definition moveAssign (target source : UnixSocketTransport)
  : sys (UnixSocketTransport * UnixSocketTransport) :=
  (match target with None => mret () | Some s => destroyState s end) ;;
  mret (source, None).
End Transport.
End Unix.
Import Unix.

(** ** Addresses and timeouts *)

Lemma until_nul_app_nul (a b : bytes) : until_nul (a ++ 0 :: b) = until_nul a.
Proof. induction a as [|x a IH]; [done|]. cbn. by rewrite IH. Qed.

(** An address is made for every path that fits with its terminator; all of
    [sun_path] is written, nothing behind it, and the address names the same
    file as the path passed to [lstat], [chmod] and [unlink]. *)
Lemma makeAddress_Ok path a :
  makeAddress path = Ok a ↔
  0 < str_size path < kSunPathSize
  ∧ sun_path a = string_bytes path ++ replicate (Z.to_nat (kSunPathSize - str_size path)) 0
  ∧ addr_length a = kSunPathOffset + str_size path + 1.
Proof.
  unfold makeAddress. destruct (str_empty path) eqn:Ee; cbn.
  - apply str_empty_spec in Ee as ->. split; [done|]. by intros [[] _].
  - apply str_nonempty_size in Ee. destruct (Z.leb_spec kSunPathSize (str_size path)) as [Hl|Hl].
    + split; [done|]. intros [? _]. lia.
    + split; [by intros [= <-]|]. destruct a as [p l]. cbn. by intros (_ & -> & ->).
Qed.

Lemma makeAddress_size path a :
  makeAddress path = Ok a → zlen (sun_path a) = kSunPathSize ∧ addr_length a <= kSunPathOffset + kSunPathSize.
Proof.
  intros (Hs & -> & ->)%makeAddress_Ok. split; [|lia].
  rewrite zlen_app, zlen_string_bytes. unfold zlen. rewrite length_replicate. lia.
Qed.

Lemma makeAddress_name path a :
  makeAddress path = Ok a → c_str path ≠ [] → address_name a = PathName (c_str path).
Proof.
  intros (Hs & Hp & _)%makeAddress_Ok Hc. unfold address_name. rewrite Hp.
  replace (Z.to_nat (kSunPathSize - str_size path))
    with (S (Z.to_nat (kSunPathSize - str_size path - 1))) by lia.
  cbn [replicate]. rewrite until_nul_app_nul. fold (c_str path). by destruct (c_str path).
Qed.

(** [poll] is asked to wait up to the deadline, rounded up to a millisecond, and
    never longer than an [int] can say. *)
Lemma timeoutMilliseconds_spec deadline now :
  deadline ≠ noDeadline →
  let t := timeoutMilliseconds deadline now in
  0 <= t <= INT_MAX
  ∧ (t < INT_MAX → deadline <= now + t * 1000000)
  ∧ (0 < t → now + t * 1000000 < deadline + 1000000).
Proof.
  intros Hd. unfold timeoutMilliseconds. rewrite (proj2 (Z.eqb_neq _ _)) by done.
  unfold INT_MAX. destruct (Z.leb_spec (deadline - now) 0) as [Hr|Hr]; [split_and!; lia|].
  pose proof (Z.div_mod (deadline - now + 999999) 1000000 ltac:(lia)) as Hm.
  pose proof (Z.mod_pos_bound (deadline - now + 999999) 1000000 ltac:(lia)) as Hb.
  destruct (Z.ltb_spec 2147483647 ((deadline - now + 999999) / 1000000)) as [Hi|Hi]; split_and!; lia.
Qed.

(** ** The logic of the calls *)

Definition closed_state (s : TransportState) : TransportState :=
  mkTransportState (us_path s) (-1) (us_cancel_fd s) true.

(** The wait has lasted until the deadline (or, if that is further away than
    an [int] of milliseconds, as long as [poll] can wait). *)
Definition late `{Kernel} (deadline : Deadline) (k k' : k_state) : Prop :=
  deadline <= k_clock k' ∨ k_clock k + INT_MAX * 1000000 <= k_clock k'.

Section Rules.
Context {K : Kernel} {KL : KernelLaws K}.
Implicit Types (k : k_state) (s : TransportState) (total : Prop).

Definition files (k : k_state) : gmap Z nat := v_files (k_view k).

(** Neither the directory nor the mask nor what was sent changes. *)
Definition untouched (k k' : k_state) : Prop :=
  v_sent (k_view k') = v_sent (k_view k) ∧ v_paths (k_view k') = v_paths (k_view k)
  ∧ v_umask (k_view k') = v_umask (k_view k).

#[global] Instance untouched_preorder : PreOrder untouched.
Proof. split; [done|]. intros x y z (? & ? & ?) (? & ? & ?). split_and!; congruence. Qed.

Lemma quiet_untouched k k' : quiet k k' → untouched k k'.
Proof. intros [_ E]. unfold untouched. by rewrite E. Qed.

Lemma delete_negative fd k : fd < 0 → delete fd (files k) = files k.
Proof.
  intros Hn. apply delete_id. destruct (files k !! fd) as [d|] eqn:E; [|done].
  apply law_descriptors in E. lia.
Qed.

Lemma late_mono dl k0 k k' k1 : evolves k0 k → evolves k' k1 → late dl k k' → late dl k0 k1.
Proof. unfold late. intros [? _] [? _] [?|?]; [left|right]; lia. Qed.

Lemma evolves_patience k k' : evolves k k' → (k_patience k' <= k_patience k)%nat.
Proof. by intros []. Qed.

Lemma wp_signalCancel total fuel fd k Q :
  (total → (k_patience k < fuel)%nat) → (∀ k', quiet k k' → Q () k') →
  wp total (signalCancel fuel fd) k Q.
Proof.
  intros Hf HQ. unfold signalCancel. destruct (fd <? 0); [by apply HQ|].
  apply wp_bind. eapply wp_uninterrupted; [done|intros; apply law_write_event| |].
  - intros e k1 k' ? ? _ _ _. apply HQ. by etrans.
  - intros a k1 k' ? ? _ ?. apply HQ. etrans; [done|]. by split.
Qed.

Lemma wp_closeFd total fd k Q :
  (∀ k', evolves k k' → files k' = delete fd (files k) →
         v_incoming (k_view k') = v_incoming (k_view k) → untouched k k' → Q () k') →
  wp total (closeFd fd) k Q.
Proof.
  intros HQ. unfold closeFd. destruct (Z.leb_spec 0 fd) as [Hn|Hn].
  - apply wp_effect. destruct (law_close fd k) as [? [l E]].
    apply HQ; unfold files, untouched; rewrite ?E; done.
  - apply HQ; [done|by rewrite delete_negative|done|done].
Qed.

Lemma wp_dropSocket total fd k Q :
  (∀ k', evolves k k' → files k' = delete fd (files k) → untouched k k' → Q () k') →
  wp total (dropSocket fd) k Q.
Proof.
  intros HQ. unfold dropSocket. destruct (Z.leb_spec 0 fd) as [Hn|Hn].
  - apply wp_bind, wp_effect. destruct (law_shutdown fd k) as [He [f E]].
    apply wp_closeFd. intros k' Hk' Hfs _ Hu. apply HQ; [by etrans| |].
    + rewrite Hfs. unfold files. by rewrite E.
    + etrans; [|done]. unfold untouched. by rewrite E.
  - apply HQ; [done|by rewrite delete_negative|done].
Qed.

Lemma wp_closeState total fuel s k Q :
  (total → (k_patience k < fuel)%nat) →
  (∀ k', evolves k k' → files k' = delete (us_fd s) (files k) → untouched k k' →
         Q (closed_state s) k') →
  wp total (closeState fuel s) k Q.
Proof.
  intros Hf HQ. unfold closeState. apply wp_bind, wp_signalCancel; [done|].
  intros k1 [He Ev]. apply wp_bind, wp_dropSocket. intros k2 He2 Hfs Hu. apply HQ.
  - by etrans.
  - rewrite Hfs. unfold files. by rewrite Ev.
  - etrans; [|done]. by apply quiet_untouched.
Qed.

Lemma wp_yield total fuel s k Q :
  (total → (k_patience k < fuel)%nat) →
  (∀ k', quiet k k' → Q s k') →
  (∀ k', evolves k k' → files k' = delete (us_fd s) (files k) → untouched k k' →
         Q (closed_state s) k') →
  wp total (yield fuel s) k Q.
Proof.
  intros Hf Hq Hc. unfold yield. apply wp_bind, wp_call. pose proof (law_preempted k) as Hp.
  destruct (k_preempted k) as [b k1]. cbn in Hp. cbn. destruct b; [|by apply Hq].
  destruct Hp as [He Ev]. apply wp_closeState.
  - intros Ht. specialize (Hf Ht). apply evolves_patience in He. lia.
  - intros k2 He2 Hfs Hu. apply Hc; [by etrans| |].
    + rewrite Hfs. unfold files. by rewrite Ev.
    + etrans; [|done]. by apply quiet_untouched.
Qed.

(** The three ways to get an operation descriptor: none, a duplicate, or the
    object was closed meanwhile. *)
Lemma wp_operationFd total fuel s k Q :
  (total → (k_patience k < fuel)%nat) →
  (∀ k', quiet k k' → Q (s, -1) k') →
  (∀ k' op d, 0 <= us_fd s → 0 <= op → evolves k k' → files k !! op = None →
     files k !! us_fd s = Some d → k_view k' = set_files (<[op:=d]>) (k_view k) → Q (s, op) k') →
  (∀ k', evolves k k' → files k' = delete (us_fd s) (files k) → untouched k k' →
         Q (closed_state s, -1) k') →
  wp total (operationFd fuel s) k Q.
Proof.
  intros Hf Hq Hd Hc. unfold operationFd. apply wp_bind, wp_yield; [done| |].
  - intros k1 Hq1. apply wp_bind. destruct (Z.ltb_spec (us_fd s) 0) as [Hn|Hn]; [by apply Hq|].
    unfold duplicateFd. apply wp_bind. eapply wp_uninterrupted; [|intros; apply law_dup| |].
    + intros Ht. specialize (Hf Ht). destruct Hq1 as [[_ ?] _]. lia.
    + intros e k2 k3 ? ? _ _ _. apply Hq. etrans; [done|]. by etrans.
    + intros op k2 k3 Hq2 He3 _ (Hop & Hno & d & Hfd & Ev).
      pose proof (transitivity Hq1 Hq2) as [He2 E2]. rewrite E2 in Hno, Hfd, Ev.
      eapply Hd; try done. by etrans.
  - intros k1 He Hfs Hu. by apply Hc.
Qed.

Lemma wp_waitFor total fuel fd cfd events dl k Q :
  (total → (k_patience k < fuel)%nat ∧ dl ≠ noDeadline) →
  (∀ k', quiet k k' → Q success k') →
  (∀ st k', quiet k k' → status_ok st = false → ts_code st ≠ StatusCode.EndOfFile →
     (ts_code st = StatusCode.Timeout → dl ≠ noDeadline ∧ late dl k k') → Q st k') →
  wp total (waitFor fuel fd cfd events dl) k Q.
Proof.
  revert k. induction fuel as [|fuel IH]; intros k Hf Hs He.
  { intros Ht. apply Hf in Ht as [? _]. lia. }
  set (t := timeoutMilliseconds dl (k_clock k)).
  assert (∀ k', quiet k k' → (k_patience k' < k_patience k)%nat →
            wp total (waitFor fuel fd cfd events dl) k' Q) as Hagain.
  { intros k' Hq Hp. apply IH.
    - intros [? ?]%Hf. split; [lia|done].
    - intros k2 Hq2. apply Hs. by etrans.
    - intros st k2 Hq2 Hst Heof Hlate. apply He; [by etrans|done|done|].
      intros [Hno Hl]%Hlate. split; [done|]. eapply late_mono; [apply Hq|reflexivity|done]. }
  unfold wp. cbn. fold t. destruct (sys_poll fd events cfd t k) as [[r k']|] eqn:Ep.
  2:{ intros [_ Hno]%Hf. destruct (law_poll_returns fd events cfd t k) as [x Hx]; [|congruence].
      by apply timeoutMilliseconds_spec. }
  apply law_poll in Ep as [Hq Hr]. destruct r as [e| |r0 r1].
  - destruct (Z.eqb_spec e EINTR) as [->|Hne]; [apply Hagain; [done|by apply Hr]|].
    by apply He.
  - destruct Hr as [Ht Hclock].
    assert (dl ≠ noDeadline) as Hno.
    { intros ->. revert Ht. unfold t, timeoutMilliseconds. by rewrite Z.eqb_refl. }
    apply He; try done. intros _. split; [done|].
    pose proof (timeoutMilliseconds_spec dl (k_clock k) Hno) as (Ht2 & Hl & _). fold t in Ht2, Hl.
    unfold late. destruct (decide (t < INT_MAX)); [left|right]; lia.
  - destruct (Z.eqb_spec (Z.land r1 POLLIN) 0) as [H1|H1]; cbn; [|by apply He].
    destruct (Z.eqb_spec (Z.land r0 (wanted events)) 0) as [H0|H0]; cbn; [|by apply Hs].
    apply Hagain; [done|]. by apply Hr.
Qed.

(** ** Reading *)

(** From [k] to [k'], exactly [consumed] was taken from description [d]. *)
Record reads (d : nat) (k k' : k_state) (consumed : bytes) : Prop := {
  reads_evolves : evolves k k';
  reads_files : files k' = files k;
  reads_untouched : untouched k k';
  reads_octets : octets consumed;
  reads_stream : incoming (k_view k) d = consumed ++ incoming (k_view k') d;
  reads_others d' : d' ≠ d → incoming (k_view k') d' = incoming (k_view k) d';
}.

Lemma reads_quiet d k k' : quiet k k' → reads d k k' [].
Proof.
  intros Hq. pose proof Hq as [He E]. split; try done; unfold files; rewrite ?E; try done.
  - by apply quiet_untouched.
  - constructor.
Qed.

Lemma reads_trans d k1 k2 k3 a b : reads d k1 k2 a → reads d k2 k3 b → reads d k1 k3 (a ++ b).
Proof.
  intros [] []. split.
  - by etrans.
  - congruence.
  - by etrans.
  - by apply octets_app.
  - rewrite <- app_assoc. congruence.
  - intros d' Hd. rewrite <- reads_others0 by done. auto.
Qed.

(** Why a read may fail: waiting failed, the stream has ended, or a call did. *)
Definition read_failure (dl : Deadline) (d : nat) (k k' : k_state) (st : TransportStatus) : Prop :=
  status_ok st = false
  ∧ (ts_code st = StatusCode.Timeout → dl ≠ noDeadline ∧ late dl k k')
  ∧ (ts_code st = StatusCode.EndOfFile → incoming (k_view k') d = []).

(** What was tried before does not matter to a failure. *)
Lemma read_failure_after dl d k1 k2 k3 a st :
  reads d k1 k2 a → read_failure dl d k2 k3 st → read_failure dl d k1 k3 st.
Proof.
  intros Hr (? & Hlate & ?). split_and!; [done| |done]. intros [? ?]%Hlate.
  split; [done|]. eapply late_mono; [apply Hr|reflexivity|done].
Qed.

(** What a successful [recv] takes. *)
Lemma reads_received d k k2 bs rest :
  evolves k k2 → octets bs → incoming (k_view k) d = bs ++ rest →
  k_view k2 = set_incoming (<[d := rest]>) (k_view k) →
  reads d k k2 bs ∧ incoming (k_view k2) d = rest.
Proof.
  intros He Hoct Hin Ev2.
  assert (incoming (k_view k2) d = rest) as Hd
    by (rewrite Ev2; unfold incoming; cbn; by rewrite lookup_insert_eq).
  split; [|done]. split; try done.
  - unfold files. by rewrite Ev2.
  - unfold untouched. by rewrite Ev2.
  - by rewrite Hd.
  - intros d' Hne. rewrite Ev2. unfold incoming. cbn. by rewrite lookup_insert_ne.
Qed.

Lemma wp_readLoop total tries fuel fd cfd size dl got d k (Q : result TransportStatus bytes → k_state → Prop) :
  (total → (k_patience k < tries)%nat ∧ (k_patience k + Z.to_nat (size - zlen got) < fuel)%nat
           ∧ dl ≠ noDeadline) →
  files k !! fd = Some d → zlen got <= size →
  (∀ consumed k', reads d k k' consumed → zlen (got ++ consumed) = size →
     Q (Ok (got ++ consumed)) k') →
  (∀ st consumed k', reads d k k' consumed → read_failure dl d k k' st → Q (Err st) k') →
  wp total (readLoop tries fuel fd cfd size dl got) k Q.
Proof.
  revert got k. induction fuel as [|fuel IH]; intros got k Hf Hfd Hg Hok Herr.
  all: cbn [readLoop]; destruct (Z.ltb_spec (zlen got) size) as [Hl|Hl]; cbn [negb].
  2,4: apply wp_ret; rewrite <- (app_nil_r got); apply Hok;
       [by apply reads_quiet|rewrite app_nil_r; lia].
  { intros Ht. apply Hf in Ht as (_ & ? & _). lia. }
  apply wp_bind, wp_waitFor; [by intros (? & _ & ?)%Hf| |].
  2:{ intros st k1 Hq Hst Heof Hlate. rewrite Hst. cbn.
      apply (Herr st []); [by apply reads_quiet|]. by split. }
  intros k1 Hq. pose proof Hq as [[Hc1 Hp1] Ev1]. cbn. apply wp_bind.
  eapply wp_outcome; [apply law_recv| |].
  - intros e k2 Hq2 _ Herrno Hp2. apply (reads_quiet d) in Hq as Hr1. apply (reads_quiet d) in Hq2 as Hr2.
    pose proof (reads_trans _ _ _ _ _ _ Hr1 Hr2) as Hr.
    assert (transient e = true →
      wp total (readLoop tries fuel fd cfd size dl got) k2 Q) as Hagain.
    { intros Htr. specialize (Hp2 Htr). apply IH.
      - intros (? & ? & ?)%Hf. split_and!; [lia|lia|done].
      - by rewrite (reads_files _ _ _ _ Hr).
      - done.
      - intros consumed k3 Hr3. apply Hok. by eapply (reads_trans _ _ _ _ []).
      - intros st consumed k3 Hr3 Hst. apply (Herr st consumed); [by eapply (reads_trans _ _ _ _ [])|].
        by eapply read_failure_after. }
    unfold transient in Hagain. unfold EWOULDBLOCK.
    destruct (e =? EINTR); cbn; [by apply Hagain|]. destruct (e =? EAGAIN); cbn; [by apply Hagain|].
    apply (Herr _ []); [done|]. by split.
  - intros bs k2 He2 _ (Hlen & Hoct & d2 & rest & Hd2 & Hin & Hend & Ev2).
    specialize (Hlen ltac:(lia)). rewrite Ev1 in Hd2, Hin, Ev2. unfold files in Hfd. rewrite Hfd in Hd2. injection Hd2 as <-.
    destruct (reads_received d k k2 bs rest) as [Hr Hrest]; [etrans; [by split|done]|done..|].
    destruct bs as [|b bs].
    { apply (Herr _ []); [done|]. split_and!; try done. intros _. rewrite Hrest. apply Hend; [done|lia]. }
    apply IH.
    + intros (? & ? & ?)%Hf. destruct He2. autorewrite with sizes in *. pose proof (zlen_nonneg bs).
      split_and!; [lia|lia|done].
    + rewrite (reads_files _ _ _ _ Hr). done.
    + autorewrite with sizes in *. lia.
    + intros consumed k3 Hr3. rewrite <- app_assoc. apply Hok. by eapply reads_trans.
    + intros st consumed k3 Hr3 Hst.
      apply (Herr st ((b :: bs) ++ consumed)); [by eapply reads_trans|by eapply read_failure_after].
Qed.

(** ** Writing *)

(** From [k] to [k'], exactly [data] was written to description [d]. *)
Record writes (d : nat) (k k' : k_state) (data : bytes) : Prop := {
  writes_evolves : evolves k k';
  writes_files : files k' = files k;
  writes_incoming : v_incoming (k_view k') = v_incoming (k_view k);
  writes_paths : v_paths (k_view k') = v_paths (k_view k);
  writes_umask : v_umask (k_view k') = v_umask (k_view k);
  writes_stream : sent (k_view k') d = sent (k_view k) d ++ data;
  writes_others d' : d' ≠ d → sent (k_view k') d' = sent (k_view k) d';
}.

Lemma writes_quiet d k k' : quiet k k' → writes d k k' [].
Proof. intros [He E]. split; try done; unfold files; rewrite ?E, ?app_nil_r; done. Qed.

Lemma writes_trans d k1 k2 k3 a b : writes d k1 k2 a → writes d k2 k3 b → writes d k1 k3 (a ++ b).
Proof.
  intros [] []. split; try congruence.
  - by etrans.
  - rewrite app_assoc. congruence.
  - intros d' Hd. rewrite <- writes_others0 by done. auto.
Qed.

Definition write_failure (dl : Deadline) (k k' : k_state) (st : TransportStatus) : Prop :=
  status_ok st = false
  ∧ (ts_code st = StatusCode.Timeout → dl ≠ noDeadline ∧ late dl k k').

Lemma write_failure_after dl d k1 k2 k3 a st :
  writes d k1 k2 a → write_failure dl k2 k3 st → write_failure dl k1 k3 st.
Proof.
  intros Hw (? & Hlate). split; [done|]. intros [? ?]%Hlate.
  split; [done|]. eapply late_mono; [apply Hw|reflexivity|done].
Qed.

Lemma wp_writeLoop total tries fuel fd cfd dl data d k (Q : TransportStatus → k_state → Prop) :
  (total → (k_patience k < tries)%nat ∧ (k_patience k + length data < fuel)%nat
           ∧ dl ≠ noDeadline) →
  files k !! fd = Some d →
  (∀ k', writes d k k' data → Q success k') →
  (∀ st part rest k', data = part ++ rest → writes d k k' part → write_failure dl k k' st → Q st k') →
  wp total (writeLoop tries fuel fd cfd dl data) k Q.
Proof.
  revert data k. induction fuel as [|fuel IH]; intros data k Hf Hfd Hok Herr.
  all: cbn [writeLoop]; destruct (Z.ltb_spec 0 (zlen data)) as [Hl|Hl]; cbn [negb].
  2,4: apply wp_ret, Hok; rewrite (zlen_zero data) by (pose proof (zlen_nonneg data); lia);
       by apply writes_quiet.
  { intros Ht. apply Hf in Ht as (_ & ? & _). unfold zlen in Hl. lia. }
  apply wp_bind, wp_waitFor; [by intros (? & _ & ?)%Hf| |].
  2:{ intros st k1 Hq Hst Heof Hlate. rewrite Hst. cbn.
      apply (Herr st [] data); [done|by apply writes_quiet|]. by split. }
  intros k1 Hq. pose proof Hq as [[Hc1 Hp1] Ev1]. cbn. apply wp_bind.
  eapply wp_outcome; [apply law_send| |].
  - intros e k2 Hq2 _ Herrno Hp2. pose proof (transitivity Hq Hq2) as Hq'.
    apply (writes_quiet d) in Hq' as Hw.
    assert (transient e = true →
      wp total (writeLoop tries fuel fd cfd dl data) k2 Q) as Hagain.
    { intros Htr. specialize (Hp2 Htr). apply IH.
      - intros (? & ? & ?)%Hf. split_and!; [lia|lia|done].
      - by rewrite (writes_files _ _ _ _ Hw).
      - intros k3 Hw3. apply Hok. by eapply (writes_trans _ _ _ _ []).
      - intros st part rest k3 -> Hw3 Hst. eapply Herr; [done|by eapply (writes_trans _ _ _ _ [])|].
        by eapply write_failure_after. }
    unfold transient in Hagain. unfold EWOULDBLOCK.
    destruct (e =? EINTR); cbn; [by apply Hagain|]. destruct (e =? EAGAIN); cbn; [by apply Hagain|].
    apply (Herr _ [] data); [done|done|]. by split.
  - intros n k2 He2 _ ([Hn1 Hn2] & d2 & Hd2 & Ev2).
    rewrite Ev1 in Hd2, Ev2. unfold files in Hfd. rewrite Hfd in Hd2. injection Hd2 as <-.
    assert (writes d k k2 (take (Z.to_nat n) data)) as Hw.
    { split; unfold files; rewrite ?Ev2; try done.
      - etrans; [by split|done].
      - unfold sent. cbn. by rewrite lookup_insert_eq.
      - intros d' Hne. unfold sent. cbn. by rewrite lookup_insert_ne. }
    destruct (Z.ltb_spec 0 n) as [Hn|Hn].
    2:{ eapply Herr; [|done|by split]. symmetry. apply take_drop. }
    apply IH.
    + intros (? & ? & ?)%Hf. destruct He2. rewrite length_drop. unfold zlen in *. split_and!; [lia|lia|done].
    + by rewrite (writes_files _ _ _ _ Hw).
    + intros k3 Hw3. apply Hok. rewrite <- (take_drop (Z.to_nat n) data). by eapply writes_trans.
    + intros st part rest k3 Hpart Hw3 Hst.
      eapply Herr; [|by eapply writes_trans|by eapply write_failure_after].
      rewrite <- app_assoc, <- Hpart. symmetry. apply take_drop.
Qed.

(** ** Operations on an open socket *)

(** The operation fails without having done anything, runs on a duplicate of
    the object's descriptor that is closed afterwards, or finds the object
    closed by another thread. *)
Lemma wp_withOperation total {A} fuel t (otherwise : A) run k (Q : A * UnixSocketTransport → k_state → Prop) :
  (total → (k_patience k < fuel)%nat) →
  (∀ k', quiet k k' → Q (otherwise, t) k') →
  (∀ s k1 op d, t = Some s → 0 <= op → evolves k k1 → files k !! op = None →
     files k !! us_fd s = Some d → k_view k1 = set_files (<[op:=d]>) (k_view k) →
     wp total (run op (us_cancel_fd s)) k1 (fun a k2 => wp total (closeFd op) k2 (fun _ k3 => Q (a, t) k3))) →
  (∀ s k', t = Some s → evolves k k' → files k' = delete (us_fd s) (files k) → untouched k k' →
     Q (otherwise, Some (closed_state s)) k') →
  wp total (withOperation fuel t otherwise run) k Q.
Proof.
  intros Hf Hq Hd Hc. unfold withOperation. destruct t as [s|]; [|by apply wp_ret, Hq].
  apply wp_bind, wp_operationFd; [done|by intros; cbn; apply Hq| |by intros; cbn; eapply Hc].
  intros k1 op d Hfd Hop He Hno Hs Ev. cbn. destruct (Z.ltb_spec op 0); [lia|].
  apply wp_bind. eapply wp_mono; [by eapply Hd|]. cbn. intros a k2 Hw. by apply wp_bind.
Qed.
End Rules.
