(* ===== verification/UnixTransport.v ===== *)
(** * UnixTransport: what the socket transport promises

    The descriptors an object holds and that no operation leaks or closes any
    other; cancellation is final; reading and writing refine a byte stream;
    operations with a deadline return; the object is an [ITransport] that
    satisfies [ITransportLaws], so that the theorems on the service and the SDK
    apply to clients behind Unix sockets. *)

From S2P Require Import Prelude Transport Program Kernel UnixSocket.
Import Unix.

Section Invariant.
Context {K : Kernel} {KL : KernelLaws K}.
Implicit Types (k : k_state) (s : TransportState) (x y : TransportState * k_state).

(** The descriptors in a state are open and distinct; a canceled object has no
    socket. *)
Record holds (s : TransportState) (k : k_state) : Prop := {
  holds_fd : us_fd s = -1 ∨ is_Some (files k !! us_fd s);
  holds_cancel : us_cancel_fd s = -1 ∨ is_Some (files k !! us_cancel_fd s);
  holds_distinct : 0 <= us_fd s → us_fd s ≠ us_cancel_fd s;
  holds_canceled : us_canceled s = true → us_fd s = -1;
}.

(** The descriptors of the process that are not the object's. *)
Definition foreign (s : TransportState) (k : k_state) : gmap Z nat :=
  delete (us_fd s) (delete (us_cancel_fd s) (files k)).

(** What every operation does to an object and the descriptors around it. *)
Record object_step (x y : TransportState * k_state) : Prop := {
  os_evolves : evolves x.2 y.2;
  os_holds : holds y.1 y.2;
  os_foreign : foreign y.1 y.2 = foreign x.1 x.2;
  os_cancel_fd : us_cancel_fd y.1 = us_cancel_fd x.1;
  os_canceled : us_canceled x.1 = true → us_canceled y.1 = true;
}.

#[global] Instance object_step_transitive : Transitive object_step.
Proof.
  intros x y z [] []. split; try congruence; try done.
  - by etrans.
  - eauto.
Qed.

Lemma holds_nonneg s k : holds s k → us_fd s = -1 ∨ 0 <= us_fd s ∧ is_Some (files k !! us_fd s).
Proof. intros [[?|[d Hd]] _ _ _]; [by left|]. right. split; [by eapply law_descriptors|by eexists]. Qed.

Lemma lookup_minus_one k : files k !! (-1) = None.
Proof. destruct (files k !! (-1)) eqn:E; [|done]. apply law_descriptors in E. lia. Qed.

Lemma foreign_files s k k' : files k' = files k → foreign s k' = foreign s k.
Proof. unfold foreign. by intros ->. Qed.

(** Input and output leave the descriptors alone. *)
Lemma step_io s k k' :
  holds s k → evolves k k' → files k' = files k → object_step (s, k) (s, k').
Proof.
  intros [] He Hf. split; cbn; try done; [|by apply foreign_files].
  split; rewrite ?Hf; done.
Qed.

Lemma step_quiet s k k' : holds s k → quiet k k' → object_step (s, k) (s, k').
Proof. intros Hh [He Ev]. apply step_io; unfold files; rewrite ?Ev; done. Qed.

Lemma step_reads s k k' d bs : holds s k → reads d k k' bs → object_step (s, k) (s, k').
Proof. intros Hh []. by apply step_io. Qed.

Lemma step_writes s k k' d bs : holds s k → writes d k k' bs → object_step (s, k) (s, k').
Proof. intros Hh []. by apply step_io. Qed.

(** The socket of the object is closed. *)
Lemma step_drop s k k' c :
  holds s k → (us_canceled s = true → c = true) → evolves k k' →
  files k' = delete (us_fd s) (files k) →
  object_step (s, k) (mkTransportState (us_path s) (-1) (us_cancel_fd s) c, k').
Proof.
  intros Hh Hc He Hf. pose proof (holds_nonneg _ _ Hh) as Hn. destruct Hh as [? Hcf Hd ?].
  split; cbn; try done.
  - split; cbn; [by left| |lia|done]. rewrite Hf. destruct Hcf as [?|Hcf]; [by left|]. right.
    rewrite lookup_delete_ne; [done|]. destruct Hn as [->|[Hn _]]; [|by apply Hd].
    intros E. rewrite <- E, lookup_minus_one in Hcf. by destruct Hcf.
  - unfold foreign. cbn. rewrite Hf. apply map_eq. intros i. rewrite !lookup_delete.
    repeat case_decide; subst; try done. by rewrite lookup_minus_one.
Qed.

Lemma step_closed s k k' :
  holds s k → evolves k k' → files k' = delete (us_fd s) (files k) →
  object_step (s, k) (closed_state s, k').
Proof. intros. by apply step_drop. Qed.

(** A new descriptor the object does not hold yet. *)
Lemma holds_open s k k' op d :
  holds s k → files k !! op = None → files k' = <[op:=d]> (files k) → holds s k'.
Proof.
  intros [Hf Hc Hd Hx] Hn E. split; try done; rewrite E;
    [destruct Hf as [?|Hs]|destruct Hc as [?|Hs]]; (by left) || right;
    rewrite lookup_insert_ne; try done; intros ->; rewrite Hn in Hs; by destruct Hs.
Qed.

Lemma fresh_foreign s k op :
  holds s k → 0 <= op → files k !! op = None → op ≠ us_fd s ∧ op ≠ us_cancel_fd s.
Proof.
  intros [Hf Hc _ _] Hop Hn. split; intros ->; [destruct Hf as [?|Hs]|destruct Hc as [?|Hs]];
    try lia; rewrite Hn in Hs; by destruct Hs.
Qed.

(** A step with a descriptor open on the side that is closed at the end. *)
Lemma step_aside s k k1 op d s2 k2 k3 :
  holds s k → 0 <= op → files k !! op = None → evolves k k1 →
  k_view k1 = set_files (<[op:=d]>) (k_view k) →
  object_step (s, k1) (s2, k2) →
  evolves k2 k3 → files k3 = delete op (files k2) →
  object_step (s, k) (s2, k3).
Proof.
  intros Hh Hop Hno He1 Ev [He2 [Hhf Hhc Hhd Hhx] Hf Hc Hx] He3 Hf3. cbn in *.
  assert (files k1 = <[op:=d]> (files k)) as Hf1 by (unfold files; by rewrite Ev).
  destruct (fresh_foreign _ _ _ Hh Hop Hno) as [Hn1 Hn2].
  assert (foreign s2 k2 !! op = Some d) as Hs2.
  { rewrite Hf. unfold foreign. rewrite !lookup_delete_ne, Hf1, lookup_insert_eq by done. done. }
  assert (op ≠ us_fd s2 ∧ op ≠ us_cancel_fd s2) as [Hn3 Hn4].
  { unfold foreign in Hs2. rewrite !lookup_delete_Some in Hs2. naive_solver. }
  split; cbn; try done.
  - etrans; [done|]. by etrans.
  - split; try done; rewrite Hf3, lookup_delete_ne by done; done.
  - unfold foreign in *. rewrite Hf3.
    apply map_eq. intros i. apply (f_equal (lookup i)) in Hf.
    rewrite !lookup_delete in *. rewrite Hf1, lookup_insert in Hf.
    repeat case_decide; subst; congruence.
Qed.

(** The descriptor on the side becomes the object's socket. *)
Lemma step_adopt s k k1 fd d s2 k2 :
  holds s k → 0 <= fd → files k !! fd = None → evolves k k1 →
  k_view k1 = set_files (<[fd:=d]>) (k_view k) →
  object_step (s, k1) (s2, k2) → us_fd s2 < 0 → us_canceled s2 = false →
  object_step (s, k) (with_fd s2 fd, k2).
Proof.
  intros Hh Hfd Hno He1 Ev [He2 [Hhf Hhc Hhd Hhx] Hf Hc Hx] Hneg Hcan. cbn in *.
  assert (files k1 = <[fd:=d]> (files k)) as Hf1 by (unfold files; by rewrite Ev).
  destruct (fresh_foreign _ _ _ Hh Hfd Hno) as [Hn1 Hn2].
  assert (us_fd s2 = -1) as Hm1.
  { destruct Hhf as [?|[d2 Hd2]]; [done|]. apply law_descriptors in Hd2. lia. }
  assert (foreign s2 k2 !! fd = Some d) as Hs2.
  { rewrite Hf. unfold foreign. rewrite !lookup_delete_ne, Hf1, lookup_insert_eq by done. done. }
  unfold foreign in Hs2. rewrite !lookup_delete_Some in Hs2. destruct Hs2 as (_ & Hn4 & Hs2).
  split; cbn; try done.
  - by etrans.
  - split; cbn; try done; [right; by eexists|congruence].
  - unfold foreign in *. cbn. apply map_eq. intros i. apply (f_equal (lookup i)) in Hf.
    rewrite !lookup_delete in *. rewrite Hf1, lookup_insert in Hf. rewrite Hm1 in Hf.
    repeat case_decide; subst; try congruence; try lia; by rewrite ?lookup_minus_one, ?Hno in *.
Qed.

(** ** The operations *)

Lemma wp_yield_step total fuel s k Q :
  (total → (k_patience k < fuel)%nat) → holds s k →
  (∀ s' k', object_step (s, k) (s', k') → (s' = s ∧ quiet k k' ∨ us_canceled s' = true) → Q s' k') →
  wp total (yield fuel s) k Q.
Proof.
  intros Hf Hh HQ. apply wp_yield; [done| |].
  - intros k' Hq. apply HQ; [by apply step_quiet|by left].
  - intros k' ? ? ?. apply HQ; [by apply step_closed|by right].
Qed.

Lemma wp_resetSocket total fuel s k Q :
  (total → (k_patience k < fuel)%nat) → holds s k →
  (∀ s' k', object_step (s, k) (s', k') → us_fd s' = -1 → Q s' k') →
  wp total (resetSocket fuel s) k Q.
Proof.
  intros Hf Hh HQ. unfold resetSocket. apply wp_bind, wp_yield_step; [done|done|].
  intros s1 k1 Hs _. apply wp_bind, wp_dropSocket. intros k2 He Hfs Hu.
  apply HQ; [|done]. etrans; [exact Hs|]. apply step_drop; try done. apply Hs.
Qed.

Lemma wp_unlessCanceled total fuel s k Q :
  (total → (k_patience k < fuel)%nat) → holds s k →
  (∀ s' k', object_step (s, k) (s', k') →
     Q (if us_canceled s' then canceledStatus else success, s') k') →
  wp total (unlessCanceled fuel s) k Q.
Proof.
  intros Hf Hh HQ. unfold unlessCanceled. apply wp_bind, wp_yield_step; [done|done|].
  intros s1 k1 Hs _. by apply HQ.
Qed.

Lemma patient_mono (total : Prop) fuel k k' :
  (total → (k_patience k < fuel)%nat) → evolves k k' → total → (k_patience k' < fuel)%nat.
Proof. intros Hf [_ ?] Ht. specialize (Hf Ht). lia. Qed.

(** What [connect] reports: success only on an object that is not canceled; a
    timeout only when the deadline has come. *)
Definition connect_report (dl : Deadline) (k k' : k_state) (st : TransportStatus)
    (s' : TransportState) : Prop :=
  (status_ok st = true → us_canceled s' = false)
  ∧ (ts_code st = StatusCode.Timeout → dl ≠ noDeadline ∧ late dl k k').

Lemma wp_connectOn total fuel s op address dl k Q :
  (total → (k_patience k < fuel)%nat ∧ dl ≠ noDeadline) → holds s k →
  (∀ st s' k', object_step (s, k) (s', k') → connect_report dl k k' st s' → Q (st, s') k') →
  wp total (connectOn fuel s op address dl) k Q.
Proof.
  intros Hf Hh HQ. assert (total → (k_patience k < fuel)%nat) as Hp by (intros Ht; by apply Hf).
  assert (∀ k1 st, status_ok st = false → ts_code st ≠ StatusCode.Timeout ∨ dl ≠ noDeadline ∧ late dl k k1 →
    quiet k k1 → wp total (resetSocket fuel s ≫= λ s', mret (st, s')) k1 Q) as Hreset.
  { intros k1 st Hst Ht Hq. pose proof (step_quiet s _ _ Hh Hq) as Hs1.
    apply wp_bind, wp_resetSocket; [by eapply patient_mono; [|apply Hq]|apply Hs1|].
    intros s2 k2 Hs2 _. apply HQ; [by etrans|]. split; [by rewrite Hst|].
    intros Htm. destruct Ht as [?|[? Hl]]; [done|]. split; [done|].
    eapply late_mono; [reflexivity|apply Hs2|done]. }
  assert (∀ k1, quiet k k1 → wp total (unlessCanceled fuel s) k1 Q) as Hdone.
  { intros k1 Hq. pose proof (step_quiet s _ _ Hh Hq) as Hs1.
    apply wp_unlessCanceled; [by eapply patient_mono; [|apply Hq]|apply Hs1|].
    intros s2 k2 Hs2. apply HQ; [by etrans|]. unfold connect_report. by destruct (us_canceled s2). }
  unfold connectOn. apply wp_bind.
  eapply wp_uninterrupted; [done|intros; apply law_connect| |].
  2:{ intros a k1 k2 Hq ? _ ?. apply Hdone. etrans; [done|]. by split. }
  intros e k1 k2 Hq1 Hq2 _ _ _. assert (quiet k k2) as Hq by (by etrans). clear k1 Hq1 Hq2.
  destruct (e =? EINPROGRESS); cbn; [|apply Hreset; auto].
  apply wp_bind, wp_waitFor.
  { intros Ht. split; [|by apply Hf]. by eapply patient_mono; [|apply Hq|]. }
  - intros k3 Hq3. assert (quiet k k3) as Hq' by (by etrans). cbn. apply wp_bind.
    eapply wp_outcome; [apply law_so_error| |].
    + intros e2 k4 Hq4 _ _ _. apply Hreset; [done|by left|by etrans].
    + intros err k4 He4 _ Ev4. assert (quiet k k4) as Hq4 by (etrans; [done|by split]).
      destruct (err =? 0); cbn; [by apply Hdone|apply Hreset; auto].
  - intros st k3 Hq3 Hst _ Hlate. rewrite Hst. cbn. assert (quiet k k3) as Hq' by (by etrans).
    assert (ts_code st = StatusCode.Timeout → dl ≠ noDeadline ∧ late dl k k3) as Hlate'.
    { intros [? ?]%Hlate. split; [done|]. eapply late_mono; [apply Hq|reflexivity|done]. }
    case_bool_decide as Hc; cbn.
    + apply wp_bind, wp_ret, HQ; [by apply step_quiet|]. split; [by rewrite Hst|done].
    + apply Hreset; [done| |done]. destruct (decide (ts_code st = StatusCode.Timeout)); auto.
Qed.

Lemma wp_connectState total fuel s dl k Q :
  (total → (k_patience k < fuel)%nat ∧ dl ≠ noDeadline) → holds s k →
  (∀ st s' k', object_step (s, k) (s', k') → connect_report dl k k' st s' → Q (st, s') k') →
  wp total (connectState fuel s dl) k Q.
Proof.
  intros Hf Hh HQ. assert (total → (k_patience k < fuel)%nat) as Hp by (intros Ht; by apply Hf).
  assert (∀ st k', quiet k k' → status_ok st = false → ts_code st ≠ StatusCode.Timeout → Q (st, s) k') as Hq.
  { intros st k' Hq Hst Ht. apply HQ; [by apply step_quiet|]. split; [by rewrite Hst|done]. }
  unfold connectState. destruct (us_cancel_fd s <? 0); [by apply Hq|].
  destruct (makeAddress (us_path s)) as [address|st] eqn:Ea.
  2:{ apply Hq; [done| |]; unfold makeAddress in Ea;
        destruct (_ || _); congruence || (by injection Ea as <-). }
  apply wp_bind. eapply wp_outcome; [apply law_socket|by intros; apply Hq|].
  intros fd k1 He1 _ (Hfd & Hno & d & Ev1). change (files k !! fd = None) in Hno.
  assert (files k1 = <[fd:=d]> (files k)) as Hf1 by (unfold files; by rewrite Ev1).
  pose proof (holds_open _ _ _ _ _ Hh Hno Hf1) as Hh1.
  apply wp_bind, wp_yield_step; [by eapply patient_mono|done|].
  intros s2 k2 Hs2 _.
  assert (∀ st, status_ok st = false → ts_code st ≠ StatusCode.Timeout →
            wp total (closeFd fd ;; mret (st, s2)) k2 Q) as Hback.
  { intros st Hst Ht. apply wp_bind, wp_closeFd. intros k3 He3 Hf3 _ Hu3. apply HQ.
    - by eapply step_aside.
    - split; [by rewrite Hst|done]. }
  destruct (us_canceled s2) eqn:Hcan; [by apply Hback|].
  destruct (Z.leb_spec 0 (us_fd s2)) as [Hfd2|Hfd2]; [by apply Hback|].
  assert (object_step (s, k) (with_fd s2 fd, k2)) as Hs3 by (by eapply step_adopt).
  apply wp_bind, wp_operationFd; [eapply patient_mono; [done|apply Hs3]| | |].
  - intros k3 Hq3. cbn. apply HQ; [|by split].
    etrans; [exact Hs3|]. apply step_quiet; [apply Hs3|done].
  - intros k3 op dop _ Hop He3 Hno3 _ Ev3. cbn. destruct (Z.ltb_spec op 0); [lia|].
    assert (files k3 = <[op:=dop]> (files k2)) as Hf3 by (unfold files; by rewrite Ev3).
    apply wp_bind, wp_connectOn.
    + intros Ht. split; [|by apply Hf]. eapply patient_mono; [exact Hp| |done]. etrans; [apply Hs3|done].
    + eapply holds_open; [apply Hs3|done|done].
    + intros st s4 k4 Hs4 [Hok Hlate]. cbn. apply wp_bind, wp_closeFd. intros k5 He5 Hf5 _ Hu5.
      assert (object_step (s, k) (s4, k5)) as Hs5.
      { etrans; [exact Hs3|]. eapply step_aside; [apply Hs3|done|done|exact He3|done|exact Hs4|done|done]. }
      apply HQ; [done|]. split; [done|]. intros [? ?]%Hlate. split; [done|].
      eapply late_mono; [|exact He5|done]. etrans; [apply Hs3|done].
  - intros k3 He3 Hf3 Hu3. cbn. apply HQ; [|by split]. etrans; [exact Hs3|].
    apply step_closed; try done. apply Hs3.
Qed.

(** The state of an operation that ran on a duplicate. *)
Lemma step_operation s k k1 op d k2 k3 :
  holds s k → 0 <= op → files k !! op = None → evolves k k1 →
  k_view k1 = set_files (<[op:=d]>) (k_view k) →
  (holds s k1 → object_step (s, k1) (s, k2)) →
  evolves k2 k3 → files k3 = delete op (files k2) →
  object_step (s, k) (s, k3).
Proof.
  intros Hh Hop Hno He Ev Hs. eapply step_aside; try done. apply Hs.
  eapply holds_open; [done|done|]. unfold files. by rewrite Ev.
Qed.
End Invariant.

(** ** The stream behind an object *)

(** What an object can still read. *)
Definition input_of {K : Kernel} {KL : KernelLaws K} (t : UnixSocketTransport) (k : k_state) : bytes :=
  match t with
  | None => []
  | Some s =>
      match files k !! us_fd s with
      | Some d => incoming (k_view k) d
      | None => []
      end
  end.

(** The abstract byte stream: a read of [size] bytes takes the next [size]
    bytes, or fails and drops some. *)
Inductive stream_read (size : Z) : bytes → result TransportStatus bytes → bytes → Prop :=
| stream_read_exactly bs rest :
    zlen bs = size → octets bs → stream_read size (bs ++ rest) (Ok bs) rest
| stream_read_failed dropped rest st :
    status_ok st = false → (ts_code st = StatusCode.EndOfFile → rest = []) →
    stream_read size (dropped ++ rest) (Err st) rest.

(** A write appends all of the data, or fails and appends a prefix of it. *)
Inductive stream_write (data : bytes) : bytes → TransportStatus → bytes → Prop :=
| stream_write_all before : stream_write data before success (before ++ data)
| stream_write_failed before part rest st :
    data = part ++ rest → status_ok st = false → stream_write data before st (before ++ part).

(** The operations preserve what is held: the object's state, or nothing. *)
Definition holds_transport {K : Kernel} {KL : KernelLaws K} (t : UnixSocketTransport) (k : k_state) : Prop :=
  match t with None => True | Some s => holds s k end.

Definition transport_step {K : Kernel} {KL : KernelLaws K}
    (x y : UnixSocketTransport * k_state) : Prop :=
  match x.1, y.1 with
  | Some s, Some s' => object_step (s, x.2) (s', y.2)
  | None, None => quiet x.2 y.2
  | _, _ => False
  end.

Section Streams.
Context {K : Kernel} {KL : KernelLaws K}.
Implicit Types (k : k_state) (t : UnixSocketTransport).

Lemma input_closed s k : input_of (Some (closed_state s)) k = [].
Proof. cbn. by rewrite lookup_minus_one. Qed.

Lemma input_quiet t k k' : quiet k k' → input_of t k' = input_of t k.
Proof. intros [_ E]. unfold input_of, files. by rewrite E. Qed.

Lemma input_open s k d : files k !! us_fd s = Some d → input_of (Some s) k = incoming (k_view k) d.
Proof. cbn. by intros ->. Qed.

(** The descriptor of the object is not the one that is opened and closed
    around an operation. *)
Lemma input_aside s k k1 op d k2 k3 :
  files k !! us_fd s = Some d → files k !! op = None →
  k_view k1 = set_files (<[op:=d]>) (k_view k) → files k2 = files k1 →
  files k3 = delete op (files k2) → v_incoming (k_view k3) = v_incoming (k_view k2) →
  input_of (Some s) k3 = incoming (k_view k2) d.
Proof.
  intros Hd Hno Ev Hf2 Hf3 Hi. cbn. rewrite Hf3, Hf2. unfold files at 1. rewrite Ev. cbn.
  assert (op ≠ us_fd s) by (intros ->; congruence).
  rewrite lookup_delete_ne, lookup_insert_ne by done. fold (files k). rewrite Hd.
  unfold incoming. by rewrite Hi.
Qed.

Lemma transport_quiet t k k' : holds_transport t k → quiet k k' → transport_step (t, k) (t, k').
Proof. destruct t; cbn; [apply step_quiet|done]. Qed.

Lemma wp_readExact total fuel t size dl k Q :
  (total → (k_patience k + Z.to_nat size < fuel)%nat ∧ dl ≠ noDeadline) →
  0 <= size →
  (∀ r t' k', (holds_transport t k → transport_step (t, k) (t', k')) → stream_read size (input_of t k) r (input_of t' k') →
     (r = Err timedOut → dl ≠ noDeadline ∧ late dl k k') → Q (r, t') k') →
  wp total (readExact fuel t size dl) k Q.
Proof.
  intros Hf Hsize HQ. apply wp_withOperation.
  - intros [? _]%Hf. lia.
  - intros k' Hq. apply HQ; [intros; by apply transport_quiet| |done].
    rewrite (input_quiet _ _ _ Hq). by apply (stream_read_failed _ []).
  - intros s k1 op d -> Hop He1 Hno Hd Ev1.
    assert (incoming (k_view k1) d = input_of (Some s) k) as Hin.
    { rewrite (input_open _ _ _ Hd). unfold incoming. by rewrite Ev1. }
    assert (∀ r k2 consumed, reads d k1 k2 consumed →
      stream_read size (consumed ++ incoming (k_view k2) d) r (incoming (k_view k2) d) →
      (r = Err timedOut → dl ≠ noDeadline ∧ late dl k1 k2) →
      wp total (closeFd op) k2 (λ _ k3, Q (r, Some s) k3)) as Hend.
    { intros r k2 consumed Hr Hst Hl. apply wp_closeFd. intros k3 He3 Hf3 Hi3 Hu3. apply HQ.
      - intros Hh. apply (step_operation s k k1 op d k2 k3); try done. intros ?. by eapply step_reads.
      - rewrite <- Hin, (reads_stream _ _ _ _ Hr).
        by rewrite (input_aside s k k1 op d k2 k3) by (done || apply Hr).
      - intros [? ?]%Hl. split; [done|]. by eapply late_mono. }
    eapply (wp_readLoop _ _ _ _ _ _ _ _ d).
    + destruct He1. intros [? ?]%Hf. change (zlen []) with 0. rewrite Z.sub_0_r. split_and!; [lia|lia|done].
    + unfold files. rewrite Ev1. cbn. by rewrite lookup_insert_eq.
    + done.
    + intros consumed k2 Hr Hlen. eapply Hend; [exact Hr| |done].
      apply stream_read_exactly; [done|apply Hr].
    + intros st consumed k2 Hr (Hst & Hl & Heof). eapply Hend; [exact Hr| |].
      * by apply stream_read_failed.
      * intros [= ->]. by apply Hl.
  - intros s k' -> He Hfs Hu. apply HQ; [intros; by apply step_closed| |done].
    rewrite input_closed. rewrite <- (app_nil_r (input_of _ k)). by apply stream_read_failed.
Qed.

Lemma wp_writeAll total fuel t data dl k Q :
  (total → (k_patience k + length data < fuel)%nat ∧ dl ≠ noDeadline) →
  (∀ st t' k', (holds_transport t k → transport_step (t, k) (t', k')) →
     (status_ok st = true → t' = t ∧ ∃ s, t = Some s ∧ is_Some (files k !! us_fd s)) →
     (∀ s d, t = Some s → files k !! us_fd s = Some d →
        stream_write data (sent (k_view k) d) st (sent (k_view k') d)) →
     (input_of t' k' = input_of t k ∨ input_of t' k' = []) →
     (st = timedOut → dl ≠ noDeadline ∧ late dl k k') → Q (st, t') k') →
  wp total (writeAll fuel t data dl) k Q.
Proof.
  intros Hf HQ. apply wp_withOperation.
  - intros [? _]%Hf. lia.
  - intros k' Hq. apply HQ; [intros; by apply transport_quiet|done| |left; by apply input_quiet|done].
    intros s d -> Hd. destruct Hq as [_ ->].
    rewrite <- (app_nil_r (sent (k_view k) d)) at 2. by eapply (stream_write_failed _ _ []).
  - intros s k1 op d -> Hop He1 Hno Hd Ev1.
    assert (∀ st k2 part, writes d k1 k2 part →
      stream_write data (sent (k_view k1) d) st (sent (k_view k1) d ++ part) →
      (st = timedOut → dl ≠ noDeadline ∧ late dl k1 k2) →
      wp total (closeFd op) k2 (λ _ k3, Q (st, Some s) k3)) as Hend.
    { intros st k2 part Hw Hst Hl. apply wp_closeFd. intros k3 He3 Hf3 Hi3 Hu3. apply HQ.
      - intros Hh. apply (step_operation s k k1 op d k2 k3); try done. intros ?. by eapply step_writes.
      - intros _. split; [done|]. by eauto.
      - intros s' d' [= <-] Hd'. rewrite Hd in Hd'. injection Hd' as <-.
        destruct Hu3 as (Hs3 & _). unfold sent at 2. rewrite Hs3. fold (sent (k_view k2) d).
        rewrite (writes_stream _ _ _ _ Hw). unfold sent in Hst |- *. by rewrite Ev1 in Hst |- *.
      - left. rewrite (input_aside s k k1 op d k2 k3) by (done || apply Hw).
        rewrite (input_open _ _ _ Hd). unfold incoming.
        by rewrite (writes_incoming _ _ _ _ Hw), Ev1.
      - intros [? ?]%Hl. split; [done|]. by eapply late_mono. }
    eapply (wp_writeLoop _ _ _ _ _ _ _ d).
    + destruct He1. intros [? ?]%Hf. split_and!; [lia|lia|done].
    + unfold files. rewrite Ev1. cbn. by rewrite lookup_insert_eq.
    + intros k2 Hw. eapply Hend; [exact Hw|apply stream_write_all|done].
    + intros st part rest k2 Hpart Hw (Hst & Hl). eapply Hend; [exact Hw|by eapply stream_write_failed|].
      intros ->. by apply Hl.
  - intros s k' -> He Hfs Hu. apply HQ; [intros; by apply step_closed|done| |right; apply input_closed|done].
    intros s' d [= <-] Hd. unfold sent at 2. destruct Hu as (-> & _). fold (sent (k_view k) d).
    rewrite <- (app_nil_r (sent (k_view k) d)) at 2. by eapply (stream_write_failed _ _ []).
Qed.

Lemma wp_connect total fuel t dl k Q :
  (total → (k_patience k < fuel)%nat ∧ dl ≠ noDeadline) → holds_transport t k →
  (∀ st t' k', transport_step (t, k) (t', k') →
     (∀ s', t' = Some s' → connect_report dl k k' st s') → (t = None → st = systemError EMFILE) →
     Q (st, t') k') →
  wp total (connect fuel t dl) k Q.
Proof.
  intros Hf Hh HQ. destruct t as [s|]; cbn [connect].
  - apply wp_bind, wp_connectState; [done|done|]. intros st s' k' Hs Hr. cbn.
    apply HQ; [done| |done]. by intros ? [= <-].
  - by apply wp_ret, HQ.
Qed.

Lemma wp_close total fuel t k Q :
  (total → (k_patience k < fuel)%nat) → holds_transport t k →
  (∀ t' k', transport_step (t, k) (t', k') →
     (t' = match t with None => None | Some s => Some (closed_state s) end) → Q t' k') →
  wp total (close fuel t) k Q.
Proof.
  intros Hf Hh HQ. destruct t as [s|]; cbn [close]; [|by apply HQ].
  apply wp_bind, wp_closeState; [done|]. intros k' He Hfs Hu. apply HQ; [by apply step_closed|done].
Qed.

Lemma wp_peerCredentials total fuel t k Q :
  (total → (k_patience k < fuel)%nat) → holds_transport t k →
  (∀ r t' k', transport_step (t, k) (t', k') → Q (r, t') k') →
  wp total (peerCredentials fuel t) k Q.
Proof.
  intros Hf Hh HQ. apply wp_withOperation; [done|by intros; apply HQ, transport_quiet| |].
  - intros s k1 op d -> Hop He1 Hno Hd Ev1. apply wp_bind, wp_call.
    pose proof (outcome_quiet _ _ _ (law_so_peercred op k1) (λ _ _ _ E, E)) as Hq.
    apply wp_closeFd. intros k3 He3 Hf3 _ Hu3. apply HQ. apply (step_operation s k k1 op d (sys_so_peercred op k1).2 k3); try done.
    intros ?. by apply step_quiet.
  - intros s k' -> He Hfs Hu. by apply HQ, step_closed.
Qed.

Lemma wp_isOpen total fuel t k Q :
  (total → (k_patience k < fuel)%nat) → holds_transport t k →
  (∀ b t' k', transport_step (t, k) (t', k') →
     b = match t' with None => false | Some s => 0 <=? us_fd s end → Q (b, t') k') →
  wp total (isOpen fuel t) k Q.
Proof.
  intros Hf Hh HQ. destruct t as [s|]; cbn [isOpen]; [|by apply HQ].
  apply wp_bind, wp_yield_step; [done|done|]. intros s' k' Hs _. by apply HQ.
Qed.
End Streams.

(** ** The life of an object *)

(** One call of an operation that returned. *)
Inductive used {K : Kernel} {KL : KernelLaws K}
  : UnixSocketTransport * k_state → UnixSocketTransport * k_state → Prop :=
| used_connect fuel dl t k st t' k' :
    connect fuel t dl k = Done ((st, t'), k') → used (t, k) (t', k')
| used_read fuel size dl t k r t' k' :
    0 <= size → readExact fuel t size dl k = Done ((r, t'), k') → used (t, k) (t', k')
| used_write fuel data dl t k st t' k' :
    writeAll fuel t data dl k = Done ((st, t'), k') → used (t, k) (t', k')
| used_close fuel t k t' k' :
    close fuel t k = Done (t', k') → used (t, k) (t', k')
| used_credentials fuel t k r t' k' :
    peerCredentials fuel t k = Done ((r, t'), k') → used (t, k) (t', k')
| used_isOpen fuel t k b t' k' :
    isOpen fuel t k = Done ((b, t'), k') → used (t, k) (t', k').

Section Life.
Context {K : Kernel} {KL : KernelLaws K}.
Implicit Types (k : k_state) (t : UnixSocketTransport).

Lemma used_step t k t' k' : holds_transport t k → used (t, k) (t', k') → transport_step (t, k) (t', k').
Proof.
  intros Hh Hu. inversion Hu; subst; clear Hu; match goal with H : _ = Done _ |- _ => revert H end.
  4: apply (wp_partial _ _ (λ t' k', transport_step (t, k) (t', k'))); by apply wp_close.
  all: apply (wp_partial _ _ (λ r k', transport_step (t, k) (r.2, k'))).
  - by apply wp_connect.
  - apply wp_readExact; [done|done|]. intros; auto.
  - apply wp_writeAll; [done|]. intros; auto.
  - by apply wp_peerCredentials.
  - by apply wp_isOpen.
Qed.

Lemma transport_step_holds t k t' k' : transport_step (t, k) (t', k') → holds_transport t' k'.
Proof. unfold transport_step. destruct t, t'; try done. apply os_holds. Qed.

Lemma used_transitively t k t' k' :
  holds_transport t k → rtc used (t, k) (t', k') →
  holds_transport t' k' ∧ transport_step (t, k) (t', k').
Proof.
  intros Hh Hu. remember (t, k) as x eqn:Ex. remember (t', k') as y eqn:Ey.
  revert t k Hh Ex. induction Hu as [z|a [t1 k1] c Ha Hu IH]; intros t k Hh ->.
  - injection Ey as -> ->. split; [done|]. by apply transport_quiet.
  - apply used_step in Ha; [|done]. destruct (IH Ey t1 k1) as [? Hs]; [by eapply transport_step_holds|done|].
    subst c. split; [done|]. unfold transport_step in *. cbn in *. destruct t as [s|], t1, t'; try done; by etrans.
Qed.

Lemma wp_newTransport total path k Q :
  (∀ s k', holds s k' → foreign s k' = files k → us_canceled s = false → us_fd s = -1 → us_path s = path →
     v_paths (k_view k') = v_paths (k_view k) → Q (Some s) k') →
  wp total (newTransport path) k Q.
Proof.
  intros HQ. unfold newTransport, createCancelFd. apply wp_bind, wp_bind.
  eapply wp_outcome; [apply law_eventfd| |].
  - intros e k' [_ Ev] _ _ _. apply wp_ret, wp_ret, HQ; try done.
    + by split; cbn; auto.
    + unfold foreign. cbn. rewrite !delete_negative by lia. unfold files. by rewrite Ev.
    + by rewrite Ev.
  - intros fd k' _ _ (Hfd & Hno & d & Ev). apply wp_ret, wp_ret.
    assert (files k' = <[fd:=d]> (files k)) as Hf by (unfold files; by rewrite Ev).
    apply HQ; try done.
    + split; cbn; auto. right. rewrite Hf, lookup_insert_eq. by eexists.
    + unfold foreign. cbn. rewrite Hf, delete_insert_id by done. by apply delete_negative.
    + by rewrite Ev.
Qed.

Lemma wp_destroy total fuel s k (Q : () → k_state → Prop) :
  (total → (k_patience k < fuel)%nat) → holds s k →
  (∀ k', files k' = foreign s k → Q () k') →
  wp total (destroy fuel (Some s)) k Q.
Proof.
  intros Hf Hh HQ. unfold destroy. apply wp_bind, wp_closeState; [done|].
  intros k1 He1 Hf1 _. unfold destroyState. apply wp_bind, wp_closeFd.
  intros k2 He2 Hf2 _ _. apply wp_closeFd. intros k3 _ Hf3 _ _. apply HQ.
  rewrite Hf3, Hf2, delete_negative, Hf1 by (cbn; lia). apply delete_delete.
Qed.

(** C16. No descriptor is leaked and none is closed that is not the object's: an
    object is created, used by any sequence of operations that succeed or fail
    in any way, with [close()] calls from other threads in between, and
    destroyed; the process then has exactly the descriptors it had before.  In
    between, the descriptors in the object are open, and a canceled object has
    no socket. *)
Theorem transport_balances_descriptors path k t0 k0 t1 k1 fuel k2 :
  newTransport path k = Done (t0, k0) → rtc used (t0, k0) (t1, k1) →
  destroy fuel t1 k1 = Done ((), k2) →
  holds_transport t1 k1 ∧ files k2 = files k.
Proof.
  intros Hn Hu Hd.
  apply (wp_partial _ _ (λ t k', ∃ s, t = Some s ∧ holds s k' ∧ foreign s k' = files k)) in Hn
    as (s & -> & Hh & Hf); [|apply wp_newTransport; eauto].
  apply used_transitively in Hu as [Hh1 Hs]; [|done]. split; [done|].
  unfold transport_step in Hs. cbn in Hs. destruct t1 as [s1|]; [|done].
  revert Hd. apply (wp_partial _ _ (λ _ k', files k' = files k)). apply wp_destroy; [done|done|].
  intros k' ->. etrans; [apply (os_foreign _ _ Hs)|done].
Qed.

(** [close()] is final: whatever happens to the object afterwards, it stays
    canceled and without a socket, and no operation does anything any more. *)
Theorem close_is_final fuel t k t0 k0 t1 k1 :
  holds_transport t k → close fuel t k = Done (t0, k0) → rtc used (t0, k0) (t1, k1) →
  (∀ n size dl r t2 k2, 0 <= size → readExact n t1 size dl k1 = Done ((r, t2), k2) →
     r = Err canceledStatus)
  ∧ (∀ n data dl st t2 k2, writeAll n t1 data dl k1 = Done ((st, t2), k2) → st = canceledStatus)
  ∧ (∀ n dl st t2 k2, connect n t1 dl k1 = Done ((st, t2), k2) → status_ok st = false)
  ∧ (∀ n b t2 k2, isOpen n t1 k1 = Done ((b, t2), k2) → b = false).
Proof.
  intros Hh Hc Hu.
  apply (wp_partial _ _ (λ t' k', holds_transport t' k' ∧ match t' with None => True | Some s => us_canceled s = true end)) in Hc
    as [Hh0 Hc0].
  2:{ apply wp_close; [done|done|]. intros t' k' Hs ->. split; [by eapply transport_step_holds|]. by destruct t. }
  apply used_transitively in Hu as [Hh1 Hs]; [|done].
  assert (match t1 with None => True | Some s => us_canceled s = true ∧ us_fd s = -1 end) as Hc1.
  { unfold transport_step in Hs. cbn in Hs. destruct t0 as [s0|], t1 as [s1|]; try done.
    pose proof (os_canceled _ _ Hs Hc0) as Hcan. cbn in Hcan. split; [done|]. by apply Hh1. }
  clear - Hc1 Hh1.
  assert (∀ A n (otherwise : A) run k2 r, withOperation n t1 otherwise run k1 = Done (r, k2) → r.1 = otherwise) as Hop.
  { intros A n otherwise run k2 r. apply (wp_partial _ _ (λ r _, r.1 = otherwise)).
    apply wp_withOperation; try done. intros s k3 op d -> _ _ _ Hd _. destruct Hc1 as [_ Hfd].
    rewrite Hfd, lookup_minus_one in Hd. done. }
  split_and!.
  - intros n size dl r t2 k2 _ H. by apply Hop in H.
  - intros n data dl st t2 k2 H. by apply Hop in H.
  - intros n dl st t2 k2. apply (wp_partial _ _ (λ r _, status_ok r.1 = false)).
    apply wp_connect; [done|done|]. intros st' t' k' Hs Hr Hn. cbn.
    unfold transport_step in Hs. cbn in Hs. destruct t1 as [s1|], t' as [s'|]; try done; [|by rewrite Hn].
    destruct (status_ok st') eqn:E; [|done]. destruct (Hr _ eq_refl) as [Hok _]. specialize (Hok E).
    pose proof (os_canceled _ _ Hs) as Hx. cbn in Hx. destruct Hc1 as [Hc1 _]. rewrite Hx in Hok; done.
  - intros n b t2 k2. apply (wp_partial _ _ (λ r _, r.1 = false)).
    apply wp_isOpen; [done|done|]. intros b' t' k' Hs ->. cbn.
    unfold transport_step in Hs. cbn in Hs. destruct t1 as [s1|], t' as [s'|]; try done.
    destruct Hc1 as [Hc1 _]. pose proof (os_canceled _ _ Hs Hc1) as Hx. cbn in Hx.
    destruct (os_holds _ _ Hs) as [_ _ _ Hfd]. cbn in Hfd. by rewrite Hfd.
Qed.

(** C10. Reading refines the abstract stream: [readExact] returns exactly the
    next [size] bytes the peer sent, in order and none skipped or repeated, or
    an error; [EndOfFile] is reported only when the stream has ended, and a
    timeout only when the deadline has passed (or [poll] has waited the
    [INT_MAX] milliseconds it can). *)
Theorem readExact_refines_stream fuel t size dl k r t' k' :
  0 <= size → readExact fuel t size dl k = Done ((r, t'), k') →
  stream_read size (input_of t k) r (input_of t' k')
  ∧ (r = Err timedOut → dl ≠ noDeadline ∧ late dl k k').
Proof.
  intros Hs. apply (wp_partial _ _ (λ r k', stream_read size (input_of t k) r.1 (input_of r.2 k')
    ∧ (r.1 = Err timedOut → dl ≠ noDeadline ∧ late dl k k'))).
  apply wp_readExact; [done|done|]. intros r1 t1 k1 _ Hr Hl. done.
Qed.

(** C11. Writing refines the abstract stream: a successful [writeAll] has
    appended exactly the data to what the peer receives, a failed one a prefix
    of it. *)
Theorem writeAll_refines_stream fuel s data dl k d st t' k' :
  files k !! us_fd s = Some d → writeAll fuel (Some s) data dl k = Done ((st, t'), k') →
  stream_write data (sent (k_view k) d) st (sent (k_view k') d).
Proof.
  intros Hd. apply (wp_partial _ _ (λ r k', stream_write data (sent (k_view k) d) r.1 (sent (k_view k') d))).
  apply wp_writeAll; [done|]. intros st1 t1 k1 _ _ Hw _ _. by apply (Hw s).
Qed.

(** Operations with a deadline return: reading and writing take at most one
    iteration per byte and per disturbance (signal, spurious wake-up), whatever
    the peer does. *)
Theorem operations_return fuel t size data dl k :
  0 <= size → dl ≠ noDeadline →
  (k_patience k + Z.to_nat size < fuel)%nat → (k_patience k + length data < fuel)%nat →
  (∃ r t' k', readExact fuel t size dl k = Done ((r, t'), k'))
  ∧ (∃ st t' k', writeAll fuel t data dl k = Done ((st, t'), k'))
  ∧ (∃ b t' k', isOpen fuel t k = Done ((b, t'), k'))
  ∧ (∃ t' k', close fuel t k = Done (t', k'))
  ∧ (holds_transport t k → ∃ st t' k', connect fuel t dl k = Done ((st, t'), k')).
Proof.
  intros Hs Hdl Hr Hw.
  assert (∀ A (m : sys (A * UnixSocketTransport)), wp True m k (λ _ _, True) →
            ∃ a t' k', m k = Done ((a, t'), k')) as Htotal.
  { intros A m H. apply wp_total in H as ([a t'] & k' & H & _). eauto. }
  split_and!.
  - apply Htotal, wp_readExact; auto.
  - apply Htotal, wp_writeAll; auto.
  - apply Htotal. destruct t as [s|]; cbn [isOpen]; [|done]. apply wp_bind, wp_yield; [lia|done|done].
  - destruct (wp_total (close fuel t) k (λ _ _, True)) as (t' & k' & H & _); [|eauto].
    destruct t as [s|]; cbn [close]; [|done]. apply wp_bind, wp_closeState; [lia|done].
  - intros Hh. apply Htotal, wp_connect; auto. intros _. split; [lia|done].
Qed.
End Life.

(** ** The object as an [ITransport] *)

Section Instance_.
Context {K : Kernel} {KL : KernelLaws K}.

(** A call that returns; the second argument stands for one that does not, which
    [operations_return] excludes for calls with a deadline. *)
Definition settled {A} (x : exec ((A * UnixSocketTransport) * k_state))
    (blocked : A * (UnixSocketTransport * k_state)) : A * (UnixSocketTransport * k_state) :=
  match x with
  | Done ((a, t), k) => (a, (t, k))
  | _ => blocked
  end.

(** Enough iterations for a call that moves [n] bytes. *)
Definition enough (k : k_state) (n : nat) : nat := S (k_patience k + n).

Definition unix_transport : ITransport :=
  {| tr_state := UnixSocketTransport * k_state;
     tr_now := fun st => k_clock st.2;
     tr_connect := fun dl st =>
       settled (connect (enough st.2 0) st.1 dl st.2) (timedOut, st);
     (* the size of a span is not negative *)
     tr_readExact := fun size dl st =>
       settled (readExact (enough st.2 (Z.to_nat size)) st.1 (Z.max 0 size) dl st.2)
         (Err timedOut, st);
     tr_writeAll := fun data dl st =>
       settled (writeAll (enough st.2 (length data)) st.1 data dl st.2) (timedOut, st);
     tr_close := fun st =>
       match close (enough st.2 0) st.1 st.2 with
       | Done (t, k) => (t, k)
       | _ => st
       end |}.

#[global] Instance unix_transport_laws : ITransportLaws unix_transport.
Proof.
  split. intros n d [t k] bs [t' k'] Hn. cbn.
  rewrite Z.max_r by done. destruct (readExact _ t n d k) as [[[r t1] k1]| |] eqn:E; cbn; [|done|done].
  intros [= -> -> ->].
  refine (wp_partial _ _ (λ r _, r.1 = Ok bs → zlen bs = n ∧ octets bs) _ _ _ E eq_refl).
  apply wp_readExact; [done|done|]. intros r t1 k1 _ Hr _. cbn. intros ->. by inversion Hr.
Qed.
End Instance_.
