(* ===== verification/UnixListener.v ===== *)
(** * UnixListener: the listening socket of the service

    Models [removeStaleSocket] and [UnixSocketListener] of
    [src/ya_license_transport/src/unix_socket.cpp]: a listener owns the
    directory entry of its socket.  It replaces an entry only if that is a
    socket nobody listens on, and removes an entry only if that is (still) its
    own.  The conventions are those of [UnixSocket.v]. *)

From S2P Require Import Prelude Transport Program Kernel UnixSocket UnixTransport.
Import Unix.

(** [UnixSocketListener::State] *)
Record ListenerState := mkListenerState {
  ul_path : string;
  ul_mode : Z;
  ul_backlog : Z;
  ul_fd : Z;
  ul_cancel_fd : Z;
  ul_device : Z;
  ul_inode : Z;
  ul_owns_path : bool;
  ul_canceled : bool;
}.

Definition listener_closed (s : ListenerState) : ListenerState :=
  mkListenerState (ul_path s) (ul_mode s) (ul_backlog s) (-1) (ul_cancel_fd s)
    (ul_device s) (ul_inode s) false true.

Module Listener.
Section Listener.
Context {K : Kernel}.

(** The end of [removeStaleSocket]: the entry is looked at again and removed if
    it is the one that refused the connection. *)
Definition removeRefusing (path : string) (metadata : StatBuf) : sys TransportStatus :=
  again ← call (sys_lstat (c_str path));
  match again with
  | Err e => mret (if e =? ENOENT then success else systemError e)
  | Ok current =>
      if negb (S_ISSOCK (st_mode current)) || negb (st_dev current =? st_dev metadata)
         || negb (st_ino current =? st_ino metadata)
      then mret (systemError EAGAIN)
      else
        removed ← call (sys_unlink (c_str path));
        mret (match removed with Ok _ => success | Err e => systemError e end)
  end.

Definition removeStaleSocket (fuel : nat) (path : string) : sys TransportStatus :=
  found ← call (sys_lstat (c_str path));
  match found with
  | Err e => mret (if e =? ENOENT then success else systemError e)
  | Ok metadata =>
  if negb (S_ISSOCK (st_mode metadata)) then mret (systemError EEXIST)
  else
  match makeAddress path with
  | Err status => mret status
  | Ok address =>
  created ← call sys_socket;
  match created with
  | Err e => mret (systemError e)
  | Ok probe =>
  result ← uninterrupted fuel (sys_connect probe address);
  closeFd probe ;;
  match result with
  | Ok _ => mret (systemError EADDRINUSE)
  | Err connect_error =>
      if (connect_error =? EINPROGRESS) || (connect_error =? EAGAIN) || (connect_error =? EALREADY)
      then mret (systemError EADDRINUSE)
      else if connect_error =? ENOENT then mret success
      else if negb (connect_error =? ECONNREFUSED) then mret (systemError connect_error)
      else removeRefusing path metadata
  end
  end
  end
  end.

Definition newListener (path : string) (mode backlog : Z) : sys (option ListenerState) :=
  cancel_fd ← createCancelFd;
  mret (Some (mkListenerState path mode backlog (-1) cancel_fd 0 0 false false)).

(** [close()]: the entry is removed if it is still the one that was bound. *)
Definition closeListener (fuel : nat) (s : ListenerState) : sys ListenerState :=
  signalCancel fuel (ul_cancel_fd s) ;;
  closeFd (ul_fd s) ;;
  (if ul_owns_path s then
     found ← call (sys_lstat (c_str (ul_path s)));
     match found with
     | Ok metadata =>
         if S_ISSOCK (st_mode metadata) && (st_dev metadata =? ul_device s)
            && (st_ino metadata =? ul_inode s)
         then call (sys_unlink (c_str (ul_path s))) ;; mret ()
         else mret ()
     | Err _ => mret ()
     end
   else mret ()) ;;
  mret (listener_closed s).

Definition yieldListener (fuel : nat) (s : ListenerState) : sys ListenerState :=
  preempted ← call k_preempted;
  if (preempted : bool) then closeListener fuel s else mret s.

(** [State::operationFd] *)
Definition listenerFd (fuel : nat) (s : ListenerState) : sys (ListenerState * Z) :=
  s ← yieldListener fuel s;
  value ← (if ul_fd s <? 0 then mret (-1) else duplicateFd fuel (ul_fd s));
  mret (s, value).

(** [bind] with no permissions for others until [chmod] *)
Definition bindPrivately (fd : Z) (address : Address) : sys (result Z ()) :=
  previous_umask ← call (sys_umask 63);
  bind_result ← call (sys_bind fd address);
  call (sys_umask previous_umask) ;;
  mret bind_result.

(** Undo a [bind]: close the socket and remove its entry. *)
Definition abandon (fd : Z) (path : string) : sys () :=
  closeFd fd ;; call (sys_unlink (c_str path)) ;; mret ().

(** [chmod(...) < 0 || listen(...) < 0] *)
Definition openToClients (fd : Z) (s : ListenerState) : sys (result Z ()) :=
  changed ← call (sys_chmod (c_str (ul_path s)) (ul_mode s));
  match changed with
  | Err e => mret (Err e)
  | Ok _ => call (sys_listen fd (ul_backlog s))
  end.

(** The last part of [listen]: the bound socket becomes the listener's. *)
Definition adoptBound (fuel : nat) (s : ListenerState) (fd : Z) (metadata : StatBuf)
  : sys (TransportStatus * ListenerState) :=
  s ← yieldListener fuel s;
  if ul_canceled s then abandon fd (ul_path s) ;; mret (canceledStatus, s)
  else if 0 <=? ul_fd s then abandon fd (ul_path s) ;; mret (systemError EADDRINUSE, s)
  else
    mret (success, mkListenerState (ul_path s) (ul_mode s) (ul_backlog s) fd (ul_cancel_fd s)
                     (st_dev metadata) (st_ino metadata) true (ul_canceled s)).

(** [listen] from [bind] on *)
Definition bindAndListen (fuel : nat) (s : ListenerState) (fd : Z) (address : Address)
  : sys (TransportStatus * ListenerState) :=
  bind_result ← bindPrivately fd address;
  match bind_result with
  | Err e => closeFd fd ;; mret (systemError e, s)
  | Ok _ =>
  opened ← openToClients fd s;
  match opened with
  | Err e => abandon fd (ul_path s) ;; mret (systemError e, s)
  | Ok _ =>
  found ← call (sys_lstat (c_str (ul_path s)));
  match found with
  | Err e => abandon fd (ul_path s) ;; mret (systemError e, s)
  | Ok metadata => adoptBound fuel s fd metadata
  end
  end
  end.

Definition listenState (fuel : nat) (s : ListenerState) : sys (TransportStatus * ListenerState) :=
  if (ul_backlog s <=? 0) || negb (Z.ldiff (ul_mode s) 511 =? 0) then mret (invalidArgument, s)
  else if ul_cancel_fd s <? 0 then mret (systemError EMFILE, s)
  else
  s ← yieldListener fuel s;
  if ul_canceled s then mret (canceledStatus, s)
  else if 0 <=? ul_fd s then mret (systemError EADDRINUSE, s)
  else
  match makeAddress (ul_path s) with
  | Err status => mret (status, s)
  | Ok address =>
  status ← removeStaleSocket fuel (ul_path s);
  if negb (status_ok status) then mret (status, s)
  else
  created ← call sys_socket;
  match created with
  | Err e => mret (systemError e, s)
  | Ok fd => bindAndListen fuel s fd address
  end
  end.

Definition listen (fuel : nat) (l : option ListenerState) : sys (TransportStatus * option ListenerState) :=
  match l with
  | None => mret (invalidArgument, None)
  | Some s => '(status, s) ← listenState fuel s; mret (status, Some s)
  end.

(** The cancel descriptor of a new transport. *)
Definition cancelFdOf (t : UnixSocketTransport) : Z :=
  match t with None => -1 | Some s => us_cancel_fd s end.

Fixpoint acceptLoop (tries fuel : nat) (fd cancel_fd : Z) (deadline : Deadline)
  : sys (result TransportStatus UnixSocketTransport) :=
  match fuel with
  | O => fun _ => Running
  | S fuel' =>
      status ← waitFor tries fd cancel_fd POLLIN deadline;
      if negb (status_ok status) then mret (Err status)
      else
      accepted ← call (sys_accept4 fd);
      match accepted with
      | Ok fd =>
          transport ← acceptedTransport fd;
          if cancelFdOf transport <? 0
          then destroy tries transport ;; mret (Err (systemError EMFILE))
          else mret (Ok transport)
      | Err e =>
          if negb (e =? EINTR) && negb (e =? EAGAIN) && negb (e =? EWOULDBLOCK)
          then mret (Err (systemError e))
          else acceptLoop tries fuel' fd cancel_fd deadline
      end
  end.

Definition accept (fuel : nat) (l : option ListenerState) (deadline : Deadline)
  : sys (result TransportStatus UnixSocketTransport * option ListenerState) :=
  match l with
  | None => mret (Err canceledStatus, None)
  | Some s =>
      '(s, operation) ← listenerFd fuel s;
      if operation <? 0 then mret (Err canceledStatus, Some s)
      else
        r ← acceptLoop fuel fuel operation (ul_cancel_fd s) deadline;
        closeFd operation ;; mret (r, Some s)
  end.

Definition close (fuel : nat) (l : option ListenerState) : sys (option ListenerState) :=
  match l with
  | None => mret None
  | Some s => s ← closeListener fuel s; mret (Some s)
  end.

Definition isOpen (fuel : nat) (l : option ListenerState) : sys (bool * option ListenerState) :=
  match l with
  | None => mret (false, None)
  | Some s => s ← yieldListener fuel s; mret (0 <=? ul_fd s, Some s)
  end.

(** [~UnixSocketListener] *)
Definition destroyListener (fuel : nat) (l : option ListenerState) : sys () :=
  match l with
  | None => mret ()
  | Some s => s ← closeListener fuel s; closeFd (ul_fd s) ;; closeFd (ul_cancel_fd s)
  end.
End Listener.
End Listener.
Import Listener.

(** ** The directory *)

Section Directory.
Context {K : Kernel} {KL : KernelLaws K}.
Implicit Types (k : k_state) (s : ListenerState).

Definition paths (k : k_state) : gmap bytes StatBuf := v_paths (k_view k).

(** A socket that nobody listens on. *)
Definition stale (k : k_state) (e : StatBuf) : Prop :=
  S_ISSOCK (st_mode e) = true ∧ ¬ live (k_view k) e.

(** The entry the listener has bound. *)
Definition own (s : ListenerState) (e : StatBuf) : Prop :=
  ul_owns_path s = true ∧ S_ISSOCK (st_mode e) = true
  ∧ st_dev e = ul_device s ∧ st_ino e = ul_inode s.

Lemma wp_removeRefusing total path metadata k Q :
  (∀ st k', evolves k k' →
     k_view k' = k_view k
     ∨ k_view k' = set_paths (delete (c_str path)) (k_view k)
       ∧ (∃ e, paths k !! c_str path = Some e) → Q st k') →
  wp total (removeRefusing path metadata) k Q.
Proof.
  intros HQ. unfold removeRefusing. apply wp_bind. eapply wp_outcome; [apply law_lstat| |].
  - intros e k' [? ?] _ _ _. by apply wp_ret, HQ; [|left].
  - intros e k1 He1 _ [Ev1 Hp]. destruct (_ || _); [by apply wp_ret, HQ; [|left]|].
    apply wp_bind. eapply wp_outcome; [apply law_unlink| |].
    + intros err k2 [He2 Ev2] _ _ _. apply wp_ret, HQ; [by etrans|]. left. congruence.
    + intros [] k2 He2 _ Ev2. apply wp_ret, HQ; [by etrans|]. right.
      split; [by rewrite Ev2, Ev1|by eexists].
Qed.

Lemma wp_removeStaleSocket total fuel path k Q :
  (total → (k_patience k < fuel)%nat) → c_str path ≠ [] →
  (∀ st k', evolves k k' → files k' = files k → v_umask (k_view k') = v_umask (k_view k) →
     paths k' = paths k
     ∨ paths k' = delete (c_str path) (paths k)
       ∧ (∃ e, paths k !! c_str path = Some e ∧ stale k e) → Q st k') →
  wp total (removeStaleSocket fuel path) k Q.
Proof.
  intros Hf Hc HQ.
  assert (∀ st k', quiet k k' → Q st k') as Hq.
  { intros st k' [? Ev]. apply HQ; unfold files, paths; rewrite ?Ev; auto. }
  unfold removeStaleSocket. apply wp_bind. eapply wp_outcome; [apply law_lstat|by intros; apply wp_ret, Hq|].
  intros e k1 He1 _ [Ev1 Hp]. assert (quiet k k1) as Hq1 by (by split).
  destruct (S_ISSOCK (st_mode e)) eqn:Hsock; cbn [negb]; [|by apply wp_ret, Hq].
  destruct (makeAddress path) as [a|] eqn:Ea; [|by apply wp_ret, Hq].
  pose proof (makeAddress_name _ _ Ea Hc) as Hname.
  apply wp_bind. eapply wp_outcome; [apply law_socket|by intros; apply wp_ret, Hq; etrans|].
  intros probe k2 He2 _ (Hprobe & Hno & d & Ev2). rewrite Ev1 in Hno, Ev2.
  (* the probe is closed on every way *)
  assert (∀ k3 k4, quiet k2 k3 → evolves k3 k4 → files k4 = delete probe (files k3) → untouched k3 k4 →
    evolves k k4 ∧ files k4 = files k ∧ v_umask (k_view k4) = v_umask (k_view k) ∧ paths k4 = paths k) as Hclosed.
  { intros k3 k4 [He3 Ev3] He4 Hf4 (_ & Hp4 & Hu4). split_and!.
    - etrans; [exact He1|]. etrans; [exact He2|]. by etrans.
    - rewrite Hf4. unfold files. rewrite Ev3, Ev2. by apply delete_insert_id.
    - by rewrite Hu4, Ev3, Ev2.
    - unfold paths. by rewrite Hp4, Ev3, Ev2. }
  apply wp_bind. eapply wp_uninterrupted; [|intros; apply law_connect| |].
  - intros Ht. specialize (Hf Ht). destruct He1, He2. lia.
  - intros err k3 k4 Hq3 Hq4 Hconn _ _. apply wp_bind, wp_closeFd. intros k5 He5 Hf5 _ Hu5.
    destruct (Hclosed k4 k5) as (He & Hfs & Hum & Hps); [by etrans|done|done|done|].
    destruct (_ || _); [apply wp_ret, HQ; auto|]. destruct (err =? ENOENT); [apply wp_ret, HQ; auto|].
    destruct (Z.eqb_spec err ECONNREFUSED) as [->|]; cbn [negb]; [|apply wp_ret, HQ; auto].
    apply wp_removeRefusing. intros st k6 He6 [Ev6|[Ev6 [e2 He2']]].
    + apply HQ; unfold files, paths in *; rewrite ?Ev6; auto. by etrans.
    + apply HQ; unfold files, paths in *; rewrite ?Ev6; auto; [by etrans|]. right. cbn. rewrite Hps. split; [done|].
      exists e. split; [done|]. split; [done|].
      destruct Hq3 as [_ Ev3]. intros Hl. eapply (law_refused _ _ _ _ _ e Hconn Hname).
      * rewrite Ev3, Ev2. done.
      * unfold live in *. by rewrite Ev3, Ev2.
  - intros [] k3 k4 Hq3 He4 _ Ev4. apply wp_bind, wp_closeFd. intros k5 He5 Hf5 _ Hu5.
    destruct (Hclosed k4 k5) as (He & Hfs & Hum & Hps); [etrans; [done|by split]|done|done|done|].
    apply wp_ret, HQ; auto.
Qed.

(** The listener seen as the holder of its two descriptors. *)
Definition as_holder (s : ListenerState) : TransportState :=
  mkTransportState (ul_path s) (ul_fd s) (ul_cancel_fd s) (ul_canceled s).

Definition listener_step (s : ListenerState) (k : k_state) (s' : ListenerState) (k' : k_state) : Prop :=
  object_step (as_holder s, k) (as_holder s', k').

Lemma wp_closeListener total fuel s k Q :
  (total → (k_patience k < fuel)%nat) →
  (∀ k', evolves k k' → files k' = delete (ul_fd s) (files k) →
     v_umask (k_view k') = v_umask (k_view k) →
     paths k' = paths k
     ∨ paths k' = delete (c_str (ul_path s)) (paths k)
       ∧ (∃ e, paths k !! c_str (ul_path s) = Some e ∧ own s e) → Q (listener_closed s) k') →
  wp total (closeListener fuel s) k Q.
Proof.
  intros Hf HQ. unfold closeListener. apply wp_bind, wp_signalCancel; [done|]. intros k1 [He1 Ev1].
  apply wp_bind, wp_closeFd. intros k2 He2 Hf2 _ (_ & Hp2 & Hu2). apply wp_bind.
  assert (evolves k k2 ∧ files k2 = delete (ul_fd s) (files k) ∧ v_umask (k_view k2) = v_umask (k_view k)
    ∧ paths k2 = paths k) as (He & Hfs & Hum & Hps).
  { split_and!; [by etrans| | |].
    - rewrite Hf2. unfold files. by rewrite Ev1.
    - by rewrite Hu2, Ev1.
    - unfold paths. by rewrite Hp2, Ev1. }
  assert (∀ k3, evolves k2 k3 → k_view k3 = k_view k2 → Q (listener_closed s) k3) as Hsame.
  { intros k3 He3 Ev3. unfold files, paths in *.
    apply HQ; unfold files, paths; rewrite ?Ev3; auto. by etrans. }
  destruct (ul_owns_path s) eqn:Ho; [|by apply wp_ret, wp_ret, Hsame].
  apply wp_bind. eapply wp_outcome; [apply law_lstat| |].
  { intros e k3 [? ?] _ _ _. by apply wp_ret, wp_ret, Hsame. }
  intros e k3 He3 _ [Ev3 Hp3]. destruct (_ && _) eqn:Hown; [|by apply wp_ret, wp_ret, Hsame].
  apply wp_bind. eapply wp_outcome; [apply law_unlink| |].
  - intros err k4 [He4 Ev4] _ _ _. apply wp_ret, wp_ret, Hsame; [by etrans|congruence].
  - intros [] k4 He4 _ Ev4. apply wp_ret, wp_ret. unfold files, paths in *.
    apply HQ; unfold files, paths; rewrite ?Ev4, ?Ev3; auto.
    + etrans; [exact He|]. by etrans.
    + right. cbn. rewrite Hps in Hp3 |- *. split; [done|]. exists e. split; [done|].
      unfold own. by reflect_bools.
Qed.

Lemma step_listener_closed s k k' :
  holds (as_holder s) k → evolves k k' → files k' = delete (ul_fd s) (files k) →
  listener_step s k (listener_closed s) k'.
Proof. intros. by apply (step_closed (as_holder s)). Qed.

Lemma wp_yieldListener total fuel s k Q :
  (total → (k_patience k < fuel)%nat) → holds (as_holder s) k →
  (∀ k', quiet k k' → Q s k') →
  (∀ k', listener_step s k (listener_closed s) k' → v_umask (k_view k') = v_umask (k_view k) →
     paths k' = paths k
     ∨ paths k' = delete (c_str (ul_path s)) (paths k)
       ∧ (∃ e, paths k !! c_str (ul_path s) = Some e ∧ own s e) → Q (listener_closed s) k') →
  wp total (yieldListener fuel s) k Q.
Proof.
  intros Hf Hh Hq Hc. unfold yieldListener. apply wp_bind, wp_call. pose proof (law_preempted k) as Hp.
  destruct (k_preempted k) as [b k1]. cbn in Hp. cbn. destruct b; [|by apply Hq].
  destruct Hp as [He Ev]. apply wp_closeListener; [by eapply patient_mono|].
  unfold files, paths. intros k2 He2 Hfs Hum Hps. rewrite Ev in Hfs, Hum, Hps. apply Hc; [|done|done].
  apply step_listener_closed; [done|by etrans|done].
Qed.

Lemma wp_bindPrivately total fd a k Q :
  (∀ r k', evolves k k' → files k' = files k → v_umask (k_view k') = v_umask (k_view k) →
     match r with
     | Err _ => paths k' = paths k
     | Ok _ => ∀ p, address_name a = PathName p →
         paths k !! p = None
         ∧ ∃ e, paths k' = <[p:=e]> (paths k) ∧ S_ISSOCK (st_mode e) = true
                ∧ Z.land (st_mode e) 511 = 448
     end → Q r k') →
  wp total (bindPrivately fd a) k Q.
Proof.
  intros HQ. unfold bindPrivately. apply wp_bind, wp_call.
  destruct (law_umask 63 k) as (He1 & Hold & Ev1). destruct (sys_umask 63 k) as [old k1]. cbn in *. subst old.
  apply wp_bind.
  assert (∀ r k2 k3, evolves k1 k2 → files k2 = files k1 →
    match r with
    | Err _ => paths k2 = paths k1
    | Ok _ => ∀ p, address_name a = PathName p →
        paths k1 !! p = None
        ∧ ∃ e, paths k2 = <[p:=e]> (paths k1) ∧ S_ISSOCK (st_mode e) = true
               ∧ Z.land (st_mode e) 511 = 448
    end → (sys_umask (v_umask (k_view k)) k2).2 = k3 → Q r k3) as Hrestore.
  { intros r k2 k3 He2 Hf2 Hr <-. destruct (law_umask (v_umask (k_view k)) k2) as (He3 & _ & Ev3).
    destruct (sys_umask _ k2) as [old k4]. cbn in *. unfold files, paths in *.
    apply HQ; unfold files, paths; rewrite ?Ev3; cbn.
    - etrans; [exact He1|]. by etrans.
    - by rewrite Hf2, Ev1.
    - apply law_umask_bits.
    - rewrite Ev1 in Hr. done. }
  eapply wp_outcome; [apply law_bind| |].
  - intros e k2 [He2 Ev2] _ _ _. apply wp_bind, wp_call, wp_ret. eapply Hrestore; [done| | |done];
      unfold files, paths; by rewrite Ev2.
  - intros [] k2 He2 _ HP. apply wp_bind, wp_call, wp_ret. eapply Hrestore; [done| | |done].
    + unfold files. destruct (address_name a); [|by rewrite HP].
      destruct HP as (_ & e & -> & _). done.
    + intros p Hp. rewrite Hp in HP. destruct HP as (Hno & e & Ev2 & Hs & _ & Hm). split; [done|].
      exists e. split; [unfold paths; by rewrite Ev2|]. split; [done|]. rewrite Hm, Ev1. done.
Qed.

Lemma wp_abandon total fd path k (Q : () → k_state → Prop) :
  (∀ k', evolves k k' → files k' = delete fd (files k) → v_umask (k_view k') = v_umask (k_view k) →
     paths k' = paths k ∨ paths k' = delete (c_str path) (paths k) → Q () k') →
  wp total (abandon fd path) k Q.
Proof.
  intros HQ. unfold abandon. apply wp_bind, wp_closeFd. intros k1 He1 Hf1 _ (_ & Hp1 & Hu1). apply wp_bind.
  unfold files, paths in *. eapply wp_outcome; [apply law_unlink| |].
  - intros e k2 [He2 Ev2] _ _ _. apply wp_ret, HQ; unfold files, paths; rewrite ?Ev2; auto. by etrans.
  - intros [] k2 He2 _ Ev2. apply wp_ret, HQ; unfold files, paths; rewrite ?Ev2; auto; [by etrans|].
    right. cbn. by rewrite Hp1.
Qed.

(** [chmod] gives the entry the configured permissions and leaves its identity. *)
Lemma wp_openToClients total fd s k Q :
  (∀ r k', evolves k k' → files k' = files k → v_umask (k_view k') = v_umask (k_view k) →
     (∀ q, q ≠ c_str (ul_path s) → paths k' !! q = paths k !! q) →
     (∀ u, r = Ok u → ∃ e e', paths k !! c_str (ul_path s) = Some e
        ∧ paths k' !! c_str (ul_path s) = Some e' ∧ S_ISSOCK (st_mode e') = S_ISSOCK (st_mode e)
        ∧ Z.land (st_mode e') 511 = Z.land (ul_mode s) 511) → Q r k') →
  wp total (openToClients fd s) k Q.
Proof.
  intros HQ. unfold openToClients. apply wp_bind. unfold files, paths in *.
  eapply wp_outcome; [apply law_chmod| |].
  - intros e k1 [He1 Ev1] _ _ _. apply wp_ret, HQ; unfold files, paths; rewrite ?Ev1; done.
  - intros [] k1 He1 _ (e & e' & Hp & Ev1 & Hs & _ & _ & Hm). eapply wp_outcome; [apply law_listen| |].
    + intros err k2 [He2 Ev2] _ _ _. apply HQ; unfold files, paths; rewrite ?Ev2, ?Ev1; try done.
      * by etrans.
      * intros q Hq. cbn. by rewrite lookup_insert_ne.
    + intros [] k2 He2 _ [l Ev2]. apply HQ; unfold files, paths; rewrite ?Ev2, ?Ev1; try done.
      * by etrans.
      * intros q Hq. cbn. by rewrite lookup_insert_ne.
      * intros _ _. exists e, e'. cbn. by rewrite lookup_insert_eq.
Qed.

(** What [listen] leaves behind, from the time it has a socket: the entry is as
    it was, or there was none and at most the one just bound is there; on
    success that is the listener's, with the configured permissions. *)
Record listen_outcome (s : ListenerState) (k : k_state) (st : TransportStatus)
    (s' : ListenerState) (k' : k_state) : Prop := {
  lo_step : listener_step s k s' k';
  lo_umask : v_umask (k_view k') = v_umask (k_view k);
  lo_others q : q ≠ c_str (ul_path s) → paths k' !! q = paths k !! q;
  lo_entry : paths k' = paths k ∧ status_ok st = false ∨ paths k !! c_str (ul_path s) = None;
  lo_success : status_ok st = true →
    0 <= ul_fd s' ∧ ul_canceled s' = false
    ∧ ∃ e, paths k' !! c_str (ul_path s) = Some e ∧ own s' e
           ∧ Z.land (st_mode e) 511 = Z.land (ul_mode s) 511;
}.

(** A listener without a socket owns no entry. *)
Definition owns_with_socket (s : ListenerState) : Prop := ul_owns_path s = true → 0 <= ul_fd s.

(** [listen] once it has a socket [fd]: [k0] is the state before. *)
Section Bound.
Context (s : ListenerState) (fd : Z) (d : nat) (a : Address) (k0 k : k_state).
Context (Hh : holds (as_holder s) k0) (Hneg : ul_fd s < 0) (Hcan : ul_canceled s = false).
Context (Hown : owns_with_socket s) (Hname : address_name a = PathName (c_str (ul_path s))).
Context (Hfd : 0 <= fd) (Hno : files k0 !! fd = None) (He0 : evolves k0 k).
Context (Ev : k_view k = set_files (<[fd:=d]>) (k_view k0)).
#[local] Abbreviation p := (c_str (ul_path s)).

(** The listener holds what it did, and the new socket is on the side. *)
Let aside (s2 : ListenerState) (k2 : k_state) : Prop :=
  object_step (as_holder s, k) (as_holder s2, k2)
  ∧ v_umask (k_view k2) = v_umask (k_view k0)
  ∧ ∀ q, q ≠ p → paths k2 !! q = paths k0 !! q.

Lemma bound_holds : holds (as_holder s) k.
Proof. eapply holds_open; [done|done|]. unfold files. by rewrite Ev. Qed.

Lemma bound_aside k2 :
  evolves k k2 → files k2 = files k → v_umask (k_view k2) = v_umask (k_view k) →
  (∀ q, q ≠ p → paths k2 !! q = paths k !! q) → aside s k2.
Proof.
  intros He Hf Hu Hq. split; [apply step_io; auto using bound_holds|]. split; [by rewrite Hu, Ev|].
  intros q Hne. rewrite Hq by done. unfold paths. by rewrite Ev.
Qed.

Lemma aside_io s2 k2 k3 :
  aside s2 k2 → evolves k2 k3 → files k3 = files k2 → v_umask (k_view k3) = v_umask (k_view k2) →
  (∀ q, q ≠ p → paths k3 !! q = paths k2 !! q) → aside s2 k3.
Proof.
  intros (Hs & Hu & Hq) He Hf Hu3 Hq3. split_and!.
  - etrans; [exact Hs|]. apply step_io; [apply Hs|done|done].
  - congruence.
  - intros q Hne. by rewrite Hq3, Hq.
Qed.

Lemma bound_back s2 k2 k3 :
  aside s2 k2 → evolves k2 k3 → files k3 = delete fd (files k2) → listener_step s k0 s2 k3.
Proof. intros [Hs2 _] He3 Hf3. by eapply (step_aside (as_holder s) k0 k fd d _ k2). Qed.

Lemma wp_bound_abandon total st s2 k2 Q :
  status_ok st = false → aside s2 k2 → paths k0 !! p = None →
  (∀ st s' k', listen_outcome s k0 st s' k' → Q (st, s') k') →
  wp total (abandon fd (ul_path s) ;; mret (st, s2)) k2 Q.
Proof.
  intros Hst Ha Hnone HQ. pose proof Ha as (_ & Hu2 & Hq2).
  apply wp_bind, wp_abandon. intros k3 He3 Hf3 Hu3 Hp3. apply wp_ret, HQ. split.
  - by apply (bound_back s2 k2).
  - congruence.
  - intros q Hq. rewrite <- (Hq2 q Hq). destruct Hp3 as [->| ->]; [done|]. by rewrite lookup_delete_ne.
  - by right.
  - by rewrite Hst.
Qed.

Lemma wp_adoptBound total fuel k2 e Q :
  (total → (k_patience k2 < fuel)%nat) →
  aside s k2 → paths k0 !! p = None → paths k2 !! p = Some e →
  S_ISSOCK (st_mode e) = true → Z.land (st_mode e) 511 = Z.land (ul_mode s) 511 →
  (∀ st s' k', listen_outcome s k0 st s' k' → Q (st, s') k') →
  wp total (adoptBound fuel s fd e) k2 Q.
Proof.
  intros Hf Ha Hnone Hp Hsock Hmode HQ. unfold adoptBound.
  apply wp_bind, wp_yieldListener; [done|apply Ha| |].
  - intros k4 [He4 Ev4]. rewrite Hcan. destruct (Z.leb_spec 0 (ul_fd s)); [lia|]. apply wp_ret, HQ.
    assert (paths k4 = paths k2) as Hp4 by (unfold paths; by rewrite Ev4).
    assert (aside s k4) as (Hs4 & Hu4 & Hq4).
    { apply (aside_io s k2); unfold files; rewrite ?Hp4, ?Ev4; done. }
    split; try done.
    + pose proof (step_adopt (as_holder s) k0 k fd d (as_holder s) k4 Hh Hfd Hno He0 Ev Hs4 Hneg Hcan) as Hs5.
      unfold with_fd in Hs5. cbn in Hs5. by rewrite Hcan in Hs5.
    + by right.
    + intros _. cbn. split; [done|]. split; [done|]. exists e. by rewrite Hp4.
  - intros k4 Hs4 Hu4 Hp4. cbn [listener_closed ul_canceled].
    apply wp_bound_abandon; [done| |done|done]. destruct Ha as (Hs2 & Hu2 & Hq2). split_and!.
    + etrans; [exact Hs2|exact Hs4].
    + congruence.
    + destruct Hp4 as [->|(_ & e' & _ & Ho & _)]; [done|]. specialize (Hown Ho). lia.
Qed.

Lemma wp_bindAndListen total fuel Q :
  (total → (k_patience k0 < fuel)%nat) →
  (∀ st s' k', listen_outcome s k0 st s' k' → Q (st, s') k') →
  wp total (bindAndListen fuel s fd a) k Q.
Proof.
  intros Hf HQ. unfold bindAndListen.
  assert (paths k = paths k0) as Hpk by (unfold paths; by rewrite Ev).
  apply wp_bind, wp_bindPrivately. intros [[]|e] k1 He1 Hf1 Hu1 Hr.
  2:{ apply wp_bind, wp_closeFd. intros k2 He2 Hf2 _ (_ & Hp2 & Hu2). apply wp_ret, HQ.
      assert (paths k2 = paths k0) as Hp by (unfold paths in *; congruence). split; try done.
      - apply (bound_back s k1); [|done|done]. apply bound_aside; try done. by rewrite Hr.
      - by rewrite Hu2, Hu1, Ev.
      - intros q _. by rewrite Hp.
      - by left. }
  destruct (Hr _ Hname) as (Hnone & e0 & Hp1 & Hs0 & _). rewrite Hpk in Hnone, Hp1.
  assert (aside s k1) as Ha1.
  { apply bound_aside; try done. intros q Hq. by rewrite Hp1, Hpk, lookup_insert_ne. }
  apply wp_bind, wp_openToClients. intros r k2 He2 Hf2 Hu2 Hq2 Hok.
  pose proof (aside_io _ _ _ Ha1 He2 Hf2 Hu2 Hq2) as Ha2.
  destruct r as [u|e]; [|by apply wp_bound_abandon].
  destruct (Hok u eq_refl) as (e1 & e2 & He1' & He2' & Hsock & Hmode).
  apply wp_bind. eapply wp_outcome; [apply law_lstat| |].
  { intros e k3 [He3 Ev3] _ _ _. apply wp_bound_abandon; try done.
    apply (aside_io s k2); unfold files, paths; rewrite ?Ev3; done. }
  intros e k3 He3 _ [Ev3 Hp3]. change (paths k2 !! p = Some e) in Hp3.
  rewrite He2' in Hp3. injection Hp3 as <-.
  assert (aside s k3) as Ha3 by (apply (aside_io s k2); unfold files, paths; rewrite ?Ev3; done).
  apply wp_adoptBound; try done.
  - intros Ht. eapply patient_mono; [exact Hf| |done]. etrans; [exact He0|]. apply Ha3.
  - unfold paths. by rewrite Ev3.
  - rewrite Hsock. rewrite Hp1, lookup_insert_eq in He1'. by injection He1' as <-.
Qed.
End Bound.

(** ** [listen], [close] and [accept] *)

(** What a listener keeps: its descriptors, and an entry only with a socket. *)
Definition listener_ok (s : ListenerState) (k : k_state) : Prop :=
  holds (as_holder s) k ∧ owns_with_socket s.

(** The entry at the listener's path may be replaced or removed. *)
Definition replaceable (s : ListenerState) (k : k_state) (e : StatBuf) : Prop :=
  stale k e ∨ own s e.

Record listened (s : ListenerState) (k : k_state) (st : TransportStatus)
    (s' : ListenerState) (k' : k_state) : Prop := {
  ld_step : listener_step s k s' k';
  ld_umask : v_umask (k_view k') = v_umask (k_view k);
  ld_others q : q ≠ c_str (ul_path s) → paths k' !! q = paths k !! q;
  ld_entry e : paths k !! c_str (ul_path s) = Some e →
    replaceable s k e ∨ paths k' !! c_str (ul_path s) = Some e ∧ status_ok st = false;
  ld_success : status_ok st = true →
    0 <= ul_fd s' ∧ ul_canceled s' = false
    ∧ ∃ e, paths k' !! c_str (ul_path s) = Some e ∧ own s' e
           ∧ Z.land (st_mode e) 511 = ul_mode s;
}.

Lemma listened_refused s k st s' k' :
  status_ok st = false → listener_step s k s' k' → v_umask (k_view k') = v_umask (k_view k) →
  paths k' = paths k
  ∨ paths k' = delete (c_str (ul_path s)) (paths k)
    ∧ (∃ e, paths k !! c_str (ul_path s) = Some e ∧ replaceable s k e) →
  listened s k st s' k'.
Proof.
  intros Hst Hs Hu Hp. split; try done.
  - intros q Hq. destruct Hp as [->|[-> _]]; [done|]. by rewrite lookup_delete_ne.
  - intros e He. destruct Hp as [->|(_ & e' & He' & Hr)]; [by right|].
    rewrite He in He'. injection He' as <-. by left.
  - by rewrite Hst.
Qed.

Lemma wp_listenState total fuel s k Q :
  (total → (k_patience k < fuel)%nat) → listener_ok s k → c_str (ul_path s) ≠ [] →
  (∀ st s' k', listened s k st s' k' → Q (st, s') k') →
  wp total (listenState fuel s) k Q.
Proof.
  intros Hf [Hh Hown] Hc HQ.
  assert (∀ st k', status_ok st = false → quiet k k' → Q (st, s) k') as Hq.
  { intros st k' Hst [He Ev]. apply HQ, listened_refused; [done| |by rewrite Ev|left; unfold paths; by rewrite Ev].
    apply step_io; [done|done|unfold files; by rewrite Ev]. }
  unfold listenState. destruct (_ || negb _) eqn:Hargs; [by apply wp_ret, Hq|].
  apply orb_false_iff in Hargs as [_ Hmode%negb_false_iff%Z.eqb_eq].
  destruct (ul_cancel_fd s <? 0); [by apply wp_ret, Hq|].
  apply wp_bind, wp_yieldListener; [done|done| |].
  2:{ intros k1 Hs1 Hu1 Hp1. apply wp_ret, HQ, listened_refused; try done.
      destruct Hp1 as [?|(? & e & ? & ?)]; [by left|right]. split; [done|]. exists e. split; [done|]. by right. }
  intros k1 Hq1. destruct (ul_canceled s) eqn:Hcan; [by apply wp_ret, Hq|].
  destruct (Z.leb_spec 0 (ul_fd s)) as [|Hneg]; [by apply wp_ret, Hq|].
  destruct (makeAddress (ul_path s)) as [a|st] eqn:Ea.
  2:{ apply wp_ret, Hq; [|done]. unfold makeAddress in Ea. destruct (_ || _); [|done]. by injection Ea as <-. }
  pose proof Hq1 as [He1 Ev1].
  apply wp_bind, wp_removeStaleSocket; [by eapply patient_mono|done|].
  unfold files, paths. rewrite Ev1. fold (files k) (paths k). intros st k2 He2 Hf2 Hu2 Hp2.
  assert (evolves k k2) as He by (by etrans).
  assert (listener_step s k s k2) as Hs2 by (by apply step_io).
  assert (paths k2 = paths k
    ∨ paths k2 = delete (c_str (ul_path s)) (paths k)
      ∧ (∃ e, paths k !! c_str (ul_path s) = Some e ∧ replaceable s k e)) as Hp2'.
  { destruct Hp2 as [?|(? & e & ? & Hl)]; [by left|right]. split; [done|]. exists e. split; [done|]. left.
    unfold stale, live in *. by rewrite Ev1 in Hl. }
  destruct (status_ok st) eqn:Hst; cbn [negb]; [|by apply wp_ret, HQ, listened_refused].
  apply wp_bind. eapply wp_outcome; [apply law_socket| |].
  { intros e k3 [He3 Ev3] _ _ _. apply wp_ret, HQ, listened_refused; [done| |by rewrite Ev3|unfold paths; by rewrite Ev3].
    apply (object_step_transitive _ (as_holder s, k2)); [exact Hs2|]. apply step_io; [apply Hs2|done|unfold files; by rewrite Ev3]. }
  intros fd k3 He3 _ (Hfd & Hno & d & Ev3).
  apply (wp_bindAndListen s fd d a k2); try done.
  - apply Hs2.
  - by apply makeAddress_name.
  - by eapply patient_mono.
  - intros st' s' k' [Ls Lu Lo Le Lok]. apply HQ. split.
    + apply (object_step_transitive _ (as_holder s, k2)); [exact Hs2|exact Ls].
    + congruence.
    + intros q Hne. rewrite Lo by done. destruct Hp2' as [->|[-> _]]; [done|]. by rewrite lookup_delete_ne.
    + intros e Hp. destruct Hp2' as [E|(E & e' & He' & Hr)].
      * rewrite E in Le. destruct Le as [[E' ?]|Le]; [right; by rewrite E'|congruence].
      * rewrite Hp in He'. injection He' as <-. by left.
    + intros Hok. destruct (Lok Hok) as (? & ? & e & ? & ? & Hm). split_and!; try done. exists e. split_and!; try done.
      rewrite Hm. rewrite <- (Z.lor_ldiff_and (ul_mode s) 511) at 2. by rewrite Hmode.
Qed.


(** Closing a listener removes at most its own entry: the one at its path,
    if that is still the socket with the device and inode that [listen]
    recorded; an entry that was put there later stays. *)
Theorem close_removes_own_entry fuel s k l' k' :
  Listener.close fuel (Some s) k = Done (l', k') →
  l' = Some (listener_closed s)
  ∧ (∀ q, q ≠ c_str (ul_path s) → paths k' !! q = paths k !! q)
  ∧ (∀ e, paths k !! c_str (ul_path s) = Some e → ¬ own s e → paths k' !! c_str (ul_path s) = Some e)
  ∧ files k' = delete (ul_fd s) (files k).
Proof.
  apply (wp_partial _ _ (λ l' k', l' = Some (listener_closed s)
    ∧ (∀ q, q ≠ c_str (ul_path s) → paths k' !! q = paths k !! q)
    ∧ (∀ e, paths k !! c_str (ul_path s) = Some e → ¬ own s e → paths k' !! c_str (ul_path s) = Some e)
    ∧ files k' = delete (ul_fd s) (files k))).
  apply wp_bind, wp_closeListener; [done|]. intros k1 _ Hf _ Hp. apply wp_ret. split_and!; try done.
  - intros q Hq. destruct Hp as [->|[-> _]]; [done|]. by rewrite lookup_delete_ne.
  - intros e He Hn. destruct Hp as [->|(_ & e' & He' & Ho)]; [done|].
    rewrite He in He'. by injection He' as <-.
Qed.

(** A transport with two new descriptors and nothing else. *)
Definition fresh_client (m : gmap Z nat) (t : UnixSocketTransport) (m' : gmap Z nat) : Prop :=
  ∃ (s : TransportState) d1 d2, t = Some s ∧ us_canceled s = false ∧ 0 <= us_fd s ∧ 0 <= us_cancel_fd s
    ∧ m !! us_fd s = None ∧ m !! us_cancel_fd s = None ∧ us_fd s ≠ us_cancel_fd s
    ∧ m' = <[us_cancel_fd s:=d2]> (<[us_fd s:=d1]> m).

Lemma wp_acceptLoop total tries fuel fd cfd dl k Q :
  (total → (k_patience k < tries)%nat ∧ (k_patience k < fuel)%nat ∧ dl ≠ noDeadline) →
  (∀ st k', evolves k k' → files k' = files k → status_ok st = false →
     (ts_code st = StatusCode.Timeout → dl ≠ noDeadline ∧ late dl k k') → Q (Err st) k') →
  (∀ t k', evolves k k' → fresh_client (files k) t (files k') → Q (Ok t) k') →
  wp total (acceptLoop tries fuel fd cfd dl) k Q.
Proof.
  revert k. induction fuel as [|fuel IH]; intros k Hf He Ha; cbn [acceptLoop].
  { intros Ht. apply Hf in Ht as (_ & ? & _). lia. }
  apply wp_bind, wp_waitFor; [by intros (? & _ & ?)%Hf| |].
  2:{ intros st k1 [He1 Ev1] Hst _ Hl. rewrite Hst. apply wp_ret, He; try done. unfold files. by rewrite Ev1. }
  intros k1 [He1 Ev1]. cbn. apply wp_bind. eapply wp_outcome; [apply law_accept4| |].
  - intros e k2 [He2 Ev2] _ _ Hp2.
    assert (evolves k k2 ∧ files k2 = files k) as [He12 Hf2].
    { split; [by etrans|]. unfold files. by rewrite Ev2, Ev1. }
    assert (transient e = true → wp total (acceptLoop tries fuel fd cfd dl) k2 Q) as Hagain.
    { intros Htr. specialize (Hp2 Htr). destruct He1 as [? ?]. apply IH.
      - intros (? & ? & ?)%Hf. split_and!; [lia|lia|done].
      - intros st k3 He3 Hf3 Hst Hl. apply He; [by etrans|congruence|done|].
        intros [? ?]%Hl. split; [done|]. eapply late_mono; [exact He12|reflexivity|done].
      - intros t k3 He3 Hc. apply Ha; [by etrans|]. by rewrite Hf2 in Hc. }
    unfold transient in Hagain. unfold EWOULDBLOCK.
    destruct (e =? EINTR); cbn; [by apply Hagain|]. destruct (e =? EAGAIN); cbn; [by apply Hagain|].
    by apply wp_ret, He.
  - intros new k2 He2 _ (Hnew & Hno & d1 & Ev2). rewrite Ev1 in Hno, Ev2.
    unfold acceptedTransport, createCancelFd. apply wp_bind, wp_bind, wp_bind.
    eapply wp_outcome; [apply law_eventfd| |].
    + intros e k3 Hq3 _ _ _. apply wp_ret, wp_ret. cbn [cancelFdOf us_cancel_fd].
      apply wp_bind. unfold destroy. apply wp_bind, wp_closeState.
      { intros Ht. apply Hf in Ht as (Ht & _). destruct He1, He2, Hq3 as [[] _]. lia. }
      intros k4 He4 Hf4 _. unfold destroyState. apply wp_bind, wp_closeFd. intros k5 He5 Hf5 _ _.
      apply wp_closeFd. intros k6 He6 Hf6 _ _. apply wp_ret, He; try done.
      * etrans; [exact He1|]. etrans; [exact He2|]. etrans; [apply Hq3|]. etrans; [exact He4|]. by etrans.
      * destruct Hq3 as [_ Ev3]. rewrite Hf6, Hf5. cbn [us_cancel_fd us_fd closed_state].
        rewrite !delete_negative by lia. rewrite Hf4. unfold files. rewrite Ev3, Ev2. by apply delete_insert_id.
    + intros c k3 He3 _ (Hc & Hnoc & d2 & Ev3). rewrite Ev2 in Hnoc, Ev3. cbn in Hnoc.
      apply lookup_insert_None in Hnoc as [Hnoc Hne].
      apply wp_ret, wp_ret. cbn [cancelFdOf us_cancel_fd].
      destruct (Z.ltb_spec c 0); [lia|]. apply wp_ret, Ha.
      * etrans; [exact He1|]. by etrans.
      * exists (mkTransportState "" new c false), d1, d2. cbn. split_and!; try done. unfold files. by rewrite Ev3.
Qed.

Lemma wp_listenerFd total fuel s k Q :
  (total → (k_patience k < fuel)%nat) → holds (as_holder s) k →
  (∀ k', quiet k k' → Q (s, -1) k') →
  (∀ k' op d, 0 <= op → evolves k k' → files k !! op = None →
     k_view k' = set_files (<[op:=d]>) (k_view k) → Q (s, op) k') →
  (∀ k', listener_step s k (listener_closed s) k' → Q (listener_closed s, -1) k') →
  wp total (listenerFd fuel s) k Q.
Proof.
  intros Hf Hh Hq Hd Hc. unfold listenerFd. apply wp_bind, wp_yieldListener; [done|done| |].
  - intros k1 Hq1. apply wp_bind. destruct (ul_fd s <? 0); [by apply Hq|].
    unfold duplicateFd. apply wp_bind. eapply wp_uninterrupted; [|intros; apply law_dup| |].
    + eapply patient_mono; [done|apply Hq1].
    + intros e k2 k3 ? ? _ _ _. apply Hq. etrans; [done|]. by etrans.
    + intros op k2 k3 Hq2 He3 _ (Hop & Hno & d & _ & Ev).
      pose proof (transitivity Hq1 Hq2) as [He2 E2]. rewrite E2 in Hno, Ev.
      eapply Hd; try done. by etrans.
  - intros k1 Hs _ _. by apply Hc.
Qed.

Definition accepted (s : ListenerState) (dl : Deadline) (k : k_state)
    (r : result TransportStatus UnixSocketTransport) (s' : ListenerState) (k' : k_state) : Prop :=
  match r with
  | Err st => status_ok st = false ∧ foreign (as_holder s') k' = foreign (as_holder s) k
              ∧ (ts_code st = StatusCode.Timeout → dl ≠ noDeadline ∧ late dl k k')
  | Ok t => s' = s ∧ holds_transport t k' ∧ fresh_client (files k) t (files k')
  end.

Lemma wp_accept total fuel s dl k Q :
  (total → (k_patience k < fuel)%nat ∧ dl ≠ noDeadline) → holds (as_holder s) k →
  (∀ r s' k', evolves k k' → holds (as_holder s') k' → accepted s dl k r s' k' → Q (r, Some s') k') →
  wp total (accept fuel (Some s) dl) k Q.
Proof.
  intros Hf Hh HQ. apply wp_bind, wp_listenerFd; [by intros [? _]%Hf|done| | |].
  - intros k1 [He1 Ev1]. 
    assert (listener_step s k s k1) as Hs by (apply step_io; [done|done|unfold files; by rewrite Ev1]).
    apply wp_ret, HQ; [done|apply Hs|]. split; [done|]. split; [apply (os_foreign _ _ Hs)|done].
  - intros k1 op d Hop He1 Hno Ev1. cbn. destruct (Z.ltb_spec op 0); [lia|].
    assert (files k1 = <[op:=d]> (files k)) as Hf1 by (unfold files; by rewrite Ev1).
    pose proof (holds_open _ _ _ _ _ Hh Hno Hf1) as Hh1.
    apply wp_bind, wp_acceptLoop; [intros [? ?]%Hf; destruct He1; split_and!; [lia|lia|done]| |].
    + intros st k2 He2 Hf2 Hst Hl. apply wp_bind, wp_closeFd. intros k3 He3 Hf3 _ _. 
      assert (listener_step s k s k3) as Hs3.
      { eapply (step_aside (as_holder s) k k1 op d _ k2); try done. by apply step_io. }
      apply wp_ret, HQ; [apply Hs3|apply Hs3|]. split; [done|]. split; [apply (os_foreign _ _ Hs3)|].
      intros [? ?]%Hl. split; [done|]. by eapply late_mono.
    + intros t k2 He2 (c & d1 & d2 & -> & Hcan & Hfd & Hcfd & Hn1 & Hn2 & Hne & Hf2).
      apply wp_bind, wp_closeFd. intros k3 He3 Hf3 _ _. apply wp_ret.
      rewrite Hf1 in Hn1, Hn2. apply lookup_insert_None in Hn1 as [Hn1 Hop1].
      apply lookup_insert_None in Hn2 as [Hn2 Hop2].
      assert (files k3 = <[us_cancel_fd c:=d2]> (<[us_fd c:=d1]> (files k))) as Hfs.
      { rewrite Hf3, Hf2, Hf1, !delete_insert_ne by done. by rewrite delete_insert_id. }
      destruct (fresh_foreign _ _ _ Hh Hfd Hn1) as [Hx1 Hx2].
      destruct (fresh_foreign _ _ _ Hh Hcfd Hn2) as [Hx3 Hx4]. cbn in Hx1, Hx2, Hx3, Hx4.
      apply HQ; [etrans; [exact He1|by etrans]| |split_and!; try done].
      * destruct Hh as [Hh3 Hh4 ? ?]. split; try done; rewrite Hfs;
          [destruct Hh3 as [?|Hh3]|destruct Hh4 as [?|Hh4]]; (by left) || right;
          by rewrite !lookup_insert_ne.
      * split; try done; [right|right|by rewrite Hcan].
        -- rewrite Hfs, lookup_insert_ne, lookup_insert_eq by done. by eexists.
        -- rewrite Hfs, lookup_insert_eq. by eexists.
      * by exists c, d1, d2.
  - intros k1 Hs. apply wp_ret, HQ; [apply Hs|apply Hs|]. split; [done|]. split; [apply (os_foreign _ _ Hs)|done].
Qed.

(** What [accept] does with descriptors: if it fails, the process has the
    descriptors it had; if it returns a client, the process has two more, the
    socket and the cancel descriptor of that client, both new, open and
    distinct.  A timeout is reported only when the deadline has
    come. *)
Theorem accept_hands_over fuel s dl k r l' k' :
  holds (as_holder s) k → accept fuel (Some s) dl k = Done ((r, l'), k') →
  ∃ s', l' = Some s' ∧ holds (as_holder s') k' ∧ accepted s dl k r s' k'.
Proof.
  intros Hh Ha.
  refine (wp_partial _ _ (λ r k', ∃ s', r.2 = Some s' ∧ holds (as_holder s') k' ∧ accepted s dl k r.1 s' k') _ _ _ Ha).
  apply wp_accept; [done|done|]. intros r1 s1 k1 _ ? ?. by exists s1.
Qed.
End Directory.
