(* ===== verification/Files.v ===== *)
(** * Files: the POSIX files the program reads

    Every configuration, key and license file is opened without following
    links, checked with [fstat], and read in a loop until the announced size
    is there.  [Disk] says what the kernel answers for each path: the error of
    [open], or the metadata and the outcomes of the successive [read] calls on
    the descriptor (after which [read] reports the end of the file).

    [readFully] is the loop, shared by [readLicense] of the service and of the
    SDK, [loadRawKey] and [readPrivateKey]; the SDK and the generator retry an
    interrupted [read], the service does not. *)

From S2P Require Import Prelude.

Record FileStat := mkFileStat {
  st_regular : bool;
  st_mode : Z;
  st_size : Z;
}.

(** One call of [read]: some bytes, the end, or [-1] with [errno]. *)
Inductive ReadEvent :=
| ReadBytes (chunk : bytes)
| ReadEnd
| ReadFailed (interrupted : bool).

Inductive FileOutcome :=
| FileError (loop : bool)                  (* [errno == ELOOP] *)
| FileOpened (info : option FileStat) (reads : list ReadEvent).

Abbreviation Disk := (string → FileOutcome).

(** [while (offset < size) { count = read(fd, data + offset, size - offset); ... }]:
    the kernel stores at most [size - offset] bytes.  [None] is the error
    return. *)
Fixpoint readFully (retry : bool) (size : Z) (reads : list ReadEvent) (data : bytes)
  : option bytes :=
  if zlen data <? size
  then
    match reads with
    | [] | ReadEnd :: _ => None
    | ReadFailed interrupted :: reads' =>
        if retry && interrupted then readFully retry size reads' data else None
    | ReadBytes chunk :: reads' =>
        let stored := take (Z.to_nat (size - zlen data)) chunk in
        if zlen stored =? 0 then None else readFully retry size reads' (data ++ stored)
    end
  else Some data.

(** [S_IRWXG | S_IRWXO] *)
Definition groupOrOther : Z := 63.

Definition kMaxLicenseSize : Z := 1024 * 1024.

(** The checks and the loop of both [readLicense] functions. *)
Inductive LicenseRead := LicenseUnopened | LicenseUnsuitable | LicenseUnread | LicenseBytesRead (bs : bytes).

Definition readLicenseFile (retry : bool) (disk : Disk) (path : string) : LicenseRead :=
  match disk path with
  | FileError _ => LicenseUnopened
  | FileOpened info reads =>
      match info with
      | None => LicenseUnsuitable
      | Some info =>
          if negb (st_regular info) || (st_size info <=? 0) || (kMaxLicenseSize <? st_size info)
          then LicenseUnsuitable
          else match readFully retry (st_size info) reads [] with
               | None => LicenseUnread
               | Some bs => LicenseBytesRead bs
               end
      end
  end.

(** ** What the loop returns *)

(** The bytes of a file, as the successive reads deliver them. *)
Fixpoint delivered (reads : list ReadEvent) : bytes :=
  match reads with
  | ReadBytes chunk :: reads' => chunk ++ delivered reads'
  | ReadFailed _ :: reads' => delivered reads'
  | ReadEnd :: _ | [] => []
  end.

Lemma readFully_size retry size reads data out :
  readFully retry size reads data = Some out → zlen data <= size → zlen out = size.
Proof.
  revert data. induction reads as [|e reads IH]; intros data; cbn;
    (destruct (Z.ltb_spec (zlen data) size); [|intros [= <-]; lia]); [done|].
  destruct e as [chunk| |i]; [|done|destruct (retry && i); [apply IH|done]].
  destruct (zlen _ =? 0); [done|]. intros Ho Hd. apply (IH _ Ho).
  rewrite zlen_app. unfold zlen in *. rewrite length_take. lia.
Qed.

Lemma readFully_octets retry size reads data out :
  octets (delivered reads) → octets data → readFully retry size reads data = Some out → octets out.
Proof.
  revert data. induction reads as [|e reads IH]; intros data; cbn;
    (destruct (Z.ltb_spec (zlen data) size); [|by intros ?? [= <-]]); [done|].
  destruct e as [chunk| |i]; [|done|destruct (retry && i); [apply IH|done]].
  destruct (zlen _ =? 0); [done|]. intros [Hc Hr]%octets_app Hd. apply IH; [done|].
  apply octets_app. split; [done|]. by apply Forall_take.
Qed.

(** Reads that never give more than was asked for: a prefix of what they
    deliver comes back. *)
Fixpoint reads_fit (size : Z) (reads : list ReadEvent) : Prop :=
  match reads with
  | ReadBytes chunk :: reads' => 0 < zlen chunk <= size ∧ reads_fit (size - zlen chunk) reads'
  | ReadFailed _ :: reads' => reads_fit size reads'
  | ReadEnd :: _ | [] => True
  end.

Lemma readFully_delivers retry size reads data out :
  0 <= size → reads_fit (size - zlen data) reads → readFully retry size reads data = Some out →
  ∃ rest, data ++ delivered reads = out ++ rest.
Proof.
  intros Hs. revert data. induction reads as [|e reads IH]; intros data; cbn;
    (destruct (Z.ltb_spec (zlen data) size) as [Hl|Hl]; [|intros _ [= <-]; eauto]); [done|].
  destruct e as [chunk| |i]; [|done|destruct (retry && i); [apply IH|done]].
  intros [Hc Hf]. rewrite take_ge by (unfold zlen in *; lia).
  rewrite (proj2 (Z.eqb_neq _ 0)) by lia. intros Ho.
  destruct (IH (data ++ chunk)) as [rest Hrest]; [|done|].
  - rewrite zlen_app. by replace (size - (zlen data + zlen chunk)) with (size - zlen data - zlen chunk) by lia.
  - exists rest. by rewrite <- Hrest, app_assoc.
Qed.

(** Enough bytes and no failure give a result. *)
Lemma readFully_succeeds retry size reads data :
  zlen data <= size → size <= zlen data + zlen (delivered reads) →
  Forall (fun e => match e with ReadBytes c => c ≠ [] | ReadEnd => True | ReadFailed i => retry && i = true end)
    reads →
  is_Some (readFully retry size reads data).
Proof.
  revert data. induction reads as [|e reads IH]; intros data Hd Hs Hf; cbn;
    (destruct (Z.ltb_spec (zlen data) size) as [Hl|Hl]; [|eauto]).
  { cbn in Hs. rewrite zlen_nil in Hs. lia. }
  apply Forall_cons in Hf as [He Hf]. destruct e as [chunk| |i]; cbn in Hs.
  - assert (0 < zlen chunk) as Hc by (destruct chunk; [done|rewrite zlen_cons; pose proof (zlen_nonneg chunk); lia]).
    assert (zlen (take (Z.to_nat (size - zlen data)) chunk) = Z.min (size - zlen data) (zlen chunk)) as Ht
      by (unfold zlen in *; rewrite length_take; lia).
    rewrite (proj2 (Z.eqb_neq _ 0)) by lia.
    rewrite zlen_app in Hs. pose proof (zlen_nonneg (delivered reads)).
    apply IH; [| |done]; rewrite zlen_app; lia.
  - rewrite zlen_nil in Hs. lia.
  - rewrite He. by apply IH.
Qed.
