(* ===== verification/Config.v ===== *)
(** * Config: the service's configuration file

    Models [src/ya_license_service/{include/.../config.h,src/config.cpp}].
    The TOML parser (toml++) is a parameter: [TomlApi] has the accessors the
    source calls, with the types of the library; [toml_get] is [table[key]],
    [None] where the node view is empty.

    Theorem: a configuration that is accepted is complete and within its
    limits. *)

From S2P Require Import Prelude Status MachineIdentity.

#[local] Set Warnings "-register-all".

Class TomlApi := {
  toml_table : Type;
  toml_node : Type;
  toml_get : toml_table → string → option toml_node;
  toml_string : toml_node → option string;       (* [value<std::string>()] *)
  toml_int64 : toml_node → option Z;             (* [value<std::int64_t>()] *)
  toml_bool : toml_node → option bool;           (* [value<bool>()] *)
  toml_as_array : toml_node → option (list toml_node);
  toml_as_table : toml_node → option toml_table;
}.

(** [symlink_status] and [toml::parse_file] on a path. *)
Inductive ConfigFile (table : Type) :=
| NotRegular
| ParseError
| OtherException
| Document (document : table).
Arguments NotRegular {table}.
Arguments ParseError {table}.
Arguments OtherException {table}.
Arguments Document {table} document.

(** ** [config.h] *)

Module ConfigError.
Inductive ConfigError := Io | Parse | MissingField | InvalidValue | DuplicateKeyId.
End ConfigError.
Abbreviation ConfigError := ConfigError.ConfigError.

Record TrustKeyConfig := mkTrustKeyConfig {
  tk_id : string;
  tk_public_key_path : string;
}.

Record ServiceConfig := mkServiceConfig {
  sc_identity_key_id : string;
  sc_identity_private_key_path : string;
  sc_license_path : string;
  sc_product_id : string;
  sc_license_keys : list TrustKeyConfig;
  sc_socket_path : string;
  sc_socket_mode : Z;
  sc_backlog : Z;
  sc_allowed_uids : list Z;
  sc_allowed_gids : list Z;
  sc_max_connections : Z;
  sc_handshake_timeout_ms : Z;
  sc_io_timeout_ms : Z;
  sc_idle_timeout_ms : Z;
  sc_heartbeat_interval_ms : Z;
  sc_heartbeat_timeout_ms : Z;
  sc_machine_identity : LinuxMachineIdentityConfig;
}.

(** Member initializers; [0660] and [0777] are octal. *)
Definition defaultServiceConfig : ServiceConfig :=
  {| sc_identity_key_id := ""; sc_identity_private_key_path := ""; sc_license_path := "";
     sc_product_id := ""; sc_license_keys := [];
     sc_socket_path := "/run/yoauthorize/license-v1.sock"; sc_socket_mode := 432;
     sc_backlog := 64; sc_allowed_uids := []; sc_allowed_gids := [];
     sc_max_connections := 64; sc_handshake_timeout_ms := 5000; sc_io_timeout_ms := 5000;
     sc_idle_timeout_ms := 30000; sc_heartbeat_interval_ms := 5000;
     sc_heartbeat_timeout_ms := 15000; sc_machine_identity := defaultMachineIdentityConfig |}.

Definition UINT16_MAX : Z := 65535.
Definition UINT32_MAX : Z := 4294967295.

Section Load.
Context {TA : TomlApi}.

Definition requiredString (table : toml_table) (key : string) : option string :=
  match toml_get table key ≫= toml_string with
  | Some value => if str_empty value then None else Some value
  | None => None
  end.

(** [None] is [return false]; the conversions to [T] keep the value, every
    [maximum] fits the member. *)
Definition assignInteger (table : toml_table) (key : string) (output minimum maximum : Z)
  : option Z :=
  match toml_get table key with
  | None => Some output
  | Some node =>
      match toml_int64 node with
      | None => None
      | Some value =>
          if (value <? 0) || (value <? minimum) || (maximum <? value) then None else Some value
      end
  end.

Fixpoint parseIdLoop (values : list toml_node) (unique : gset Z) (output : list Z)
  : option (list Z) :=
  match values with
  | [] => Some output
  | item :: values' =>
      match toml_int64 item with
      | None => None
      | Some value =>
          if (value <? 0) || (UINT32_MAX <? value) then None
          else if bool_decide (value ∈ unique) then None
          else parseIdLoop values' ({[value]} ∪ unique) (output ++ [value])
      end
  end.

Definition parseIds (node : toml_node) : option (list Z) :=
  match toml_as_array node with
  | None => None
  | Some values => parseIdLoop values ∅ []
  end.

(** A string member that may be absent but, if present, is a non-empty
    string: [if (value = requiredString(...)) ... else if (table[key]) error]. *)
Definition optionalString (table : toml_table) (key : string) (output : string)
  : result ConfigError string :=
  match requiredString table key with
  | Some value => Ok value
  | None =>
      match toml_get table key with
      | Some _ => Err ConfigError.InvalidValue
      | None => Ok output
      end
  end.

(** [table[key].value<bool>()] with the check that a present node is one. *)
Definition optionalBool (table : toml_table) (key : string) (output : bool)
  : result ConfigError bool :=
  match toml_get table key with
  | None => Ok output
  | Some node => require (toml_bool node) ConfigError.InvalidValue
  end.

Definition loadMachineIdentity (machine : option toml_table)
  : result ConfigError LinuxMachineIdentityConfig :=
  let d := defaultMachineIdentityConfig in
  match machine with
  | None => Ok d
  | Some machine =>
      machine_id_path ← optionalString machine "machine_id_path" (mc_machine_id_path d);
      product_uuid_path ← optionalString machine "product_uuid_path" (mc_product_uuid_path d);
      require_machine_id ← optionalBool machine "require_machine_id" (mc_require_machine_id d);
      require_product_uuid ← optionalBool machine "require_product_uuid" (mc_require_product_uuid d);
      Ok (mkLinuxMachineIdentityConfig machine_id_path product_uuid_path require_machine_id
            require_product_uuid)
  end.

(** The loop over [license_keys]. *)
Fixpoint loadTrustKeys (keys : list toml_node) (key_ids : gset string)
    (license_keys : list TrustKeyConfig) : result ConfigError (list TrustKeyConfig) :=
  match keys with
  | [] => Ok license_keys
  | item :: keys' =>
      match toml_as_table item with
      | None => Err ConfigError.InvalidValue
      | Some key =>
          match requiredString key "id", requiredString key "public_key" with
          | Some id, Some key_path =>
              if bool_decide (id ∈ key_ids) then Err ConfigError.DuplicateKeyId
              else loadTrustKeys keys' ({[id]} ∪ key_ids)
                     (license_keys ++ [mkTrustKeyConfig id key_path])
          | _, _ => Err ConfigError.MissingField
          end
      end
  end.

(** [allowed_gids && !parseIds(allowed_gids, ...)] *)
Definition optionalIds (node : option toml_node) : option (list Z) :=
  match node with None => Some [] | Some node => parseIds node end.

(** The table of the document, from [document["service"]] on. *)
Definition readDocument (document : toml_table) : result ConfigError ServiceConfig :=
  let d := defaultServiceConfig in
  service ← require (toml_get document "service" ≫= toml_as_table) ConfigError.MissingField;
  keys ← require (toml_get document "license_keys" ≫= toml_as_array) ConfigError.MissingField;
  _ ← ensure (negb (zlen keys =? 0)) ConfigError.MissingField;
  identity_id ← require (requiredString service "identity_key_id") ConfigError.MissingField;
  identity_path ← require (requiredString service "identity_private_key") ConfigError.MissingField;
  license_path ← require (requiredString service "license") ConfigError.MissingField;
  product_id ← require (requiredString service "product_id") ConfigError.MissingField;
  _ ← ensure (str_size identity_id <=? UINT16_MAX) ConfigError.MissingField;
  allowed_uids_node ← require (toml_get service "allowed_uids") ConfigError.MissingField;
  socket_path ← optionalString service "socket" (sc_socket_path d);
  allowed_uids ← require (parseIds allowed_uids_node) ConfigError.InvalidValue;
  _ ← ensure (negb (zlen allowed_uids =? 0)) ConfigError.InvalidValue;
  allowed_gids ← require (optionalIds (toml_get service "allowed_gids")) ConfigError.InvalidValue;
  let assign key output minimum maximum :=
    require (assignInteger service key output minimum maximum) ConfigError.InvalidValue in
  socket_mode ← assign "socket_mode" (sc_socket_mode d) 0 511;
  backlog ← assign "backlog" (sc_backlog d) 1 4096;
  max_connections ← assign "max_connections" (sc_max_connections d) 1 10000;
  handshake_timeout_ms ← assign "handshake_timeout_ms" (sc_handshake_timeout_ms d) 100 60000;
  io_timeout_ms ← assign "io_timeout_ms" (sc_io_timeout_ms d) 100 60000;
  idle_timeout_ms ← assign "idle_timeout_ms" (sc_idle_timeout_ms d) 1000 3600000;
  heartbeat_interval_ms ← assign "heartbeat_interval_ms" (sc_heartbeat_interval_ms d) 1000 60000;
  heartbeat_timeout_ms ← assign "heartbeat_timeout_ms" (sc_heartbeat_timeout_ms d) 2000 300000;
  _ ← ensure (heartbeat_interval_ms <? heartbeat_timeout_ms) ConfigError.InvalidValue;
  machine_identity ← loadMachineIdentity (toml_get document "machine_identity" ≫= toml_as_table);
  license_keys ← loadTrustKeys keys ∅ [];
  Ok {| sc_identity_key_id := identity_id; sc_identity_private_key_path := identity_path;
        sc_license_path := license_path; sc_product_id := product_id;
        sc_license_keys := license_keys; sc_socket_path := socket_path;
        sc_socket_mode := socket_mode; sc_backlog := backlog;
        sc_allowed_uids := allowed_uids; sc_allowed_gids := allowed_gids;
        sc_max_connections := max_connections;
        sc_handshake_timeout_ms := handshake_timeout_ms; sc_io_timeout_ms := io_timeout_ms;
        sc_idle_timeout_ms := idle_timeout_ms;
        sc_heartbeat_interval_ms := heartbeat_interval_ms;
        sc_heartbeat_timeout_ms := heartbeat_timeout_ms;
        sc_machine_identity := machine_identity |}.

Definition loadConfig (files : string → ConfigFile toml_table) (path : string)
  : result ConfigError ServiceConfig :=
  match files path with
  | NotRegular | OtherException => Err ConfigError.Io
  | ParseError => Err ConfigError.Parse
  | Document document => readDocument document
  end.
End Load.

(** ** Accepted configurations *)

Record config_wf (c : ServiceConfig) : Prop := mkConfigWf {
  wf_identity : 0 < str_size (sc_identity_key_id c) <= UINT16_MAX;
  wf_paths : sc_identity_private_key_path c ≠ "" ∧ sc_license_path c ≠ "" ∧ sc_socket_path c ≠ "";
  wf_product : sc_product_id c ≠ "";
  wf_keys : sc_license_keys c ≠ [] ∧ NoDup (map tk_id (sc_license_keys c))
    ∧ Forall (fun k => tk_id k ≠ "" ∧ tk_public_key_path k ≠ "") (sc_license_keys c);
  wf_uids : sc_allowed_uids c ≠ [] ∧ NoDup (sc_allowed_uids c)
    ∧ Forall (in_width 32) (sc_allowed_uids c);
  wf_gids : NoDup (sc_allowed_gids c) ∧ Forall (in_width 32) (sc_allowed_gids c);
  wf_socket : 0 <= sc_socket_mode c <= 511 ∧ 1 <= sc_backlog c <= 4096
    ∧ 1 <= sc_max_connections c <= 10000;
  wf_timeouts : 100 <= sc_handshake_timeout_ms c <= 60000 ∧ 100 <= sc_io_timeout_ms c <= 60000
    ∧ 1000 <= sc_idle_timeout_ms c <= 3600000;
  wf_heartbeat : 1000 <= sc_heartbeat_interval_ms c < sc_heartbeat_timeout_ms c
    ∧ sc_heartbeat_timeout_ms c <= 300000;
  wf_machine : mc_machine_id_path (sc_machine_identity c) ≠ ""
    ∧ mc_product_uuid_path (sc_machine_identity c) ≠ "";
}.

Section Accepted.
Context {TA : TomlApi}.

Lemma requiredString_nonempty table key s :
  requiredString table key = Some s → str_empty s = false.
Proof.
  unfold requiredString. destruct (_ ≫= _) as [v|]; [|done]. by destruct (str_empty v) eqn:E; [|intros [= <-]].
Qed.

Lemma requiredString_ne table key s : requiredString table key = Some s → s ≠ "".
Proof. intros H%requiredString_nonempty ->. done. Qed.

Lemma optionalString_ne table key output s :
  optionalString table key output = Ok s → output ≠ "" → s ≠ "".
Proof.
  unfold optionalString. destruct (requiredString table key) eqn:E.
  - intros [= <-] _. by eapply requiredString_ne.
  - destruct (toml_get table key); [done|]. congruence.
Qed.

Lemma assignInteger_range table key output minimum maximum v :
  assignInteger table key output minimum maximum = Some v →
  minimum <= output <= maximum → minimum <= v <= maximum.
Proof.
  unfold assignInteger. destruct (toml_get table key); [|congruence].
  destruct (toml_int64 _); [|done]. destruct (_ || _) eqn:E; [done|]. intros [= <-] _.
  reflect_bools. lia.
Qed.

Lemma parseIdLoop_wf values unique output ids :
  parseIdLoop values unique output = Some ids → (∀ x, x ∈ output → x ∈ unique) →
  NoDup output → Forall (in_width 32) output → NoDup ids ∧ Forall (in_width 32) ids.
Proof.
  revert unique output. induction values as [|item values IH]; intros unique output; cbn; [by intros [= <-]|].
  destruct (toml_int64 item) as [v|]; [|done]. destruct (_ || _) eqn:E; [done|].
  case_bool_decide as Hu; [done|]. reflect_bools. intros Hp Hin Hn Hf.
  apply (IH _ _ Hp).
  - intros x [?|?%list_elem_of_singleton]%elem_of_app; set_solver.
  - apply NoDup_app. split_and!; [done| |apply NoDup_singleton]. intros x Hx Hv%list_elem_of_singleton. subst x. auto.
  - apply Forall_app. split; [done|]. apply Forall_singleton. unfold in_width, UINT32_MAX in *. lia.
Qed.

Lemma parseIds_wf node ids :
  parseIds node = Some ids → NoDup ids ∧ Forall (in_width 32) ids.
Proof.
  unfold parseIds. destruct (toml_as_array node) as [vs|]; [|done]. intros H.
  apply (parseIdLoop_wf _ _ _ _ H); [set_solver|constructor|constructor].
Qed.

Lemma loadTrustKeys_wf keys ids acc out :
  loadTrustKeys keys ids acc = Ok out → (∀ k, k ∈ acc → tk_id k ∈ ids) → NoDup (map tk_id acc) →
  Forall (fun k => tk_id k ≠ "" ∧ tk_public_key_path k ≠ "") acc →
  length out = (length acc + length keys)%nat ∧ NoDup (map tk_id out)
  ∧ Forall (fun k => tk_id k ≠ "" ∧ tk_public_key_path k ≠ "") out.
Proof.
  revert ids acc. induction keys as [|item keys IH]; intros ids acc; cbn;
    [intros [= <-] ???; split_and!; (done || lia)|].
  destruct (toml_as_table item) as [key|]; [|done].
  destruct (requiredString key "id") as [id|] eqn:E1; [|done].
  destruct (requiredString key "public_key") as [path|] eqn:E2; [|done].
  case_bool_decide as Hid; [done|]. intros H Hin Hn Hf.
  destruct (IH _ _ H) as (Hl & Hnd & Hfa).
  - intros k [?%Hin|Hk%list_elem_of_singleton]%elem_of_app; [|subst k]; set_solver.
  - rewrite map_app. apply NoDup_app. split_and!; [done| |apply NoDup_singleton].
    intros y (k & Hy & Hk)%list_elem_of_fmap Hx%list_elem_of_singleton. subst y. cbn in Hx.
    apply Hid. rewrite <- Hx. auto.
  - apply Forall_app. split; [done|]. apply Forall_singleton.
    split; by eapply requiredString_ne.
  - split_and!; try done. rewrite Hl, length_app. cbn. lia.
Qed.

Lemma loadMachineIdentity_wf machine c :
  loadMachineIdentity machine = Ok c → mc_machine_id_path c ≠ "" ∧ mc_product_uuid_path c ≠ "".
Proof.
  unfold loadMachineIdentity. destruct machine as [t|]; [|by intros [= <-]].
  intros H. ok_steps H. injection H as <-. split; by eapply optionalString_ne.
Qed.

Lemma nonempty_zlen {A} (l : list A) : negb (zlen l =? 0) = true → l ≠ [].
Proof. by destruct l. Qed.
Lemma str_nonempty_pos s : s ≠ "" → 0 < str_size s.
Proof. intros H. destruct s; [done|]. unfold str_size. cbn. lia. Qed.

(** C27. A configuration the service accepts is complete and within its
    limits: every required string is there, user ids and trusted key ids are
    unique, at least one user is allowed, and every timeout and limit lies in
    its range, with the heartbeat timeout above the heartbeat interval. *)
Theorem loadConfig_sound files path c : loadConfig files path = Ok c → config_wf c.
Proof.
  unfold loadConfig. destruct (files path) as [| | |document]; try done.
  unfold readDocument. intros H. ok_steps H. injection H as <-.
  repeat match goal with
  | H : requiredString _ _ = Some _ |- _ => apply requiredString_ne in H
  | H : negb (zlen _ =? 0) = true |- _ => apply nonempty_zlen in H
  | H : optionalString _ _ _ = Ok _ |- _ => apply optionalString_ne in H; [|done]
  | H : parseIds _ = Some _ |- _ => apply parseIds_wf in H as [? ?]
  | H : assignInteger _ _ _ _ _ = Some _ |- _ => apply assignInteger_range in H; [|cbn; lia]
  | H : loadMachineIdentity _ = Ok _ |- _ => apply loadMachineIdentity_wf in H
  | H : loadTrustKeys _ _ _ = Ok _ |- _ =>
      apply loadTrustKeys_wf in H as (? & ? & ?); [|set_solver|constructor|constructor]
  end. reflect_bools. split; cbn; try done; try (split_and!; try done; lia).
  - split; [by apply str_nonempty_pos|done].
  - split_and!; try done. intros ->. by destruct x0.
  - revert Hstep11. unfold optionalIds. destruct (toml_get x "allowed_gids").
    + by intros [? ?]%parseIds_wf.
    + intros [= <-]. split; constructor.
Qed.
End Accepted.

(** ** A concrete configuration *)

(** Parsed TOML values, each accessor strict about the type. *)
Inductive TomlValue :=
| TString (s : string)
| TInteger (z : Z)
| TBoolean (b : bool)
| TArray (values : list TomlValue)
| TTable (entries : list (string * TomlValue)).

Fixpoint toml_find (entries : list (string * TomlValue)) (key : string) : option TomlValue :=
  match entries with
  | [] => None
  | (k, v) :: entries' => if String.eqb k key then Some v else toml_find entries' key
  end.

Definition plain_toml : TomlApi :=
  {| toml_table := list (string * TomlValue);
     toml_node := TomlValue;
     toml_get := toml_find;
     toml_string := fun v => match v with TString s => Some s | _ => None end;
     toml_int64 := fun v => match v with TInteger z => Some z | _ => None end;
     toml_bool := fun v => match v with TBoolean b => Some b | _ => None end;
     toml_as_array := fun v => match v with TArray vs => Some vs | _ => None end;
     toml_as_table := fun v => match v with TTable es => Some es | _ => None end |}.

Section Witnesses.
#[local] Existing Instance plain_toml.

Definition sample_document : list (string * TomlValue) :=
  [("service", TTable
      [("identity_key_id", TString "svc"); ("identity_private_key", TString "/k/svc.key");
       ("license", TString "/l/demo.lic"); ("product_id", TString "demo");
       ("allowed_uids", TArray [TInteger 1000; TInteger 0]);
       ("heartbeat_interval_ms", TInteger 2000)]);
   ("license_keys", TArray [TTable [("id", TString "k1"); ("public_key", TString "/k/k1.pub")]])].

Definition config_files (path : string) : ConfigFile (@toml_table plain_toml) :=
  if String.eqb path "/etc/yoauthorize/service.toml" then Document sample_document else NotRegular.

Definition sample_config : ServiceConfig :=
  {| sc_identity_key_id := "svc"; sc_identity_private_key_path := "/k/svc.key";
     sc_license_path := "/l/demo.lic"; sc_product_id := "demo";
     sc_license_keys := [mkTrustKeyConfig "k1" "/k/k1.pub"];
     sc_socket_path := "/run/yoauthorize/license-v1.sock"; sc_socket_mode := 432;
     sc_backlog := 64; sc_allowed_uids := [1000; 0]; sc_allowed_gids := [];
     sc_max_connections := 64; sc_handshake_timeout_ms := 5000; sc_io_timeout_ms := 5000;
     sc_idle_timeout_ms := 30000; sc_heartbeat_interval_ms := 2000;
     sc_heartbeat_timeout_ms := 15000; sc_machine_identity := defaultMachineIdentityConfig |}.

Lemma sample_config_loads :
  loadConfig config_files "/etc/yoauthorize/service.toml" = Ok sample_config.
Proof. vm_compute. reflexivity. Qed.

Lemma loadConfig_sound_witness : config_wf sample_config.
Proof. exact (loadConfig_sound config_files "/etc/yoauthorize/service.toml" _ sample_config_loads). Defined.
End Witnesses.
