(* ===== verification/KeyStore.v ===== *)
(** * KeyStore: the service's keys

    Models [src/ya_license_service/{include/.../key_store.h,src/key_store.cpp}].
    The wiping of temporaries ([crypto::cleanse]) acts on variables that are not
    observed afterwards; the wiping by the destructor and the move operations of
    [LoadedKeys] is modelled on the storage the objects live in.

    Theorems: a key is only ever loaded from a regular file of exactly 32
    bytes, a private one only if nobody else may access it; the loaded key
    ring is exactly the configured one; however the loaded keys are moved
    around, the private key is in one place, and nowhere after its object is
    destroyed. *)

From S2P Require Import Prelude CryptoApi Crypto MachineIdentity Files Config.

Module KeyStoreError.
Inductive KeyStoreError :=
| OpenFailed | InvalidFile | InvalidPermissions | InvalidSize | DuplicateKeyId.
End KeyStoreError.
Abbreviation KeyStoreError := KeyStoreError.KeyStoreError.

Record LoadedKeys := mkLoadedKeys {
  lo_identity_key_id : string;
  lo_identity_private_key : bytes;
  lo_license_public_keys : gmap string bytes;
}.

Definition loadRawKey (disk : Disk) (path : string) (private_key : bool)
  : result KeyStoreError bytes :=
  match disk path with
  | FileError loop => Err (if loop then KeyStoreError.InvalidFile else KeyStoreError.OpenFailed)
  | FileOpened info reads =>
      match info with
      | None => Err KeyStoreError.InvalidFile
      | Some info =>
          if negb (st_regular info) then Err KeyStoreError.InvalidFile
          else if private_key && negb (Z.land (st_mode info) groupOrOther =? 0)
          then Err KeyStoreError.InvalidPermissions
          else if negb (st_size info =? kKeySize) then Err KeyStoreError.InvalidSize
          else require (readFully false kKeySize reads []) KeyStoreError.InvalidFile
      end
  end.

(** The loop over [config.license_keys]. *)
Fixpoint loadPublicKeys (disk : Disk) (keys : list TrustKeyConfig) (loaded : gmap string bytes)
  : result KeyStoreError (gmap string bytes) :=
  match keys with
  | [] => Ok loaded
  | key :: keys' =>
      public_key ← loadRawKey disk (tk_public_key_path key) false;
      if bool_decide (is_Some (loaded !! tk_id key)) then Err KeyStoreError.DuplicateKeyId
      else loadPublicKeys disk keys' (<[tk_id key := public_key]> loaded)
  end.

Definition loadKeys (disk : Disk) (config : ServiceConfig) : result KeyStoreError LoadedKeys :=
  identity ← loadRawKey disk (sc_identity_private_key_path config) true;
  license_public_keys ← loadPublicKeys disk (sc_license_keys config) ∅;
  Ok (mkLoadedKeys (sc_identity_key_id config) identity license_public_keys).

(** ** Objects in storage *)

(** [LoadedKeys loaded;] *)
Definition defaultKeys : LoadedKeys := mkLoadedKeys "" (zeroed kKeySize) ∅.

(** [~LoadedKeys]: what is left in the storage of the key. *)
Definition destroyKeys (keys : LoadedKeys) : LoadedKeys :=
  mkLoadedKeys (lo_identity_key_id keys) (cleanse (lo_identity_private_key keys))
    (lo_license_public_keys keys).

(** The move constructor: the new object, and [other] afterwards.  What
    [std::move] leaves in the string and in the map is unspecified ([id],
    [ring]). *)
Definition moveKeys (other : LoadedKeys) (id : string) (ring : gmap string bytes)
  : LoadedKeys * LoadedKeys :=
  (mkLoadedKeys (lo_identity_key_id other) (lo_identity_private_key other)
     (lo_license_public_keys other),
   mkLoadedKeys id (cleanse (lo_identity_private_key other)) ring).

(** [operator=(LoadedKeys&&)] between two objects. *)
Definition moveAssignKeys (self other : LoadedKeys) (id : string) (ring : gmap string bytes)
  : LoadedKeys * LoadedKeys :=
  let self := mkLoadedKeys (lo_identity_key_id self) (cleanse (lo_identity_private_key self))
                (lo_license_public_keys self) in
  let self := mkLoadedKeys (lo_identity_key_id other) (lo_identity_private_key self)
                (lo_license_public_keys self) in
  let self := mkLoadedKeys (lo_identity_key_id self) (lo_identity_private_key other)
                (lo_license_public_keys self) in
  let self := mkLoadedKeys (lo_identity_key_id self) (lo_identity_private_key self)
                (lo_license_public_keys other) in
  (self, mkLoadedKeys id (cleanse (lo_identity_private_key other)) ring).

(** Storage by address; a destroyed object leaves its bytes. *)
Record Cell := mkCell { ce_alive : bool; ce_keys : LoadedKeys }.
Abbreviation Storage := (gmap nat Cell).

Definition vacant (m : Storage) (l : nat) : Prop :=
  match m !! l with Some c => ce_alive c = false | None => True end.

Inductive key_step (m : Storage) : Storage → Prop :=
| KeyConstruct l : vacant m l → key_step m (<[l := mkCell true defaultKeys]> m)
| KeyMove l l' other id ring : vacant m l → m !! l' = Some (mkCell true other) →
    key_step m (<[l := mkCell true (moveKeys other id ring).1]>
                  (<[l' := mkCell true (moveKeys other id ring).2]> m))
| KeyAssign l l' self other id ring : l ≠ l' →
    m !! l = Some (mkCell true self) → m !! l' = Some (mkCell true other) →
    key_step m (<[l := mkCell true (moveAssignKeys self other id ring).1]>
                  (<[l' := mkCell true (moveAssignKeys self other id ring).2]> m))
| KeySelfAssign l self : m !! l = Some (mkCell true self) → key_step m m
| KeyDestroy l keys : m !! l = Some (mkCell true keys) →
    key_step m (<[l := mkCell false (destroyKeys keys)]> m).

(** ** Correctness *)

(** What the kernel promises about [read]. *)
Definition disk_octets (disk : Disk) : Prop :=
  ∀ path info reads, disk path = FileOpened info reads → octets (delivered reads).

(** A key file: regular, 32 bytes, and private if it has to be. *)
Definition key_file (disk : Disk) (path : string) (private_key : bool) : Prop :=
  ∃ info reads, disk path = FileOpened (Some info) reads ∧ st_regular info = true
    ∧ st_size info = kKeySize
    ∧ (private_key = true → Z.land (st_mode info) groupOrOther = 0).

Lemma loadRawKey_Ok disk path private_key key :
  loadRawKey disk path private_key = Ok key →
  key_file disk path private_key ∧ zlen key = kKeySize.
Proof.
  unfold loadRawKey. destruct (disk path) as [l|[info|] reads] eqn:Ed; try done.
  destruct (negb (st_regular info)) eqn:E1; [done|]. destruct (private_key && _) eqn:E2; [done|].
  destruct (negb (st_size info =? kKeySize)) eqn:E3; [done|].
  intros Hr%require_Ok. apply readFully_size in Hr; [|done]. reflect_bools.
  split; [|done]. exists info, reads. split_and!; try done. intros ->. cbn in E2. by reflect_bools.
Qed.

Lemma loadRawKey_octets disk path private_key key :
  disk_octets disk → loadRawKey disk path private_key = Ok key → octets key.
Proof.
  intros Hd. unfold loadRawKey. destruct (disk path) as [l|[info|] reads] eqn:Ed; try done.
  repeat split_match; try done. intros Hr%require_Ok.
  eapply readFully_octets; [by eapply Hd|constructor|exact Hr].
Qed.

(** Bits 0-5 of the mode are the rights of the group and of others. *)
Lemma no_group_or_other mode :
  Z.land mode groupOrOther = 0 ↔ ∀ i, 0 <= i < 6 → Z.testbit mode i = false.
Proof.
  change groupOrOther with (Z.ones 6). split.
  - intros H i Hi. pose proof (Z.land_spec mode (Z.ones 6) i) as Hs.
    rewrite H, Z.bits_0, Z.ones_spec_low, andb_true_r in Hs by lia. done.
  - intros H. apply Z.bits_inj'. intros i Hi. rewrite Z.land_spec, Z.bits_0.
    destruct (decide (i < 6)).
    + by rewrite H.
    + rewrite Z.ones_spec_high by lia. apply andb_false_r.
Qed.

(** The identity key is private: a private key is loaded only from a
    regular file whose mode gives no right to the group or to others; every
    loaded key has exactly 32 octets. *)
Theorem loadRawKey_private disk path private_key key :
  disk_octets disk → loadRawKey disk path private_key = Ok key →
  is_array kKeySize key
  ∧ ∃ info reads, disk path = FileOpened (Some info) reads
    ∧ st_regular info = true ∧ st_size info = kKeySize
    ∧ (private_key = true → ∀ i, 0 <= i < 6 → Z.testbit (st_mode info) i = false).
Proof.
  intros Hd Hk. pose proof (loadRawKey_octets _ _ _ _ Hd Hk) as Ho.
  apply loadRawKey_Ok in Hk as [(info & reads & He & Hr & Hs & Hp) Hz]. split; [done|].
  exists info, reads. split_and!; try done. intros Hpr. by apply no_group_or_other, Hp.
Qed.

Lemma loadPublicKeys_spec disk keys loaded out :
  loadPublicKeys disk keys loaded = Ok out →
  (∀ id, loaded !! id ≠ None → out !! id = loaded !! id)
  ∧ (∀ k, k ∈ keys → loaded !! tk_id k = None
          ∧ ∃ key, out !! tk_id k = Some key ∧ loadRawKey disk (tk_public_key_path k) false = Ok key)
  ∧ dom out = dom loaded ∪ list_to_set (map tk_id keys)
  ∧ NoDup (map tk_id keys).
Proof.
  revert loaded. induction keys as [|k keys IH]; intros loaded; cbn.
  { intros [= <-]. split_and!; [done|by intros k ?%elem_of_nil|set_solver|constructor]. }
  intros (pk & Hpk & H)%result_bind_Ok. case_bool_decide as Hd; [done|].
  apply eq_None_not_Some in Hd. destruct (IH _ H) as (Hk & Hks & Hdom & Hn).
  assert (out !! tk_id k = Some pk) as Hout by (rewrite Hk; by simplify_map_eq).
  split_and!.
  - intros id Hid. rewrite Hk; [|by rewrite lookup_insert_ne by congruence].
    by rewrite lookup_insert_ne by congruence.
  - intros k' [->|Hk']%elem_of_cons; [by eauto|]. destruct (Hks k' Hk') as [Hl Hx].
    split; [|done]. apply lookup_insert_None in Hl as [? _]. done.
  - rewrite Hdom, dom_insert_L. set_solver.
  - constructor; [|done]. intros (k' & He & Hk')%list_elem_of_fmap.
    destruct (Hks k' Hk') as [Hl _]. rewrite <- He in Hl. by simplify_map_eq.
Qed.

(** The key ring is the configured one: after [loadKeys] the trusted
    license keys are exactly those of the configuration, each with the 32
    bytes of its own file and no id twice, and the identity key is the
    configured one from a private file. *)
Theorem loadKeys_exact disk config keys :
  loadKeys disk config = Ok keys →
  lo_identity_key_id keys = sc_identity_key_id config
  ∧ loadRawKey disk (sc_identity_private_key_path config) true = Ok (lo_identity_private_key keys)
  ∧ dom (lo_license_public_keys keys) = list_to_set (map tk_id (sc_license_keys config))
  ∧ NoDup (map tk_id (sc_license_keys config))
  ∧ ∀ k, k ∈ sc_license_keys config →
      ∃ key, lo_license_public_keys keys !! tk_id k = Some key ∧ zlen key = kKeySize
             ∧ loadRawKey disk (tk_public_key_path k) false = Ok key.
Proof.
  unfold loadKeys. intros (identity & Hi & H)%result_bind_Ok.
  apply result_bind_Ok in H as (ring & Hr & H). injection H as <-.
  apply loadPublicKeys_spec in Hr as (_ & Hks & Hd & Hn). cbn. split_and!; try done.
  - set_solver.
  - intros k Hk. destruct (Hks k Hk) as (_ & key & Hl & Hraw). exists key.
    split_and!; try done. by apply loadRawKey_Ok in Hraw as [_ ?].
Qed.

(** *** The private key is in one place *)

Definition key_of (c : Cell) : bytes := lo_identity_private_key (ce_keys c).

(** At most one object holds [key], and no storage outside objects does. *)
Definition one_place (key : bytes) (m : Storage) : Prop :=
  ∀ l c, m !! l = Some c → key_of c = key →
    ce_alive c = true ∧ ∀ l' c', m !! l' = Some c' → key_of c' = key → l' = l.

Definition not_blank (key : bytes) : Prop := ∀ n, key ≠ replicate n 0.

(** A step turns the cells of [m] into those of [m'], [key] moving from [l'] to
    [l] at most. *)
Lemma one_place_move key m l l' c c' :
  one_place key m → l ≠ l' →
  ce_alive c = true → key_of c' ≠ key →
  (key_of c = key → ∃ o, m !! l' = Some o ∧ key_of o = key) →
  one_place key (<[l := c]> (<[l' := c']> m)).
Proof.
  intros Hm Hne Hc Hc' Hkey q d Hq Hd.
  assert (∀ r e, <[l := c]> (<[l' := c']> m) !! r = Some e → key_of e = key →
    (r = l ∧ e = c) ∨ (r ≠ l ∧ r ≠ l' ∧ m !! r = Some e)) as Hcases.
  { intros r e Hr He. rewrite !lookup_insert in Hr. repeat case_decide; naive_solver. }
  destruct (Hcases q d Hq Hd) as [[-> ->]|(Hql & Hql' & Hqm)].
  - split; [done|]. intros r e Hr He. destruct (Hcases r e Hr He) as [[-> _]|(? & Hrl & Hrm)]; [done|].
    destruct (Hkey Hd) as (o & Ho & Hko). destruct (Hm _ _ Ho Hko) as [_ Hu].
    by destruct Hrl; eapply Hu.
  - destruct (Hm _ _ Hqm Hd) as [Ha Hu]. split; [done|]. intros r e Hr He.
    destruct (Hcases r e Hr He) as [[-> ->]|(? & _ & Hrm)]; [|by eapply Hu].
    destruct (Hkey He) as (o & Ho & Hko). by destruct Hql'; symmetry; eapply Hu.
Qed.

(** A cell is overwritten with something that is not [key]. *)
Lemma one_place_blank key m l c : one_place key m → key_of c ≠ key → one_place key (<[l := c]> m).
Proof.
  intros Hm Hc q d Hq Hd. rewrite lookup_insert in Hq. case_decide; [naive_solver|].
  destruct (Hm _ _ Hq Hd) as [Ha Hu]. split; [done|]. intros r e Hr He.
  rewrite lookup_insert in Hr. case_decide; [naive_solver|]. by eapply Hu.
Qed.

Lemma vacant_ne m l l' k : vacant m l → m !! l' = Some (mkCell true k) → l ≠ l'.
Proof. unfold vacant. intros Hv Hl <-. by rewrite Hl in Hv. Qed.

Lemma key_step_one_place key m m' :
  not_blank key → one_place key m → key_step m m' → one_place key m'.
Proof.
  intros Hk Hm [l Hl|l l' other id ring Hl Ho|l l' self other id ring Hne Hs Ho|l self Hs|l keys Hs].
  - apply one_place_blank; [done|]. intros E. exact (Hk _ (eq_sym E)).
  - apply one_place_move; [done|by eapply vacant_ne|done|intros E; exact (Hk _ (eq_sym E))|].
    cbn. intros E. by eexists.
  - apply one_place_move; [done|done|done|intros E; exact (Hk _ (eq_sym E))|].
    cbn. intros E. by eexists.
  - done.
  - apply one_place_blank; [done|]. intros E. exact (Hk _ (eq_sym E)).
Qed.

(** Wherever the loaded keys are moved, at most one object holds the private
    key, and once that object is destroyed it is nowhere in storage. *)
Theorem private_key_in_one_place key m m' :
  not_blank key → one_place key m → rtc key_step m m' →
  one_place key m'
  ∧ ((∀ l c, m' !! l = Some c → ce_alive c = false) → ∀ l c, m' !! l = Some c → key_of c ≠ key).
Proof.
  intros Hk Hm Hs. assert (one_place key m') as Hm'.
  { induction Hs as [|m m1 m' Hstep _ IH]; [done|]. by apply IH; eapply key_step_one_place. }
  split; [done|]. intros Hdead l c Hl Hc. destruct (Hm' _ _ Hl Hc) as [Ha _].
  specialize (Hdead _ _ Hl). congruence.
Qed.

(** ** A concrete disk *)

Definition sample_disk (path : string) : FileOutcome :=
  if String.eqb path "/k/svc.key"
  then FileOpened (Some (mkFileStat true 384 32)) [ReadBytes (replicate 20 7); ReadBytes (replicate 12 9)]
  else if String.eqb path "/k/k1.pub"
  then FileOpened (Some (mkFileStat true 420 32)) [ReadBytes (replicate 32 5)]
  else FileError false.

Lemma sample_disk_octets : disk_octets sample_disk.
Proof.
  intros path info reads. unfold sample_disk.
  destruct (String.eqb path "/k/svc.key"); [|destruct (String.eqb path "/k/k1.pub"); [|done]];
    intros [= _ <-]; apply small_octets; reflexivity.
Qed.

Lemma loadRawKey_private_witness :
  is_array kKeySize (replicate 20 7 ++ replicate 12 9)
  ∧ ∃ info reads, sample_disk "/k/svc.key" = FileOpened (Some info) reads
    ∧ st_regular info = true ∧ st_size info = kKeySize
    ∧ (true = true → ∀ i, 0 <= i < 6 → Z.testbit (st_mode info) i = false).
Proof.
  exact (loadRawKey_private sample_disk "/k/svc.key" true (replicate 20 7 ++ replicate 12 9)
    sample_disk_octets eq_refl).
Defined.

Lemma loadKeys_exact_witness :
  ∃ keys, loadKeys sample_disk sample_config = Ok keys
    ∧ dom (lo_license_public_keys keys) = {["k1"]}.
Proof.
  eexists (mkLoadedKeys "svc" (replicate 20 7 ++ replicate 12 9) {["k1" := replicate 32 5]}).
  assert (loadKeys sample_disk sample_config
    = Ok (mkLoadedKeys "svc" (replicate 20 7 ++ replicate 12 9) {["k1" := replicate 32 5]})) as H
    by (vm_compute; reflexivity).
  split; [exact H|].
  destruct (loadKeys_exact _ _ _ H) as (_ & _ & Hd & _). cbn in Hd. set_solver.
Defined.
