(* ===== verification/Service.v ===== *)
(** * Service: the authorization service

    Models [src/ya_license_service/{include/.../service.h,src/service.cpp,main.cpp}]:
    [AuthorizationService::create], [run] and [serve], and the exit code of
    [main].  A client is an [ITransport]; [wall] is [std::time(nullptr)] at the
    time of a transport state.

    [serve] is a loop over the frames of one client: [serveLoop] takes a number
    of iterations, [serve_returns] shows how many are enough.  [run] handles
    one client after the other; what [accept] and the stop flag give in its
    iterations is the list of [AcceptEvent]s. *)

From stdpp Require Import pretty.
From S2P Require Import Prelude Frame CryptoApi Crypto ToySsl KeySchedule RecordLayer FlatBuf.
From S2P Require Import ToyBuf Messages Handshake Status License Issuer Session MachineIdentity.
From S2P Require Import Connection Transport Program Kernel UnixSocket Files Config KeyStore.

(** ** [service.h] *)

Module ServiceError.
Inductive ServiceError :=
| None
| Config
| Keys
| LicenseFile
| MachineIdentity
| InvalidLicense
| Listen
| Transport.
End ServiceError.
Abbreviation ServiceError := ServiceError.ServiceError.

#[global] Instance ServiceError_eq_dec : EqDecision ServiceError.
Proof. solve_decision. Defined.

(** The listener is set up from the configuration; its state is the kernel's. *)
Record AuthorizationService := mkAuthorizationService {
  sv_config : ServiceConfig;
  sv_keys : LoadedKeys;
  sv_license : LicenseSnapshot;
  sv_sessions : SessionManager;
}.

(** ** [service.cpp] *)

Module Service.
Definition readLicense (disk : Disk) (path : string) : result ServiceError bytes :=
  match readLicenseFile false disk path with
  | LicenseUnopened | LicenseUnsuitable | LicenseUnread => Err ServiceError.LicenseFile
  | LicenseBytesRead bs => Ok bs
  end.

Definition peerAllowed (config : ServiceConfig) (peer : PeerCredentials) : bool :=
  existsb (Z.eqb (wrap 32 (pc_uid peer))) (sc_allowed_uids config)
  || existsb (Z.eqb (wrap 32 (pc_gid peer))) (sc_allowed_gids config).

(** ["uid=" + std::to_string(uid) + ";gid=" + ... + ";pid=" + ...] *)
Definition peerIdentity (peer : PeerCredentials) : string :=
  ("uid=" +:+ pretty (pc_uid peer) +:+ ";gid=" +:+ pretty (pc_gid peer)
   +:+ ";pid=" +:+ pretty (pc_pid peer))%string.

Section Io.
Context {T : ITransport}.

Definition monotonicMilliseconds (st : tr_state) : Z := wrap 64 (Z.div (tr_now st) 1000000).

Definition readFrame (st : tr_state) (deadline : Deadline) : result ServiceError bytes * tr_state :=
  match tr_readExact kFrameHeaderSize deadline st with
  | (Err _, st) => (Err ServiceError.Transport, st)
  | (Ok header_bytes, st) =>
      match decodeHeader header_bytes kDefaultMaxPayloadSize with
      | Err _ => (Err ServiceError.Transport, st)
      | Ok header =>
          match tr_readExact (fh_payload_size (fd_header header)) deadline st with
          | (Err _, st) => (Err ServiceError.Transport, st)
          | (Ok payload, st) => (Ok (header_bytes ++ payload), st)
          end
      end
  end.
End Io.

Section Create.
Context {C : CryptoApi} {L : LicenseBuffers} {TA : TomlApi}.

Definition create (files : string → ConfigFile toml_table) (disk : Disk) (fs : FileSystem) (now : Z)
    (config_path : string) : result ServiceError AuthorizationService :=
  match loadConfig files config_path with
  | Err _ => Err ServiceError.Config
  | Ok config =>
  match loadKeys disk config with
  | Err _ => Err ServiceError.Keys
  | Ok keys =>
  match collectLinuxMachineIdentity fs (sc_machine_identity config) None with
  | Err _ => Err ServiceError.MachineIdentity
  | Ok machine =>
  license_bytes ← readLicense disk (sc_license_path config);
  match validate (mkLicenseValidator (lo_license_public_keys keys)) license_bytes
          (sc_product_id config) (mi_exact_id machine) (wrap 64 now) with
  | Err _ => Err ServiceError.InvalidLicense
  | Ok license => Ok (mkAuthorizationService config keys license ∅)
  end
  end
  end
  end.
End Create.

Section Serve.
Context {C : CryptoApi} {P : ProtocolBuffers} {T : ITransport}.

(** What [handle] returned and the client it was for: [Some error] leaves the
    loop. *)
Definition respond (config : ServiceConfig) (result : ConnectionResult) (st : tr_state)
  : option ServiceError * tr_state :=
  match cx_response result with
  | None => (if cx_closed result then Some ServiceError.None else None, st)
  | Some response =>
      let '(written, st) := tr_writeAll response (deadlineAfter st (sc_io_timeout_ms config)) st in
      if negb (status_ok written) then (Some ServiceError.Transport, st)
      else (if cx_closed result then Some ServiceError.None else None, st)
  end.

(** The loop of [serve]; [fuel] is for the iterations, [tries] for the loop of
    [SessionManager::create]. *)
Fixpoint serveLoop (fuel tries : nat) (wall : tr_state → Z) (config : ServiceConfig)
    (connection : Connection) (sessions : SessionManager) (g : cr_rng) (st : tr_state)
  : exec (ServiceError * Connection * SessionManager * cr_rng * tr_state) :=
  match fuel with
  | O => Running
  | S fuel' =>
      if closed connection
      then Done (ServiceError.None, connection, sessions, g, tr_close st)
      else
      let timeout := if established connection then sc_idle_timeout_ms config
                     else sc_handshake_timeout_ms config in
      match readFrame st (deadlineAfter st timeout) with
      | (Err error, st) => Done (error, connection, sessions, g, st)
      | (Ok frame, st) =>
          handled ← Connection.handle tries connection sessions g frame (monotonicMilliseconds st)
                      (wrap 64 (wall st));
          let '(result, connection, sessions, g) := handled in
          match respond config result st with
          | (Some ServiceError.None, st) =>
              Done (ServiceError.None, connection, sessions, g, tr_close st)
          | (Some error, st) => Done (error, connection, sessions, g, st)
          | (None, st) => serveLoop fuel' tries wall config connection sessions g st
          end
      end
  end.

(** [serve], with the destructor of its [Connection]. *)
Definition serve (fuel tries : nat) (wall : tr_state → Z) (service : AuthorizationService)
    (sessions : SessionManager) (g : cr_rng) (client : tr_state) (peer_identity : string)
  : exec (ServiceError * SessionManager * cr_rng * tr_state) :=
  let config := sv_config service in
  let connection :=
    newConnection (lo_identity_key_id (sv_keys service)) (lo_identity_private_key (sv_keys service))
      (sv_license service) peer_identity (sc_heartbeat_interval_ms config)
      (sc_heartbeat_timeout_ms config) in
  served ← serveLoop fuel tries wall config connection sessions g client;
  let '(error, connection, sessions, g, client) := served in
  Done (error, (closeSession connection sessions).2, g, client).

(** One iteration of [run]: the stop flag, and what [accept] returned (with
    the second look at the flag, or the client and its credentials). *)
Inductive AcceptOutcome :=
| AcceptFailed (status : TransportStatus) (stop : bool)
| Accepted (client : tr_state) (peer : option PeerCredentials).

Record AcceptEvent := mkAcceptEvent { ae_stop : bool; ae_outcome : AcceptOutcome }.

(** The loop of [run].  [served] collects the peers that were served (for the
    statements only). *)
Fixpoint runLoop (fuel tries : nat) (wall : tr_state → Z) (service : AuthorizationService)
    (events : list AcceptEvent) (sessions : SessionManager) (g : cr_rng)
    (served : list PeerCredentials)
  : exec (ServiceError * SessionManager * cr_rng * list PeerCredentials) :=
  match events with
  | [] => Running
  | event :: events' =>
      if ae_stop event then Done (ServiceError.None, sessions, g, served)
      else
      match ae_outcome event with
      | AcceptFailed status stop =>
          if bool_decide (ts_code status = StatusCode.Timeout)
          then runLoop fuel tries wall service events' sessions g served
          else if stop then Done (ServiceError.None, sessions, g, served)
          else Done (ServiceError.Transport, sessions, g, served)
      | Accepted client peer =>
          match peer with
          | None => runLoop fuel tries wall service events' sessions g served
          | Some peer =>
              if negb (peerAllowed (sv_config service) peer)
              then runLoop fuel tries wall service events' sessions g served
              else
                result ← serve fuel tries wall service sessions g client (peerIdentity peer);
                let '(_, sessions, g, _) := (result : ServiceError * SessionManager * cr_rng * tr_state) in
                runLoop fuel tries wall service events' sessions g (served ++ [peer])
          end
      end
  end.

Definition run (fuel tries : nat) (wall : tr_state → Z) (service : AuthorizationService)
    (listening : TransportStatus) (events : list AcceptEvent) (g : cr_rng)
  : exec (ServiceError * SessionManager * cr_rng * list PeerCredentials) :=
  if negb (status_ok listening) then Done (ServiceError.Listen, sv_sessions service, g, [])
  else runLoop fuel tries wall service events (sv_sessions service) g [].
End Serve.
End Service.
Import Service.

(** ** [main.cpp] *)

(** [main] after the service was created: the exit status. *)
Definition exitStatus (created : bool) (stopped : ServiceError) : Z :=
  if negb created then 1
  else if negb (bool_decide (stopped = ServiceError.None)) then 1 else 0.

(** ** Starting up *)

Section Start.
Context {C : CryptoApi} {L : LicenseBuffers} {TA : TomlApi}.

(** C25. The service starts exactly when its configuration loads, its keys
    load, the machine has an identity and the license file holds a package
    signed by one of the configured keys whose license is in force for the
    configured product on this machine now; it then runs with exactly that
    configuration, those keys and that license, and no sessions. *)
Theorem service_starts_by_right files disk fs now path svc :
  Service.create files disk fs now path = Ok svc ↔
  loadConfig files path = Ok (sv_config svc)
  ∧ loadKeys disk (sv_config svc) = Ok (sv_keys svc)
  ∧ sv_sessions svc = ∅
  ∧ ∃ machine package payload,
      collectLinuxMachineIdentity fs (sc_machine_identity (sv_config svc)) None = Ok machine
      ∧ Service.readLicense disk (sc_license_path (sv_config svc)) = Ok package
      ∧ authentic (mkLicenseValidator (lo_license_public_keys (sv_keys svc))) package payload
      ∧ VerifyLicensePayload payload = true
      ∧ snapshot_of (GetLicensePayload payload) (sv_license svc)
      ∧ in_force (sv_license svc) (sc_product_id (sv_config svc)) (mi_exact_id machine) (wrap 64 now).
Proof.
  unfold Service.create. split.
  - destruct (loadConfig files path) as [config|]; [|done].
    destruct (loadKeys disk config) as [keys|] eqn:Ek; [|done].
    destruct (collectLinuxMachineIdentity fs _ None) as [machine|] eqn:Em; [|done].
    intros (package & Hp & H)%result_bind_Ok.
    destruct (validate _ _ _ _ _) as [license|] eqn:Ev; [|done]. injection H as <-. cbn.
    apply validate_Ok in Ev as (payload & ? & ? & ? & ?). eauto 12.
  - destruct svc as [config keys license sessions]. cbn.
    intros (-> & -> & -> & machine & package & payload & -> & -> & Ha & Hv & Hs & Hf). cbn.
    by rewrite (proj2 (validate_Ok _ _ _ _ _ _)) by eauto.
Qed.
End Start.

(** ** Serving *)

Section Serving.
Context {C : CryptoApi} {CL : CryptoLaws C} {P : ProtocolBuffers} {T : ITransport}.

Lemma serveLoop_owns fuel tries wall config base c m g st e c' m' g' st' :
  conn_inv c → owns base c m →
  serveLoop fuel tries wall config c m g st = Done (e, c', m', g', st') →
  conn_inv c' ∧ owns base c' m'.
Proof.
  revert c m g st. induction fuel as [|fuel IH]; intros c m g st Hc Ho; [done|]. cbn.
  destruct (closed c); [by intros [= <- <- <- <- <-]|].
  destruct (Service.readFrame st _) as [[frame|err] st1]; [|by intros [= <- <- <- <- <-]].
  intros ([[[r c1] m1] g1] & Hh & H)%exec_bind_Done.
  destruct (handle_owns _ base _ _ _ _ _ _ _ _ _ _ Hc Ho Hh) as [Hc1 Ho1].
  destruct (respond config r st1) as [[err|] st2]; [|by eapply IH].
  destruct err; injection H as <- <- <- <- <-; done.
Qed.

Lemma serve_keeps_sessions fuel tries wall svc m g client peer e m' g' client' :
  serve fuel tries wall svc m g client peer = Done (e, m', g', client') → m' = m.
Proof.
  unfold serve. intros ([[[[e1 c1] m1] g1] st1] & Hs & H)%exec_bind_Done.
  injection H as <- <- <- <-.
  destruct (serveLoop_owns _ _ _ _ m _ _ _ _ _ _ _ _ _ (newConnection_inv _ _ _ _ _ _) eq_refl Hs)
    as [_ Ho].
  destruct (closeSession c1 m1) as [c2 m2] eqn:E. by apply (closeSession_owns m) in E as [_ ->].
Qed.

(** Whatever relation the operations of the transport keep, serving keeps. *)
Lemma respond_transport (R : relation tr_state) config r st e st' :
  (∀ st, R st st) → (∀ bs d st s st', tr_writeAll bs d st = (s, st') → R st st') →
  respond config r st = (e, st') → R st st'.
Proof.
  intros Hr Hw. unfold respond. destruct (cx_response r); [|by intros [= _ <-]].
  destruct (tr_writeAll _ _ st) as [s st1] eqn:E. apply Hw in E. by destruct (negb _); intros [= _ <-].
Qed.

Lemma readFrame_transport (R : relation tr_state) st d r st' :
  (∀ st, R st st) → Transitive R → (∀ n d st r st', tr_readExact n d st = (r, st') → R st st') →
  Service.readFrame st d = (r, st') → R st st'.
Proof.
  intros Hr Ht Hre. unfold Service.readFrame.
  destruct (tr_readExact kFrameHeaderSize d st) as [[hb|] st1] eqn:E1; apply Hre in E1; [|by intros [= _ <-]].
  destruct (decodeHeader _ _) as [h|]; [|by intros [= _ <-]].
  destruct (tr_readExact _ d st1) as [[pl|] st2] eqn:E2; apply Hre in E2; intros [= _ <-]; by etrans.
Qed.

Lemma serveLoop_transport (R : relation tr_state) fuel tries wall config c m g st e c' m' g' st' :
  (∀ st, R st st) → Transitive R →
  (∀ n d st r st', tr_readExact n d st = (r, st') → R st st') →
  (∀ bs d st s st', tr_writeAll bs d st = (s, st') → R st st') →
  (∀ st, R st (tr_close st)) →
  serveLoop fuel tries wall config c m g st = Done (e, c', m', g', st') → R st st'.
Proof.
  intros Hr Ht Hre Hw Hc. revert c m g st. induction fuel as [|fuel IH]; intros c m g st; [done|]. cbn.
  destruct (closed c); [intros [= <- <- <- <- <-]; auto|].
  destruct (Service.readFrame st _) as [r st1] eqn:Er. apply (readFrame_transport R) in Er; [|done..].
  destruct r as [frame|err]; [|by intros [= <- <- <- <- <-]].
  intros ([[[res c1] m1] g1] & _ & H)%exec_bind_Done.
  destruct (respond config res st1) as [o st2] eqn:Ep. apply (respond_transport R) in Ep; [|done..].
  assert (R st st2) by (by etrans). destruct o as [err|]; [|etrans; [done|by eapply IH]].
  destruct err; injection H as <- <- <- <- <-; try done. by etrans.
Qed.

(** Serving a client leaves no trace in the session table: whatever the
    client sends, and however the connection ends (close, error, timeout,
    failed write), the table is afterwards what it was before. *)
Theorem serve_restores_sessions fuel tries wall svc m g client peer e m' g' client' :
  serve fuel tries wall svc m g client peer = Done (e, m', g', client') → m' = m.
Proof. apply serve_keeps_sessions. Qed.

Lemma runLoop_spec fuel tries wall svc events m g served e m' g' served' :
  runLoop fuel tries wall svc events m g served = Done (e, m', g', served') →
  m' = m
  ∧ (Forall (fun p => peerAllowed (sv_config svc) p = true) served →
     Forall (fun p => peerAllowed (sv_config svc) p = true) served')
  ∧ (e = ServiceError.None ∨ e = ServiceError.Transport).
Proof.
  revert m g served. induction events as [|[stop out] events IH]; intros m g served; [done|]. cbn.
  destruct stop; [intros [= <- <- <- <-]; auto|].
  destruct out as [status st2|client [peer|]]; [| |by apply IH].
  - case_bool_decide; [by apply IH|]. destruct st2; intros [= <- <- <- <-]; auto.
  - destruct (peerAllowed (sv_config svc) peer) eqn:Ep; [|by apply IH]. cbn.
    intros ([[[e1 m1] g1] st1] & ->%serve_keeps_sessions & H)%exec_bind_Done.
    destruct (IH _ _ _ H) as (-> & Hf & He). split_and!; try done. intros Hs. apply Hf.
    apply Forall_app. by split; [|apply Forall_singleton].
Qed.

(** [run] serves only peers whose user or group is allowed by the
    configuration, and between clients the session table is as at the start;
    it ends without an error, or because listening or accepting failed. *)
Theorem run_serves_allowed fuel tries wall svc listening events g e m' g' served :
  run fuel tries wall svc listening events g = Done (e, m', g', served) →
  m' = sv_sessions svc
  ∧ Forall (fun p => wrap 32 (pc_uid p) ∈ sc_allowed_uids (sv_config svc)
                     ∨ wrap 32 (pc_gid p) ∈ sc_allowed_gids (sv_config svc)) served
  ∧ (e = ServiceError.None ∨ e = ServiceError.Listen ∨ e = ServiceError.Transport).
Proof.
  unfold run. destruct (negb (status_ok listening)); [intros [= <- <- <- <-]; auto|].
  intros (-> & Hf & He)%runLoop_spec. split_and!; [done| |tauto].
  eapply Forall_impl; [by apply Hf, Forall_nil|]. cbn. intros p Hp.
  unfold peerAllowed in Hp. apply orb_true_iff in Hp as [Hp|Hp]; [left|right];
    apply existsb_exists in Hp as (x & Hx & ->%Z.eqb_eq); by apply list_elem_of_In.
Qed.

(** ** Termination *)

(** [budget] counts the bytes the client will still send: reading takes them
    away, writing does not add any. *)
Definition byte_budget (budget : tr_state → nat) : Prop :=
  (∀ n d st bs st', tr_readExact n d st = (Ok bs, st') →
                    (budget st' + Z.to_nat n <= budget st)%nat)
  ∧ (∀ bs d st s st', tr_writeAll bs d st = (s, st') → (budget st' <= budget st)%nat).

Lemma readFrame_budget budget st d f st' :
  byte_budget budget → Service.readFrame st d = (Ok f, st') → (budget st' < budget st)%nat.
Proof.
  intros [Hr _]. unfold Service.readFrame.
  destruct (tr_readExact kFrameHeaderSize d st) as [[hb|] st1] eqn:E1; [|done]. apply Hr in E1.
  destruct (decodeHeader _ _) as [h|]; [|done].
  destruct (tr_readExact _ d st1) as [[pl|] st2] eqn:E2; [|done]. apply Hr in E2.
  intros [= _ <-]. change (Z.to_nat kFrameHeaderSize) with 20%nat in E1. lia.
Qed.

Lemma respond_budget budget config r st e st' :
  byte_budget budget → respond config r st = (e, st') → (budget st' <= budget st)%nat.
Proof.
  intros [_ Hw]. unfold respond. destruct (cx_response r); [|by intros [= _ <-]].
  destruct (tr_writeAll _ _ st) as [s st1] eqn:E. apply Hw in E.
  destruct (negb _); intros [= _ <-]; done.
Qed.

Lemma bind_returns {A B} (m : exec A) (f : A → exec B) :
  m ≠ Running → (∀ a, m = Done a → f a ≠ Running) → m ≫= f ≠ Running.
Proof. destruct m; cbn; auto. Qed.

Ltac returns :=
  repeat first
    [ done
    | apply bind_returns; [|intros ? _]
    | match goal with |- context [deref ?p] => destruct p; cbn end
    | split_match ].

Lemma decoders_return bs :
  decodeClientHello bs ≠ Running ∧ decodeClientFinished bs ≠ Running
  ∧ decodeAuthorize bs ≠ Running ∧ decodeHeartbeat bs ≠ Running ∧ decodeCloseSession bs ≠ Running.
Proof.
  unfold decodeClientHello, decodeClientFinished, decodeAuthorize, decodeHeartbeat,
    decodeCloseSession. split_and!; returns.
Qed.

Lemma handshake_returns h msg frame g :
  handleClientHello h msg g ≠ Running ∧ handleClientFinished h frame ≠ Running.
Proof.
  split.
  - unfold handleClientHello. destruct (negb _); [done|].
    apply bind_returns; [by apply decoders_return|]. intros a _. returns.
  - unfold handleClientFinished. destruct (hs_state h), (hs_reader h); try done.
    destruct (RecordReader_open _ _) as [[p|] r']; [|done].
    apply bind_returns; [by apply decoders_return|]. intros a _. returns.
Qed.

(** No id is drawn twice in [n] draws, whatever the state of the generator. *)
Definition no_repeated_draws (n : nat) : Prop := ∀ g ids, draws n g = Some ids → NoDup ids.

Lemma handle_returns base c m g frame t u :
  no_repeated_draws (S (size base)) → conn_inv c → owns base c m →
  Connection.handle (S (size base)) c m g frame t u ≠ Running.
Proof.
  intros Hd [_ Hc] Ho. unfold Connection.handle. destruct (cn_state c) eqn:Es.
  - unfold handleHello. destruct (decodeFrame _ _) as [d|]; [|done]. destruct (_ || _); [done|].
    apply bind_returns; [by apply handshake_returns|]. intros a _. returns.
  - apply bind_returns; [by eapply (handshake_returns _ [])|]. intros a _. returns.
  - destruct (server_open _ _) as [[p|] h]; [|returns]. cbn [cn_state with_handshake]. rewrite Es.
    rewrite bool_decide_eq_true_2 by done. destruct Hc as [_ Hn]. unfold owns in Ho.
    rewrite Hn in Ho. subst m. unfold handleAuthorize.
    apply bind_returns; [by apply decoders_return|]. intros a _. destruct a as [req|]; [|done].
    destruct (negb _); [done|]. apply bind_returns; [|intros x _; returns].
    unfold authorizeRequest. destruct (negb _); [done|]. destruct (licenseExpired _ _); [done|].
    apply bind_returns; [|intros x _; returns].
    destruct (create_total base g (ls_product_id (cn_license (with_handshake c h)))
      (cn_peer_identity (with_handshake c h)) (ls_features (cn_license (with_handshake c h)))
      (ls_expire_time (cn_license (with_handshake c h))) t
      (ls_max_sessions (cn_license (with_handshake c h)))) as [r ->]; [apply Hd|done].
  - destruct (server_open _ _) as [[p|] h]; [|returns]. cbn [cn_state with_handshake]. rewrite Es.
    rewrite bool_decide_eq_false_2 by done. apply bind_returns; [|intros a _; returns].
    unfold handleActive. apply bind_returns; [by apply decoders_return|]. intros a _.
    destruct a as [hb|]; [returns|]. apply bind_returns; [by apply decoders_return|]. intros a _. returns.
  - done.
Qed.

Lemma serveLoop_returns fuel wall config budget base c m g st :
  byte_budget budget → no_repeated_draws (S (size base)) → conn_inv c → owns base c m →
  (budget st < fuel)%nat → serveLoop fuel (S (size base)) wall config c m g st ≠ Running.
Proof.
  intros Hb Hd. revert c m g st. induction fuel as [|fuel IH]; intros c m g st Hc Ho Hf; [lia|]. cbn.
  destruct (closed c); [done|].
  destruct (Service.readFrame st _) as [[frame|err] st1] eqn:Er; [|done].
  apply (readFrame_budget budget) in Er; [|done].
  apply bind_returns; [by apply handle_returns|]. intros [[[r c1] m1] g1] Hh.
  destruct (handle_owns _ base _ _ _ _ _ _ _ _ _ _ Hc Ho Hh) as [Hc1 Ho1].
  destruct (respond config r st1) as [[err|] st2] eqn:Ep; [by destruct err|].
  apply (respond_budget budget) in Ep; [|done]. apply IH; (done || lia).
Qed.

Lemma serve_terminates wall svc budget m g client peer :
  byte_budget budget → no_repeated_draws (S (size m)) →
  serve (S (budget client)) (S (size m)) wall svc m g client peer ≠ Running.
Proof.
  intros Hb Hd. unfold serve. apply bind_returns; [|by intros [[[[e c1] m1] g1] st1] _].
  apply (serveLoop_returns _ _ _ budget); (done || lia || apply newConnection_inv).
Qed.

(** C26. Serving a client ends: every iteration of the loop takes a whole frame
    from the client, so with one iteration more than the client has bytes to
    send the loop has returned; the loop that draws a session id has returned
    after one more draw than there are sessions, if the generator does not
    repeat itself by then. *)
Theorem serve_returns wall svc budget m g client peer :
  byte_budget budget → no_repeated_draws (S (size m)) →
  serve (S (budget client)) (S (size m)) wall svc m g client peer ≠ Running.
Proof. apply serve_terminates. Qed.
End Serving.

(** ** A concrete client *)

(** A client that has sent [input] and reads whatever is written. *)
Record Script := mkScript { sp_input : bytes; sp_output : bytes; sp_now : Z }.

Definition script_transport : ITransport :=
  {| tr_state := Script;
     tr_now := sp_now;
     tr_connect := fun _ st => (success, st);
     tr_readExact := fun n _ st =>
       if n <=? zlen (sp_input st)
       then (Ok (take (Z.to_nat n) (sp_input st)),
             mkScript (drop (Z.to_nat n) (sp_input st)) (sp_output st) (sp_now st))
       else (Err (mkTransportStatus StatusCode.EndOfFile 0), st);
     tr_writeAll := fun bs _ st =>
       (success, mkScript (sp_input st) (sp_output st ++ bs) (sp_now st));
     tr_close := fun st => st |}.

Definition input_budget (st : @tr_state script_transport) : nat := length (sp_input st).

Lemma script_budget : @byte_budget script_transport input_budget.
Proof.
  split.
  - intros n d st bs st'. unfold input_budget. cbn. destruct (Z.leb_spec n (zlen (sp_input st))) as [Hl|]; [|done].
    intros [= _ <-]. cbn. rewrite length_drop. unfold zlen in Hl. lia.
  - intros bs d st s st' [= _ <-]. done.
Qed.

Section Witnesses.
#[local] Existing Instance toy_crypto.
#[local] Existing Instance toy_buffers.
#[local] Existing Instance toy_licenses.
#[local] Existing Instance plain_toml.
#[local] Existing Instance script_transport.

Definition demo_service : AuthorizationService :=
  mkAuthorizationService sample_config
    (mkLoadedKeys "svc" (kp_private service_pair) ∅) demo_license ∅.

(** Hello, confirmation, authorization; then the client is silent. *)
Definition demo_input : bytes := Eval vm_compute in
  wrapPlaintext run_hello.1.1 ++ demo_finished.1.1.1 ++ demo_authorize.1.

Definition demo_script : @tr_state script_transport := mkScript demo_input [] 10000000.

Definition wall_clock (st : @tr_state script_transport) : Z := 1500.

Definition served_state :=
  (ServiceError * SessionManager * @cr_rng toy_crypto * @tr_state script_transport)%type.
Definition served_done (x : exec served_state) : served_state :=
  match x with Done a => a | _ => (ServiceError.Config, ∅, run_rng 0, demo_script) end.
Definition demo_served : served_state := Eval vm_compute in
  served_done (serve 4 1 wall_clock demo_service ∅ (run_rng 22) demo_script "uid=1000;gid=0;pid=7").

Lemma demo_served_done :
  serve 4 1 wall_clock demo_service ∅ (run_rng 22) demo_script "uid=1000;gid=0;pid=7"
  = Done (demo_served.1.1.1, demo_served.1.1.2, demo_served.1.2, demo_served.2).
Proof. vm_compute. reflexivity. Qed.

Lemma serve_restores_sessions_witness :
  demo_served.1.1.1 = ServiceError.Transport ∧ sp_output demo_served.2 ≠ []
  ∧ demo_served.1.1.2 = ∅.
Proof.
  split; [vm_compute; reflexivity|]. split; [vm_compute; discriminate|].
  exact (serve_restores_sessions _ _ _ _ _ _ _ _ _ _ _ _ demo_served_done).
Defined.

Definition demo_peer : PeerCredentials := mkPeerCredentials 7 1000 0.
Definition demo_events : list AcceptEvent :=
  [mkAcceptEvent false (AcceptFailed (mkTransportStatus StatusCode.Timeout 0) false);
   mkAcceptEvent false (Accepted demo_script (Some (mkPeerCredentials 9 55 55)));
   mkAcceptEvent false (Accepted demo_script (Some demo_peer));
   mkAcceptEvent true (AcceptFailed (mkTransportStatus StatusCode.Timeout 0) false)].

Lemma run_serves_allowed_witness :
  ∃ g', run 4 1 wall_clock demo_service success demo_events (run_rng 22)
        = Done (ServiceError.None, ∅, g', [demo_peer])
  ∧ Forall (fun p => wrap 32 (pc_uid p) ∈ sc_allowed_uids sample_config
                     ∨ wrap 32 (pc_gid p) ∈ sc_allowed_gids sample_config) [demo_peer].
Proof.
  assert (run 4 1 wall_clock demo_service success demo_events (run_rng 22)
          = Done (ServiceError.None, ∅, demo_served.1.2, [demo_peer])) as H
    by (vm_compute; reflexivity).
  exists demo_served.1.2. split; [exact H|].
  exact (proj1 (proj2 (run_serves_allowed _ _ _ _ _ _ _ _ _ _ _ H))).
Defined.

Lemma one_draw : no_repeated_draws (S (size (∅ : SessionManager))).
Proof.
  rewrite map_size_empty. intros g ids. unfold draws.
  destruct (cr_randomBytes kSessionIdBytes g) as [[id|] g']; [|done].
  intros [= <-]. apply NoDup_singleton.
Qed.

Lemma serve_returns_witness :
  serve (S (input_budget demo_script)) (S (size (∅ : SessionManager))) wall_clock demo_service ∅
    (run_rng 22) demo_script "uid=1000" ≠ Running.
Proof.
  exact (serve_returns wall_clock demo_service input_budget ∅ (run_rng 22) demo_script "uid=1000"
    script_budget one_draw).
Defined.

End Witnesses.
