(* ===== verification/UnixService.v ===== *)
(** * UnixService: the service on its socket

    The service of [Service.v] with the listener and the clients of
    [UnixListener.v] and [UnixSocket.v]: [AuthorizationService::run], [stop]
    and the life of the listener, over the system calls of [Kernel.v].

    The stop flag is read at the head of the loop and after a failed [accept];
    the list of its readings drives [runLoop]. *)

From S2P Require Import Prelude Frame CryptoApi Crypto ToySsl KeySchedule RecordLayer FlatBuf.
From S2P Require Import ToyBuf Messages Handshake Status License Issuer Session MachineIdentity.
From S2P Require Import Connection Transport Program Kernel UnixSocket UnixTransport UnixListener.
From S2P Require Import Files Config KeyStore Service.

Module OnSocket.
Section Run.
Context {K : Kernel} {KL : KernelLaws K} {C : CryptoApi} {P : ProtocolBuffers}.

(** [listener_] as the constructor of [AuthorizationService] makes it. *)
Definition makeListener (service : AuthorizationService) : sys (option ListenerState) :=
  let config := sv_config service in
  Listener.newListener (sc_socket_path config) (wrap 32 (sc_socket_mode config)) (sc_backlog config).

(** The bytes a client will still send: one more than enough iterations for
    [serve]. *)
Definition client_budget (st : @tr_state unix_transport) : nat := length (input_of st.1 st.2).

(** A call with enough iterations for what may disturb it from now on. *)
Definition patiently {A} (m : nat → sys A) : sys A := fun k => m (enough k 0) k.

(** [serve] on the client's transport, with one iteration more than it has bytes
    to send and one draw more than there are sessions. *)
Definition serveClient (wall : @tr_state unix_transport → Z) (service : AuthorizationService)
    (sessions : SessionManager) (g : cr_rng) (client : UnixSocketTransport) (peer : PeerCredentials)
  : sys (SessionManager * cr_rng * UnixSocketTransport) := fun k =>
  exec_map (fun '(_, sessions, g, (client, k)) => ((sessions, g, client), k))
    (Service.serve (T := unix_transport) (S (client_budget (client, k))) (S (size sessions))
       wall service sessions g (client, k) (Service.peerIdentity peer)).

(** [!peer || !peerAllowed(config_, peer.credentials)] *)
Definition admitted (config : ServiceConfig) (peer : result TransportStatus PeerCredentials)
  : option PeerCredentials :=
  match peer with
  | Err _ => None
  | Ok credentials => if Service.peerAllowed config credentials then Some credentials else None
  end.

(** The rest of the iteration for a client that was accepted, to the
    destruction of its transport. *)
Definition serveAccepted (wall : @tr_state unix_transport → Z) (service : AuthorizationService)
    (sessions : SessionManager) (g : cr_rng) (served : list PeerCredentials)
    (client : UnixSocketTransport) : sys (SessionManager * cr_rng * list PeerCredentials) :=
  '(peer, client) ← patiently (fun n => Unix.peerCredentials n client);
  match admitted (sv_config service) peer with
  | None =>
      client ← patiently (fun n => Unix.close n client);
      patiently (fun n => Unix.destroy n client) ;;
      mret (sessions, g, served)
  | Some peer =>
      '(sessions, g, client) ← serveClient wall service sessions g client peer;
      patiently (fun n => Unix.destroy n client) ;;
      mret (sessions, g, served ++ [peer])
  end.

Definition outcome_of_run : Type :=
  ServiceError * option ListenerState * SessionManager * cr_rng * list PeerCredentials.

(** [listener_.close(); return ServiceError::None;] *)
Definition stopListening (listener : option ListenerState) (sessions : SessionManager) (g : cr_rng)
    (served : list PeerCredentials) : sys outcome_of_run :=
  listener ← patiently (fun n => Listener.close n listener);
  mret (ServiceError.None, listener, sessions, g, served).

Fixpoint runLoop (wall : @tr_state unix_transport → Z) (service : AuthorizationService)
    (stops : list bool) (listener : option ListenerState) (sessions : SessionManager) (g : cr_rng)
    (served : list PeerCredentials) : sys outcome_of_run :=
  match stops with
  | [] => fun _ => Running
  | true :: _ => stopListening listener sessions g served
  | false :: stops' =>
      now ← observe k_clock;
      '(accepted, listener) ← patiently (fun n => Listener.accept n listener (now + 250 * 1000000));
      match accepted with
      | Err status =>
          if bool_decide (ts_code status = StatusCode.Timeout)
          then runLoop wall service stops' listener sessions g served
          else
            match stops' with
            | [] => fun _ => Running
            | true :: _ => stopListening listener sessions g served
            | false :: _ => mret (ServiceError.Transport, listener, sessions, g, served)
            end
      | Ok client =>
          '(sessions, g, served) ← serveAccepted wall service sessions g served client;
          runLoop wall service stops' listener sessions g served
      end
  end.

Definition run (wall : @tr_state unix_transport → Z) (service : AuthorizationService)
    (stops : list bool) (listener : option ListenerState) (g : cr_rng) : sys outcome_of_run :=
  '(listening, listener) ← patiently (fun n => Listener.listen n listener);
  if negb (status_ok listening)
  then mret (ServiceError.Listen, listener, sv_sessions service, g, [])
  else runLoop wall service stops listener (sv_sessions service) g [].

(** [stop()], from another thread *)
Definition stop (fuel : nat) (listener : option ListenerState) : sys (option ListenerState) :=
  Listener.close fuel listener.
End Run.
End OnSocket.
Import OnSocket.

(** ** Clients behind a socket *)

Section Clients.
Context {K : Kernel} {KL : KernelLaws K}.
Implicit Types (k : k_state) (t : UnixSocketTransport).

(** The bytes a client has still to send are a budget for [serve]. *)
Lemma unix_budget : byte_budget (T := unix_transport) client_budget.
Proof.
  split.
  - intros n d [t k] bs [t' k']. cbn.
    destruct (Unix.readExact _ t (Z.max 0 n) d k) as [[[r t1] k1]| |] eqn:E; cbn; [|done|done].
    intros [= -> -> ->].
    refine (wp_partial _ _ (λ r k', r.1 = Ok bs →
      (length (input_of r.2 k') + Z.to_nat n <= length (input_of t k))%nat) _ _ _ E eq_refl).
    apply wp_readExact; [done|lia|]. intros r t1 k1 _ Hr _. cbn. intros ->. inversion Hr; subst.
    unfold zlen in *. rewrite length_app. lia.
  - intros bs d [t k] s [t' k']. cbn.
    destruct (Unix.writeAll _ t bs d k) as [[[r t1] k1]| |] eqn:E; cbn; [|by intros [= <- <- <-]..].
    intros [= -> -> ->].
    refine (wp_partial _ _ (λ r k', (length (input_of r.2 k') <= length (input_of t k))%nat) _ _ _ E).
    apply wp_writeAll; [done|]. intros r t1 k1 _ _ _ [Hi|Hi] _; cbn; rewrite Hi; cbn; lia.
Qed.

(** A read that succeeds takes its bytes off the stream. *)
Lemma unix_read_takes n d (t : UnixSocketTransport) k bs t' k' :
  0 <= n → tr_readExact (ITransport := unix_transport) n d (t, k) = (Ok bs, (t', k')) →
  zlen bs = n ∧ octets bs ∧ input_of t k = bs ++ input_of t' k'.
Proof.
  intros Hn. cbn. rewrite Z.max_r by done.
  destruct (Unix.readExact _ t n d k) as [[[r t1] k1]| |] eqn:E; cbn; [|done|done].
  intros [= -> -> ->].
  refine (wp_partial _ _ (λ r k', r.1 = Ok bs →
    zlen bs = n ∧ octets bs ∧ input_of t k = bs ++ input_of r.2 k') _ _ _ E eq_refl).
  apply wp_readExact; [done|done|]. intros r t1 k1 _ Hr _. cbn. intros ->. by inversion Hr; subst.
Qed.

(** C17. Frames keep their boundaries on the stream: if the next bytes a client
    sends are an admissible frame followed by anything, the service's
    [readFrame] over the socket, however the bytes arrive and however often it
    is disturbed, returns exactly that frame (if it does not fail) and leaves
    exactly the rest to be read. *)
Theorem readFrame_takes_one_frame h payload rest d (t : UnixSocketTransport) k frame t' k' :
  admissible kDefaultMaxPayloadSize h → zlen payload = fh_payload_size h →
  input_of t k = encodeHeader h ++ payload ++ rest →
  Service.readFrame (T := unix_transport) (t, k) d = (Ok frame, (t', k')) →
  frame = encodeHeader h ++ payload ∧ input_of t' k' = rest
  ∧ client_budget (t', k') = length rest.
Proof.
  intros Ha Hp Hin. unfold Service.readFrame.
  destruct (tr_readExact kFrameHeaderSize d _) as [[hb|] [t1 k1]] eqn:E1; [|done].
  apply unix_read_takes in E1 as (Hl1 & Ho1 & Hi1); [|done].
  rewrite Hin in Hi1. apply app_inj_len in Hi1 as [<- Hi1].
  2:{ rewrite length_encodeHeader. unfold zlen, kFrameHeaderSize in Hl1. lia. }
  destruct (decodeHeader (encodeHeader h) _) as [hd|] eqn:Eh; [|done].
  apply decodeHeader_Ok in Eh as (_ & _ & _ & ->); [|done]. cbn [fd_header].
  pose proof (wire_header_encode h [] _ Ha) as Hw. rewrite app_nil_r in Hw. rewrite Hw.
  destruct (tr_readExact (fh_payload_size h) d _) as [[pl|] [t2 k2]] eqn:E2; [|done].
  apply unix_read_takes in E2 as (Hl2 & _ & Hi2); [|rewrite <- Hp; apply zlen_nonneg].
  rewrite <- Hi1 in Hi2. apply app_inj_len in Hi2 as [<- Hi2]; [|unfold zlen in *; lia].
  intros [= <- <- <-]. unfold client_budget. cbn [fst snd]. by rewrite <- Hi2.
Qed.

(** What serving does to the client's transport: only what its operations do. *)
Definition client_step (x y : @tr_state unix_transport) : Prop :=
  holds_transport x.1 x.2 → transport_step x y.

Lemma client_step_refl x : client_step x x.
Proof. intros H. destruct x. by apply transport_quiet. Qed.

#[global] Instance client_step_trans : Transitive client_step.
Proof.
  intros [t1 k1] [t2 k2] [t3 k3] H12 H23 Hh. specialize (H12 Hh).
  specialize (H23 (transport_step_holds _ _ _ _ H12)). unfold transport_step in *. cbn in *.
  destruct t1, t2, t3; try done; by etrans.
Qed.

Lemma serve_client_step {C : CryptoApi} {P : ProtocolBuffers}
    fuel tries wall svc m g x peer e m' g' y :
  Service.serve (T := unix_transport) fuel tries wall svc m g x peer = Done (e, m', g', y) →
  client_step x y.
Proof.
  unfold Service.serve. intros ([[[[e1 c1] m1] g1] st1] & Hs & H)%exec_bind_Done.
  injection H as <- <- <- <-. revert Hs.
  apply (serveLoop_transport client_step); [apply client_step_refl|apply _| | |].
  - intros n d [t k] r [t' k']. cbn.
    destruct (Unix.readExact _ t (Z.max 0 n) d k) as [[[r1 t1] k1]| |] eqn:E; cbn;
      intros [= <- <- <-]; try apply client_step_refl.
    intros Hh. apply (used_step _ _ _ _ Hh). by eapply used_read; [|exact E]; lia.
  - intros bs d [t k] r [t' k']. cbn.
    destruct (Unix.writeAll _ t bs d k) as [[[r1 t1] k1]| |] eqn:E; cbn;
      intros [= <- <- <-]; try apply client_step_refl.
    intros Hh. apply (used_step _ _ _ _ Hh). by eapply used_write.
  - intros [t k]. cbn. destruct (Unix.close _ t k) as [[t1 k1]| |] eqn:E; try apply client_step_refl.
    intros Hh. apply (used_step _ _ _ _ Hh). by eapply used_close.
Qed.

Lemma sys_bind_Done {A B} (m : sys A) (f : A → sys B) k r :
  (m ≫= f) k = Done r ↔ ∃ a k', m k = Done (a, k') ∧ f a k' = Done r.
Proof.
  unfold mbind, prog_mbind. destruct (m k) as [[a k']| |]; cbn; split; try done.
  - eauto.
  - by intros (? & ? & [= <- <-] & ?).
  - by intros (? & ? & ? & ?).
  - by intros (? & ? & ? & ?).
Qed.

Lemma sys_bind_returns {A B} (m : sys A) (f : A → sys B) k :
  m k ≠ Running → (∀ a k', m k = Done (a, k') → f a k' ≠ Running) → (m ≫= f) k ≠ Running.
Proof. unfold mbind, prog_mbind. destruct (m k) as [[a k']| |]; cbn; auto. Qed.

(** A call with enough iterations returns. *)
Lemma patiently_returns {A} (m : nat → sys A) k :
  wp True (m (enough k 0)) k (λ _ _, True) → patiently m k ≠ Running.
Proof. unfold patiently. intros (a & k' & -> & _)%wp_total. done. Qed.

Lemma enough_patience (total : Prop) k : total → (k_patience k < enough k 0)%nat.
Proof. unfold enough. lia. Qed.
End Clients.

Section Running.
Context {K : Kernel} {KL : KernelLaws K} {C : CryptoApi} {CL : CryptoLaws C} {P : ProtocolBuffers}.
Implicit Types (k : k_state) (s : TransportState).

Lemma serveAccepted_spec wall svc m g served s k m' g' served' k' :
  holds s k → serveAccepted wall svc m g served (Some s) k = Done ((m', g', served'), k') →
  m' = m ∧ files k' = foreign s k
  ∧ (Forall (fun p => Service.peerAllowed (sv_config svc) p = true) served →
     Forall (fun p => Service.peerAllowed (sv_config svc) p = true) served').
Proof.
  intros Hh ([peer t] & k1 & Hp & H)%sys_bind_Done.
  assert (∃ s1, t = Some s1 ∧ object_step (s, k) (s1, k1)) as (s1 & -> & Hs1).
  { assert (transport_step (Some s, k) (t, k1)) as Hs by (apply used_step; [done|by eapply used_credentials]).
    unfold transport_step in Hs. cbn in Hs. destruct t; [eauto|done]. }
  assert (∀ s2 k2 k3, object_step (s, k) (s2, k2) →
    patiently (fun n => Unix.destroy n (Some s2)) k2 = Done ((), k3) → files k3 = foreign s k) as Hend.
  { intros s2 k2 k3 Hs2. unfold patiently. apply (wp_partial _ _ (λ _ k3, files k3 = foreign s k)).
    apply wp_destroy; [done|apply Hs2|]. intros k4 ->. apply (os_foreign _ _ Hs2). }
  destruct (admitted (sv_config svc) peer) as [pc|] eqn:Ea.
  - apply sys_bind_Done in H as ([[m2 g2] t2] & k2 & Hs & H).
    apply sys_bind_Done in H as ([] & k3 & Hd & H). injection H as <- <- <- <-.
    unfold serveClient in Hs.
    destruct (Service.serve _ _ _ _ _ _ _ _) as [[[[e m3] g3] [t3 k3']]| |] eqn:E; [|done|done].
    injection Hs as <- <- <- <-.
    pose proof (serve_client_step _ _ _ _ _ _ _ _ _ _ _ _ E) as Hc.
    apply serve_keeps_sessions in E as ->. specialize (Hc (os_holds _ _ Hs1)).
    unfold transport_step in Hc. cbn in Hc. destruct t3 as [s3|]; [|done].
    split; [done|]. split; [eapply Hend; [|exact Hd]; by etrans|].
    intros Hf. apply Forall_app. split; [done|]. apply Forall_singleton.
    unfold admitted in Ea. destruct peer as [c|]; [|done].
    destruct (Service.peerAllowed _ c) eqn:Eal; congruence.
  - apply sys_bind_Done in H as (t2 & k2 & Hc & H).
    apply sys_bind_Done in H as ([] & k3 & Hd & H). injection H as <- <- <- <-.
    split; [done|]. split; [|done].
    assert (transport_step (Some s1, k1) (t2, k2)) as Hs2
      by (apply used_step; [apply Hs1|by eapply used_close]).
    unfold transport_step in Hs2. cbn in Hs2. destruct t2 as [s2|]; [|done].
    eapply Hend; [|exact Hd]. by etrans.
Qed.

Lemma serveAccepted_returns wall svc m g served s k :
  no_repeated_draws (S (size m)) → holds s k →
  serveAccepted wall svc m g served (Some s) k ≠ Running.
Proof.
  intros Hd Hh. apply sys_bind_returns.
  { apply patiently_returns, wp_peerCredentials; [apply enough_patience|done|done]. }
  intros [peer t] k1 Hp.
  assert (∃ s1, t = Some s1 ∧ holds s1 k1) as (s1 & -> & Hh1).
  { assert (transport_step (Some s, k) (t, k1)) as Hs by (apply used_step; [done|by eapply used_credentials]).
    unfold transport_step in Hs. cbn in Hs. destruct t; [|done]. eexists. split; [done|]. apply Hs. }
  assert (∀ s2 k2 (r : SessionManager * cr_rng * list PeerCredentials), holds s2 k2 →
    (patiently (fun n => Unix.destroy n (Some s2)) ;; mret r) k2 ≠ Running) as Hend.
  { intros s2 k2 r Hh2. apply sys_bind_returns; [|done].
    apply patiently_returns, wp_destroy; [apply enough_patience|done|done]. }
  destruct (admitted (sv_config svc) peer) as [pc|].
  - apply sys_bind_returns.
    + unfold serveClient. intros E.
      pose proof (serve_terminates (T := unix_transport) wall svc client_budget m g (Some s1, k1)
        (Service.peerIdentity pc) unix_budget Hd) as Ht.
      by destruct (Service.serve _ _ _ _ _ _ _ _).
    + intros [[m2 g2] t2] k2 Hs. unfold serveClient in Hs.
      destruct (Service.serve _ _ _ _ _ _ _ _) as [[[[e m3] g3] [t3 k3]]| |] eqn:E; [|done|done].
      injection Hs as <- <- <- <-. apply serve_client_step in E. specialize (E Hh1).
      pose proof (transport_step_holds _ _ _ _ E) as Hh3.
      unfold transport_step in E. cbn in E. destruct t3 as [s3|]; [|done]. by apply Hend.
  - apply sys_bind_returns.
    + apply patiently_returns, wp_close; [apply enough_patience|done|done].
    + intros t2 k2 Hc. assert (transport_step (Some s1, k1) (t2, k2)) as Hs2
        by (apply used_step; [done|by eapply used_close]).
      pose proof (transport_step_holds _ _ _ _ Hs2) as Hh2.
      unfold transport_step in Hs2. cbn in Hs2. destruct t2 as [s2|]; [|done]. by apply Hend.
Qed.

(** A listener and a client that was accepted are apart: after the client is
    gone the listener and everything else is as before. *)
Lemma client_gone (l : ListenerState) k t k1 s k2 :
  holds (as_holder l) k → fresh_client (files k) t (files k1) → t = Some s → files k2 = foreign s k1 →
  files k2 = files k.
Proof.
  intros Hh (c & d1 & d2 & Ht & _ & _ & _ & Hn1 & Hn2 & Hne & Hf) -> E. injection Ht as <-. rewrite E.
  unfold foreign. rewrite Hf, delete_insert_id by (by rewrite lookup_insert_ne).
  by rewrite delete_insert_id.
Qed.

Lemma accept_spec fuel (l : ListenerState) dl k r lo k' :
  holds (as_holder l) k → Listener.accept fuel (Some l) dl k = Done ((r, lo), k') →
  ∃ l' : ListenerState, lo = Some l' ∧ holds (as_holder l') k' ∧ accepted l dl k r l' k'.
Proof.
  intros Hh Ha. refine (wp_partial _ _ (λ r k', ∃ l' : ListenerState, r.2 = Some l'
    ∧ holds (as_holder l') k' ∧ accepted l dl k r.1 l' k') _ _ _ Ha).
  apply wp_accept; [done|done|]. intros r1 s1 k1 _ ? ?. by exists s1.
Qed.

Lemma listen_spec fuel (l : ListenerState) k st lo k' :
  listener_ok l k → c_str (ul_path l) ≠ [] → Listener.listen fuel (Some l) k = Done ((st, lo), k') →
  ∃ l' : ListenerState, lo = Some l' ∧ listened l k st l' k'.
Proof.
  intros Hok Hc Hl.
  refine (wp_partial _ _ (λ r k', ∃ l' : ListenerState, r.2 = Some l' ∧ listened l k r.1 l' k') _ _ _ Hl).
  apply wp_bind, wp_listenState; [done|done|done|]. intros st1 s1 k1 ?. by exists s1.
Qed.

(** What a run leaves behind. *)
Record ran (svc : AuthorizationService) (l : ListenerState) (k : k_state) (m : SessionManager)
    (e : ServiceError) (l' : option ListenerState) (m' : SessionManager)
    (served : list PeerCredentials) (k' : k_state) : Prop := {
  ran_sessions : m' = m;
  ran_allowed : Forall (fun p => Service.peerAllowed (sv_config svc) p = true) served;
  ran_listener : ∃ s' : ListenerState, l' = Some s' ∧ holds (as_holder s') k'
    ∧ foreign (as_holder s') k' = foreign (as_holder l) k
    ∧ (e = ServiceError.None → ul_fd s' = -1 ∧ ul_canceled s' = true);
  ran_error : e = ServiceError.None ∨ e = ServiceError.Listen ∨ e = ServiceError.Transport;
}.

Lemma stopListening_spec svc l m g served k k0 l0 e l' m' g' served' k' :
  holds (as_holder l) k → foreign (as_holder l) k = foreign (as_holder l0) k0 →
  Forall (fun p => Service.peerAllowed (sv_config svc) p = true) served →
  stopListening (Some l) m g served k = Done ((e, l', m', g', served'), k') →
  ran svc l0 k0 m e l' m' served' k'.
Proof.
  intros Hh Hf Hs (l1 & k1 & Hc & H)%sys_bind_Done. injection H as <- <- <- <- <- <-.
  refine (wp_partial _ _ (λ l1 k1, ran svc l0 k0 m _ l1 m served k1) _ _ _ Hc).
  apply wp_bind, wp_closeListener; [done|]. intros k2 He Hfs _ _. apply wp_ret.
  pose proof (step_listener_closed _ _ _ Hh He Hfs) as Hst. split; try done; [|by left].
  exists (listener_closed l). split_and!; [done|apply Hst|etrans; [apply (os_foreign _ _ Hst)|done]|done].
Qed.

Lemma run_on_socket_spec wall svc stops l m g served k k0 l0 e l' m' g' served' k' :
  holds (as_holder l) k → foreign (as_holder l) k = foreign (as_holder l0) k0 →
  Forall (fun p => Service.peerAllowed (sv_config svc) p = true) served →
  runLoop wall svc stops (Some l) m g served k = Done ((e, l', m', g', served'), k') →
  ran svc l0 k0 m e l' m' served' k'.
Proof.
  revert l m g served k. induction stops as [|stop stops IH]; intros l m g served k Hh Hf Hs; [done|].
  cbn [runLoop]. destruct stop; [by apply stopListening_spec|].
  intros (now & k1 & [= <- <-] & H)%sys_bind_Done.
  apply sys_bind_Done in H as ([r lo] & k2 & Ha & H). unfold patiently in Ha.
  apply accept_spec in Ha as (l2 & -> & Hh2 & Hacc); [|done].
  destruct r as [t|st].
  - destruct Hacc as (-> & Ht & Hfresh). apply sys_bind_Done in H as ([[m1 g1] sv1] & k3 & Hsv & H).
    pose proof Hfresh as (s & ? & ? & -> & _). cbn in Ht.
    apply serveAccepted_spec in Hsv as (-> & Hf3 & Hs3); [|done].
    pose proof (client_gone l k (Some s) k2 s k3 Hh Hfresh eq_refl Hf3) as Hf3'.
    eapply IH; [| |by apply Hs3|exact H].
    + destruct Hh. split; rewrite ?Hf3'; done.
    + rewrite <- Hf. by apply foreign_files.
  - destruct Hacc as (Hst & Hfor & _). rewrite <- Hfor in Hf.
    case_bool_decide; [by eapply IH|]. destruct stops as [|[] stops]; [done|by eapply stopListening_spec|].
    injection H as <- <- <- <- <- <-. split; auto. by exists l2.
Qed.

(** C13. A run of the service on its socket: however it ends, it has served only
    peers the configuration allows, the session table is as at the start, and
    no descriptor was leaked: besides the listener's two the process has
    exactly those it had.  If it ends without an error the listener is closed. *)
Theorem run_keeps_order wall svc stops l g k e l' m' g' served k' :
  listener_ok l k → c_str (ul_path l) ≠ [] →
  run wall svc stops (Some l) g k = Done ((e, l', m', g', served), k') →
  ran svc l k (sv_sessions svc) e l' m' served k'.
Proof.
  intros Hok Hc ([st lo] & k1 & Hl & H)%sys_bind_Done. unfold patiently in Hl.
  apply listen_spec in Hl as (s1 & -> & [Hs _ _ _ _]); [|done|done].
  assert (foreign (as_holder s1) k1 = foreign (as_holder l) k) as Hf by apply (os_foreign _ _ Hs).
  destruct (status_ok st); cbn [negb] in H.
  - by eapply run_on_socket_spec; [apply Hs| | |exact H].
  - injection H as <- <- <- <- <- <-. split; auto. exists s1. split_and!; [done|apply Hs|done|done].
Qed.

Lemma stopListening_returns l m g served k : stopListening (Some l) m g served k ≠ Running.
Proof.
  apply sys_bind_returns; [|done]. apply patiently_returns.
  apply wp_bind, wp_closeListener; [apply enough_patience|done].
Qed.

Lemma runLoop_returns wall svc stops l g served k :
  no_repeated_draws (S (size (sv_sessions svc))) → holds (as_holder l) k → true ∈ stops →
  (∀ k : k_state, k_clock k + 250 * 1000000 ≠ noDeadline) →
  runLoop wall svc stops (Some l) (sv_sessions svc) g served k ≠ Running.
Proof.
  intros Hd Hh Hin Hclock. revert l g served k Hh Hin.
  induction stops as [|stop stops IH]; intros l g served k Hh Hin; [by apply not_elem_of_nil in Hin|].
  cbn [runLoop]. destruct stop; [apply stopListening_returns|].
  assert (true ∈ stops) as Hin' by (by apply elem_of_cons in Hin as [|]).
  apply sys_bind_returns; [done|]. intros now k1 [= <- <-]. apply sys_bind_returns.
  { apply patiently_returns, wp_accept; [|done|done]. intros _. split; [by apply (enough_patience True)|apply Hclock]. }
  intros [r lo] k2 Ha. unfold patiently in Ha.
  apply accept_spec in Ha as (l2 & -> & Hh2 & Hacc); [|done].
  destruct r as [t|st].
  - destruct Hacc as (-> & Ht & Hfresh). pose proof Hfresh as (s & ? & ? & -> & _). cbn in Ht.
    apply sys_bind_returns; [by apply serveAccepted_returns|]. intros [[m1 g1] sv1] k3 Hsv.
    apply serveAccepted_spec in Hsv as (-> & Hf3 & _); [|done].
    pose proof (client_gone l k (Some s) k2 s k3 Hh Hfresh eq_refl Hf3) as Hf3'.
    apply IH; [|done]. destruct Hh. split; rewrite ?Hf3'; done.
  - case_bool_decide; [by apply IH|]. destruct stops as [|[] stops]; [|apply stopListening_returns|done].
    by apply not_elem_of_nil in Hin'.
Qed.

End Running.
