(* ===== verification/UnixDemo.v ===== *)
(** * UnixDemo: the socket code on a concrete kernel

    The hypotheses of the theorems on sockets hold in concrete situations of
    [ToyKernel.v]: a client that connects, reads in chunks with interruptions
    and writes; a listener that replaces a stale socket; a service that accepts
    a client and is stopped. *)

From S2P Require Import Prelude Frame CryptoApi Crypto ToySsl KeySchedule FlatBuf ToyBuf Messages.
From S2P Require Import Handshake License Session Connection Files Config KeyStore.
From S2P Require Import Transport Program Kernel ToyKernel UnixSocket UnixTransport UnixListener.
From S2P Require Import Service UnixService.

Section Demo.
#[local] Existing Instance toy_kernel.
#[local] Existing Instance toy_crypto.
#[local] Existing Instance toy_buffers.

(** The value and the state after a call that returns. *)
Definition after {A} (default : A) (m : sys A) (k : k_state) : A * k_state :=
  match m k with Done r => r | _ => (default, k) end.

(** ** A client *)

Definition demo_path : string := "/s".
Definition demo_entry : StatBuf := mkStatBuf (Z.lor S_IFSOCK 432) 1 77.

(** Somebody listens at [/s] and will answer with seven bytes on the description
    the client's socket gets; [poll] and [recv] are interrupted now and then. *)
Definition demo_view : View :=
  mkView ∅ {[4%nat := [1; 2; 3; 4; 5; 6; 7]]} ∅ {[c_str demo_path := demo_entry]} {[(1, 77)]} 18.
Definition demo_kernel (script : list Z) (closers : list bool) : k_state :=
  mkToy demo_view 100 0 3 1 script closers [] ∅.

Definition demo_k : k_state := demo_kernel [0; 0; 0; 0; 0; EINTR; 0; 0; -2; EINTR; 0; EAGAIN] [].
Definition demo_new : UnixSocketTransport * k_state := Eval vm_compute in after None (Unix.newTransport demo_path) demo_k.
Definition demo_connected : (TransportStatus * UnixSocketTransport) * k_state := Eval vm_compute in
  after (timedOut, None) (Unix.connect 20 demo_new.1 1000000000) demo_new.2.
Definition demo_read : (result TransportStatus bytes * UnixSocketTransport) * k_state := Eval vm_compute in
  after (Err timedOut, None) (Unix.readExact 30 demo_connected.1.2 5 1000000000) demo_connected.2.
Definition demo_written : (TransportStatus * UnixSocketTransport) * k_state := Eval vm_compute in
  after (timedOut, None) (Unix.writeAll 30 demo_read.1.2 [9; 8; 7] 1000000000) demo_read.2.
Definition demo_closed : UnixSocketTransport * k_state := Eval vm_compute in
  after None (Unix.close 20 demo_written.1.2) demo_written.2.
Definition demo_destroyed : () * k_state := Eval vm_compute in after () (Unix.destroy 20 demo_closed.1) demo_closed.2.

Definition demo_state : TransportState := mkTransportState demo_path 4 3 false.

Lemma demo_new_done : Unix.newTransport demo_path demo_k = Done (demo_new.1, demo_new.2).
Proof. vm_compute. reflexivity. Qed.
Lemma demo_connected_done :
  Unix.connect 20 demo_new.1 1000000000 demo_new.2
  = Done ((demo_connected.1.1, demo_connected.1.2), demo_connected.2).
Proof. vm_compute. reflexivity. Qed.
Lemma demo_connected_state : demo_connected.1 = (success, Some demo_state).
Proof. vm_compute. reflexivity. Qed.
Lemma demo_read_done :
  Unix.readExact 30 demo_connected.1.2 5 1000000000 demo_connected.2
  = Done ((demo_read.1.1, demo_read.1.2), demo_read.2).
Proof. vm_compute. reflexivity. Qed.
Lemma demo_read_value : demo_read.1 = (Ok [1; 2; 3; 4; 5], Some demo_state).
Proof. vm_compute. reflexivity. Qed.
Lemma demo_written_done :
  Unix.writeAll 30 demo_read.1.2 [9; 8; 7] 1000000000 demo_read.2
  = Done ((demo_written.1.1, demo_written.1.2), demo_written.2).
Proof. vm_compute. reflexivity. Qed.
Lemma demo_closed_done :
  Unix.close 20 demo_written.1.2 demo_written.2 = Done (demo_closed.1, demo_closed.2).
Proof. vm_compute. reflexivity. Qed.
Lemma demo_destroyed_done :
  Unix.destroy 20 demo_closed.1 demo_closed.2 = Done ((), demo_destroyed.2).
Proof. vm_compute. reflexivity. Qed.

Lemma demo_used : rtc used (demo_new.1, demo_new.2) (demo_closed.1, demo_closed.2).
Proof.
  eapply rtc_l; [exact (used_connect _ _ _ _ _ _ _ demo_connected_done)|].
  eapply rtc_l; [exact (used_read _ 5 _ _ _ _ _ _ ltac:(lia) demo_read_done)|].
  eapply rtc_l; [exact (used_write _ _ _ _ _ _ _ _ demo_written_done)|].
  apply rtc_once. exact (used_close _ _ _ _ _ demo_closed_done).
Qed.

Lemma transport_balances_descriptors_witness :
  holds_transport demo_closed.1 demo_closed.2 ∧ files demo_destroyed.2 = files demo_k.
Proof.
  exact (transport_balances_descriptors _ _ _ _ _ _ _ _ demo_new_done demo_used demo_destroyed_done).
Defined.

Lemma readExact_refines_stream_witness :
  stream_read 5 (input_of demo_connected.1.2 demo_connected.2) demo_read.1.1
    (input_of demo_read.1.2 demo_read.2).
Proof. exact (proj1 (readExact_refines_stream _ _ 5 _ _ _ _ _ ltac:(lia) demo_read_done)). Defined.

Lemma demo_open : files demo_read.2 !! us_fd demo_state = Some 4%nat.
Proof. vm_compute. reflexivity. Qed.
Lemma demo_write_done :
  Unix.writeAll 30 (Some demo_state) [9; 8; 7] 1000000000 demo_read.2
  = Done ((demo_written.1.1, demo_written.1.2), demo_written.2).
Proof. vm_compute. reflexivity. Qed.

Lemma writeAll_refines_stream_witness :
  stream_write [9; 8; 7] (sent (k_view demo_read.2) 4) demo_written.1.1
    (sent (k_view demo_written.2) 4).
Proof. exact (writeAll_refines_stream _ _ _ _ _ _ _ _ _ demo_open demo_write_done). Defined.

Lemma demo_holds : holds_transport (Some demo_state) demo_read.2.
Proof.
  assert (files demo_read.2 !! 3 = Some 3%nat) as H3 by (vm_compute; reflexivity).
  split; cbn [demo_state us_fd us_cancel_fd us_canceled].
  - right. exists 4%nat. exact demo_open.
  - right. exists 3%nat. exact H3.
  - done.
  - done.
Qed.

Lemma operations_return_witness :
  (∃ r t' k', Unix.readExact 30 (Some demo_state) 5 1000000000 demo_read.2 = Done ((r, t'), k'))
  ∧ (∃ st t' k', Unix.writeAll 30 (Some demo_state) [9; 8; 7] 1000000000 demo_read.2 = Done ((st, t'), k')).
Proof.
  assert (k_patience demo_read.2 + Z.to_nat 5 < 30)%nat as Hr by (apply Nat.ltb_lt; vm_compute; reflexivity).
  assert (k_patience demo_read.2 + length [9; 8; 7] < 30)%nat as Hw by (apply Nat.ltb_lt; vm_compute; reflexivity).
  pose proof (operations_return 30 (Some demo_state) 5 [9; 8; 7] 1000000000 demo_read.2
    ltac:(lia) ltac:(by vm_compute) Hr Hw) as (H1 & H2 & _).
  by split.
Defined.

Definition demo_reread : (result TransportStatus bytes * UnixSocketTransport) * k_state := Eval vm_compute in
  after (Err timedOut, None) (Unix.readExact 30 demo_closed.1 5 1000000000) demo_closed.2.
Lemma demo_reread_done :
  Unix.readExact 30 demo_closed.1 5 1000000000 demo_closed.2
  = Done ((demo_reread.1.1, demo_reread.1.2), demo_reread.2).
Proof. vm_compute. reflexivity. Qed.

Lemma demo_written_holds : holds_transport demo_written.1.2 demo_written.2.
Proof.
  assert (demo_written.1.2 = Some demo_state) as -> by (vm_compute; reflexivity).
  split; cbn [demo_state us_fd us_cancel_fd us_canceled]; [right|right|done|done].
  - exists 4%nat. vm_compute. reflexivity.
  - exists 3%nat. vm_compute. reflexivity.
Qed.

Lemma close_is_final_witness : demo_reread.1.1 = Err canceledStatus.
Proof.
  exact (proj1 (close_is_final _ _ _ _ _ _ _ demo_written_holds demo_closed_done (rtc_refl _ _))
    _ 5 _ _ _ _ ltac:(lia) demo_reread_done).
Defined.

(** ** A listener *)

(** A socket file that nobody listens on is in the way. *)
Definition stale_kernel : k_state :=
  mkToy (mkView ∅ {[90%nat := demo_input]} ∅ {[c_str demo_path := demo_entry]} ∅ 18)
    100 0 3 4095 [] [] [90%nat] ∅.
Definition demo_listener : ListenerState := mkListenerState demo_path 432 64 (-1) 3 0 0 false false.
Definition demo_made : option ListenerState * k_state := Eval vm_compute in
  after None (Listener.newListener demo_path 432 64) stale_kernel.
Definition demo_listening : (TransportStatus * option ListenerState) * k_state := Eval vm_compute in
  after (timedOut, None) (Listener.listen 5 (Some demo_listener)) demo_made.2.
Definition demo_bound : ListenerState := mkListenerState demo_path 432 64 5 3 1 6 true false.

Lemma demo_made_value : demo_made.1 = Some demo_listener.
Proof. vm_compute. reflexivity. Qed.
Lemma demo_listening_done :
  Listener.listen 5 (Some demo_listener) demo_made.2 = Done ((success, Some demo_bound), demo_listening.2).
Proof. vm_compute. reflexivity. Qed.

Lemma demo_listener_ok : listener_ok demo_listener demo_made.2.
Proof.
  split; [|done]. split; cbn [as_holder demo_listener us_fd us_cancel_fd us_canceled ul_fd ul_cancel_fd ul_canceled];
    [by left| |done|done]. right. exists 3%nat. vm_compute. reflexivity.
Qed.


Definition demo_unlistened : option ListenerState * k_state := Eval vm_compute in
  after None (Listener.close 5 (Some demo_bound)) demo_listening.2.

Lemma demo_unlistened_done :
  Listener.close 5 (Some demo_bound) demo_listening.2 = Done (demo_unlistened.1, demo_unlistened.2).
Proof. vm_compute. reflexivity. Qed.

Lemma close_removes_own_entry_witness :
  paths demo_unlistened.2 !! c_str demo_path = None
  ∧ files demo_unlistened.2 = delete 5 (files demo_listening.2).
Proof.
  split; [vm_compute; reflexivity|].
  exact (proj2 (proj2 (proj2 (close_removes_own_entry _ _ _ _ _ demo_unlistened_done)))).
Defined.

Definition demo_accepted : (result TransportStatus UnixSocketTransport * option ListenerState) * k_state := Eval vm_compute in
  after (Err timedOut, None) (Listener.accept 5 (Some demo_bound) 1000000000) demo_listening.2.

Lemma demo_accepted_done :
  Listener.accept 5 (Some demo_bound) 1000000000 demo_listening.2
  = Done ((demo_accepted.1.1, demo_accepted.1.2), demo_accepted.2).
Proof. vm_compute. reflexivity. Qed.

Lemma demo_bound_holds : holds (as_holder demo_bound) demo_listening.2.
Proof.
  split; cbn [as_holder demo_bound us_fd us_cancel_fd us_canceled ul_fd ul_cancel_fd ul_canceled];
    [right; exists 5%nat|right; exists 3%nat|done|done]; vm_compute; reflexivity.
Qed.

Lemma accept_hands_over_witness :
  demo_accepted.1.1 = Ok (Some (mkTransportState "" 8 9 false))
  ∧ ∃ s', demo_accepted.1.2 = Some s' ∧ holds (as_holder s') demo_accepted.2
     ∧ accepted demo_bound 1000000000 demo_listening.2 demo_accepted.1.1 s' demo_accepted.2.
Proof.
  split; [vm_compute; reflexivity|].
  exact (accept_hands_over _ _ _ _ _ _ _ demo_bound_holds demo_accepted_done).
Defined.

(** ** The service *)

(** A frame of three bytes and the beginning of the next one, on the socket of a
    client that was accepted. *)
Definition framed_kernel : k_state :=
  mkToy (mkView {[8 := 90%nat; 9 := 9%nat]} {[90%nat := encodeHeader sample_header ++ [10; 20; 255] ++ [89]]}
           ∅ ∅ ∅ 18) 100 0 10 1 [0; EINTR; 0; -2] [] [] ∅.
Definition framed_client : UnixSocketTransport := Some (mkTransportState "" 8 9 false).
Definition framed_read : result ServiceError bytes * @tr_state unix_transport := Eval vm_compute in
  Service.readFrame (T := unix_transport) (framed_client, framed_kernel) 1000000000.

Lemma framed_read_done :
  Service.readFrame (T := unix_transport) (framed_client, framed_kernel) 1000000000
  = (Ok (encodeHeader sample_header ++ [10; 20; 255]), (framed_read.2.1, framed_read.2.2)).
Proof. vm_compute. reflexivity. Qed.

Lemma readFrame_takes_one_frame_witness : input_of framed_read.2.1 framed_read.2.2 = [89].
Proof.
  assert (admissible kDefaultMaxPayloadSize sample_header) as Ha.
  { unfold admissible, in_width, sample_header, kFrameVersion, kEncryptedFlag, kDefaultMaxPayloadSize.
    cbn -[Z.pow]. split_and!; try lia. }
  assert (input_of framed_client framed_kernel = encodeHeader sample_header ++ [10; 20; 255] ++ [89]) as Hi
    by (vm_compute; reflexivity).
  exact (proj1 (proj2 (readFrame_takes_one_frame sample_header [10; 20; 255] [89] _ _ _ _ _ _ Ha eq_refl Hi
    framed_read_done))).
Defined.

Definition demo_wall (st : @tr_state unix_transport) : Z := 1500.
Definition demo_run : OnSocket.outcome_of_run * k_state := Eval vm_compute in
  after (ServiceError.Config, None, ∅, run_rng 0, [])
    (OnSocket.run demo_wall demo_service [false; true] (Some demo_listener) (run_rng 22)) demo_made.2.

Lemma demo_run_done :
  OnSocket.run demo_wall demo_service [false; true] (Some demo_listener) (run_rng 22) demo_made.2
  = Done ((demo_run.1.1.1.1.1, demo_run.1.1.1.1.2, demo_run.1.1.1.2, demo_run.1.1.2, demo_run.1.2), demo_run.2).
Proof. vm_compute. reflexivity. Qed.

Lemma run_keeps_order_witness :
  demo_run.1.2 = [demo_peer] ∧ demo_run.1.1.1.1.1 = ServiceError.None
  ∧ ran demo_service demo_listener demo_made.2 (sv_sessions demo_service) demo_run.1.1.1.1.1
      demo_run.1.1.1.1.2 demo_run.1.1.1.2 demo_run.1.2 demo_run.2.
Proof.
  split; [vm_compute; reflexivity|]. split; [vm_compute; reflexivity|].
  exact (run_keeps_order _ _ _ _ _ _ _ _ _ _ _ _ demo_listener_ok ltac:(done) demo_run_done).
Defined.

Lemma toy_clock (t : k_state) : k_clock t + 250 * 1000000 ≠ noDeadline.
Proof. unfold noDeadline, k_clock. cbn. lia. Qed.

End Demo.
