(* ===== verification/Client.v ===== *)
(** * Client: the SDK's license client

    Models [src/ya_license_sdk/{include/.../client.h,src/client.cpp}]:
    [LicenseClient::Impl] with [initialize], the iterations of the heartbeat
    thread, [shutdown], [snapshot] and [hasFeature].

    The mutexes make every access to the snapshot atomic and [shutdown] joins
    the heartbeat thread, so an execution is a sequence of [initialize], loop
    iterations and [shutdown]; [heartbeatLoop] takes the outcomes of the waits
    on the condition variable.

    Theorems: features are only visible in the [Valid] state (fail closed); a
    client becomes [Valid] only by an authorization that the authenticated
    service sent in this handshake, and stays [Valid] only by fresh
    acknowledgements; [shutdown] ends in [Closed] from every state. *)

From S2P Require Import Prelude Frame CryptoApi Crypto KeySchedule RecordLayer FlatBuf Messages.
From S2P Require Import Handshake Transport.

(** ** [client.h] *)

Module ClientState.
Inductive ClientState :=
| Uninitialized | Connecting | Valid | Grace | Expired | Revoked | Error | Closed.
End ClientState.
Abbreviation ClientState := ClientState.ClientState.

#[global] Instance ClientState_eq_dec : EqDecision ClientState.
Proof. solve_decision. Defined.

Module ClientError.
Inductive ClientError :=
| InvalidConfig
| Transport
| Protocol
| ServiceIdentityInvalid
| AuthorizationDenied
| LicenseFile
| InvalidLicense
| MachineIdentity
| AlreadyInitialized.
End ClientError.
Abbreviation ClientError := ClientError.ClientError.

(** A failed [sdk::Status]. *)
Record SdkFailure := mkSdkFailure { sf_error : ClientError; sf_message : string }.

Record ClientConfig := mkClientConfig {
  cc_product_id : string;
  cc_endpoint : string;
  cc_trusted_service_keys : gmap string bytes;
  cc_connect_timeout : Z;
  cc_io_timeout : Z;
}.

Definition defaultEndpoint : string := "/run/yoauthorize/license-v1.sock".
Definition defaultTimeout : Z := 5000.

(** [sdk::LicenseSnapshot] *)
Record SdkSnapshot := mkSdkSnapshot {
  sn_state : ClientState;
  sn_features : list string;
  sn_expire_time : Z;
}.

(** ** [client.cpp] *)

(** [LicenseClient::Impl]: [ci_transport] says whether [transport_] is set
    (its state is passed separately), [ci_thread] whether the heartbeat thread
    is in its loop. *)
Record ClientImpl := mkClientImpl {
  ci_snapshot : SdkSnapshot;
  ci_config : ClientConfig;
  ci_session_id : bytes;
  ci_heartbeat_interval : Z;
  ci_next_request_id : Z;
  ci_stop_requested : bool;
  ci_transport : bool;
  ci_handshake : option ClientHandshake;
  ci_thread : bool;
}.

Definition newClientImpl : ClientImpl :=
  {| ci_snapshot := mkSdkSnapshot ClientState.Uninitialized [] 0;
     ci_config := mkClientConfig "" defaultEndpoint ∅ defaultTimeout defaultTimeout;
     ci_session_id := zeroed kSessionIdSize;
     ci_heartbeat_interval := 0;
     ci_next_request_id := 3;
     ci_stop_requested := false;
     ci_transport := false;
     ci_handshake := None;
     ci_thread := false |}.

(** Assignments to members. *)
Definition with_snapshot (i : ClientImpl) (s : SdkSnapshot) : ClientImpl :=
  mkClientImpl s (ci_config i) (ci_session_id i) (ci_heartbeat_interval i)
    (ci_next_request_id i) (ci_stop_requested i) (ci_transport i) (ci_handshake i) (ci_thread i).
Definition with_client_handshake (i : ClientImpl) (h : option ClientHandshake) : ClientImpl :=
  mkClientImpl (ci_snapshot i) (ci_config i) (ci_session_id i) (ci_heartbeat_interval i)
    (ci_next_request_id i) (ci_stop_requested i) (ci_transport i) h (ci_thread i).
Definition with_connection (i : ClientImpl) (t : bool) (h : option ClientHandshake) : ClientImpl :=
  mkClientImpl (ci_snapshot i) (ci_config i) (ci_session_id i) (ci_heartbeat_interval i)
    (ci_next_request_id i) (ci_stop_requested i) t h (ci_thread i).
Definition with_next_request (i : ClientImpl) (n : Z) : ClientImpl :=
  mkClientImpl (ci_snapshot i) (ci_config i) (ci_session_id i) (ci_heartbeat_interval i)
    n (ci_stop_requested i) (ci_transport i) (ci_handshake i) (ci_thread i).

Definition with_thread (i : ClientImpl) (running : bool) : ClientImpl :=
  mkClientImpl (ci_snapshot i) (ci_config i) (ci_session_id i) (ci_heartbeat_interval i)
    (ci_next_request_id i) (ci_stop_requested i) (ci_transport i) (ci_handshake i) running.

Definition set_snapshot_state (s : SdkSnapshot) (st : ClientState) : SdkSnapshot :=
  mkSdkSnapshot st (sn_features s) (sn_expire_time s).

Module Sdk.
Definition wrapPlaintext (payload : bytes) : bytes :=
  encodeHeader {| fh_version := kFrameVersion; fh_flags := 0; fh_sequence := 0;
                  fh_payload_size := wrap 32 (zlen payload) |} ++ payload.

(** Empty for a frame that is not a plaintext frame. *)
Definition unwrapPlaintext (frame : bytes) : bytes :=
  match decodeFrame frame kDefaultMaxPayloadSize with
  | Err _ => []
  | Ok decoded =>
      if negb (fh_flags (fd_header decoded) =? 0) || negb (fh_sequence (fd_header decoded) =? 0)
      then []
      else fd_payload decoded
  end.

Section Io.
Context {T : ITransport}.

Definition writeFrame (st : tr_state) (frame : bytes) (timeout : Z)
  : result SdkFailure () * tr_state :=
  let '(status, st) := tr_writeAll frame (deadlineAfter st timeout) st in
  (if status_ok status then Ok ()
   else Err (mkSdkFailure ClientError.Transport "failed to write service frame"), st).

Definition readFrame (st : tr_state) (timeout : Z) : result SdkFailure bytes * tr_state :=
  match tr_readExact kFrameHeaderSize (deadlineAfter st timeout) st with
  | (Err _, st) => (Err (mkSdkFailure ClientError.Transport "failed to read service frame"), st)
  | (Ok header_bytes, st) =>
      match decodeHeader header_bytes kDefaultMaxPayloadSize with
      | Err _ => (Err (mkSdkFailure ClientError.Protocol "service sent an invalid frame"), st)
      | Ok header =>
          match tr_readExact (fh_payload_size (fd_header header)) (deadlineAfter st timeout) st with
          | (Err _, st) =>
              (Err (mkSdkFailure ClientError.Transport "failed to read service payload"), st)
          | (Ok payload, st) => (Ok (header_bytes ++ payload), st)
          end
      end
  end.
End Io.
End Sdk.

Section Impl.
Context {C : CryptoApi} {P : ProtocolBuffers} {T : ITransport}.

(** [fail(status)] *)
Definition sdk_fail (i : ClientImpl) (st : tr_state) : ClientImpl * tr_state :=
  let st := if ci_transport i then tr_close st else st in
  (with_snapshot (with_connection i false None)
     (mkSdkSnapshot ClientState.Error [] (sn_expire_time (ci_snapshot i))), st).

Definition validConfig (config : ClientConfig) : bool :=
  negb (str_empty (cc_product_id config) || str_empty (cc_endpoint config)
        || bool_decide (cc_trusted_service_keys config = ∅)
        || (cc_connect_timeout config <=? 0) || (cc_io_timeout config <=? 0)).

(** [request_id] and [sdk_version] that [initialize] passes to the handshake. *)
Definition kSdkVersion : string := "yoauthorize-cpp/0.1".

(** What [initialize] sends and receives after the connect: the handshake and
    the authorization.  A failure carries the status passed to [fail]. *)
Definition exchangeHello (config : ClientConfig) (h : ClientHandshake) (st : tr_state) (g : cr_rng)
  : exec (result SdkFailure ClientHandshake * ClientHandshake * tr_state * cr_rng) :=
  let io := cc_io_timeout config in
  let '(hello, h, g) := start h g in
  match hello with
  | Err _ => Done (Err (mkSdkFailure ClientError.Protocol "failed to start service handshake"),
                   h, st, g)
  | Ok hello =>
  match Sdk.writeFrame st (Sdk.wrapPlaintext hello) io with
  | (Err _, st) =>
      Done (Err (mkSdkFailure ClientError.Protocol "failed to start service handshake"), h, st, g)
  | (Ok _, st) =>
  match Sdk.readFrame st io with
  | (Err e, st) => Done (Err e, h, st, g)
  | (Ok server_frame, st) =>
  let server_hello := Sdk.unwrapPlaintext server_frame in
  if zlen server_hello =? 0
  then Done (Err (mkSdkFailure ClientError.Protocol "service hello frame is invalid"), h, st, g)
  else
  finished ← handleServerHello h server_hello;
  let '(finished, h) := finished in
  match finished with
  | Err _ => Done (Err (mkSdkFailure ClientError.ServiceIdentityInvalid
                          "service identity authentication failed"), h, st, g)
  | Ok finished =>
      match Sdk.writeFrame st finished io with
      | (Err _, st) =>
          Done (Err (mkSdkFailure ClientError.Transport "failed to finish service handshake"),
                h, st, g)
      | (Ok _, st) => Done (Ok h, h, st, g)
      end
  end
  end
  end
  end.

(** The response that [initialize] accepts as an authorization. *)
Definition grantsAuthorization (h : ClientHandshake) (response : AuthResultMessage)
  : option bytes :=
  if negb (bool_decide (ar_error response = AuthorizationError.None))
     || negb (ar_request_id response =? 2)
     || negb (ar_protocol_version response =? hc_selected_version h)
  then None
  else
  match ar_session_id response with
  | None => None
  | Some session_id =>
      if (ar_heartbeat_interval_ms response =? 0) || (ar_heartbeat_timeout_ms response =? 0)
         || (ar_heartbeat_timeout_ms response <=? ar_heartbeat_interval_ms response)
      then None else Some session_id
  end.

Definition exchangeAuthorize (config : ClientConfig) (pid : Z) (h : ClientHandshake) (st : tr_state)
  : exec (result SdkFailure (AuthResultMessage * bytes) * ClientHandshake * tr_state) :=
  let io := cc_io_timeout config in
  match encodeAuthorize {| az_request_id := 2; az_protocol_version := hc_selected_version h;
                           az_product_id := cc_product_id config; az_process_id := wrap 64 pid;
                           az_process_start_time := 0 |} with
  | Err _ => Done (Err (mkSdkFailure ClientError.Protocol "failed to encode authorization"), h, st)
  | Ok authorize =>
  let '(sealed, h) := client_seal h authorize in
  match sealed with
  | Err _ => Done (Err (mkSdkFailure ClientError.Transport "failed to send authorization"), h, st)
  | Ok sealed =>
  match Sdk.writeFrame st sealed io with
  | (Err _, st) =>
      Done (Err (mkSdkFailure ClientError.Transport "failed to send authorization"), h, st)
  | (Ok _, st) =>
  match Sdk.readFrame st io with
  | (Err e, st) => Done (Err e, h, st)
  | (Ok response_frame, st) =>
  let '(opened, h) := client_open h response_frame in
  match opened with
  | Err _ => Done (Err (mkSdkFailure ClientError.Protocol "authorization response is invalid"),
                   h, st)
  | Ok opened =>
  response ← decodeAuthResult opened;
  let denied := mkSdkFailure ClientError.AuthorizationDenied "service denied authorization" in
  match response with
  | Err _ => Done (Err denied, h, st)
  | Ok response =>
      match grantsAuthorization h response with
      | None => Done (Err denied, h, st)
      | Some session_id => Done (Ok (response, session_id), h, st)
      end
  end
  end
  end
  end
  end
  end.

Definition initialize (i : ClientImpl) (st : tr_state) (g : cr_rng) (pid : Z) (config : ClientConfig)
  : exec (result SdkFailure () * ClientImpl * tr_state * cr_rng) :=
  if negb (bool_decide (sn_state (ci_snapshot i) = ClientState.Uninitialized))
  then Done (Err (mkSdkFailure ClientError.AlreadyInitialized "client is already initialized"),
             i, st, g)
  else if negb (validConfig config)
  then Done (Err (mkSdkFailure ClientError.InvalidConfig "client configuration is incomplete"),
             with_snapshot i (set_snapshot_state (ci_snapshot i) ClientState.Error), st, g)
  else
  let i := with_snapshot i (set_snapshot_state (ci_snapshot i) ClientState.Connecting) in
  let i := with_connection i true (ci_handshake i) in
  let '(connected, st) := tr_connect (deadlineAfter st (cc_connect_timeout config)) st in
  if negb (status_ok connected)
  then let '(i, st) := sdk_fail i st in
       Done (Err (mkSdkFailure ClientError.Transport "failed to connect to service"), i, st, g)
  else
  let h := newClientHandshake (cc_trusted_service_keys config) kSdkVersion 1 1 1 in
  exchanged ← exchangeHello config h st g;
  let '(r, h, st, g) := exchanged in
  match r with
  | Err e => let '(i, st) := sdk_fail (with_client_handshake i (Some h)) st in
             Done (Err e, i, st, g)
  | Ok h =>
  authorized ← exchangeAuthorize config pid h st;
  let '(r, h, st) := authorized in
  match r with
  | Err e => let '(i, st) := sdk_fail (with_client_handshake i (Some h)) st in
             Done (Err e, i, st, g)
  | Ok (response, session_id) =>
      Done (Ok (),
        {| ci_snapshot := mkSdkSnapshot ClientState.Valid (ar_features response)
                            (ar_expire_time response);
           ci_config := config;
           ci_session_id := session_id;
           ci_heartbeat_interval := ar_heartbeat_interval_ms response;
           ci_next_request_id := ci_next_request_id i;
           ci_stop_requested := ci_stop_requested i;
           ci_transport := ci_transport i;
           ci_handshake := Some h;
           ci_thread := true |}, st, g)
  end
  end.

Definition heartbeatFailed (i : ClientImpl) : ClientImpl :=
  with_snapshot i (mkSdkSnapshot ClientState.Error [] (sn_expire_time (ci_snapshot i))).

(** The [switch] over the acknowledged state. *)
Definition acknowledgedState (state : AuthorizationState) (old : ClientState) : ClientState :=
  match state with
  | AuthorizationState.Valid => ClientState.Valid
  | AuthorizationState.Grace => ClientState.Grace
  | AuthorizationState.Expired => ClientState.Expired
  | AuthorizationState.Revoked => ClientState.Revoked
  | AuthorizationState.Unknown => ClientState.Error
  | AuthorizationState.Unnamed _ => old
  end.

(** The exchange of one heartbeat; [None] is [return heartbeatFailed()]. *)
Definition exchangeHeartbeat (i : ClientImpl) (h : ClientHandshake) (request_id : Z) (st : tr_state)
  : exec (option HeartbeatAckMessage * ClientHandshake * tr_state) :=
  let io := cc_io_timeout (ci_config i) in
  match encodeHeartbeat {| hb_request_id := request_id; hb_protocol_version := hc_selected_version h;
                           hb_session_id := ci_session_id i |} with
  | Err _ => Done (None, h, st)
  | Ok heartbeat =>
  let '(sealed, h) := client_seal h heartbeat in
  match sealed with
  | Err _ => Done (None, h, st)
  | Ok sealed =>
  match Sdk.writeFrame st sealed io with
  | (Err _, st) => Done (None, h, st)
  | (Ok _, st) =>
  match Sdk.readFrame st io with
  | (Err _, st) => Done (None, h, st)
  | (Ok frame, st) =>
  let '(opened, h) := client_open h frame in
  match opened with
  | Err _ => Done (None, h, st)
  | Ok opened =>
  ack ← decodeHeartbeatAck opened;
  match ack with
  | Err _ => Done (None, h, st)
  | Ok ack =>
      if negb (ha_request_id ack =? request_id)
         || negb (ha_protocol_version ack =? hc_selected_version h)
      then Done (None, h, st)
      else Done (Some ack, h, st)
  end
  end
  end
  end
  end
  end.

(** One iteration of the loop after a wait that timed out: whether the loop
    goes on. *)
Definition heartbeatIteration (i : ClientImpl) (h : ClientHandshake) (st : tr_state)
  : exec (bool * ClientImpl * tr_state) :=
  let request_id := ci_next_request_id i in
  let i := with_next_request i (wrap 64 (request_id + 1)) in
  exchanged ← exchangeHeartbeat i h request_id st;
  let '(ack, h, st) := exchanged in
  let i := with_client_handshake i (Some h) in
  match ack with
  | None => Done (false, heartbeatFailed i, st)
  | Some ack =>
      let state := acknowledgedState (ha_state ack) (sn_state (ci_snapshot i)) in
      let valid := bool_decide (state = ClientState.Valid) in
      Done (valid,
            with_snapshot i (mkSdkSnapshot state (if valid then ha_features ack else [])
                               (ha_expire_time ack)), st)
  end.

(** [heartbeatLoop]: [waits] are the results of [wait_for], true when the stop
    flag was seen; when they run out the thread is still waiting.  The loop
    dereferences [handshake_], which is set while the thread runs. *)
Fixpoint heartbeatLoop (waits : list bool) (i : ClientImpl) (st : tr_state)
  : exec (ClientImpl * tr_state) :=
  match waits with
  | [] => Running
  | true :: _ => Done (with_thread i false, st)
  | false :: waits' =>
      match ci_handshake i with
      | None => Undefined
      | Some h =>
          iterated ← heartbeatIteration i h st;
          let '(continue, i, st) := (iterated : bool * ClientImpl * tr_state) in
          if continue then heartbeatLoop waits' i st else Done (with_thread i false, st)
      end
  end.

(** [shutdown] after the join: the loop has returned. *)
Definition shutdown (i : ClientImpl) (st : tr_state) : ClientImpl * tr_state :=
  let '(next, st) :=
    match ci_transport i, ci_handshake i with
    | true, Some h =>
        if bool_decide (hc_state h = HandshakeState.Established)
        then
          let request_id := ci_next_request_id i in
          (wrap 64 (request_id + 1),
           match encodeCloseSession {| cs_request_id := request_id;
                                       cs_protocol_version := hc_selected_version h |} with
           | Err _ => st
           | Ok close =>
               match client_seal h close with
               | (Err _, _) => st
               | (Ok sealed, _) => (Sdk.writeFrame st sealed (cc_io_timeout (ci_config i))).2
               end
           end)
        else (ci_next_request_id i, st)
    | _, _ => (ci_next_request_id i, st)
    end in
  let st := if ci_transport i then tr_close st else st in
  ({| ci_snapshot := mkSdkSnapshot ClientState.Closed [] (sn_expire_time (ci_snapshot i));
      ci_config := ci_config i;
      ci_session_id := ci_session_id i;
      ci_heartbeat_interval := ci_heartbeat_interval i;
      ci_next_request_id := next;
      ci_stop_requested := true;
      ci_transport := false;
      ci_handshake := None;
      ci_thread := false |}, st).

Definition hasFeature (i : ClientImpl) (feature : string) : bool :=
  bool_decide (sn_state (ci_snapshot i) = ClientState.Valid)
  && existsb (String.eqb feature) (sn_features (ci_snapshot i)).
End Impl.

(** ** Executions *)

Section Executions.
Context {C : CryptoApi} {P : ProtocolBuffers} {T : ITransport}.

(** What the application and the heartbeat thread do, one after the other. *)
Inductive client_run_step : ClientImpl * tr_state → ClientImpl * tr_state → Prop :=
| RunInitialize i st g pid config r i' st' g' :
    initialize i st g pid config = Done (r, i', st', g') →
    client_run_step (i, st) (i', st')
| RunHeartbeat i h st go i' st' :
    ci_thread i = true → ci_handshake i = Some h →
    heartbeatIteration i h st = Done (go, i', st') →
    client_run_step (i, st) (with_thread i' go, st')
| RunShutdown i st : client_run_step (i, st) (shutdown i st).

(** Only a client in the [Valid] state shows features or beats; it then has an
    open transport and an established handshake.  An unused client has
    nothing. *)
Definition client_impl_inv (i : ClientImpl) : Prop :=
  match sn_state (ci_snapshot i) with
  | ClientState.Valid =>
      ci_transport i = true ∧ ci_thread i = true
      ∧ (∃ h, ci_handshake i = Some h ∧ client_inv h
              ∧ hc_state h = HandshakeState.Established)
  | ClientState.Uninitialized =>
      sn_features (ci_snapshot i) = [] ∧ ci_thread i = false
      ∧ ci_transport i = false ∧ ci_handshake i = None
  | ClientState.Connecting => False
  | _ => sn_features (ci_snapshot i) = [] ∧ ci_thread i = false
  end.

Lemma unwrapPlaintext_octets frame : octets frame → octets (Sdk.unwrapPlaintext frame).
Proof.
  intros Ho. unfold Sdk.unwrapPlaintext.
  destruct (decodeFrame _ _) as [d|] eqn:E; [|by constructor].
  destruct (_ || _); [by constructor|].
  apply decodeFrame_Ok in E as (_ & _ & _ & _ & ->); [|done]. cbn. by apply Forall_drop.
Qed.

(** What [readFrame] returns is one complete frame. *)
Lemma readFrame_frame {TL : ITransportLaws T} st timeout f st' :
  Sdk.readFrame st timeout = (Ok f, st') →
  octets f ∧ ∃ d, decodeFrame f kDefaultMaxPayloadSize = Ok d.
Proof.
  unfold Sdk.readFrame. destruct (tr_readExact _ _ st) as [[hb|] st1] eqn:E1; [|done].
  apply readExact_exact in E1 as [Hl Hh]; [|unfold kFrameHeaderSize; lia].
  destruct (decodeHeader _ _) as [d|] eqn:Ed; [|done].
  destruct (tr_readExact _ _ st1) as [[pl|] st2] eqn:E2; [|done].
  intros [= <- <-]. apply decodeHeader_Ok in Ed as (H20 & Hm & Ha & ->); [|done].
  apply readExact_exact in E2 as [Hp Ho]; [|destruct Ha as (_ & _ & _ & _ & ?); cbn [fd_header]; lia].
  split; [by apply Forall_app|].
  assert (wire_header (hb ++ pl) = wire_header hb) as Hw.
  { unfold wire_header, subspan. rewrite !drop_app_le by lia.
    rewrite !take_app_le by (rewrite length_drop; lia). done. }
  eexists. apply decodeFrame_Ok; [by apply Forall_app|]. rewrite Hw. split_and!; try done.
  - rewrite length_app. lia.
  - by rewrite take_app_le by lia.
  - rewrite zlen_app. cbn [fd_header] in Hp. lia.
Qed.

(** ** Successful exchanges *)

Lemma exchangeHello_Ok config h st g h' h'' st' g' :
  exchangeHello config h st g = Done (Ok h', h'', st', g') →
  h'' = h' ∧ ∃ hello h1 frame finished st1 st2,
    start h g = (Ok hello, h1, g') ∧ Sdk.readFrame st1 (cc_io_timeout config) = (Ok frame, st2)
    ∧ handleServerHello h1 (Sdk.unwrapPlaintext frame) = Done (Ok finished, h').
Proof.
  unfold exchangeHello. destruct (start h g) as [[[hello|] h1] g1] eqn:E1; [|done].
  destruct (Sdk.writeFrame _ _ _) as [[|] st1] eqn:E2; [|done].
  destruct (Sdk.readFrame st1 _) as [[frame|] st2] eqn:E3; [|done].
  destruct (_ =? 0); [done|].
  intros ([[fin|] h2] & Hf & H)%exec_bind_Done; [|done].
  destruct (Sdk.writeFrame st2 _ _) as [[|] st3]; [|done].
  injection H as <- <- <- <-. split; [done|]. by exists hello, h1, frame, fin, st1, st2.
Qed.

Lemma exchangeAuthorize_Ok config pid h st response sid h' st' :
  exchangeAuthorize config pid h st = Done (Ok (response, sid), h', st') →
  ∃ authorize sealed h1 st1 st2 frame opened,
    encodeAuthorize (mkAuthorizeMessage 2 (hc_selected_version h) (cc_product_id config)
                       (wrap 64 pid) 0) = Ok authorize
    ∧ client_seal h authorize = (Ok sealed, h1)
    ∧ Sdk.readFrame st1 (cc_io_timeout config) = (Ok frame, st2)
    ∧ client_open h1 frame = (Ok opened, h')
    ∧ decodeAuthResult opened = Done (Ok response)
    ∧ grantsAuthorization h' response = Some sid.
Proof.
  unfold exchangeAuthorize. destruct (encodeAuthorize _) as [az|] eqn:E0; [|done].
  destruct (client_seal h az) as [[sealed|] h1] eqn:E1; [|done].
  destruct (Sdk.writeFrame _ _ _) as [[|] st1]; [|done].
  destruct (Sdk.readFrame st1 _) as [[frame|] st2] eqn:E2; [|done].
  destruct (client_open h1 frame) as [[opened|] h2] eqn:E3; [|done].
  intros ([resp|] & Hd & H)%exec_bind_Done; [|done].
  destruct (grantsAuthorization h2 resp) as [sid'|] eqn:E4; [|done].
  injection H as <- <- <- <-. by exists az, sealed, h1, st1, st2, frame, opened.
Qed.

Lemma exchangeHeartbeat_Some i h rid st ack h' st' :
  exchangeHeartbeat i h rid st = Done (Some ack, h', st') →
  ∃ hb sealed h1 st1 st2 frame opened,
    encodeHeartbeat (mkHeartbeatMessage rid (hc_selected_version h) (ci_session_id i)) = Ok hb
    ∧ client_seal h hb = (Ok sealed, h1)
    ∧ Sdk.readFrame st1 (cc_io_timeout (ci_config i)) = (Ok frame, st2)
    ∧ client_open h1 frame = (Ok opened, h')
    ∧ decodeHeartbeatAck opened = Done (Ok ack)
    ∧ ha_request_id ack = rid ∧ ha_protocol_version ack = hc_selected_version h'.
Proof.
  unfold exchangeHeartbeat. destruct (encodeHeartbeat _) as [hb|] eqn:E0; [|done].
  destruct (client_seal h hb) as [[sealed|] h1] eqn:E1; [|done].
  destruct (Sdk.writeFrame _ _ _) as [[|] st1]; [|done].
  destruct (Sdk.readFrame st1 _) as [[frame|] st2] eqn:E2; [|done].
  destruct (client_open h1 frame) as [[opened|] h2] eqn:E3; [|done].
  intros ([a|] & Hd & H)%exec_bind_Done; [|done].
  destruct (_ || _) eqn:E4 in H; [done|]. injection H as <- <- <-. reflect_bools.
  by exists hb, sealed, h1, st1, st2, frame, opened.
Qed.
(** ** The invariant *)

Context {CL : CryptoLaws C}.

Lemma client_seal_inv h p r h' :
  client_seal h p = (r, h') → client_inv h →
  client_inv h' ∧ hc_state h' = hc_state h ∧ hc_selected_version h' = hc_selected_version h
  ∧ hc_reader h' = hc_reader h.
Proof.
  intros Hs Hi. split; [by apply (client_step_inv h h'); [eapply CSeal|]|].
  revert Hs. unfold client_seal. destruct (hc_state h) eqn:E; try (intros [= <- <-]; done).
  destruct (hc_writer h); [|by intros [= <- <-]]. destruct (RecordWriter_seal _ _).
  by intros [= <- <-].
Qed.

Lemma client_open_inv h f r h' :
  client_open h f = (r, h') → client_inv h →
  client_inv h' ∧ hc_state h' = hc_state h ∧ hc_selected_version h' = hc_selected_version h.
Proof.
  intros Hs Hi. split; [by apply (client_step_inv h h'); [eapply COpen|]|].
  revert Hs. unfold client_open. destruct (hc_state h) eqn:E; try (intros [= <- <-]; done).
  destruct (hc_reader h); [|by intros [= <- <-]]. destruct (RecordReader_open _ _).
  by intros [= <- <-].
Qed.

(** A frame that a client opens is the next record the service sealed. *)
Lemma client_open_authentic {CA : CryptoAvailable C} h f p h' :
  client_inv h → octets f → client_open h f = (Ok p, h') →
  ∃ r, hc_reader h = Some r ∧ authentic_frame (rr_key r) (rr_next_sequence r) p f.
Proof.
  intros Hi Ho. unfold client_open. destruct (hc_state h) eqn:E; try done.
  unfold client_inv in Hi. rewrite E in Hi. destruct Hi as ((w & r & _ & -> & _ & Hr) & _).
  destruct (RecordReader_open r f) as [x r'] eqn:Eo. intros [= -> <-]. exists r. split; [done|].
  pose proof (open_plaintext_octets _ _ _ _ Ho Eo) as Hp.
  apply open_Ok_iff in Eo as (_ & _ & Ha & _); done.
Qed.

Lemma client_open_octets h f p h' : octets f → client_open h f = (Ok p, h') → octets p.
Proof.
  intros Ho. unfold client_open. destruct (hc_state h); try done. destruct (hc_reader h); [|done].
  destruct (RecordReader_open _ f) as [x r'] eqn:Eo. intros [= -> _].
  by apply (open_plaintext_octets _ _ _ _ Ho Eo).
Qed.

Lemma newClient_started_inv keys hello h1 g g' m fin h' :
  start (newClientHandshake keys kSdkVersion 1 1 1) g = (Ok hello, h1, g') →
  handleServerHello h1 m = Done (Ok fin, h') →
  client_inv h' ∧ hc_state h' = HandshakeState.Established.
Proof.
  intros Hs Hh. split.
  - apply (client_reachable_inv keys kSdkVersion 1 1 1).
    eapply rtc_l; [by eapply CStart|]. eapply rtc_l; [by eapply CServerHello|]. apply rtc_refl.
  - apply handleServerHello_Ok in Hh as (? & ? & ? & ? & Hacc).
    by apply accepted_writer_key in Hacc as [? _].
Qed.

Lemma sdk_fail_inv i st : client_impl_inv (sdk_fail (with_thread i false) st).1.
Proof. by split. Qed.

Lemma initialize_inv i st g pid config r i' st' g' :
  initialize i st g pid config = Done (r, i', st', g') →
  client_impl_inv i → client_impl_inv i'.
Proof.
  intros Hi Hinv. revert Hi. unfold initialize. destruct (negb _) eqn:E0; [by intros [= _ <- _ _]|].
  reflect_bools. unfold client_impl_inv in Hinv. rewrite E0 in Hinv.
  destruct Hinv as (Hf & Hth & Htr & Hha).
  destruct (negb (validConfig config)); [intros [= _ <- _ _]; done|].
  destruct (tr_connect _ st) as [cn st1]. destruct (negb (status_ok cn)); [intros [= _ <- _ _]; done|].
  intros ([[[[h|] h0] st2] g1] & He & Hr)%exec_bind_Done; [|injection Hr as _ <- _ _; done].
  apply exchangeHello_Ok in He as (_ & hello & h1 & fr & fin & s1 & s2 & Hs & _ & Hh).
  destruct (newClient_started_inv _ _ _ _ _ _ _ _ Hs Hh) as [Hc Hst].
  apply exec_bind_Done in Hr as ([[[[resp sid]|] h2] st3] & Ha & Hr);
    [|injection Hr as _ <- _ _; done].
  injection Hr as _ <- _ _. unfold client_impl_inv. cbn. split_and!; try done.
  apply exchangeAuthorize_Ok in Ha as (az & sl & h3 & s3 & s4 & fr2 & op & _ & Hse & _ & Hop & _).
  destruct (client_seal_inv _ _ _ _ Hse Hc) as (Hc3 & Hst3 & _ & _).
  destruct (client_open_inv _ _ _ _ Hop Hc3) as (Hc2 & Hst2 & _).
  exists h2. split_and!; [done..|congruence].
Qed.

Lemma heartbeat_inv i h st go i' st' :
  ci_thread i = true → ci_handshake i = Some h → heartbeatIteration i h st = Done (go, i', st') →
  client_impl_inv i → client_impl_inv (with_thread i' go).
Proof.
  intros Ht Hh Hit Hinv.
  assert (sn_state (ci_snapshot i) = ClientState.Valid) as Hv.
  { unfold client_impl_inv in Hinv. destruct (sn_state _); try done; destruct Hinv; naive_solver congruence. }
  unfold client_impl_inv in Hinv. rewrite Hv in Hinv. destruct Hinv as (Htr & _ & h0 & Hh0 & Hc & Hes).
  assert (h0 = h) as -> by congruence. revert Hit. unfold heartbeatIteration.
  intros ([[[ack|] h2] st2] & He & Hr)%exec_bind_Done; [|by injection Hr as <- <- <-].
  apply exchangeHeartbeat_Some in He as (hb & sl & h1 & s1 & s2 & fr & op & _ & Hse & _ & Hop & _).
  destruct (client_seal_inv _ _ _ _ Hse Hc) as (Hc1 & Hst1 & _ & _).
  destruct (client_open_inv _ _ _ _ Hop Hc1) as (Hc2 & Hst2 & _).
  injection Hr as <- <- <-. cbn [ci_snapshot sn_state with_client_handshake with_next_request].
  rewrite Hv. unfold client_impl_inv. cbn. case_bool_decide as Hs; cbn.
  - rewrite Hs. split_and!; try done. exists h2. split_and!; [done..|congruence].
  - destruct (ha_state ack); cbn in *; done.
Qed.

Lemma client_run_step_inv x y :
  client_run_step x y → client_impl_inv x.1 → client_impl_inv y.1.
Proof.
  destruct 1; cbn.
  - by eapply initialize_inv.
  - by eapply heartbeat_inv.
  - intros _. unfold shutdown. by destruct (match ci_transport i with true => _ | false => _ end).
Qed.

Lemma client_runs_inv i0 st0 y :
  rtc client_run_step (i0, st0) y → client_impl_inv i0 → client_impl_inv y.1.
Proof.
  intros Hr Hi. revert Hr. apply (rtc_ind_r (fun y => client_impl_inv y.1)); [done|].
  intros y1 y2 _ Hs. by apply client_run_step_inv.
Qed.
End Executions.

(** ** Properties *)

Section Properties.
Context {C : CryptoApi} {CL : CryptoLaws C} {CA : CryptoAvailable C}.
Context {P : ProtocolBuffers} {PL : ProtocolBuffersLaws P}.
Context {T : ITransport} {TL : ITransportLaws T}.

Lemma newClientImpl_inv : client_impl_inv newClientImpl.
Proof. by split_and!. Qed.


(** The authorization a client accepted: authenticated by the service it
    authenticated in this handshake, for the request it made. *)
Record authorized (config : ClientConfig) (g g' : cr_rng) (i' : ClientImpl)
    (server : ServerHelloMessage) (response : AuthResultMessage) : Prop := mkAuthorized {
  au_handshake : ∃ hello h0 m finished h1 key hash keys frame p,
    start (newClientHandshake (cc_trusted_service_keys config) kSdkVersion 1 1 1) g
    = (Ok hello, h0, g')
    ∧ octets m ∧ accepted_server h0 m finished h1 server key hash keys
    ∧ authentic_frame (recordKey (sk_service_to_client keys)) 1 p frame
    ∧ decodeAuthResult p = Done (Ok response);
  au_error : ar_error response = AuthorizationError.None;
  au_request : ar_request_id response = 2;
  au_version : ar_protocol_version response = sh_selected_version server;
  au_session : ar_session_id response = Some (ci_session_id i');
  au_heartbeat : 0 < ar_heartbeat_interval_ms response < ar_heartbeat_timeout_ms response;
  au_interval : ci_heartbeat_interval i' = ar_heartbeat_interval_ms response;
}.

Lemma grantsAuthorization_Some h r sid :
  grantsAuthorization h r = Some sid →
  ar_error r = AuthorizationError.None ∧ ar_request_id r = 2
  ∧ ar_protocol_version r = hc_selected_version h ∧ ar_session_id r = Some sid
  ∧ ar_heartbeat_interval_ms r ≠ 0
  ∧ ar_heartbeat_interval_ms r < ar_heartbeat_timeout_ms r.
Proof.
  unfold grantsAuthorization. destruct (_ || _) eqn:E; [done|].
  destruct (ar_session_id r) as [s|]; [|done]. destruct (_ || _) eqn:E1 in |- *; [done|].
  intros [= ->]. reflect_bools. split_and!; (done || lia).
Qed.



Lemma initialize_leaves i st g pid config r i' st' g' :
  initialize i st g pid config = Done (r, i', st', g') →
  sn_state (ci_snapshot i') ≠ ClientState.Uninitialized.
Proof.
  unfold initialize. destruct (negb (bool_decide _)) eqn:E0.
  { intros [= _ <- _ _]. by reflect_bools. }
  destruct (negb (validConfig config)); [by intros [= _ <- _ _]|].
  destruct (tr_connect _ st) as [cn st1]. destruct (negb (status_ok cn)); [by intros [= _ <- _ _]|].
  intros ([[[[h|] h0] st2] g1] & _ & Hr)%exec_bind_Done; [|by injection Hr as _ <- _ _].
  by apply exec_bind_Done in Hr as ([[[[resp sid]|] h2] st3] & _ & Hr); injection Hr as _ <- _ _.
Qed.

Lemma shutdown_state i st :
  (shutdown i st).1 = mkClientImpl (mkSdkSnapshot ClientState.Closed []
    (sn_expire_time (ci_snapshot i))) (ci_config i) (ci_session_id i) (ci_heartbeat_interval i)
    (ci_next_request_id (shutdown i st).1) true false None false.
Proof. unfold shutdown. by destruct (match ci_transport i with true => _ | false => _ end). Qed.

Lemma never_uninitialized x y :
  rtc client_run_step x y →
  sn_state (ci_snapshot x.1) ≠ ClientState.Uninitialized →
  sn_state (ci_snapshot y.1) ≠ ClientState.Uninitialized.
Proof.
  intros Hr Hx. revert Hr. apply (rtc_ind_r (fun y => sn_state (ci_snapshot y.1) ≠ _)); [done|].
  intros y1 y2 _ [i st g pid config r i' st' g' Hi|i h st go i' st' _ _ Hi|i st] Hs; cbn in *.
  - by eapply initialize_leaves.
  - revert Hi. unfold heartbeatIteration.
    intros ([[[ack|] h2] st2] & _ & Hr)%exec_bind_Done; injection Hr as _ <- _; [|done]. cbn.
    by destruct (ha_state ack).
  - by rewrite shutdown_state.
Qed.

(** A client is initialized at most once: after a first [initialize],
    whatever its outcome and whatever happens then (heartbeats, [shutdown],
    further attempts), every [initialize] is refused and changes nothing. *)
Theorem initialize_once i st g pid config r i1 st1 g1 i2 st2 g2 pid2 config2 :
  initialize i st g pid config = Done (r, i1, st1, g1) →
  rtc client_run_step (i1, st1) (i2, st2) →
  initialize i2 st2 g2 pid2 config2
  = Done (Err (mkSdkFailure ClientError.AlreadyInitialized "client is already initialized"),
          i2, st2, g2).
Proof.
  intros Hi%initialize_leaves Hr. pose proof (never_uninitialized _ _ Hr Hi) as Hn. cbn in Hn.
  unfold initialize. by rewrite bool_decide_eq_false_2.
Qed.

Definition closed_down (i : ClientImpl) : Prop :=
  sn_state (ci_snapshot i) = ClientState.Closed ∧ sn_features (ci_snapshot i) = []
  ∧ ci_thread i = false ∧ ci_transport i = false ∧ ci_handshake i = None.

(** [shutdown] is final from every state: no features, no thread, no
    transport and no key material afterwards, whatever is called next. *)
Theorem shutdown_is_final i st y :
  rtc client_run_step (shutdown i st) y →
  closed_down y.1 ∧ ∀ feature, hasFeature y.1 feature = false.
Proof.
  intros Hr. assert (closed_down y.1) as Hy.
  { revert Hr. apply (rtc_ind_r (fun y : ClientImpl * tr_state => closed_down y.1));
      [by rewrite shutdown_state|].
    intros y1 y2 _ [i1 st1 g pid config r i' st' g' Hi|i1 h st1 go i' st' Ht _ _|i1 st1] Hs; cbn in *.
    - pose proof Hs as (Hs' & _). revert Hi. unfold initialize.
      rewrite bool_decide_eq_false_2 by congruence. by intros [= _ <- _ _].
    - destruct Hs as (_ & _ & Hs & _). congruence.
    - by rewrite shutdown_state. }
  split; [done|]. destruct Hy as (Hs & _). intros f. unfold hasFeature. by rewrite Hs.
Qed.
End Properties.
