(* ===== verification/LocalAuthorizer.v ===== *)
(** * LocalAuthorizer: authorization without the service

    Models [src/ya_license_sdk/{include/.../local_authorizer.h,src/local_authorizer.cpp}]:
    the SDK reads the license file and validates it itself, against the
    identity of the machine it runs on.  [fs] are the files the identity is
    read from, [disk] the one the license is read from, [now] is
    [std::time(nullptr)]. *)

From S2P Require Import Prelude CryptoApi ToySsl FlatBuf ToyBuf Status License Issuer.
From S2P Require Import MachineIdentity Files Client.

Record LocalAuthorizationConfig := mkLocalAuthorizationConfig {
  la_product_id : string;
  la_trusted_license_keys : gmap string bytes;
  la_machine_id_path : string;
  la_product_uuid_path : string;
  la_require_machine_id : bool;
  la_require_product_uuid : bool;
}.

(** [None] is [ErrorCode::None], which is not an error here. *)
Definition mapLicenseError (error : ErrorCode) : SdkFailure :=
  match error with
  | ErrorCode.Expired => mkSdkFailure ClientError.AuthorizationDenied "license has expired"
  | ErrorCode.NotYetValid =>
      mkSdkFailure ClientError.AuthorizationDenied "license is not yet valid"
  | ErrorCode.ProductMismatch =>
      mkSdkFailure ClientError.AuthorizationDenied "license product does not match"
  | ErrorCode.MachineMismatch =>
      mkSdkFailure ClientError.AuthorizationDenied "license is bound to another machine"
  | ErrorCode.UnknownKey =>
      mkSdkFailure ClientError.InvalidLicense "license signing key is not trusted"
  | ErrorCode.InvalidSignature =>
      mkSdkFailure ClientError.InvalidLicense "license signature is invalid"
  | _ => mkSdkFailure ClientError.InvalidLicense "license format or policy is invalid"
  end.

Module Local.
Definition readLicense (disk : Disk) (path : string) : result SdkFailure bytes :=
  match readLicenseFile true disk path with
  | LicenseUnopened =>
      Err (mkSdkFailure ClientError.LicenseFile "license file could not be opened")
  | LicenseUnsuitable =>
      Err (mkSdkFailure ClientError.LicenseFile "license file is invalid or too large")
  | LicenseUnread => Err (mkSdkFailure ClientError.LicenseFile "license file could not be read")
  | LicenseBytesRead bs => Ok bs
  end.
End Local.

Section Authorize.
Context {C : CryptoApi} {L : LicenseBuffers}.

Definition machineIdentity (fs : FileSystem) (config : LocalAuthorizationConfig)
  : result SdkFailure string :=
  let machine_config := mkLinuxMachineIdentityConfig (la_machine_id_path config)
    (la_product_uuid_path config) (la_require_machine_id config) (la_require_product_uuid config) in
  match collectLinuxMachineIdentity fs machine_config None with
  | Err _ => Err (mkSdkFailure ClientError.MachineIdentity "machine identity is unavailable")
  | Ok identity => Ok (mi_exact_id identity)
  end.

Definition authorizeLicense (fs : FileSystem) (now : Z) (package : bytes)
    (config : LocalAuthorizationConfig) : result SdkFailure SdkSnapshot :=
  if str_empty (la_product_id config) || bool_decide (la_trusted_license_keys config = ∅)
  then Err (mkSdkFailure ClientError.InvalidConfig "local authorization is not configured")
  else
  identity ← machineIdentity fs config;
  match validate (mkLicenseValidator (la_trusted_license_keys config)) package
          (la_product_id config) identity (wrap 64 now) with
  | Err error => Err (mapLicenseError error)
  | Ok license =>
      Ok (mkSdkSnapshot ClientState.Valid (ls_features license) (ls_expire_time license))
  end.

Definition authorizeLicenseFile (disk : Disk) (fs : FileSystem) (now : Z) (path : string)
    (config : LocalAuthorizationConfig) : result SdkFailure SdkSnapshot :=
  file ← Local.readLicense disk path;
  authorizeLicense fs now file config.

(** ** Correctness *)

Definition configured (config : LocalAuthorizationConfig) : Prop :=
  la_product_id config ≠ "" ∧ la_trusted_license_keys config ≠ ∅.

Lemma configured_spec config :
  str_empty (la_product_id config) || bool_decide (la_trusted_license_keys config = ∅) = false
  ↔ configured config.
Proof.
  unfold configured. rewrite orb_false_iff, bool_decide_eq_false.
  destruct (la_product_id config); naive_solver.
Qed.

(** The SDK authorizes locally exactly when it is configured, the machine
    has an identity, the package is signed by a trusted key with a complete
    payload, and the license is in force for this product, this machine and
    this moment; it then shows the license's own features and expiry. *)
Theorem authorizeLicense_iff fs now package config snap :
  authorizeLicense fs now package config = Ok snap ↔
  configured config
  ∧ ∃ identity payload license,
      machineIdentity fs config = Ok identity
      ∧ authentic (mkLicenseValidator (la_trusted_license_keys config)) package payload
      ∧ VerifyLicensePayload payload = true ∧ snapshot_of (GetLicensePayload payload) license
      ∧ in_force license (la_product_id config) identity (wrap 64 now)
      ∧ snap = mkSdkSnapshot ClientState.Valid (ls_features license) (ls_expire_time license).
Proof.
  rewrite <- configured_spec. unfold authorizeLicense. destruct (_ || _); [naive_solver|].
  rewrite result_bind_Ok. split.
  - intros (identity & Hi & H). split; [done|].
    destruct (validate _ _ _ _ _) as [license|] eqn:Ev; [|done]. injection H as <-.
    apply validate_Ok in Ev as (payload & ? & ? & ? & ?). eauto 10.
  - intros (_ & identity & payload & license & Hi & Ha & Hv & Hs & Hf & ->).
    exists identity. split; [done|].
    assert (validate (mkLicenseValidator (la_trusted_license_keys config)) package
      (la_product_id config) identity (wrap 64 now) = Ok license) as -> by (apply validate_Ok; eauto).
    done.
Qed.

(** Why an authentic license is refused is reported precisely: the SDK's
    answer is a denial (expired, not yet valid, other product, other machine)
    exactly when the package is authentic but not in force, and otherwise an
    invalid license, never a crash or a grant. *)
Theorem authorizeLicense_refusal fs now package config identity payload license :
  configured config → machineIdentity fs config = Ok identity →
  authentic (mkLicenseValidator (la_trusted_license_keys config)) package payload →
  VerifyLicensePayload payload = true → snapshot_of (GetLicensePayload payload) license →
  authorizeLicense fs now package config
  = match outcome license (la_product_id config) identity (wrap 64 now) with
    | Ok _ => Ok (mkSdkSnapshot ClientState.Valid (ls_features license) (ls_expire_time license))
    | Err e => Err (mapLicenseError e)
    end
  ∧ (∀ e, outcome license (la_product_id config) identity (wrap 64 now) = Err e →
          sf_error (mapLicenseError e) = ClientError.AuthorizationDenied).
Proof.
  intros Hc Hi Ha Hv Hs. split.
  - unfold authorizeLicense. rewrite (proj2 (configured_spec config) Hc), Hi. cbn [mbind result_bind].
    rewrite (validate_authentic _ _ _ _ _ _ Ha), (validatePayload_outcome _ _ _ _ _ Hv Hs).
    destruct (outcome _ _ _ _) as [l|] eqn:Eo; [|done].
    by apply outcome_Ok in Eo as [-> _].
  - intros e. unfold outcome. repeat split_match; intros [= <-]; done.
Qed.
End Authorize.

(** ** A machine with a license for another one *)

Section Witnesses.
#[local] Existing Instance toy_crypto.
#[local] Existing Instance toy_licenses.

Definition local_config : LocalAuthorizationConfig :=
  mkLocalAuthorizationConfig "demo" {["vendor-1" := kp_public sample_signer]} "/etc/machine-id"
    "/sys/class/dmi/id/product_uuid" true false.

Lemma authorizeLicense_refusal_witness :
  authorizeLicense sample_files 1500 sample_package local_config
  = Err (mkSdkFailure ClientError.AuthorizationDenied "license is bound to another machine").
Proof.
  destruct (proj1 (validate_Ok _ _ _ _ _ _) sample_validates) as (payload & Ha & Hv & Hs & _).
  assert (machineIdentity sample_files local_config = Ok (mi_exact_id sample_identity)) as Hi
    by (vm_compute; reflexivity).
  assert (configured local_config) as Hc by (apply configured_spec; vm_compute; reflexivity).
  rewrite (proj1 (authorizeLicense_refusal sample_files 1500 sample_package local_config _ payload _
    Hc Hi Ha Hv Hs)).
  vm_compute. reflexivity.
Defined.
End Witnesses.
