(* ===== verification/Agreement.v ===== *)
(** * Agreement: components that must give the same answer

    The license decides, not who asks: the SDK's own authorization
    ([local_authorizer.cpp]) and the service ([service.cpp]) accept the same
    license files and show the same rights. *)

From S2P Require Import Prelude Frame CryptoApi ToySsl FlatBuf ToyBuf Status License Issuer Session.
From S2P Require Import MachineIdentity Connection Transport Files Config KeyStore Service Client.
From S2P Require Import LocalAuthorizer.

(** The SDK is configured like the service. *)
Definition configured_alike (config : ServiceConfig) (keys : LoadedKeys)
    (local : LocalAuthorizationConfig) : Prop :=
  configured local
  ∧ la_product_id local = sc_product_id config
  ∧ la_trusted_license_keys local = lo_license_public_keys keys
  ∧ mkLinuxMachineIdentityConfig (la_machine_id_path local) (la_product_uuid_path local)
      (la_require_machine_id local) (la_require_product_uuid local) = sc_machine_identity config.

(** No signal interrupts the reads of a file. *)
Definition undisturbed (disk : Disk) (path : string) : Prop :=
  ∀ info reads, disk path = FileOpened info reads → ReadFailed true ∉ reads.

(** The rights a license gives, as the SDK shows them. *)
Definition rights (license : LicenseSnapshot) : SdkSnapshot :=
  mkSdkSnapshot ClientState.Valid (ls_features license) (ls_expire_time license).

(** The two read loops differ only in what they do about an interruption. *)
Lemma readFully_retry size reads data :
  ReadFailed true ∉ reads → readFully true size reads data = readFully false size reads data.
Proof.
  revert data. induction reads as [|e reads IH]; intros data Hn; cbn; [done|].
  apply not_elem_of_cons in Hn as [He Hn]. destruct (zlen data <? size); [|done].
  destruct e as [chunk| |[]]; [|done|done|done]. destruct (zlen _ =? 0); [done|]. by apply IH.
Qed.

Lemma readLicense_alike disk path bs :
  undisturbed disk path →
  Local.readLicense disk path = Ok bs ↔ Service.readLicense disk path = Ok bs.
Proof.
  intros Hu. unfold Local.readLicense, Service.readLicense.
  assert (readLicenseFile true disk path = readLicenseFile false disk path) as ->.
  { unfold readLicenseFile. destruct (disk path) as [|info reads] eqn:E; [done|].
    destruct info as [info|]; [|done]. by rewrite (readFully_retry _ _ _ (Hu _ _ E)). }
  destruct (readLicenseFile false disk path); split; by intros [= ->].
Qed.

Section Alike.
Context {C : CryptoApi} {L : LicenseBuffers} {TA : TomlApi}.

(** C15. The SDK and the service agree: configured with the same product, trusted
    keys and machine identity, and with the same license file on the same
    machine at the same time, the SDK authorizes the application locally
    exactly if the service starts, and with exactly the features and the
    expiry of the license the service then grants sessions for. *)
Theorem local_agrees_with_service files disk fs now path config keys local snap :
  loadConfig files path = Ok config → loadKeys disk config = Ok keys →
  configured_alike config keys local → undisturbed disk (sc_license_path config) →
  authorizeLicenseFile disk fs now (sc_license_path config) local = Ok snap ↔
  ∃ svc, Service.create files disk fs now path = Ok svc ∧ snap = rights (sv_license svc).
Proof.
  intros Hconfig Hkeys (Hc & Hp & Hk & Hm) Hu.
  unfold authorizeLicenseFile, authorizeLicense, machineIdentity, Service.create.
  rewrite Hconfig, Hkeys, (proj2 (configured_spec local) Hc), Hp, Hk, Hm.
  setoid_rewrite (result_bind_Ok (Local.readLicense disk _)). split.
  - intros (bs & Hb & H). apply (readLicense_alike _ _ _ Hu) in Hb.
    destruct (collectLinuxMachineIdentity _ _ _) as [machine|]; [|done]. cbn in H. rewrite Hb. cbn.
    destruct (validate _ _ _ _ _) as [license|]; [|done]. injection H as <-. by eexists.
  - intros (svc & H & ->). destruct (collectLinuxMachineIdentity _ _ _) as [machine|]; [|done].
    apply result_bind_Ok in H as (bs & Hb & H). exists bs. split; [by apply readLicense_alike|]. cbn.
    destruct (validate _ _ _ _ _) as [license|]; [|done]. by injection H as <-.
Qed.
End Alike.

(** ** A licensed machine *)

Section Witnesses.
#[local] Existing Instance toy_crypto.
#[local] Existing Instance toy_licenses.
#[local] Existing Instance plain_toml.

Definition bound_definition : LicenseDefinition :=
  {| ld_key_id := "k1"; ld_license_id := "L-2"; ld_product_id := "demo";
     ld_customer_id := "acme"; ld_issue_time := 1000; ld_not_before := 1000;
     ld_expire_time := 2000; ld_features := ["export"; "render"]; ld_max_sessions := 2;
     ld_machine_id := mi_exact_id sample_identity |}.
Definition bound_package : bytes := Eval vm_compute in
  match Issuer.issueLicense bound_definition (kp_private sample_signer) with
  | Ok p => p | Err _ => []
  end.
Definition licensed_disk (path : string) : FileOutcome :=
  if String.eqb path "/k/k1.pub"
  then FileOpened (Some (mkFileStat true 420 32)) [ReadBytes (kp_public sample_signer)]
  else if String.eqb path "/l/demo.lic"
  then FileOpened (Some (mkFileStat true 420 (zlen bound_package))) [ReadBytes bound_package]
  else sample_disk path.
Definition licensed_keys : LoadedKeys :=
  mkLoadedKeys "svc" (replicate 20 7 ++ replicate 12 9) {["k1" := kp_public sample_signer]}.
Definition licensed_local : LocalAuthorizationConfig :=
  mkLocalAuthorizationConfig "demo" {["k1" := kp_public sample_signer]} "/etc/machine-id"
    "/sys/class/dmi/id/product_uuid" true false.

Lemma licensed_keys_load : loadKeys licensed_disk sample_config = Ok licensed_keys.
Proof. vm_compute. reflexivity. Qed.

Lemma licensed_alike : configured_alike sample_config licensed_keys licensed_local.
Proof. split; [apply configured_spec; vm_compute; reflexivity|done]. Qed.

Lemma licensed_undisturbed : undisturbed licensed_disk (sc_license_path sample_config).
Proof.
  intros info reads. change (sc_license_path sample_config) with "/l/demo.lic".
  unfold licensed_disk. cbn. intros [= _ <-]. by intros ?%list_elem_of_singleton.
Qed.

Lemma local_agrees_with_service_witness :
  ∃ svc, Service.create config_files licensed_disk sample_files 1500 "/etc/yoauthorize/service.toml" = Ok svc
         ∧ mkSdkSnapshot ClientState.Valid ["export"; "render"] 2000 = rights (sv_license svc).
Proof.
  apply (local_agrees_with_service config_files licensed_disk sample_files 1500
    "/etc/yoauthorize/service.toml" sample_config licensed_keys licensed_local _
    sample_config_loads licensed_keys_load licensed_alike licensed_undisturbed).
  vm_compute. reflexivity.
Defined.
End Witnesses.
