(* ===== verification/Sample.v ===== *)
(** * Sample: the Qt application that uses the SDK

    Models [samples/TestYoQt/{main.cpp,mainwindow.h,mainwindow.cpp}]: the
    window's members, every slot and lambda it connects, and the signals that
    call them.  The window is a record; widgets are represented by what the code
    reads or sets of them (texts, the feature list, which buttons are enabled).
    What the code asks of Qt (trimming, URLs, JSON, Base64, certificates, dates)
    is the class [Qt]; files and the clock are a [Desk], which may be another one
    at every event.  Strings are the UTF-8 texts of the QStrings; [tr] is the
    identity; layouts, fonts and placeholders are not modelled.

    A network reply is an object of Qt's ([qt_live]) beside the pointer the window
    keeps to it.  An event runs to its end before the next; a reply that was
    aborted finishes with an error, as Qt documents.

    The theorems: protected features only ever follow from a license that was
    validated for what the window's fields said, the widgets always show what
    the window holds, at most one request is in flight and the pointers to it
    are never null when used, requests go only over HTTPS, oversized answers are
    refused, and a license issued for the machine activates it. *)

From S2P Require Import Prelude CryptoApi ToySsl FlatBuf ToyBuf Status License Issuer.
From S2P Require Import MachineIdentity Files Client LocalAuthorizer Agreement.

(** ** Qt and the machine *)

Record QUrl := mkQUrl { url_valid : bool; url_scheme : string; url_host : string }.

Class Qt := {
  (* [QString::trimmed] *)
  qt_trimmed : string → string;
  (* [QUrl(text)] *)
  qt_url : string → QUrl;
  (* [QJsonDocument::fromJson]: if there was no error and the document is an
     object, [object().value(name).toString()] for every name *)
  qt_json_object : bytes → option (string → string);
  (* [QByteArray::fromBase64(text.toLatin1(), AbortOnBase64DecodingErrors)] *)
  qt_from_base64 : string → bytes;
  QSslCertificate : Type;
  (* [QSslCertificate::fromPath] and the authorities of a new request *)
  qt_certificates : string → list QSslCertificate;
  qt_authorities : list QSslCertificate;
  (* [QDateTime::fromSecsSinceEpoch(s).toLocalTime().toString(Qt::ISODate)] *)
  qt_datetime : Z → string;
}.

(** The files and the clock at one moment. *)
Record Desk := mkDesk {
  dk_symlink : string → bool;
  dk_file : string → bool;
  dk_read : string → option bytes;
  dk_disk : Disk;
  dk_fs : FileSystem;
  dk_now : Z;
}.

(** ** Data *)

Record StartupOptions := mkStartupOptions {
  productId : string;
  issuerKeyId : string;
  issuerPublicKey : string;
  licenseFile : string;
  activationUrl : string;
  activationCode : string;
  caCertificate : string;
  machineIdFile : string;
  autoExit : bool;
}.

(** The line edits. *)
Record Edits := mkEdits {
  productEdit_ : string;
  keyIdEdit_ : string;
  keyPathEdit_ : string;
  licensePathEdit_ : string;
  activationUrlEdit_ : string;
  activationCodeEdit_ : string;
  caPathEdit_ : string;
}.

(** Labels and list. *)
Record Labels := mkLabels {
  stateLabel_ : string;
  expiryLabel_ : string;
  detailLabel_ : string;
  featureList_ : list string;
}.

(** Which buttons are enabled. *)
Record Buttons := mkButtons {
  localAuthorizeButton_ : bool;
  onlineActivateButton_ : bool;
  captureButton_ : bool;
  exportButton_ : bool;
}.

(** A reply that has not emitted [finished] yet. *)
Inductive QNetworkReply := Running_reply | Aborted_reply.

Inductive Startup := StartLocal | StartOnline.

Module TestYoQt.
Section Window.
Context {Q : Qt}.

(** The posted request: its URL, its authorities and the JSON payload. *)
Record Request := mkRequest {
  rq_url : string;
  rq_authorities : list QSslCertificate;
  rq_protocol_version : Z;
  rq_product_id : string;
  rq_activation_code : string;
  rq_machine_id : string;
}.

Record MainWindow := mkMainWindow {
  options_ : StartupOptions;
  edits : Edits;
  sourceTab : nat;
  snapshot_ : SdkSnapshot;
  activationReply_ : option nat;
  activationResponse_ : bytes;
  labels : Labels;
  buttons : Buttons;
  (* the replies Qt holds, by the number of their request *)
  qt_live : gmap nat QNetworkReply;
  (* the slot the startup timer will call *)
  startup : option Startup;
  (* what the window has emitted, posted and shown *)
  emitted : list bool;
  posted : list Request;
  status_messages : list string;
  boxes : list string;
}.

Definition with_edits (e : Edits) (w : MainWindow) : MainWindow :=
  mkMainWindow (options_ w) e (sourceTab w) (snapshot_ w) (activationReply_ w)
    (activationResponse_ w) (labels w) (buttons w) (qt_live w) (startup w) (emitted w) (posted w)
    (status_messages w) (boxes w).
Definition with_snapshot (s : SdkSnapshot) (l : Labels) (w : MainWindow) : MainWindow :=
  mkMainWindow (options_ w) (edits w) (sourceTab w) s (activationReply_ w)
    (activationResponse_ w) l (buttons w) (qt_live w) (startup w) (emitted w) (posted w)
    (status_messages w) (boxes w).
Definition with_labels (l : Labels) (w : MainWindow) : MainWindow := with_snapshot (snapshot_ w) l w.
Definition with_buttons (b : Buttons) (w : MainWindow) : MainWindow :=
  mkMainWindow (options_ w) (edits w) (sourceTab w) (snapshot_ w) (activationReply_ w)
    (activationResponse_ w) (labels w) b (qt_live w) (startup w) (emitted w) (posted w)
    (status_messages w) (boxes w).
Definition with_response (r : bytes) (w : MainWindow) : MainWindow :=
  mkMainWindow (options_ w) (edits w) (sourceTab w) (snapshot_ w) (activationReply_ w)
    r (labels w) (buttons w) (qt_live w) (startup w) (emitted w) (posted w)
    (status_messages w) (boxes w).
Definition with_reply (p : option nat) (live : gmap nat QNetworkReply) (w : MainWindow) : MainWindow :=
  mkMainWindow (options_ w) (edits w) (sourceTab w) (snapshot_ w) p
    (activationResponse_ w) (labels w) (buttons w) live (startup w) (emitted w) (posted w)
    (status_messages w) (boxes w).
Definition with_startup (t : nat) (u : option Startup) (w : MainWindow) : MainWindow :=
  mkMainWindow (options_ w) (edits w) t (snapshot_ w) (activationReply_ w)
    (activationResponse_ w) (labels w) (buttons w) (qt_live w) u (emitted w) (posted w)
    (status_messages w) (boxes w).
Definition emit (authorized : bool) (w : MainWindow) : MainWindow :=
  mkMainWindow (options_ w) (edits w) (sourceTab w) (snapshot_ w) (activationReply_ w)
    (activationResponse_ w) (labels w) (buttons w) (qt_live w) (startup w)
    (emitted w ++ [authorized]) (posted w) (status_messages w) (boxes w).
Definition record_post (r : Request) (w : MainWindow) : MainWindow :=
  mkMainWindow (options_ w) (edits w) (sourceTab w) (snapshot_ w) (activationReply_ w)
    (activationResponse_ w) (labels w) (buttons w) (qt_live w) (startup w)
    (emitted w) (posted w ++ [r]) (status_messages w) (boxes w).
Definition showMessage (m : string) (w : MainWindow) : MainWindow :=
  mkMainWindow (options_ w) (edits w) (sourceTab w) (snapshot_ w) (activationReply_ w)
    (activationResponse_ w) (labels w) (buttons w) (qt_live w) (startup w)
    (emitted w) (posted w) (status_messages w ++ [m]) (boxes w).
Definition critical (m : string) (w : MainWindow) : MainWindow :=
  mkMainWindow (options_ w) (edits w) (sourceTab w) (snapshot_ w) (activationReply_ w)
    (activationResponse_ w) (labels w) (buttons w) (qt_live w) (startup w)
    (emitted w) (posted w) (status_messages w) (boxes w ++ [m]).

(** ** Configuration and display *)

Definition kMaxActivationResponseSize : Z := 2 * 1024 * 1024.

Definition invalidConfig {A} (message : string) : result SdkFailure A :=
  Err (mkSdkFailure ClientError.InvalidConfig message).

Definition makeAuthorizationConfig (m : Desk) (product keyId keyPath machineIdPath : string)
  : result SdkFailure LocalAuthorizationConfig :=
  if str_empty (qt_trimmed product) || str_empty (qt_trimmed keyId)
     || str_empty (qt_trimmed keyPath)
  then invalidConfig "Product, issuer key ID, and public key are required."
  else if dk_symlink m keyPath || negb (dk_file m keyPath)
  then invalidConfig "Issuer public key must be a regular file."
  else match dk_read m keyPath with
  | None => invalidConfig "Issuer public key could not be opened."
  | Some bytes =>
      if negb (zlen bytes =? kKeySize)
      then invalidConfig "Issuer public key must contain exactly 32 bytes."
      else
      let keys := {[qt_trimmed keyId := bytes]} in
      if negb (str_empty (qt_trimmed machineIdPath))
      then Ok (mkLocalAuthorizationConfig (qt_trimmed product) keys (qt_trimmed machineIdPath)
                 (qt_trimmed machineIdPath +:+ ".product-uuid") true false)
      else Ok (mkLocalAuthorizationConfig (qt_trimmed product) keys "/etc/machine-id"
                 "/sys/class/dmi/id/product_uuid" true false)
  end.

(** The configuration the window's fields give. *)
Definition currentConfig (m : Desk) (w : MainWindow) : result SdkFailure LocalAuthorizationConfig :=
  makeAuthorizationConfig m (productEdit_ (edits w)) (keyIdEdit_ (edits w)) (keyPathEdit_ (edits w))
    (machineIdFile (options_ w)).

Definition stateText (state : ClientState) : string :=
  match state with
  | ClientState.Valid => "VALID"
  | ClientState.Expired => "EXPIRED"
  | ClientState.Revoked => "REVOKED"
  | ClientState.Grace => "GRACE"
  | ClientState.Error => "DISABLED"
  | _ => "NOT AUTHORIZED"
  end.

Definition hasFeature (w : MainWindow) (feature : string) : bool :=
  bool_decide (sn_state (snapshot_ w) = ClientState.Valid)
  && bool_decide (feature ∈ sn_features (snapshot_ w)).

Definition updateProtectedActions (w : MainWindow) : MainWindow :=
  with_buttons (mkButtons (localAuthorizeButton_ (buttons w)) (onlineActivateButton_ (buttons w))
                  (hasFeature w "capture") (hasFeature w "export")) w.

(** Two line breaks between the sentence and the reason. *)
Definition disabled_text (message : string) : string :=
  "Protected features are disabled." +:+ String (Ascii.ascii_of_nat 10)
    (String (Ascii.ascii_of_nat 10) message).

Definition denyAuthorization (message : string) (w : MainWindow) : MainWindow :=
  let w := with_snapshot (mkSdkSnapshot ClientState.Error [] 0)
             (mkLabels (stateText ClientState.Error) "Expiration: --" message []) w in
  let w := updateProtectedActions w in
  let w := if negb (autoExit (options_ w)) then critical (disabled_text message) w else w in
  emit false w.

(** [std::uint64_t] to [qint64] *)
Definition to_qint64 (z : Z) : Z := if z <? 2 ^ 63 then z else z - 2 ^ 64.

Definition expiryText (expire_time : Z) : string :=
  if expire_time =? 0 then "Expiration: Permanent"
  else "Expiration: " +:+ qt_datetime (to_qint64 expire_time).

Definition applyAuthorization (r : result SdkFailure SdkSnapshot) (w : MainWindow) : MainWindow :=
  match r with
  | Err failure => denyAuthorization (sf_message failure) w
  | Ok snapshot =>
      let w := with_snapshot snapshot
                 (mkLabels (stateText (sn_state snapshot)) (expiryText (sn_expire_time snapshot))
                    "The signed license was verified successfully." (sn_features snapshot)) w in
      let w := updateProtectedActions w in
      let w := showMessage "Authorization is valid." w in
      emit true w
  end.

(** ** Slots *)

Context {C : CryptoApi} {L : LicenseBuffers}.

Definition authorizeFromFile (m : Desk) (w : MainWindow) : MainWindow :=
  match currentConfig m w with
  | Err failure => denyAuthorization (sf_message failure) w
  | Ok config =>
      if str_empty (qt_trimmed (licensePathEdit_ (edits w)))
      then denyAuthorization "Select a signed license file." w
      else applyAuthorization
             (authorizeLicenseFile (dk_disk m) (dk_fs m) (dk_now m)
                (qt_trimmed (licensePathEdit_ (edits w))) config) w
  end.

(** [activationReply_ = network_->post(...)]: a new reply, numbered by its
    request. *)
Definition post (r : Request) (w : MainWindow) : MainWindow :=
  let n := length (posted w) in
  record_post r (with_reply (Some n) (<[n := Running_reply]> (qt_live w)) (with_response [] w)).

Definition contacting : string := "Contacting activation server...".

Definition activateOnline (m : Desk) (w : MainWindow) : MainWindow :=
  match activationReply_ w with
  | Some _ => w
  | None =>
  match currentConfig m w with
  | Err failure => denyAuthorization (sf_message failure) w
  | Ok config =>
  let text := qt_trimmed (activationUrlEdit_ (edits w)) in
  let url := qt_url text in
  if negb (url_valid url) || negb (bool_decide (url_scheme url = "https"))
     || str_empty (url_host url)
  then denyAuthorization "Activation URL must be a valid HTTPS URL." w
  else if str_empty (activationCodeEdit_ (edits w))
  then denyAuthorization "Activation code is required." w
  else match machineIdentity (dk_fs m) config with
  | Err failure => denyAuthorization (sf_message failure) w
  | Ok machine_id =>
  let ca := qt_trimmed (caPathEdit_ (edits w)) in
  if negb (str_empty ca) && bool_decide (length (qt_certificates ca) = 0%nat)
  then denyAuthorization "The additional CA certificate is invalid." w
  else
  let authorities := if str_empty ca then qt_authorities else qt_authorities ++ qt_certificates ca in
  let w := post (mkRequest text authorities 1 (qt_trimmed (productEdit_ (edits w)))
                   (activationCodeEdit_ (edits w)) machine_id) w in
  let w := with_buttons (mkButtons false false (captureButton_ (buttons w))
                           (exportButton_ (buttons w))) w in
  with_labels (mkLabels (stateLabel_ (labels w)) (expiryLabel_ (labels w)) contacting
                 (featureList_ (labels w))) w
  end end end.

(** [reply->abort()] *)
Definition abort (n : nat) (w : MainWindow) : MainWindow :=
  with_reply (activationReply_ w) (alter (fun _ => Aborted_reply) n (qt_live w)) w.

(** The lambda of [readyRead]: [data] is what [readAll] returns. *)
Definition readyRead (data : bytes) (w : MainWindow) : exec MainWindow :=
  match activationReply_ w with
  | None => Undefined
  | Some n =>
      let w := with_response (activationResponse_ w ++ data) w in
      Done (if kMaxActivationResponseSize <? zlen (activationResponse_ w) then abort n w else w)
  end.

(** The lambda of the timer, ten seconds after the request; it keeps its own
    copy of the pointer. *)
Definition timeout (n : nat) (w : MainWindow) : MainWindow :=
  match qt_live w !! n with
  | Some Running_reply => abort n w
  | _ => w
  end.

(** What [handleActivationFinished] does with the collected response. *)
Definition activationResult (m : Desk) (networkError : bool) (httpStatus : Z) (w : MainWindow)
  : MainWindow :=
  if networkError || (httpStatus <? 200) || (300 <=? httpStatus)
     || (kMaxActivationResponseSize <? zlen (activationResponse_ w))
  then denyAuthorization "Activation server request failed." w
  else match qt_json_object (activationResponse_ w) with
  | None => denyAuthorization "Activation server returned invalid JSON." w
  | Some value =>
      let license := qt_from_base64 (value "license") in
      if (zlen license =? 0) || (1024 * 1024 <? zlen license)
      then denyAuthorization "Activation server returned an invalid license." w
      else match currentConfig m w with
      | Err failure => denyAuthorization (sf_message failure) w
      | Ok config => applyAuthorization (authorizeLicense (dk_fs m) (dk_now m) license config) w
      end
  end.

Definition clear_code (e : Edits) : Edits :=
  mkEdits (productEdit_ e) (keyIdEdit_ e) (keyPathEdit_ e) (licensePathEdit_ e)
    (activationUrlEdit_ e) "" (caPathEdit_ e).

(** [rest] is what the reply still holds. *)
Definition handleActivationFinished (m : Desk) (rest : bytes) (networkError : bool)
    (httpStatus : Z) (w : MainWindow) : exec MainWindow :=
  match activationReply_ w with
  | None => Undefined
  | Some n =>
      let w := with_reply None (delete n (qt_live w)) w in
      let w := with_response (activationResponse_ w ++ rest) w in
      let w := with_edits (clear_code (edits w)) w in
      let w := with_buttons (mkButtons true true (captureButton_ (buttons w))
                               (exportButton_ (buttons w))) w in
      Done (activationResult m networkError httpStatus w)
  end.

Definition protectedAction (feature denied allowed : string) (w : MainWindow) : MainWindow :=
  if negb (hasFeature w feature) then denyAuthorization denied w else showMessage allowed w.

Definition captureAction : MainWindow → MainWindow :=
  protectedAction "capture" "The capture feature is not authorized." "Capture operation authorized.".
Definition exportAction : MainWindow → MainWindow :=
  protectedAction "export" "The export feature is not authorized." "Export operation authorized.".

(** The file dialogs; the path is empty when the dialog is cancelled. *)
Definition chooseLicenseFile (path : string) (w : MainWindow) : MainWindow :=
  let e := edits w in
  if str_empty path then w
  else with_edits (mkEdits (productEdit_ e) (keyIdEdit_ e) (keyPathEdit_ e) path
                     (activationUrlEdit_ e) (activationCodeEdit_ e) (caPathEdit_ e)) w.
Definition chooseIssuerKey (path : string) (w : MainWindow) : MainWindow :=
  let e := edits w in
  if str_empty path then w
  else with_edits (mkEdits (productEdit_ e) (keyIdEdit_ e) path (licensePathEdit_ e)
                     (activationUrlEdit_ e) (activationCodeEdit_ e) (caPathEdit_ e)) w.
Definition chooseCaCertificate (path : string) (w : MainWindow) : MainWindow :=
  let e := edits w in
  if str_empty path then w
  else with_edits (mkEdits (productEdit_ e) (keyIdEdit_ e) (keyPathEdit_ e) (licensePathEdit_ e)
                     (activationUrlEdit_ e) (activationCodeEdit_ e) path) w.

(** ** Construction, destruction, [main] *)

Definition buildInterface (options : StartupOptions) : MainWindow :=
  updateProtectedActions (mkMainWindow options (mkEdits "" "" "" "" "" "" "") 0
    (mkSdkSnapshot ClientState.Uninitialized [] 0) None []
    (mkLabels "NOT AUTHORIZED" "Expiration: --" "Protected features are disabled." [])
    (mkButtons true true true true) ∅ None [] [] [] []).

Definition applyStartupOptions (w : MainWindow) : MainWindow :=
  let o := options_ w in
  let w := with_edits (mkEdits (productId o) (issuerKeyId o) (issuerPublicKey o) (licenseFile o)
                         (activationUrl o) (activationCode o) (caCertificate o)) w in
  let tab := if negb (str_empty (activationUrl o)) then 1%nat else sourceTab w in
  with_startup tab
    (if negb (str_empty (licenseFile o)) then Some StartLocal
     else if negb (str_empty (activationUrl o)) then Some StartOnline else None) w.

Definition newMainWindow (options : StartupOptions) : MainWindow :=
  applyStartupOptions (buildInterface options).

(** [MainWindow::~MainWindow] *)
Definition destroyMainWindow (w : MainWindow) : MainWindow :=
  match activationReply_ w with Some n => abort n w | None => w end.

(** The options [main] makes of the command line. *)
Definition parseOptions (value : string → string) (isSet : string → bool) : StartupOptions :=
  mkStartupOptions (value "product") (value "issuer-key-id") (value "issuer-public-key")
    (value "license") (value "activation-url") (value "activation-code") (value "ca-certificate")
    (value "machine-id-file") (isSet "auto-exit").

(** The exit status with [--auto-exit]: the first signal decides, or the timer. *)
Definition exitStatus (w : MainWindow) (timed_out : bool) : option Z :=
  match emitted w with
  | authorized :: _ => Some (if (authorized : bool) then 0 else 1)
  | [] => if timed_out then Some 1 else None
  end.

(** ** Events

    What the connections of [buildInterface], [activateOnline] and
    [applyStartupOptions] make happen: the user types, chooses files and clicks
    enabled buttons; the startup timer fires once; a reply delivers data, times
    out and finishes. *)

Definition runStartup (u : Startup) (m : Desk) (w : MainWindow) : MainWindow :=
  let w := with_startup (sourceTab w) None w in
  match u with StartLocal => authorizeFromFile m w | StartOnline => activateOnline m w end.

Inductive window_step : MainWindow → MainWindow → Prop :=
| step_type e w : window_step w (with_edits e w)
| step_license path w : window_step w (chooseLicenseFile path w)
| step_key path w : window_step w (chooseIssuerKey path w)
| step_ca path w : window_step w (chooseCaCertificate path w)
| step_startup m u w : startup w = Some u → window_step w (runStartup u m w)
| step_local m w : localAuthorizeButton_ (buttons w) = true → window_step w (authorizeFromFile m w)
| step_online m w : onlineActivateButton_ (buttons w) = true → window_step w (activateOnline m w)
| step_capture w : captureButton_ (buttons w) = true → window_step w (captureAction w)
| step_export w : exportButton_ (buttons w) = true → window_step w (exportAction w)
| step_data n data w w' :
    qt_live w !! n = Some Running_reply → readyRead data w = Done w' → window_step w w'
| step_timeout n w : window_step w (timeout n w)
| step_finished m n reply rest networkError httpStatus w w' :
    qt_live w !! n = Some reply → (reply = Aborted_reply → networkError = true) →
    handleActivationFinished m rest networkError httpStatus w = Done w' → window_step w w'.

Abbreviation reachable options := (rtc window_step (newMainWindow options)).

(** ** Results of attempts *)

(** [snap] is what validating some package with the window's configuration gives. *)
Definition granted (m : Desk) (w : MainWindow) (snap : SdkSnapshot) : Prop :=
  ∃ config package, currentConfig m w = Ok config
  ∧ authorizeLicense (dk_fs m) (dk_now m) package config = Ok snap.

Lemma deny_apply e message w :
  denyAuthorization message w = applyAuthorization (Err (mkSdkFailure e message)) w.
Proof. done. Qed.

Lemma granted_valid m w snap : granted m w snap → sn_state snap = ClientState.Valid.
Proof.
  intros (config & package & _ & H). apply authorizeLicense_iff in H.
  by destruct H as (_ & ? & ? & ? & _ & _ & _ & _ & _ & ->).
Qed.

(** An attempt ends in a result, which is a snapshot only if it was granted. *)
Definition settles (m : Desk) (w0 w w' : MainWindow) : Prop :=
  ∃ r, w' = applyAuthorization r w ∧ ∀ snap, r = Ok snap → granted m w0 snap.

Lemma settles_deny m w0 w message : settles m w0 w (denyAuthorization message w).
Proof. exists (Err (mkSdkFailure ClientError.InvalidConfig message)). done. Qed.

#[local] Hint Resolve settles_deny : core.

Lemma authorizeFromFile_settles m w : settles m w w (authorizeFromFile m w).
Proof.
  unfold authorizeFromFile. destruct (currentConfig m w) as [config|] eqn:Ec; [|auto].
  destruct (str_empty _); [auto|]. eexists. split; [done|].
  intros snap H. unfold authorizeLicenseFile in H. apply result_bind_Ok in H as (file & _ & H).
  by exists config, file.
Qed.

Lemma activationResult_settles m e s w : settles m w w (activationResult m e s w).
Proof.
  unfold activationResult. destruct (_ || _); [auto|]. destruct (qt_json_object _); [|auto].
  destruct (_ || _); [auto|]. destruct (currentConfig m w) as [config|] eqn:Ec; [|auto].
  eexists. split; [done|]. intros snap H. by exists config, (qt_from_base64 (s0 "license")).
Qed.

(** [activateOnline] does nothing, ends the attempt, or posts a request. *)
Definition request_ok (r : Request) : Prop :=
  url_valid (qt_url (rq_url r)) = true ∧ url_scheme (qt_url (rq_url r)) = "https"
  ∧ url_host (qt_url (rq_url r)) ≠ "" ∧ rq_activation_code r ≠ "" ∧ rq_product_id r ≠ ""
  ∧ ∃ m config, machineIdentity (dk_fs m) config = Ok (rq_machine_id r).

(** The window after [r] was posted. *)
Definition contacted (r : Request) (w : MainWindow) : MainWindow :=
  let w := post r w in
  let w := with_buttons (mkButtons false false (captureButton_ (buttons w))
                           (exportButton_ (buttons w))) w in
  with_labels (mkLabels (stateLabel_ (labels w)) (expiryLabel_ (labels w)) contacting
                 (featureList_ (labels w))) w.

Lemma str_empty_false s : str_empty s = false → s ≠ "".
Proof. by destruct s. Qed.

Lemma config_Ok m product keyId keyPath path config :
  makeAuthorizationConfig m product keyId keyPath path = Ok config →
  la_product_id config = qt_trimmed product ∧ qt_trimmed product ≠ ""
  ∧ ∃ key, dk_read m keyPath = Some key ∧ zlen key = kKeySize
    ∧ la_trusted_license_keys config = {[qt_trimmed keyId := key]}.
Proof.
  unfold makeAuthorizationConfig.
  destruct (str_empty (qt_trimmed product)) eqn:Ep; [done|]. apply str_empty_false in Ep.
  destruct (_ || _); [done|]. destruct (_ || _); [done|].
  destruct (dk_read m keyPath) as [key|]; [|done].
  destruct (zlen key =? kKeySize) eqn:Ek; [|done]. apply Z.eqb_eq in Ek. cbn [negb].
  destruct (negb _); intros [= <-]; eauto 10.
Qed.

Lemma activateOnline_cases m w :
  (activationReply_ w ≠ None ∧ activateOnline m w = w)
  ∨ settles m w w (activateOnline m w)
  ∨ (activationReply_ w = None ∧ ∃ r, request_ok r ∧ activateOnline m w = contacted r w).
Proof.
  unfold activateOnline. destruct (activationReply_ w) eqn:Er; [by left|right].
  destruct (currentConfig m w) as [config|] eqn:Ec; [|auto].
  destruct (negb _ || _ || _) eqn:Eu; [auto|].
  apply orb_false_iff in Eu as [[Hv Hs]%orb_false_iff Hh]. apply negb_false_iff in Hv, Hs.
  apply bool_decide_eq_true in Hs. apply str_empty_false in Hh.
  destruct (str_empty (activationCodeEdit_ (edits w))) eqn:Ea; [auto|]. apply str_empty_false in Ea.
  destruct (machineIdentity (dk_fs m) config) as [id|] eqn:Ei; [|auto].
  destruct (_ && _); [auto|]. right. split; [done|].
  destruct (config_Ok _ _ _ _ _ _ Ec) as (_ & Hp & _).
  eexists (mkRequest _ _ _ _ _ _). split; [|reflexivity].
  unfold request_ok. cbn. eauto 10.
Qed.

(** ** The invariant *)

(** The reply the window points to is the only one, and its data are bounded. *)
Definition reply_ok (w : MainWindow) : Prop :=
  match activationReply_ w with
  | None => qt_live w = ∅
  | Some n => ∃ reply, qt_live w = {[n := reply]}
      ∧ (reply = Running_reply → zlen (activationResponse_ w) <= kMaxActivationResponseSize)
  end.

(** The widgets show what the window holds. *)
Definition display_ok (w : MainWindow) : Prop :=
  let snap := snapshot_ w in
  stateLabel_ (labels w) = stateText (sn_state snap)
  ∧ expiryLabel_ (labels w) = (if bool_decide (sn_state snap = ClientState.Valid)
                               then expiryText (sn_expire_time snap) else "Expiration: --")
  ∧ featureList_ (labels w) = sn_features snap
  ∧ captureButton_ (buttons w) = hasFeature w "capture"
  ∧ exportButton_ (buttons w) = hasFeature w "export".

(** One of the two ways to authorize is offered exactly while none is under way. *)
Definition offer_ok (w : MainWindow) : Prop :=
  localAuthorizeButton_ (buttons w) = bool_decide (activationReply_ w = None)
  ∧ onlineActivateButton_ (buttons w) = bool_decide (activationReply_ w = None).

(** The last signal tells the state. *)
Definition signal_ok (w : MainWindow) : Prop :=
  match last (emitted w) with
  | Some authorized => authorized = bool_decide (sn_state (snapshot_ w) = ClientState.Valid)
  | None => sn_state (snapshot_ w) = ClientState.Uninitialized
  end.

Definition window_ok (w : MainWindow) : Prop :=
  reply_ok w ∧ display_ok w ∧ offer_ok w ∧ signal_ok w ∧ Forall request_ok (posted w).

Lemma window_ok_new options : window_ok (newMainWindow options).
Proof. by repeat split. Qed.

Lemma apply_ok r w :
  (∀ snap, r = Ok snap → sn_state snap = ClientState.Valid) →
  reply_ok w → offer_ok w → Forall request_ok (posted w) → window_ok (applyAuthorization r w).
Proof.
  intros Hr Hp Ho Hq. unfold window_ok, display_ok, signal_ok. destruct r as [snap|failure]; cbn.
  - rewrite last_snoc, (Hr snap eq_refl). repeat split; [exact Hp|exact (proj1 Ho)|exact (proj2 Ho)|exact Hq].
  - unfold denyAuthorization. destruct (negb _); cbn; rewrite last_snoc;
      repeat split; try exact Hp; try exact (proj1 Ho); try exact (proj2 Ho); exact Hq.
Qed.

Lemma settles_ok m w0 w w' :
  settles m w0 w w' → reply_ok w → offer_ok w → Forall request_ok (posted w) → window_ok w'.
Proof.
  intros (r & -> & Hr). apply apply_ok. intros snap Hs. exact (granted_valid _ _ _ (Hr snap Hs)).
Qed.

(** Changes that the invariant does not see. *)
Lemma edits_ok e w : window_ok w → window_ok (with_edits e w).
Proof. done. Qed.

Lemma contacted_ok r w :
  window_ok w → request_ok r → activationReply_ w = None → window_ok (contacted r w).
Proof.
  intros (Hp & Hd & Ho & Hs & Hq) Hr Hn. unfold reply_ok in Hp. rewrite Hn in Hp.
  split; [|split; [exact Hd|split; [done|split; [exact Hs|]]]].
  - unfold reply_ok. cbn. rewrite Hp. exists Running_reply. split; [apply insert_empty|].
    intros _. cbn. unfold kMaxActivationResponseSize, zlen. cbn. lia.
  - cbn. apply Forall_app. auto.
Qed.

Lemma activateOnline_ok m w : window_ok w → window_ok (activateOnline m w).
Proof.
  intros H. destruct (activateOnline_cases m w) as [[_ ->]|[Hs|(Hn & r & Hr & ->)]]; [done| |].
  - destruct H as (Hp & _ & Ho & _ & Hq). by apply (settles_ok m w w).
  - by apply contacted_ok.
Qed.

Lemma authorizeFromFile_ok m w : window_ok w → window_ok (authorizeFromFile m w).
Proof.
  intros (Hp & _ & Ho & _ & Hq). by apply (settles_ok m w w); [apply authorizeFromFile_settles|..].
Qed.

Lemma protectedAction_ok f d a w : window_ok w → window_ok (protectedAction f d a w).
Proof.
  intros H. unfold protectedAction. destruct (negb _); [|done].
  destruct H as (Hp & _ & Ho & _ & Hq). rewrite (deny_apply ClientError.InvalidConfig).
  by apply apply_ok.
Qed.

Lemma live_pointer w n reply :
  reply_ok w → qt_live w !! n = Some reply → activationReply_ w = Some n.
Proof.
  unfold reply_ok. destruct (activationReply_ w) as [p|].
  - intros (r & -> & _) [-> _]%lookup_singleton_Some. done.
  - intros ->. by rewrite lookup_empty.
Qed.

Lemma abort_ok n w : window_ok w → activationReply_ w = Some n → window_ok (abort n w).
Proof.
  intros (Hp & Hd & Ho & Hs & Hq) Hn. split; [|done].
  unfold reply_ok in Hp |- *. cbn. rewrite Hn in Hp |- *. destruct Hp as (r & -> & _).
  exists Aborted_reply. split; [|done]. by rewrite alter_singleton_eq.
Qed.

Lemma readyRead_ok n data w w' :
  window_ok w → qt_live w !! n = Some Running_reply → readyRead data w = Done w' → window_ok w'.
Proof.
  intros H Hl. pose proof (live_pointer w n _ (proj1 H) Hl) as Hn. unfold readyRead. rewrite Hn.
  intros [= <-]. destruct (_ <? _) eqn:Ez.
  - destruct H as (Hp & H). split; [|exact H].
    unfold reply_ok in Hp |- *. cbn. rewrite Hn in Hp |- *. destruct Hp as (r & -> & _).
    exists Aborted_reply. split; [|done]. by rewrite alter_singleton_eq.
  - apply Z.ltb_ge in Ez. destruct H as (Hp & H). split; [|exact H].
    unfold reply_ok in Hp |- *. cbn. rewrite Hn in Hp |- *. destruct Hp as (r & Hr & _). by exists r.
Qed.

Lemma timeout_ok n w : window_ok w → window_ok (timeout n w).
Proof.
  intros H. unfold timeout. destruct (qt_live w !! n) as [[]|] eqn:El; [|done..].
  apply abort_ok; [done|]. exact (live_pointer w n _ (proj1 H) El).
Qed.

(** The window in which the result of a finished reply is dealt with. *)
Definition collected (rest : bytes) (n : nat) (w : MainWindow) : MainWindow :=
  with_buttons (mkButtons true true (captureButton_ (buttons w)) (exportButton_ (buttons w)))
    (with_edits (clear_code (edits w))
       (with_response (activationResponse_ w ++ rest) (with_reply None (delete n (qt_live w)) w))).

Lemma finished_result m rest e s n w :
  activationReply_ w = Some n →
  handleActivationFinished m rest e s w = Done (activationResult m e s (collected rest n w)).
Proof. intros Hn. unfold handleActivationFinished. by rewrite Hn. Qed.

Lemma finished_settles m rest e s n w :
  activationReply_ w = Some n →
  ∃ w', handleActivationFinished m rest e s w = Done w' ∧ settles m w (collected rest n w) w'.
Proof.
  intros Hn. eexists. split; [by apply finished_result|].
  exact (activationResult_settles m e s (collected rest n w)).
Qed.

Lemma finished_ok m n reply rest e s w w' :
  window_ok w → qt_live w !! n = Some reply →
  handleActivationFinished m rest e s w = Done w' → window_ok w'.
Proof.
  intros H Hl Hf. pose proof (live_pointer w n _ (proj1 H) Hl) as Hn.
  destruct (finished_settles m rest e s n w Hn) as (w1 & Hd & Hs).
  rewrite Hd in Hf. injection Hf as ->. destruct H as (Hp & _ & _ & _ & Hq).
  apply (settles_ok _ _ _ _ Hs); [|done|done].
  unfold reply_ok in Hp |- *. rewrite Hn in Hp. destruct Hp as (r & Hp & _). cbn. rewrite Hp.
  apply delete_singleton_eq.
Qed.

Lemma window_step_ok w w' : window_ok w → window_step w w' → window_ok w'.
Proof.
  intros H Hs. destruct Hs.
  - exact H.
  - unfold chooseLicenseFile. by destruct (str_empty _).
  - unfold chooseIssuerKey. by destruct (str_empty _).
  - unfold chooseCaCertificate. by destruct (str_empty _).
  - destruct u; [by apply authorizeFromFile_ok|by apply activateOnline_ok].
  - by apply authorizeFromFile_ok.
  - by apply activateOnline_ok.
  - by apply protectedAction_ok.
  - by apply protectedAction_ok.
  - by eapply readyRead_ok.
  - by apply timeout_ok.
  - by eapply finished_ok.
Qed.

Lemma reachable_ok options w : reachable options w → window_ok w.
Proof.
  intros H. eapply (rtc_ind_l (fun w' => window_ok w' → window_ok w)); [done| |exact H|apply window_ok_new].
  intros x y Hs _ IH Hx. apply IH. by eapply window_step_ok.
Qed.

(** C31. In every reachable state of the window the widgets show what the window
    holds: the state, expiry and features of the snapshot, [Capture] and [Export]
    enabled exactly for the features, the two ways to authorize exactly while no
    request is in flight; the last signal tells whether the state is valid.  At
    most one request is in flight, which the window points to and whose data
    are bounded until it is aborted; a signal of a reply never finds a null
    pointer; and every request went to an HTTPS host. *)
Theorem window_consistent options w :
  reachable options w →
  window_ok w
  ∧ ∀ n reply m data rest networkError httpStatus, qt_live w !! n = Some reply →
      activationReply_ w = Some n ∧ (∃ w', readyRead data w = Done w')
      ∧ ∃ w', handleActivationFinished m rest networkError httpStatus w = Done w'.
Proof.
  intros H%reachable_ok. split; [done|]. intros n reply m data rest e s Hl.
  pose proof (live_pointer w n _ (proj1 H) Hl) as Hn. split; [done|]. split.
  - unfold readyRead. rewrite Hn. eauto.
  - destruct (finished_settles m rest e s n w Hn) as (w' & Hd & _). eauto.
Qed.

(** ** Where rights come from *)

(** A grant that happened on the way from the start to [w]. *)
Definition granted_before (options : StartupOptions) (snap : SdkSnapshot) (w : MainWindow) : Prop :=
  ∃ w0 m, reachable options w0 ∧ rtc window_step w0 w ∧ granted m w0 snap.

(** What a step does to the rights: nothing, or it takes them away, or it
    grants. *)
Inductive effect_on (w w' : MainWindow) : Prop :=
| effect_none : snapshot_ w' = snapshot_ w → emitted w' = emitted w → effect_on w w'
| effect_deny : sn_state (snapshot_ w') = ClientState.Error → emitted w' = emitted w ++ [false] →
                effect_on w w'
| effect_grant m : granted m w (snapshot_ w') → emitted w' = emitted w ++ [true] → effect_on w w'.

Lemma settles_effect m w0 w w' :
  settles m w0 w w' → snapshot_ w = snapshot_ w0 → emitted w = emitted w0 → effect_on w0 w'.
Proof.
  intros (r & -> & Hr) Hs He. destruct r as [snap|failure].
  - apply (effect_grant _ _ m); cbn; [by apply Hr|by rewrite He].
  - unfold applyAuthorization, denyAuthorization. apply effect_deny; destruct (negb _); cbn; by rewrite ?He.
Qed.

Lemma protectedAction_effect f d a w : effect_on w (protectedAction f d a w).
Proof.
  unfold protectedAction. destruct (negb _); [|by apply effect_none].
  unfold denyAuthorization. apply effect_deny; by destruct (negb _).
Qed.

Lemma activateOnline_effect m w w0 :
  snapshot_ w = snapshot_ w0 → emitted w = emitted w0 →
  (∀ snap, granted m w snap → granted m w0 snap) → effect_on w0 (activateOnline m w).
Proof.
  intros Hs He Hg. destruct (activateOnline_cases m w) as [[_ ->]|[(r & -> & Hr)|(Hn & r & Hr & ->)]].
  - by apply effect_none.
  - apply (settles_effect m w0 w); [|done|done]. exists r. split; [done|]. naive_solver.
  - by apply effect_none.
Qed.

Lemma window_step_effect w w' : window_step w w' → effect_on w w'.
Proof.
  intros Hs. destruct Hs.
  - by apply effect_none.
  - unfold chooseLicenseFile. destruct (str_empty _); by apply effect_none.
  - unfold chooseIssuerKey. destruct (str_empty _); by apply effect_none.
  - unfold chooseCaCertificate. destruct (str_empty _); by apply effect_none.
  - destruct u; [|by apply activateOnline_effect].
    destruct (authorizeFromFile_settles m (with_startup (sourceTab w) None w)) as (r & Er & Hr).
    apply (settles_effect m w (with_startup (sourceTab w) None w)); [by exists r|done|done].
  - by apply (settles_effect m w w); [apply authorizeFromFile_settles|..].
  - by apply activateOnline_effect.
  - apply protectedAction_effect.
  - apply protectedAction_effect.
  - unfold readyRead in *. destruct (activationReply_ w); [|done]. simplify_eq.
    destruct (_ <? _); by apply effect_none.
  - unfold timeout. destruct (qt_live w !! n) as [[]|]; by apply effect_none.
  - destruct (activationReply_ w) as [p|] eqn:Hp.
    + destruct (finished_settles m rest networkError httpStatus p w Hp) as (w1 & Hd & Hs).
      assert (w1 = w') as -> by congruence. by apply (settles_effect m w (collected rest p w)).
    + unfold handleActivationFinished in *. by rewrite Hp in *.
Qed.

Lemma rights_provenance options w :
  reachable options w →
  (sn_state (snapshot_ w) = ClientState.Valid → granted_before options (snapshot_ w) w)
  ∧ (true ∈ emitted w → ∃ snap, granted_before options snap w).
Proof.
  revert w. apply (rtc_ind_r (fun w =>
    (sn_state (snapshot_ w) = ClientState.Valid → granted_before options (snapshot_ w) w)
    ∧ (true ∈ emitted w → ∃ snap, granted_before options snap w)));
    [by split; [|intros ?%elem_of_nil]|].
  intros w w' H Hs IH.
  assert (∀ snap, granted_before options snap w → granted_before options snap w') as Hmono.
  { intros snap (w0 & m & ? & ? & ?). exists w0, m. split_and!; [done|by eapply rtc_r|done]. }
  destruct IH as [IH1 IH2].
  destruct (window_step_effect w w' Hs) as [Hw He|Hw He|m Hg He].
  - rewrite Hw, He. split; [auto|]. intros Ht. destruct (IH2 Ht) as [snap ?]. eauto.
  - rewrite He. split; [congruence|]. intros [Ht|Ht%list_elem_of_singleton]%elem_of_app; [|done].
    destruct (IH2 Ht) as [snap ?]. eauto.
  - assert (granted_before options (snapshot_ w') w') as Hb
      by (exists w, m; split_and!; [done|by apply rtc_once|done]).
    split; eauto.
Qed.


(** Run with [--auto-exit], the program reports success only if a license was
    validated. *)
Theorem exit_zero_licensed options w timed_out :
  reachable options w → exitStatus w timed_out = Some 0 →
  ∃ snap, granted_before options snap w.
Proof.
  intros Hr He. apply (proj2 (rights_provenance options w Hr)). unfold exitStatus in He.
  destruct (emitted w) as [|[] l]; [by destruct timed_out|by left|done].
Qed.

(** ** Online activation *)

(** What an answer must be for the window to become valid by it. *)
Lemma activationResult_valid m e s w :
  sn_state (snapshot_ (activationResult m e s w)) = ClientState.Valid ↔
  e = false ∧ 200 <= s < 300 ∧ zlen (activationResponse_ w) <= kMaxActivationResponseSize
  ∧ ∃ value config snap, qt_json_object (activationResponse_ w) = Some value
    ∧ 0 < zlen (qt_from_base64 (value "license")) <= 1024 * 1024
    ∧ currentConfig m w = Ok config
    ∧ authorizeLicense (dk_fs m) (dk_now m) (qt_from_base64 (value "license")) config = Ok snap.
Proof.
  assert (∀ message w, sn_state (snapshot_ (denyAuthorization message w)) = ClientState.Error) as Hd
    by (intros; unfold denyAuthorization; by destruct (negb _)).
  unfold activationResult. destruct (e || _ || _ || _) eqn:Ee.
  { rewrite Hd. split; [done|]. intros (-> & Hs & Hz & _). cbn in Ee. exfalso. revert Ee.
    rewrite !orb_true_iff, Z.ltb_lt, Z.leb_le, Z.ltb_lt. lia. }
  rewrite !orb_false_iff, Z.ltb_ge, Z.leb_gt, Z.ltb_ge in Ee. destruct Ee as [[[-> H1] H2] H3].
  destruct (qt_json_object _) as [value|]; [|rewrite Hd; naive_solver].
  destruct (_ || _) eqn:El.
  { rewrite Hd. split; [done|]. intros (_ & _ & _ & ? & ? & ? & [= <-] & Hl & _). exfalso. revert El.
    rewrite orb_true_iff, Z.eqb_eq, Z.ltb_lt. lia. }
  rewrite orb_false_iff, Z.eqb_neq, Z.ltb_ge in El. pose proof (zlen_nonneg (qt_from_base64 (value "license"))).
  destruct (currentConfig m w) as [config|] eqn:Ec; [|rewrite Hd; naive_solver].
  destruct (authorizeLicense _ _ _ _) as [snap|] eqn:Ea; cbn.
  - split; [|intros _; apply (granted_valid m w snap); by exists config, (qt_from_base64 (value "license"))].
    intros _. split_and!; [done|lia|lia|lia|]. exists value, config, snap. split_and!; [done|lia|lia|done|done].
  - split; [by destruct (autoExit (options_ w))|].
    intros (_ & _ & _ & ? & ? & ? & [= <-] & _ & [= <-] & H1'). congruence.
Qed.

(** C32. An activation that is answered with a license issued for this product
    and machine succeeds: whatever the window showed before, it then has exactly
    the license's features and no request in flight, and it tells so. *)
Theorem issued_license_activates {LL : LicenseBuffersLaws L} kp d package m n rest status value
    config machine_id w :
  CryptoLaws C → CryptoAvailable C → ed25519_pair kp → issuable d →
  Issuer.issueLicense d (kp_private kp) = Ok package →
  activationReply_ w = Some n → 200 <= status < 300 →
  zlen (activationResponse_ w ++ rest) <= kMaxActivationResponseSize →
  qt_json_object (activationResponse_ w ++ rest) = Some value →
  qt_from_base64 (value "license") = package →
  currentConfig m w = Ok config →
  dk_read m (keyPathEdit_ (edits w)) = Some (kp_public kp) →
  qt_trimmed (keyIdEdit_ (edits w)) = ld_key_id d →
  machineIdentity (dk_fs m) config = Ok machine_id →
  in_force (definition_snapshot d) (la_product_id config) machine_id (wrap 64 (dk_now m)) →
  ∃ w', handleActivationFinished m rest false status w = Done w'
  ∧ (∀ f, hasFeature w' f = bool_decide (f ∈ ld_features d))
  ∧ activationReply_ w' = None ∧ emitted w' = emitted w ++ [true].
Proof.
  intros HL HA Hkp Hd Hi Hn Hs Hz Hj Hb Hc Hk Hkid Hm Hf.
  destruct (config_Ok _ _ _ _ _ _ Hc) as (Hp & Hpne & key & Hk' & _ & Hkeys).
  assert (key = kp_public kp) as -> by congruence. rewrite Hkid in Hkeys.
  destruct (issueLicense_authentic kp d package {[ld_key_id d := kp_public kp]} HL HA Hkp Hd Hi
    (lookup_singleton_eq _ _)) as (Ha & Hv & Hsnap).
  assert (authorizeLicense (dk_fs m) (dk_now m) package config
          = Ok (mkSdkSnapshot ClientState.Valid (ld_features d) (ld_expire_time d))) as Hauth.
  { apply authorizeLicense_iff. rewrite Hkeys. split.
    - split; [by rewrite Hp|]. rewrite Hkeys. apply map_non_empty_singleton.
    - exists machine_id, (FinishLicensePayload (Issuer.payloadTable d)), (definition_snapshot d).
      by split_and!. }
  eexists. split; [by apply finished_result|]. unfold activationResult.
  change (activationResponse_ (collected rest n w)) with (activationResponse_ w ++ rest).
  rewrite (proj2 (Z.ltb_ge _ _) (proj1 Hs)), (proj2 (Z.leb_gt _ _) (proj2 Hs)),
    (proj2 (Z.ltb_ge _ _) Hz), Hj, Hb.
  destruct Ha as [[Hlo Hhi] _]. unfold License.kMaxLicenseSize in Hhi.
  rewrite (proj2 (Z.eqb_neq (zlen package) 0)), (proj2 (Z.ltb_ge _ _) Hhi) by lia. cbn [orb].
  change (currentConfig m (collected rest n w)) with (currentConfig m w). rewrite Hc, Hauth.
  split_and!; [|done|done]. intros f. reflexivity.
Qed.

(** An answer that is too long is refused, whatever it contains. *)
Theorem oversized_answer_refused m rest e s n w :
  activationReply_ w = Some n →
  kMaxActivationResponseSize < zlen (activationResponse_ w ++ rest) →
  ∃ w', handleActivationFinished m rest e s w = Done w' ∧ ∀ f, hasFeature w' f = false.
Proof.
  intros Hn Hz. eexists. split; [by apply finished_result|]. intros f. unfold hasFeature.
  destruct (bool_decide (sn_state _ = _)) eqn:Ev; [|done]. exfalso. apply bool_decide_eq_true in Ev.
  apply activationResult_valid in Ev as (_ & _ & Hle & _).
  change (activationResponse_ (collected rest n w)) with (activationResponse_ w ++ rest) in Hle. lia.
Qed.
End Window.

(** ** A run: online activation of a licensed machine *)

Module demo.
(** Without the spaces at the ends. *)
Fixpoint skip_spaces (s : string) : string :=
  match s with
  | String c s' => if Ascii.eqb c (Ascii.ascii_of_nat 32) then skip_spaces s' else s
  | EmptyString => s
  end.
Definition trimmed (s : string) : string :=
  String.rev (skip_spaces (String.rev (skip_spaces s))).

(** [https://host] and nothing else. *)
Definition url (s : string) : QUrl :=
  if String.prefix "https://" s
  then mkQUrl true "https" (String.substring 8 (String.length s - 8) s)
  else mkQUrl false "" "".

(** An object of one member, written as the member; each byte of a license
    written as itself. *)
Definition string_of_bytes (bs : bytes) : string :=
  fold_right (fun b s => String (Ascii.ascii_of_N (Z.to_N b)) s) EmptyString bs.

#[local] Instance toy_qt : Qt := {
  qt_trimmed := trimmed;
  qt_url := url;
  qt_json_object bs := Some (fun _ => string_of_bytes bs);
  qt_from_base64 := string_bytes;
  QSslCertificate := ();
  qt_certificates _ := [];
  qt_authorities := [()];
  qt_datetime _ := "2026-01-01T00:00:00";
}.

#[local] Existing Instance toy_crypto.
#[local] Existing Instance toy_licenses.

Definition desk : Desk :=
  mkDesk (fun _ => false) (fun p => String.eqb p "/k/k1.pub")
    (fun p => if String.eqb p "/k/k1.pub" then Some (kp_public sample_signer) else None)
    licensed_disk sample_files 1500.

Definition options : StartupOptions :=
  mkStartupOptions "demo" " k1 " "/k/k1.pub" "" "https://license.example" "code" "" "" true.

(** After the startup timer, after half of the answer, and after the end. *)
Definition asked : MainWindow := runStartup StartOnline desk (newMainWindow options).
Definition half : bytes := take 100 bound_package.
Definition half_answered : MainWindow :=
  match readyRead half asked with Done w => w | _ => asked end.
Definition activated : MainWindow :=
  match handleActivationFinished desk (drop 100 bound_package) false 200 half_answered with
  | Done w => w | _ => asked
  end.

Definition ends {A} (e : exec A) : bool := match e with Done _ => true | _ => false end.
Lemma ends_result {A} (e : exec A) d : ends e = true → e = Done (match e with Done a => a | _ => d end).
Proof. by destruct e. Qed.

Lemma asked_reachable : rtc window_step (newMainWindow options) asked.
Proof. apply rtc_once. by apply step_startup. Qed.

Lemma half_reachable : rtc window_step (newMainWindow options) half_answered.
Proof.
  eapply rtc_r; [apply asked_reachable|]. apply (step_data 0 half); [|reflexivity].
  vm_compute. reflexivity.
Qed.

Lemma activated_reachable : rtc window_step (newMainWindow options) activated.
Proof.
  eapply rtc_r; [apply half_reachable|].
  apply (step_finished desk 0 Running_reply (drop 100 bound_package) false 200); [|done|].
  - vm_compute. reflexivity.
  - apply ends_result. vm_compute. reflexivity.
Qed.

Lemma window_consistent_witness :
  activationReply_ half_answered = Some 0%nat ∧ localAuthorizeButton_ (buttons half_answered) = false.
Proof.
  destruct (window_consistent options half_answered half_reachable) as [(_ & _ & [Hl _] & _) H].
  destruct (H 0%nat Running_reply desk [] [] false 200) as [Hn _]; [vm_compute; reflexivity|].
  split; [exact Hn|]. rewrite Hl, Hn. reflexivity.
Defined.


Lemma issued_license_activates_witness :
  ∃ w', handleActivationFinished desk (drop 100 bound_package) false 200 half_answered = Done w'
  ∧ hasFeature w' "export" = true ∧ emitted w' = [true].
Proof.
  destruct (issued_license_activates sample_signer bound_definition bound_package desk 0
    (drop 100 bound_package) 200 (fun _ => string_of_bytes bound_package) licensed_local
    (mi_exact_id sample_identity) half_answered _ _ sample_signer_pair) as (w' & Hd & Hf & _ & He).
  - unfold issuable, definition_typed, in_width, bound_definition, str_size. cbn -[Z.pow].
    split_and!; lia.
  - vm_compute. reflexivity.
  - reflexivity.
  - lia.
  - vm_compute. discriminate.
  - vm_compute. reflexivity.
  - vm_compute. reflexivity.
  - vm_compute. reflexivity.
  - reflexivity.
  - vm_compute. reflexivity.
  - vm_compute. reflexivity.
  - unfold in_force. cbn. split_and!; [done|vm_compute; discriminate|vm_compute; done|done].
  - exists w'. split; [done|]. rewrite Hf, He. split; vm_compute; reflexivity.
Defined.

Lemma exit_zero_licensed_witness : ∃ snap, granted_before options snap activated.
Proof.
  apply (exit_zero_licensed options activated false activated_reachable). vm_compute. reflexivity.
Defined.

Lemma oversized_answer_refused_witness :
  ∃ w', handleActivationFinished desk (replicate (S (Z.to_nat kMaxActivationResponseSize)) 0) false 200
          half_answered = Done w' ∧ hasFeature w' "export" = false.
Proof.
  destruct (oversized_answer_refused desk (replicate (S (Z.to_nat kMaxActivationResponseSize)) 0) false 200
    0 half_answered) as (w' & Hd & Hf).
  - vm_compute. reflexivity.
  - rewrite zlen_app. unfold zlen at 2. rewrite length_replicate. pose proof (zlen_nonneg half). 
    unfold kMaxActivationResponseSize in *. pose proof (zlen_nonneg (activationResponse_ half_answered)). lia.
  - exists w'. auto.
Defined.
End demo.
End TestYoQt.
