(* ===== verification/EndToEnd.v ===== *)
(** * EndToEnd: the SDK client against the service's connection

    A transport whose other end is a service connection: every frame the
    client writes is handled by [Connection.handle], as [serve] does frame by
    frame, and the responses are what the client reads.  The client theorems
    of [Client.v] are instantiated with it, and the whole authorization is
    followed from the first hello to the [Valid] snapshot. *)

From S2P Require Import Prelude Frame CryptoApi Crypto ToySsl KeySchedule RecordLayer FlatBuf.
From S2P Require Import ToyBuf Messages Handshake Status License Session Connection Transport.
From S2P Require Import Client.

(** The service's side and the bytes on their way to the client. *)
Record LinkState (R : Type) := mkLink {
  lk_connection : Connection;
  lk_sessions : SessionManager;
  lk_rng : R;
  lk_inbox : bytes;
  lk_fuel : nat;
  lk_now_ns : Z;
  lk_now_unix : Z;
}.

Arguments mkLink {R} _ _ _ _ _ _ _.
Arguments lk_connection {R} _.
Arguments lk_sessions {R} _.
Arguments lk_rng {R} _.
Arguments lk_inbox {R} _.
Arguments lk_fuel {R} _.
Arguments lk_now_ns {R} _.
Arguments lk_now_unix {R} _.

Abbreviation Link := (LinkState cr_rng).

Section Linked.
Context {C : CryptoApi} {P : ProtocolBuffers}.

Definition link_write (frame : bytes) (st : Link) : TransportStatus * Link :=
  match handle (lk_fuel st) (lk_connection st) (lk_sessions st) (lk_rng st) frame
          (Z.div (lk_now_ns st) 1000000) (lk_now_unix st) with
  | Done (r, c, m, g) =>
      (success, mkLink c m g (lk_inbox st ++ default [] (cx_response r)) (lk_fuel st)
                  (lk_now_ns st) (lk_now_unix st))
  | _ => (mkTransportStatus StatusCode.EndOfFile 0, st)
  end.

(** The cells of the stream are bytes. *)
Definition link_read (n : Z) (st : Link) : result TransportStatus bytes * Link :=
  if n <=? zlen (lk_inbox st)
  then (Ok (map u8 (take (Z.to_nat n) (lk_inbox st))),
        mkLink (lk_connection st) (lk_sessions st) (lk_rng st)
          (drop (Z.to_nat n) (lk_inbox st)) (lk_fuel st) (lk_now_ns st) (lk_now_unix st))
  else (Err (mkTransportStatus StatusCode.Timeout 0), st).

Definition link_close (st : Link) : Link :=
  let '(c, m) := closeSession (lk_connection st) (lk_sessions st) in
  mkLink c m (lk_rng st) [] (lk_fuel st) (lk_now_ns st) (lk_now_unix st).

#[export] Instance link_transport : ITransport := {
  tr_state := Link;
  tr_now := lk_now_ns;
  tr_connect := fun _ st => (success, st);
  tr_readExact := fun n _ => link_read n;
  tr_writeAll := fun bs _ => link_write bs;
  tr_close := link_close;
}.

#[export] Instance link_transport_laws : ITransportLaws link_transport.
Proof.
  split. intros n d st bs st' Hn. cbn. unfold link_read.
  destruct (Z.leb_spec n (zlen (lk_inbox st))) as [Hl|]; [|done]. intros [= <- _].
  split; [|apply Forall_map, Forall_true, u8_in_width].
  unfold zlen in *. rewrite length_map, length_take. lia.
Qed.

Lemma u8_cells bs : octets bs → map u8 bs = bs.
Proof.
  induction 1 as [|b bs Hb _ IH]; [done|]. cbn. rewrite IH. f_equal. by apply wrap_small.
Qed.

(** A whole frame in the inbox is read as it is. *)
Lemma link_readFrame st f rest d timeout :
  octets f → decodeFrame f kDefaultMaxPayloadSize = Ok d → lk_inbox st = f ++ rest →
  Sdk.readFrame st timeout
  = (Ok f, mkLink (lk_connection st) (lk_sessions st) (lk_rng st) rest (lk_fuel st)
             (lk_now_ns st) (lk_now_unix st)).
Proof.
  intros Ho Hd Hin. apply decodeFrame_parts in Hd as (Ha & Hf & Hz); [|done].
  set (h := fd_header d) in *. set (p := fd_payload d) in *.
  assert (decodeHeader (encodeHeader h) kDefaultMaxPayloadSize
          = Ok (mkFrameDecoded h [])) as Hdec.
  { apply decodeHeader_Ok; [apply encodeHeader_octets|].
    pose proof (wire_header_encode h [] _ Ha) as Hw. rewrite app_nil_r in Hw. rewrite Hw.
    split_and!; done. }
  assert (octets p) as Hp by (rewrite Hf in Ho; by apply octets_app in Ho as [_ ?]).
  pose proof (length_encodeHeader h) as Hl. unfold Sdk.readFrame. cbn [tr_readExact link_transport].
  unfold link_read at 1. rewrite Hin, Hf. rewrite (proj2 (Z.leb_le _ _)).
  2:{ rewrite !zlen_app, zlen_encodeHeader. pose proof (zlen_nonneg p). pose proof (zlen_nonneg rest). lia. }
  change (Z.to_nat kFrameHeaderSize) with 20%nat. rewrite <- app_assoc.
  rewrite take_app_length' by done. rewrite u8_cells by apply encodeHeader_octets.
  rewrite Hdec. cbn [fd_header]. unfold link_read. cbn [lk_inbox].
  rewrite drop_app_length' by done. rewrite <- Hz. rewrite (proj2 (Z.leb_le _ _)).
  2:{ rewrite zlen_app. pose proof (zlen_nonneg rest). lia. }
  unfold zlen. rewrite Nat2Z.id, take_app_length, drop_app_length, u8_cells by done. done.
Qed.

Lemma plaintext_frame p :
  octets p → 0 < zlen p <= 2 ^ 17 →
  octets (wrapPlaintext p)
  ∧ decodeFrame (wrapPlaintext p) kDefaultMaxPayloadSize
    = Ok (mkFrameDecoded (mkFrameHeader kFrameVersion 0 0 (zlen p)) p).
Proof.
  intros Hp Hz. assert (wrap 32 (zlen p) = zlen p) as Hw
    by (apply wrap_small; unfold in_width; lia).
  assert (octets (wrapPlaintext p)) as Ho by (apply octets_app; split; [apply encodeHeader_octets|done]).
  split; [done|]. apply decodeFrame_parts; [done|]. cbn [fd_header fd_payload fh_payload_size].
  split_and!; [|by unfold wrapPlaintext; rewrite Hw|done].
  unfold admissible, in_width, kDefaultMaxPayloadSize. cbn [fh_version fh_flags fh_sequence fh_payload_size].
  split_and!; try done; try lia.
Qed.

Definition link_with (st : Link) (c : Connection) (m : SessionManager) (g : cr_rng) (inbox : bytes)
  : Link := mkLink c m g inbox (lk_fuel st) (lk_now_ns st) (lk_now_unix st).

(** The handshake over the link: both ends as in [handleServerHello] and
    [handleClientFinished], nothing left in the inbox. *)
Lemma link_handshake config h0 st g hello h g' shello s1 gs1 finished h' s2 :
  start h0 g = (Ok hello, h, g') → octets hello → 0 < zlen hello <= 2 ^ 17 →
  cn_state (lk_connection st) = ConnectionState.AwaitingHello → lk_inbox st = [] →
  handleClientHello (cn_handshake (lk_connection st)) hello (lk_rng st)
  = Done (Ok shello, s1, gs1) →
  octets shello → 0 < zlen shello <= 2 ^ 17 →
  handleServerHello h shello = Done (Ok finished, h') →
  handleClientFinished s1 finished = Done (Ok (), s2) →
  exchangeHello config h0 st g
  = Done (Ok h', h', link_with st (with_state (with_handshake (lk_connection st) s2)
                                     ConnectionState.AwaitingAuthorize)
                       (lk_sessions st) gs1 [], g').
Proof.
  intros Hst Hoh Hzh Hs Hin Hch Hosh Hzsh Hsh Hcf. unfold exchangeHello. rewrite Hst.
  destruct (plaintext_frame hello Hoh Hzh) as [_ Hd]. destruct (plaintext_frame shello Hosh Hzsh) as [Hof Hd2].
  change (Sdk.wrapPlaintext hello) with (wrapPlaintext hello).
  unfold Sdk.writeFrame at 1. cbn [tr_writeAll link_transport]. unfold link_write at 1.
  unfold handle, handleHello. rewrite Hs, Hd. cbn [fd_header fh_flags fh_sequence fd_payload negb orb Z.eqb].
  rewrite Hch. cbn [mbind exec_bind cx_response default]. rewrite Hin. cbn [app].
  unfold status_ok. rewrite bool_decide_eq_true_2 by done.
  erewrite link_readFrame; [|exact Hof|exact Hd2|cbn [lk_inbox]; symmetry; apply app_nil_r].
  unfold Sdk.unwrapPlaintext. rewrite Hd2. cbn [fd_header fh_flags fh_sequence fd_payload negb orb Z.eqb].
  rewrite (proj2 (Z.eqb_neq _ 0)) by lia. rewrite Hsh. cbn [mbind exec_bind].
  unfold Sdk.writeFrame. cbn [tr_writeAll link_transport]. unfold link_write, handle.
  cbn [lk_connection cn_state with_state with_handshake cn_handshake lk_rng lk_sessions lk_inbox].
  rewrite Hcf. cbn. unfold status_ok. rewrite bool_decide_eq_true_2 by done. done.
Qed.
End Linked.

Section Authorized.
Context {C : CryptoApi} {CL : CryptoLaws C} {CA : CryptoAvailable C}.
Context {P : ProtocolBuffers} {PL : ProtocolBuffersLaws P}.

Lemma client_seal_total h m p w :
  client_inv h → hc_state h = HandshakeState.Established → hc_writer h = Some w →
  rw_next_sequence w ≠ UINT64_MAX → any_typed m → encodeAny m = Ok p →
  ∃ f h', client_seal h p = (Ok f, h').
Proof.
  intros Hi Hs Hw Hne Hm He. unfold client_inv in Hi. rewrite Hs in Hi.
  destruct Hi as ((w0 & r0 & E & _ & Hwf & _) & _). destruct (encodeAny_size m p Hm He) as [Ho Hz].
  destruct (seal_total w p) as [f Hf]; [congruence|done| |].
  - split; [done|]. unfold kDefaultMaxPayloadSize, kTagSize. lia.
  - unfold client_seal. rewrite Hs, Hw, Hf. eauto.
Qed.

(** What the service seals is one frame on the wire. *)
Lemma server_seal_frame h p f h' :
  server_inv h → octets p → server_seal h p = (Ok f, h') →
  octets f ∧ ∃ d, decodeFrame f kDefaultMaxPayloadSize = Ok d.
Proof.
  intros Hi Hp. unfold server_seal. destruct (hs_state h) eqn:E; try done.
  unfold server_inv in Hi. rewrite E in Hi. destruct Hi as ((w & r & -> & _ & Hw & _) & _).
  destruct (RecordWriter_seal w p) as [x w'] eqn:Es. intros [= -> <-].
  destruct (seal_frame _ _ _ _ Hw Hp Es) as (Ho & _ & Hd). eauto.
Qed.

(** The request the client makes. *)
Definition clientRequest (config : ClientConfig) (h : ClientHandshake) (pid : Z) : AuthorizeMessage :=
  mkAuthorizeMessage 2 (hc_selected_version h) (cc_product_id config) (wrap 64 pid) 0.

Lemma clientRequest_encodes config h pid :
  hc_selected_version h = 1 → str_empty (cc_product_id config) = false →
  str_size (cc_product_id config) <= kMaxProductIdSize → wrap 64 pid ≠ 0 →
  any_typed (AnyAuthorize (clientRequest config h pid))
  ∧ ∃ bs, encodeAuthorize (clientRequest config h pid) = Ok bs.
Proof.
  intros Hv Hp Hsz Hpid. unfold clientRequest. rewrite Hv. split.
  - cbn. split_and!; try (unfold in_width; lia). apply wrap_in_width. lia.
  - unfold encodeAuthorize. cbn. rewrite Hp, (proj2 (Z.ltb_ge _ _)), (proj2 (Z.eqb_neq _ 0)) by lia.
    cbn. eauto.
Qed.

(** The license and the configuration the service grants from. *)
Record grantable (c : Connection) (config : ClientConfig) (unix : Z) : Prop := mkGrantable {
  gr_product : cc_product_id config = ls_product_id (cn_license c);
  gr_size : str_size (cc_product_id config) <= kMaxProductIdSize;
  gr_expiry : licenseExpired (cn_license c) unix = false;
  gr_expire : in_width 64 (ls_expire_time (cn_license c));
  gr_features : validFeatures (ls_features (cn_license c)) = true;
  gr_heartbeat : 0 < cn_heartbeat_interval_ms c < cn_heartbeat_timeout_ms c;
  gr_timeout : in_width 32 (cn_heartbeat_timeout_ms c);
}.

Lemma granted_accepted c s h :
  hc_selected_version h = hs_selected_version (cn_handshake c) →
  0 < cn_heartbeat_interval_ms c < cn_heartbeat_timeout_ms c →
  grantsAuthorization h (grantedResult c s 2) = Some (se_id s).
Proof.
  intros Hv Hh. unfold grantsAuthorization, grantedResult. cbn. rewrite Hv, Z.eqb_refl. cbn.
  rewrite !(proj2 (Z.eqb_neq _ 0)), (proj2 (Z.leb_gt _ _)) by lia. done.
Qed.

(** The authorization over the link. *)
Lemma link_authorization config pid h st s m' g' :
  let c := lk_connection st in
  conn_inv c → cn_state c = ConnectionState.AwaitingAuthorize → lk_inbox st = [] →
  linked h (cn_handshake c) → client_inv h → hc_state h = HandshakeState.Established →
  (∃ k, hc_writer h = Some (mkRecordWriter k 2)) →
  (∃ k, hs_writer (cn_handshake c) = Some (newRecordWriter k)) →
  hc_selected_version h = 1 → hs_selected_version (cn_handshake c) = 1 →
  str_empty (cc_product_id config) = false → wrap 64 pid ≠ 0 → grantable c config (lk_now_unix st) →
  create (lk_fuel st) (lk_sessions st) (lk_rng st) (ls_product_id (cn_license c))
    (cn_peer_identity c) (ls_features (cn_license c)) (ls_expire_time (cn_license c))
    (Z.div (lk_now_ns st) 1000000) (ls_max_sessions (cn_license c)) = Done (Ok s, m', g') →
  ∃ h' c', exchangeAuthorize config pid h st
    = Done (Ok (grantedResult c s 2, se_id s), h', link_with st c' m' g' [])
    ∧ cn_state c' = ConnectionState.Active ∧ cn_session c' = Some s ∧ linked h' (cn_handshake c').
Proof.
  intros c Hc Hs Hin Hl Hci Hes [k Hw] [k' Hsw] Hv Hsv Hpe Hpid [Hp Hsz Hx Hexp Hf Hh Hto] Hcr.
  destruct (clientRequest_encodes config h pid Hv Hpe Hsz Hpid) as [Hty [az Haz]].
  destruct (encodeAny_size _ az Hty Haz) as [Hoaz _].
  destruct (client_seal_total h (AnyAuthorize (clientRequest config h pid)) az _ Hci Hes Hw ltac:(done) Hty Haz)
    as (sealed & h1 & Hseal).
  pose proof Hc as [Hi Hst]. rewrite Hs in Hst. destruct Hst as [Hsh _].
  destruct (proj1 (linked_deliver _ _ az sealed Hl Hci Hi Hes Hsh Hoaz) _ Hseal) as (s3 & Hop & Hl1).
  destruct (client_seal_inv _ _ _ _ Hseal Hci) as (Hci1 & Hes1 & Hv1 & _).
  destruct (server_open_inv _ _ _ _ Hop Hi) as [Hi3 Hsh3].
  destruct (server_open_version _ _ _ _ Hop) as [Hv3 Hw3].
  destruct (authorize_granted (lk_fuel st) c (lk_sessions st) (lk_rng st) sealed
    (Z.div (lk_now_ns st) 1000000) (lk_now_unix st) az s3 (clientRequest config h pid) s m' g')
    as (f & c' & enc & Hh' & Htr & Henc & Hss & Hact & Hses); try done.
  { by apply Authorize_roundtrip. }
  { cbn. congruence. }
  { rewrite Hsv. done. }
  { rewrite Hsv. unfold in_width. lia. }
  { unfold in_width in *. lia. }
  { exists (newRecordWriter k'). split; [congruence|done]. }
  destruct (encodeAny_size _ enc Htr Henc) as [Hoenc _].
  destruct (server_seal_frame _ _ _ _ Hi3 Hoenc Hss) as [Hof [d Hd]].
  destruct (proj2 (linked_deliver _ _ enc f Hl1 Hci1 Hi3 ltac:(congruence) ltac:(congruence) Hoenc) _ Hss)
    as (h2 & Hopen & Hl2).
  destruct (client_open_inv _ _ _ _ Hopen Hci1) as (_ & _ & Hv2).
  exists h2, c'. split_and!; try done. unfold exchangeAuthorize.
  fold (clientRequest config h pid). rewrite Haz, Hseal.
  unfold Sdk.writeFrame. cbn [tr_writeAll link_transport]. unfold link_write. fold c. rewrite Hh'.
  cbn [cx_response default]. rewrite Hin. cbn [app]. unfold status_ok.
  rewrite bool_decide_eq_true_2 by done.
  erewrite link_readFrame; [|exact Hof|exact Hd|cbn [lk_inbox]; symmetry; apply app_nil_r].
  cbn [lk_connection lk_sessions lk_rng lk_fuel lk_now_ns lk_now_unix].
  rewrite Hopen, (AuthResult_roundtrip _ _ Htr Henc). cbn [mbind exec_bind].
  cbn [az_request_id clientRequest]. rewrite granted_accepted by (done || congruence). done.
Qed.

(** The service right after [accept], nothing received yet. *)
Definition freshLink (kid : string) (kp : KeyPair) (license : LicenseSnapshot) (peer : string)
    (interval timeout : Z) (m : SessionManager) (g : cr_rng) (fuel : nat) (ns unix : Z) : Link :=
  mkLink (newConnection kid (kp_private kp) license peer interval timeout) m g [] fuel ns unix.

Definition sdkHandshake (config : ClientConfig) : ClientHandshake :=
  newClientHandshake (cc_trusted_service_keys config) kSdkVersion 1 1 1.

Lemma sdkHandshake_typed config : client_typed (sdkHandshake config).
Proof. unfold client_typed, in_width. cbn -[Z.pow]. lia. Qed.

Lemma hello_sizes config g hello h g' kid kp gs shello s1 gs1 :
  start (sdkHandshake config) g = (Ok hello, h, g') →
  handleClientHello (newServerHandshake kid (kp_private kp) 1 1) hello gs
  = Done (Ok shello, s1, gs1) →
  (octets hello ∧ 0 < zlen hello <= 2 ^ 17) ∧ (octets shello ∧ 0 < zlen shello <= 2 ^ 17).
Proof.
  intros Hst Hh. pose proof (sdkHandshake_typed config) as Ht.
  destruct (honest_transcript _ _ _ _ _ (newServerHandshake kid (kp_private kp) 1 1) _ _ _ _ Ht Hst ltac:(cbn; lia)
    ltac:(unfold in_width; cbn -[Z.pow]; lia) Hh) as (server & hash & keys & eph & Han & Hd & _ & _ & Hos).
  apply start_Ok in Hst. destruct (started_typed _ _ _ _ _ Ht Hst) as [Hct _].
  destruct (encodeAny_size _ hello Hct (st_hello _ _ _ _ _ Hst)) as [? ?].
  destruct (decoded_ServerHello _ _ Hos Hd) as [Hst' _].
  destruct (encodeAny_size (AnyServerHello server) shello Hst' (an_hello _ _ _ _ _ _ _ _ _ _ _ Han)).
  split_and!; (done || lia).
Qed.

(** C1. The whole authorization: a fresh client configured for the licensed
    product, which trusts the service's key, connects to a service whose
    license is in force; unless a source of randomness fails or the session
    limit is reached ([create]), [initialize] succeeds, the client shows
    exactly the features and the expiry of the license, holds the id of the
    one session that was added to the service's table, and both ends are
    ready to exchange heartbeats. *)
Theorem authorized_end_to_end config kid kp license peer interval timeout m gs fuel ns unix
    g hello h g' shello s1 gs1 s m' gs2 pid :
  let link := freshLink kid kp license peer interval timeout m gs fuel ns unix in
  validConfig config = true → ed25519_pair kp →
  cc_trusted_service_keys config !! kid = Some (kp_public kp) → wrap 64 pid ≠ 0 →
  grantable (lk_connection link) config unix →
  start (sdkHandshake config) g = (Ok hello, h, g') →
  handleClientHello (newServerHandshake kid (kp_private kp) 1 1) hello gs
  = Done (Ok shello, s1, gs1) →
  create fuel m gs1 (ls_product_id license) peer (ls_features license) (ls_expire_time license)
    (Z.div ns 1000000) (ls_max_sessions license) = Done (Ok s, m', gs2) →
  ∃ i' c' h', initialize newClientImpl link g pid config
    = Done (Ok (), i', link_with link c' m' gs2 [], g')
    ∧ ci_snapshot i' = mkSdkSnapshot ClientState.Valid (ls_features license)
                         (ls_expire_time license)
    ∧ ci_session_id i' = se_id s ∧ m !! se_id s = None ∧ m' = <[se_id s := s]> m
    ∧ cn_state c' = ConnectionState.Active ∧ cn_session c' = Some s
    ∧ ci_handshake i' = Some h' ∧ linked h' (cn_handshake c').
Proof.
  intros link Hcfg Hkp Htr Hpid Hgr Hst Hch Hcr.
  destruct (hello_sizes _ _ _ _ _ _ _ _ _ _ _ Hst Hch) as [[Hoh Hzh] [Hosh Hzsh]].
  pose proof (sdkHandshake_typed config) as Ht.
  destruct (honest_run _ _ _ _ _ (newServerHandshake kid (kp_private kp) 1 1) _ _ _ _ kp Ht ltac:(cbn; lia) ltac:(unfold in_width; cbn -[Z.pow]; lia) Hkp
    eq_refl Htr Hst Hch) as (fin & h1 & s2 & Hsh & Hcf & Hes & Hss & Hv & Hsv & Hl & Hw & Hsw).
  pose proof (link_handshake config (sdkHandshake config) link g hello h g' shello s1 gs1 fin h1 s2
    Hst Hoh Hzh eq_refl eq_refl Hch Hosh Hzsh Hsh Hcf) as Hex.
  set (c1 := with_state (with_handshake (lk_connection link) s2) ConnectionState.AwaitingAuthorize) in *.
  assert (conn_inv c1) as Hc1.
  { split; [|done]. apply (server_reachable_inv kid (kp_private kp) 1 1).
    eapply rtc_l; [by eapply SClientHello|]. eapply rtc_l; [by eapply SClientFinished|]. apply rtc_refl. }
  destruct (newClient_started_inv _ _ _ _ _ _ _ _ Hst Hsh) as [Hci _].
  assert (str_empty (cc_product_id config) = false) as Hpe
    by (revert Hcfg; unfold validConfig; by destruct (str_empty (cc_product_id config))).
  destruct (link_authorization config pid h1 (link_with link c1 m gs1 []) s m' gs2)
    as (h' & c' & Hau & Hact & Hses & Hl'); try done.
  { cbn. rewrite Hsv. exact Hv. } { by destruct Hgr. }
  destruct (create_Ok _ _ _ _ _ _ _ _ _ _ _ _ Hcr) as [Hfr _ Hse Hm' _ _ _].
  eexists _, c', h'. split.
  - unfold initialize. rewrite Hcfg. cbn [newClientImpl ci_snapshot sn_state].
    rewrite bool_decide_eq_true_2 by done. cbn [negb tr_connect link_transport].
    unfold status_ok. rewrite bool_decide_eq_true_2 by done. cbn [negb].
    fold (sdkHandshake config). rewrite Hex. cbn [mbind exec_bind].
    change (lk_sessions link) with m. rewrite Hau. reflexivity.
  - split_and!; try done. cbn. by rewrite Hse.
Qed.
End Authorized.

(** ** A concrete client and service *)

Section Witnesses.
#[local] Existing Instance toy_crypto.
#[local] Existing Instance toy_buffers.

Definition sdk_config : ClientConfig :=
  mkClientConfig "demo" defaultEndpoint {["svc" := kp_public service_pair]} 5000 5000.

Definition run_service_v1 : ServerHandshake := newServerHandshake "svc" (kp_private service_pair) 1 1.

Definition demo_link : Link :=
  freshLink "svc" service_pair demo_license "uid=1;gid=1;pid=7" 30000 90000 ∅ (run_rng 22) 1
    10000000 1500.

Definition sdk_state := (result SdkFailure () * ClientImpl * Link * @cr_rng toy_crypto)%type.
Definition sdk_done (x : exec sdk_state) : sdk_state :=
  match x with
  | Done a => a
  | _ => (Err (mkSdkFailure ClientError.Protocol ""), newClientImpl, demo_link, run_rng 11)
  end.

Definition demo_client : sdk_state := Eval vm_compute in
  sdk_done (initialize newClientImpl demo_link (run_rng 11) 77 sdk_config).

Lemma demo_client_initialized :
  initialize newClientImpl demo_link (run_rng 11) 77 sdk_config
  = Done (Ok (), demo_client.1.1.2, demo_client.1.2, demo_client.2).
Proof. vm_compute. reflexivity. Qed.

Lemma demo_client_run :
  rtc client_run_step (newClientImpl, demo_link) (demo_client.1.1.2, demo_client.1.2).
Proof. eapply rtc_l; [exact (RunInitialize _ _ _ _ _ _ _ _ _ demo_client_initialized)|]. apply rtc_refl. Qed.



(** The handshake of the initialized client, and its first heartbeat. *)
Definition demo_handshake : ClientHandshake := Eval vm_compute in
  default run_client (ci_handshake demo_client.1.1.2).
Definition beat_state := (bool * ClientImpl * Link)%type.
Definition beat_done (x : exec beat_state) : beat_state :=
  match x with Done a => a | _ => (false, newClientImpl, demo_link) end.
Definition demo_beat : beat_state := Eval vm_compute in
  beat_done (heartbeatIteration demo_client.1.1.2 demo_handshake demo_client.1.2).

Lemma demo_beat_done :
  heartbeatIteration demo_client.1.1.2 demo_handshake demo_client.1.2
  = Done (true, demo_beat.1.2, demo_beat.2).
Proof. vm_compute. reflexivity. Qed.


Lemma initialize_once_witness :
  initialize demo_client.1.1.2 demo_client.1.2 (run_rng 5) 78 sdk_config
  = Done (Err (mkSdkFailure ClientError.AlreadyInitialized "client is already initialized"),
          demo_client.1.1.2, demo_client.1.2, run_rng 5).
Proof.
  exact (initialize_once _ _ _ _ _ _ _ _ _ _ _ (run_rng 5) 78 sdk_config demo_client_initialized
    (rtc_refl _ _)).
Defined.

Lemma shutdown_is_final_witness :
  hasFeature (shutdown demo_client.1.1.2 demo_client.1.2).1 "export" = false.
Proof.
  exact (proj2 (shutdown_is_final demo_client.1.1.2 demo_client.1.2 _ (rtc_refl _ _)) "export").
Defined.

(** The messages and states of the same run. *)
Definition e2e_hello : bytes * ClientHandshake * cr_rng := Eval vm_compute in
  match start (sdkHandshake sdk_config) (run_rng 11) with
  | (Ok h, c, g) => (h, c, g) | (Err _, c, g) => ([], c, g)
  end.
Definition e2e_answer : bytes * ServerHandshake * cr_rng := Eval vm_compute in
  match handleClientHello run_service_v1 e2e_hello.1.1 (run_rng 22) with
  | Done (Ok h, s, g) => (h, s, g) | _ => ([], run_service, run_rng 22)
  end.
Definition created_state := (result ErrorCode Session * SessionManager * @cr_rng toy_crypto)%type.
Definition created_done (x : exec created_state) : created_state :=
  match x with Done a => a | _ => (Err ErrorCode.InternalError, ∅, run_rng 22) end.
Definition e2e_created : created_state := Eval vm_compute in
  created_done (create 1 ∅ e2e_answer.2 "demo" "uid=1;gid=1;pid=7" ["export"] 2000 10 1).
Definition e2e_session : Session := Eval vm_compute in
  match e2e_created.1.1 with Ok s => s | Err _ => mkSession [] "" "" [] 0 0 end.

Lemma e2e_started :
  start (sdkHandshake sdk_config) (run_rng 11) = (Ok e2e_hello.1.1, e2e_hello.1.2, e2e_hello.2).
Proof. vm_compute. reflexivity. Qed.
Lemma e2e_answered :
  handleClientHello run_service_v1 e2e_hello.1.1 (run_rng 22)
  = Done (Ok e2e_answer.1.1, e2e_answer.1.2, e2e_answer.2).
Proof. vm_compute. reflexivity. Qed.
Lemma e2e_create :
  create 1 ∅ e2e_answer.2 "demo" "uid=1;gid=1;pid=7" ["export"] 2000 (Z.div 10000000 1000000) 1
  = Done (Ok e2e_session, e2e_created.1.2, e2e_created.2).
Proof. vm_compute. reflexivity. Qed.
Lemma e2e_grantable : grantable (lk_connection demo_link) sdk_config 1500.
Proof.
  split; try (vm_compute; reflexivity); cbn -[Z.pow]; unfold in_width; try lia.
  vm_compute. discriminate.
Qed.

Lemma authorized_end_to_end_witness :
  ∃ i' c' h', initialize newClientImpl demo_link (run_rng 11) 77 sdk_config
    = Done (Ok (), i', link_with demo_link c' e2e_created.1.2 e2e_created.2 [], e2e_hello.2)
    ∧ ci_snapshot i' = mkSdkSnapshot ClientState.Valid ["export"] 2000
    ∧ ci_session_id i' = se_id e2e_session ∧ (∅ : SessionManager) !! se_id e2e_session = None
    ∧ e2e_created.1.2 = <[se_id e2e_session := e2e_session]> ∅
    ∧ cn_state c' = ConnectionState.Active ∧ cn_session c' = Some e2e_session
    ∧ ci_handshake i' = Some h' ∧ linked h' (cn_handshake c').
Proof.
  assert (cc_trusted_service_keys sdk_config !! "svc" = Some (kp_public service_pair)) as Ht
    by (vm_compute; reflexivity).
  assert (wrap 64 77 ≠ 0) as Hp by (vm_compute; discriminate).
  exact (authorized_end_to_end sdk_config "svc" service_pair demo_license "uid=1;gid=1;pid=7" 30000
    90000 ∅ (run_rng 22) 1 10000000 1500 (run_rng 11) _ _ _ _ _ _ _ _ _ 77
    ltac:(vm_compute; reflexivity) service_pair_generated Ht Hp e2e_grantable e2e_started
    e2e_answered e2e_create).
Defined.
End Witnesses.
