(* ===== verification/Generator.v ===== *)
(** * Generator: the license generator's command line

    Models [tools/license_generator/main.cpp]: [keygen] and [issue], with the
    files they read ([Disk], see [Files.v]) and the files they create
    ([Store]).  [WriteOracle] says what the kernel answers while one file is
    written; the mode is the one passed to [open] (the umask may take rights
    away).  Wiping of key variables is not observable. *)

From stdpp Require Import pretty.
From S2P Require Import Prelude Text CryptoApi ToySsl FlatBuf ToyBuf Status License Issuer Files.

Record StoredFile := mkStoredFile { fl_mode : Z; fl_contents : bytes }.
Abbreviation Store := (gmap string StoredFile).

Inductive WriteEvent := Wrote (count : Z) | WriteFailed (interrupted : bool).

Record WriteOracle := mkWriteOracle {
  wo_open : bool;
  wo_writes : list WriteEvent;
  wo_fsync : bool;
  wo_close : bool;
}.

Module Generator.
(** The loop of [writeNewFile]: the bytes in the file and whether all were
    written.  After the listed events a [write] takes all that is left. *)
Fixpoint writeLoop (bs : bytes) (offset : Z) (events : list WriteEvent) : bytes * bool :=
  if offset <? zlen bs
  then
    match events with
    | [] => (bs, true)
    | WriteFailed interrupted :: events' =>
        if interrupted then writeLoop bs offset events' else (take (Z.to_nat offset) bs, false)
    | Wrote count :: events' =>
        if count <=? 0 then (take (Z.to_nat offset) bs, false)
        else writeLoop bs (offset + Z.min count (zlen bs - offset)) events'
    end
  else (take (Z.to_nat offset) bs, true).

Definition writeNewFile (o : WriteOracle) (store : Store) (path : string) (bs : bytes) (mode : Z)
  : bool * Store :=
  if negb (wo_open o) || bool_decide (is_Some (store !! path)) then (false, store)
  else
  let '(contents, written) := writeLoop bs 0 (wo_writes o) in
  let store := <[path := mkStoredFile mode contents]> store in
  if negb written then (false, delete path store)
  else
  let success := wo_fsync o && wo_close o in
  (success, if success then store else delete path store).

Definition readPrivateKey (disk : Disk) (path : string) : result CryptoError bytes :=
  match disk path with
  | FileOpened (Some info) reads =>
      if negb (st_regular info) || negb (Z.land (st_mode info) groupOrOther =? 0)
         || negb (st_size info =? kKeySize)
      then Err CryptoError.InvalidInput
      else require (readFully true kKeySize reads []) CryptoError.InvalidInput
  | _ => Err CryptoError.InvalidInput
  end.

(** ['0'..'9'] *)
Definition isDigit (c : Z) : bool := (48 <=? c) && (c <=? 57).

(** [std::from_chars] for an unsigned [w]-bit type, after [seen] digits: the
    value and where it stopped; [None] is an error code. *)
Fixpoint fromChars (w value : Z) (seen : bool) (text : bytes) : option (Z * bytes) :=
  match text with
  | c :: text' =>
      if isDigit c
      then
        let value := value * 10 + (c - 48) in
        if 2 ^ w <=? value then None else fromChars w value true text'
      else if seen then Some (value, text) else None
  | [] => if seen then Some (value, []) else None
  end.

(** The type [T] of the number is given by its width. *)
Definition parseNumber (w : Z) (text : string) : option Z :=
  match fromChars w 0 false (string_bytes text) with
  | Some (value, []) => Some value
  | _ => None
  end.

(** [argv[i]] for [i < argc]. *)
Definition arg (argv : list string) (i : nat) : string := default "" (argv !! i).

Section Commands.
Context {C : CryptoApi} {L : LicenseBuffers}.

(** The exit status, the files, the generator. *)
Definition keygen (o1 o2 : WriteOracle) (store : Store) (g : cr_rng) (argv : list string)
  : Z * Store * cr_rng :=
  if negb (zlen argv =? 4) then (2, store, g)
  else
  match cr_generateEd25519KeyPair g with
  | (Err _, g) => (1, store, g)
  | (Ok keys, g) =>
      match writeNewFile o1 store (arg argv 2) (kp_private keys) 384 with
      | (false, store) => (1, store, g)
      | (true, store) =>
          match writeNewFile o2 store (arg argv 3) (kp_public keys) 420 with
          | (false, store) => (1, delete (arg argv 2) store, g)
          | (true, store) => (0, store, g)
          end
      end
  end.

(** The definition that [issue] builds. *)
Definition issueDefinition (argv : list string) (now validity_seconds max_sessions : Z)
  : LicenseDefinition :=
  {| ld_key_id := arg argv 3; ld_license_id := arg argv 5; ld_product_id := arg argv 6;
     ld_customer_id := arg argv 7; ld_issue_time := now; ld_not_before := now;
     ld_expire_time := if validity_seconds =? 0 then 0 else wrap 64 (now + validity_seconds);
     ld_features := drop 10 argv; ld_max_sessions := max_sessions; ld_machine_id := "" |}.

(** [now] is [std::time(nullptr)]. *)
Definition issue (disk : Disk) (o : WriteOracle) (store : Store) (now : Z) (argv : list string)
  : Z * Store :=
  if zlen argv <? 10 then (2, store)
  else
  match parseNumber 64 (arg argv 8), parseNumber 32 (arg argv 9) with
  | Some validity_seconds, Some max_sessions =>
      if max_sessions =? 0 then (2, store)
      else
      match readPrivateKey disk (arg argv 2) with
      | Err _ => (1, store)
      | Ok private_key =>
          let definition := issueDefinition argv (wrap 64 now) validity_seconds max_sessions in
          match Issuer.issueLicense definition private_key with
          | Err _ => (1, store)
          | Ok package =>
              match writeNewFile o store (arg argv 4) package 420 with
              | (false, store) => (1, store)
              | (true, store) => (0, store)
              end
          end
      end
  | _, _ => (2, store)
  end.

Definition main (disk : Disk) (o1 o2 : WriteOracle) (store : Store) (g : cr_rng) (now : Z)
    (argv : list string) : Z * Store * cr_rng :=
  if (2 <=? zlen argv) && String.eqb (arg argv 1) "keygen" then keygen o1 o2 store g argv
  else if (2 <=? zlen argv) && String.eqb (arg argv 1) "issue"
  then let '(r, store) := issue disk o1 store now argv in (r, store, g)
  else (2, store, g).
End Commands.
End Generator.
Import Generator.

(** ** Numbers *)

Lemma digits_fold_mono bs a b :
  a <= b → Forall (fun c => isDigit c = true) bs → 0 <= a →
  a <= fold_left (fun v c => v * 10 + (c - 48)) bs b.
Proof.
  revert b. induction bs as [|c bs IH]; intros b Hab Hf Ha; [done|]. cbn.
  apply Forall_cons in Hf as [Hc Hf]. unfold isDigit in Hc. reflect_bools. apply IH; (done || lia).
Qed.

Lemma fromChars_all w value seen text v :
  0 <= value < 2 ^ w →
  fromChars w value seen text = Some (v, []) ↔
  Forall (fun c => isDigit c = true) text ∧ (text ≠ [] ∨ seen = true)
  ∧ v = fold_left (fun v c => v * 10 + (c - 48)) text value ∧ v < 2 ^ w.
Proof.
  revert value seen. induction text as [|c text IH]; intros value seen Hv; cbn.
  { destruct seen; split; [intros [= <-]; split_and!; (done || lia || auto)| |done|naive_solver].
    by intros (_ & _ & -> & _). }
  destruct (isDigit c) eqn:Ed.
  - assert (0 <= value * 10 + (c - 48)) by (unfold isDigit in Ed; reflect_bools; lia).
    destruct (Z.leb_spec (2 ^ w) (value * 10 + (c - 48))).
    + split; [done|]. intros (Hf & _ & -> & Hlt). apply Forall_cons in Hf as [_ Hf].
      pose proof (digits_fold_mono text _ _ (Z.le_refl (value * 10 + (c - 48))) Hf ltac:(lia)). lia.
    + rewrite IH by lia. rewrite Forall_cons. naive_solver.
  - split; [by destruct seen|]. intros (Hf & _). apply Forall_cons in Hf as [Hc _]. congruence.
Qed.

Lemma parseNumber_fromChars w text v :
  parseNumber w text = Some v ↔ fromChars w 0 false (string_bytes text) = Some (v, []).
Proof.
  unfold parseNumber. destruct (fromChars _ _ _ _) as [[x [|? ?]]|]; naive_solver.
Qed.

(** Numbers on the command line are taken literally or not at all: a text
    is accepted exactly when it is a non-empty string of decimal digits whose
    value fits the type, and that value is returned (no sign, no blanks, no
    trailing characters, no wrap-around). *)
Theorem parseNumber_exact w text v :
  0 <= w →
  parseNumber w text = Some v ↔
  text ≠ "" ∧ Forall (fun c => isDigit c = true) (string_bytes text)
  ∧ v = digits_value (string_bytes text) ∧ v < 2 ^ w.
Proof.
  intros Hw. rewrite parseNumber_fromChars, fromChars_all; [|split; [done|by apply Z.pow_pos_nonneg]].
  unfold digits_value. assert (text ≠ "" ↔ string_bytes text ≠ []) as -> by (by destruct text).
  naive_solver.
Qed.

(** ** Files *)

Lemma writeLoop_written bs offset events contents :
  0 <= offset <= zlen bs → writeLoop bs offset events = (contents, true) → contents = bs.
Proof.
  revert offset. induction events as [|e events IH]; intros offset Ho; cbn;
    (destruct (Z.ltb_spec offset (zlen bs)) as [Hl|Hl];
     [|intros [= <-]; apply take_ge; unfold zlen in *; lia]); [congruence|].
  destruct e as [count|interrupted].
  - destruct (Z.leb_spec count 0); [done|]. apply IH. lia.
  - destruct interrupted; [by apply IH|done].
Qed.

Lemma writeNewFile_outcome o store path bs mode :
  let '(success, store') := writeNewFile o store path bs mode in
  if success then store !! path = None ∧ store' = <[path := mkStoredFile mode bs]> store
  else store' = store.
Proof.
  unfold writeNewFile. destruct (negb _ || _) eqn:E; [done|]. reflect_bools.
  assert (store !! path = None) as Hn by (by apply eq_None_not_Some).
  destruct (writeLoop bs 0 (wo_writes o)) as [contents written] eqn:Ew.
  destruct written; cbn; [|by rewrite delete_insert_id].
  apply writeLoop_written in Ew as ->; [|pose proof (zlen_nonneg bs); lia].
  destruct (wo_fsync o && wo_close o); [done|]. by rewrite delete_insert_id.
Qed.

(** A file is created completely or not at all: on success the path was
    free and holds exactly the given bytes with the given mode, on any failure
    (existing file, failed or short write, failed flush or close) nothing has
    changed; in particular no existing file is ever overwritten. *)
Theorem writeNewFile_all_or_nothing o store path bs mode :
  let '(success, store') := writeNewFile o store path bs mode in
  if success then store !! path = None ∧ store' = <[path := mkStoredFile mode bs]> store
  else store' = store.
Proof. apply writeNewFile_outcome. Qed.

(** ** Commands *)

Section CommandFacts.
Context {C : CryptoApi} {L : LicenseBuffers}.

(** [keygen] creates both key files of one fresh pair or none: on exit
    status 0 the private key is in a file that only its owner may read and
    write and the public key of the same pair in the other file; on any other
    status no file has been left behind. *)
Theorem keygen_all_or_nothing o1 o2 store g argv r store' g' :
  keygen o1 o2 store g argv = (r, store', g') →
  if r =? 0
  then ∃ keys, cr_generateEd25519KeyPair g = (Ok keys, g') ∧ zlen argv = 4
       ∧ store' = <[arg argv 3 := mkStoredFile 420 (kp_public keys)]>
                    (<[arg argv 2 := mkStoredFile 384 (kp_private keys)]> store)
       ∧ arg argv 2 ≠ arg argv 3 ∧ store !! arg argv 2 = None ∧ store !! arg argv 3 = None
  else store' = store.
Proof.
  unfold keygen. destruct (negb (zlen argv =? 4)) eqn:En; [by intros [= <- <- <-]|].
  destruct (cr_generateEd25519KeyPair g) as [[keys|] g1]; [|by intros [= <- <- <-]].
  pose proof (writeNewFile_outcome o1 store (arg argv 2) (kp_private keys) 384) as H1.
  destruct (writeNewFile o1 store _ _ _) as [[|] store1]; [|intros [= <- <- <-]; done].
  destruct H1 as [Hn1 ->].
  pose proof (writeNewFile_outcome o2 (<[arg argv 2 := mkStoredFile 384 (kp_private keys)]> store)
    (arg argv 3) (kp_public keys) 420) as H2.
  destruct (writeNewFile o2 _ _ _ _) as [[|] store2]; intros [= <- <- <-]; cbn.
  - destruct H2 as [Hn2 ->]. apply lookup_insert_None in Hn2 as [Hn2 Hne]. reflect_bools.
    exists keys. split_and!; done.
  - subst store2. by rewrite delete_insert_id.
Qed.

Lemma issue_Ok disk o store now argv store' :
  issue disk o store now argv = (0, store') →
  ∃ validity sessions key package,
    parseNumber 64 (arg argv 8) = Some validity ∧ parseNumber 32 (arg argv 9) = Some sessions
    ∧ readPrivateKey disk (arg argv 2) = Ok key
    ∧ Issuer.issueLicense (issueDefinition argv (wrap 64 now) validity sessions) key = Ok package
    ∧ store !! arg argv 4 = None ∧ store' = <[arg argv 4 := mkStoredFile 420 package]> store.
Proof.
  unfold issue. destruct (_ <? _); [done|].
  destruct (parseNumber 64 _) as [validity|]; [|done].
  destruct (parseNumber 32 _) as [sessions|]; [|done]. destruct (_ =? 0); [done|].
  destruct (readPrivateKey _ _) as [key|]; [|done].
  destruct (Issuer.issueLicense _ _) as [package|] eqn:Ei; [|done].
  pose proof (writeNewFile_outcome o store (arg argv 4) package 420) as H.
  destruct (writeNewFile _ _ _ _ _) as [[|] store1]; [|done]. intros [= <-].
  destruct H as [Hn ->]. by exists validity, sessions, key, package.
Qed.

Context {CL : CryptoLaws C} {CA : CryptoAvailable C} {LL : LicenseBuffersLaws L}.

Lemma parseNumber_width w text v : 0 <= w → parseNumber w text = Some v → in_width w v.
Proof.
  intros Hw. rewrite parseNumber_fromChars, fromChars_all; [|split; [done|by apply Z.pow_pos_nonneg]].
  intros (Hf & _ & -> & Hl). split; [|done]. by apply digits_fold_mono.
Qed.

Lemma issueDefinition_issuable argv now validity sessions :
  in_width 32 sessions → issuable (issueDefinition argv (wrap 64 now) validity sessions).
Proof.
  intros Hs. split; [|done]. split_and!; cbn; try (apply wrap_in_width; lia); [|done].
  destruct (validity =? 0); [unfold in_width; lia|apply wrap_in_width; lia].
Qed.

(** What [issue] writes is a license that works exactly as long as asked:
    after exit status 0 the output file (which did not exist) holds a package
    that a validator trusting the key accepts for the named product, on any
    machine, from the time of issue until the validity has passed (for ever if
    it is 0), as long as that end does not exceed the 64-bit clock. *)
Theorem issue_validity disk o store now argv store' kp :
  ed25519_pair kp → readPrivateKey disk (arg argv 2) = Ok (kp_private kp) →
  issue disk o store now argv = (0, store') → in_width 64 now →
  ∃ validity package,
    parseNumber 64 (arg argv 8) = Some validity
    ∧ store !! arg argv 4 = None ∧ store' !! arg argv 4 = Some (mkStoredFile 420 package)
    ∧ (now + validity < 2 ^ 64 → ∀ trusted mach t,
         trusted !! arg argv 3 = Some (kp_public kp) →
         is_ok (validate (mkLicenseValidator trusted) package (arg argv 6) mach t) = true
         ↔ now <= t ∧ (validity = 0 ∨ t < now + validity)).
Proof.
  intros Hkp Hk (validity & sessions & key & package & Hv & Hm & Hkey & Hi & Hn & ->)%issue_Ok Hnow.
  rewrite Hk in Hkey. injection Hkey as <-. exists validity, package. split_and!; try done.
  { by simplify_map_eq. }
  intros Hov trusted mach t Ht. apply (parseNumber_width 32) in Hm; [|lia].
  apply (parseNumber_width 64) in Hv; [|lia].
  pose proof (issueDefinition_issuable argv now validity sessions Hm) as His.
  destruct (issueLicense_authentic kp _ package trusted CL CA Hkp His Hi Ht) as (Ha & Hpv & Hs).
  rewrite (validate_authentic _ _ _ _ _ _ Ha), (validatePayload_outcome _ _ _ _ _ Hpv Hs).
  rewrite is_ok_true. rewrite (wrap_small 64 now) in * by done. unfold in_width in *. split.
  - intros [s [_ (_ & Hnb & Hex & _)]%outcome_Ok]. cbn in Hnb, Hex. split; [done|].
    destruct (Z.eqb_spec validity 0) as [->|Hne]; [by left|right].
    rewrite (wrap_small 64 (now + validity)) in Hex by (unfold in_width; lia).
    destruct (Z.eqb_spec (now + validity) 0); [lia|]. apply Hex. done.
  - intros [Hnb Hv']. eexists. apply outcome_Ok. split; [done|]. split_and!; try done; cbn.
    destruct (Z.eqb_spec validity 0) as [->|Hne]; [done|].
    rewrite (wrap_small 64 (now + validity)) by (unfold in_width; lia).
    destruct (Z.eqb_spec (now + validity) 0); [done|]. intros _. destruct Hv' as [?|?]; [lia|done].
Qed.

(** The end of the validity is computed modulo [2^64] without a check: a
    validity that reaches exactly the end of the clock yields a license that
    never expires. *)
Theorem issue_validity_wraps disk o store now argv store' kp validity :
  ed25519_pair kp → readPrivateKey disk (arg argv 2) = Ok (kp_private kp) →
  issue disk o store now argv = (0, store') → in_width 64 now →
  parseNumber 64 (arg argv 8) = Some validity → now + validity = 2 ^ 64 →
  ∃ package, store' !! arg argv 4 = Some (mkStoredFile 420 package)
    ∧ ∀ trusted mach t, trusted !! arg argv 3 = Some (kp_public kp) →
        is_ok (validate (mkLicenseValidator trusted) package (arg argv 6) mach t) = true ↔ now <= t.
Proof.
  intros Hkp Hk (v' & sessions & key & package & Hv & Hm & Hkey & Hi & Hn & ->)%issue_Ok Hnow Hv' Hw.
  rewrite Hk in Hkey. injection Hkey as <-. assert (v' = validity) as -> by congruence.
  exists package. split; [by simplify_map_eq|]. intros trusted mach t Ht.
  apply (parseNumber_width 32) in Hm; [|lia].
  pose proof (issueDefinition_issuable argv now validity sessions Hm) as His.
  destruct (issueLicense_authentic kp _ package trusted CL CA Hkp His Hi Ht) as (Ha & Hpv & Hs).
  rewrite (validate_authentic _ _ _ _ _ _ Ha), (validatePayload_outcome _ _ _ _ _ Hpv Hs).
  rewrite is_ok_true. rewrite (wrap_small 64 now) in * by done.
  assert (ld_expire_time (issueDefinition argv now validity sessions) = 0) as He.
  { cbn. rewrite Hw. unfold wrap. rewrite Z_mod_same_full. by destruct (validity =? 0). }
  split.
  - intros [s [_ (_ & Hnb & _)]%outcome_Ok]. done.
  - intros Hnb. eexists. apply outcome_Ok. split; [done|]. split_and!; try done.
    cbn -[issueDefinition]. by rewrite He.
Qed.
End CommandFacts.

(** ** A concrete run *)

Section Witnesses.
#[local] Existing Instance toy_crypto.
#[local] Existing Instance toy_licenses.

Definition key_disk (path : string) : FileOutcome :=
  if String.eqb path "/k/vendor"
  then FileOpened (Some (mkFileStat true 384 32)) [ReadFailed true; ReadBytes (kp_private sample_signer)]
  else FileError false.

Definition smooth : WriteOracle := mkWriteOracle true [Wrote 5; WriteFailed true] true true.

Definition issue_args (validity : string) : list string :=
  ["gen"; "issue"; "/k/vendor"; "vendor-1"; "/out/demo.lic"; "L-1"; "demo"; "acme"; validity; "2";
   "export"].

Lemma parseNumber_exact_witness :
  parseNumber 16 "00042" = Some 42 ∧ "00042" ≠ "" ∧ 42 < 2 ^ 16.
Proof.
  assert (parseNumber 16 "00042" = Some 42) as H by (vm_compute; reflexivity).
  split; [exact H|]. destruct (proj1 (parseNumber_exact 16 "00042" 42 ltac:(lia)) H) as (Hn & _ & _ & Hl).
  split; [exact Hn|exact Hl].
Defined.

Lemma keygen_all_or_nothing_witness :
  ∃ store' g', keygen smooth smooth ∅ (7 : @cr_rng toy_crypto) ["gen"; "keygen"; "/k/a"; "/k/b"]
    = (0, store', g') ∧ ∃ keys, store' = <["/k/b" := mkStoredFile 420 (kp_public keys)]>
                                          (<["/k/a" := mkStoredFile 384 (kp_private keys)]> ∅).
Proof.
  destruct (keygen smooth smooth ∅ (7 : @cr_rng toy_crypto) ["gen"; "keygen"; "/k/a"; "/k/b"])
    as [[r store'] g'] eqn:E.
  pose proof (keygen_all_or_nothing smooth smooth ∅ _ _ _ _ _ E) as H.
  assert (r = 0) as Hr by (apply (f_equal (fun x => x.1.1)) in E; vm_compute in E; symmetry; exact E).
  subst r. destruct H as (keys & _ & _ & Hs & _).
  exists store', g'. split; [reflexivity|]. exists keys. exact Hs.
Defined.

Definition issued_store (validity : string) : Store :=
  (issue key_disk smooth ∅ 1000 (issue_args validity)).2.

Lemma issued_1000 : issue key_disk smooth ∅ 1000 (issue_args "1000") = (0, issued_store "1000").
Proof. vm_compute. reflexivity. Qed.
Lemma issued_wrap :
  issue key_disk smooth ∅ 1000 (issue_args "18446744073709550616")
  = (0, issued_store "18446744073709550616").
Proof. vm_compute. reflexivity. Qed.
Lemma key_disk_key validity :
  readPrivateKey key_disk (arg (issue_args validity) 2) = Ok (kp_private sample_signer).
Proof. vm_compute. reflexivity. Qed.
Lemma issue_time : in_width 64 1000.
Proof. unfold in_width. lia. Qed.

Lemma issue_validity_witness :
  ∃ package, issued_store "1000" !! "/out/demo.lic" = Some (mkStoredFile 420 package)
    ∧ (is_ok (validate sample_validator package "demo" "any" 1999) = true
       ↔ 1000 <= 1999 ∧ (1000 = 0 ∨ 1999 < 1000 + 1000)).
Proof.
  destruct (issue_validity key_disk smooth ∅ 1000 (issue_args "1000") _ sample_signer
    sample_signer_pair (key_disk_key "1000") issued_1000 issue_time)
    as (validity & package & Hv & _ & Hs & Ht).
  assert (validity = 1000) as Hv' by (vm_compute in Hv; congruence). subst validity.
  exists package. split; [exact Hs|].
  exact (Ht ltac:(lia) {["vendor-1" := kp_public sample_signer]} "any" 1999 eq_refl).
Defined.

Lemma issue_validity_wraps_witness :
  ∃ package, issued_store "18446744073709550616" !! "/out/demo.lic" = Some (mkStoredFile 420 package)
    ∧ (is_ok (validate sample_validator package "demo" "any" 99999999999) = true
       ↔ 1000 <= 99999999999).
Proof.
  destruct (issue_validity_wraps key_disk smooth ∅ 1000 (issue_args "18446744073709550616") _
    sample_signer 18446744073709550616 sample_signer_pair (key_disk_key "18446744073709550616")
    issued_wrap issue_time ltac:(vm_compute; reflexivity) ltac:(lia)) as (package & Hs & Ht).
  exists package. split; [exact Hs|].
  exact (Ht {["vendor-1" := kp_public sample_signer]} "any" 99999999999 eq_refl).
Defined.
End Witnesses.
